(* ===== verification/_CoqProject ===== *)
-Q . S2P
Prelude.v
GoStd.v
GoTime.v
Effects.v
Backend.v
Ids.v
Metrics.v
Session.v
SessionFacts.v
SessionSys.v
SessionSched.v
SessionInv.v
SessionProps.v
SessionRefresh.v
SessionSpec.v
SessionMetrics.v
SessionClient.v
SessionLive.v
SessionFair.v
Identify.v
IdentifyFacts.v
IdentifyRelist.v
Proxy.v
ProxyFacts.v
ProxyProps.v
Tunnel.v
TunnelFacts.v
TunnelProps.v
Compose.v
Config.v
Kube.v
SandboxClaim.v
Isola.v
KarsSandbox.v
Delays.v
Store.v
Cluster.v
Restart.v
AteApi.v
Substrate.v
SubstrateFacts.v
SubstrateStore.v
Backends.v
Deployed.v
Race.v
Orphans.v
EndToEnd.v
Provision.v
Main.v
Lifetime.v
LifetimeFacts.v
LifetimeInv.v
LifetimeProps.v
LifetimeLive.v
Tests.v
