(* ===== verification/Prelude.v ===== *)
(** * The Playwright sandbox proxy: a verification library

    The repository is a Go program, [cmd/playwright-proxy], that stands between browser
    clients in a Kubernetes cluster and the browser sandboxes it provisions for them.  A
    client is known by the label of its pod: the proxy resolves the source address of a
    request to a playwright-id, gets the session of that id, which makes a backend provision
    a sandbox when there is none, and forwards the HTTP request or the WebSocket to it.
    Sessions that stay idle are reaped, broken ones are refreshed, and a restarted proxy
    adopts the sandboxes it finds.

    ** Parts, files and sources

    Source paths are under [src/]; definitions keep the names of the Go code.

    - [Prelude] (this file): results, world-passing effects ([IO], [wp], [triple]), integers of
      a machine width ([wrap64], [sat64]), lists, hints ([go]) and tactics.
    - [GoStd], [GoTime]: what the source uses of Go's library: errors with their chains
      ([errors.Is], [errors.As], [%w]), contexts with deadlines, [strconv], [strings],
      [net.SplitHostPort], header maps, [time.ParseDuration] with its overflows.
    - [Effects]: programs over a signature of calls.  [environment] answers a call from all
      that was called before, so a theorem for every environment is one for every behaviour
      of the outside world; [adds] states what a program appends to the history and [lawful]
      that each of its calls was permitted by the answers before it.
    - [Backend] ([internal/backend/backend.go]): the endpoint, its dial addresses, the
      interface of the backends (a class).
    - [Metrics] ([internal/metrics/metrics.go]): the collectors and methods, as a log of
      operations of the Prometheus client.
    - The session manager ([internal/session/session.go]).  [Session] holds the state (heap of
      sessions, the map, cooldowns, clock) and every method as a program of critical
      sections, selects and backend calls.  [SessionSys] runs any number of such programs
      under any interleaving ([gstep]: goroutines step, start, time passes, contexts end)
      and gives each its control points; [SessionSched] is an executable scheduler for it;
      [SessionFacts] has the idle scan, [SessionInv] the invariant and its preservation by
      every step, [SessionProps] safety, [SessionRefresh] what Refresh returns, [SessionLive]
      progress and Reconcile, [SessionFair] infinite fair runs, [SessionSpec] the abstract life
      cycle of an id, [SessionMetrics] the metrics of the manager, [SessionClient] what its
      callers may rely on.
    - The pod index ([internal/identify/identify.go]).  [Identify]: the handlers of the
      informer, the lookup with its poll of the API, the diagnostic claims with their timers;
      between any two critical sections others may act on the index.  [IdentifyFacts] and
      [IdentifyRelist]: its theorems.
    - The proxy ([internal/proxy/proxy.go]).  [Proxy]: the handlers, the retrying transport, the
      body buffering, the status recorder, the tunnel, and of [httputil.ReverseProxy] what
      they observe ([ReverseProxy_ServeHTTP], to which [httpProxy] gives the transport and the
      error handler); an attempt of the transport reads some of the body, and that is gone for
      the next one ([spent]); [ProxyFacts] headers and traces, [ProxyProps] the theorems.  [Tunnel] is the
      end of [handleWS] again, with its two copying goroutines running concurrently over the
      bytes of both connections; [TunnelFacts] its invariants, [TunnelProps] its theorems.
    - [Config] ([internal/config/config.go]): [FromEnv] and its errors.
    - The backends ([internal/backend/]).  [Kube]: dynamic objects, the calls of the API server,
      and as classes the accessors and the poller of apimachinery with their documented
      laws; [SandboxClaim], [Isola], [KarsSandbox]: the three custom-resource backends;
      [AteApi] and [Substrate], [SubstrateFacts]: the Control API messages and the backend
      that uses them.
    - [Ids]: servers that keep a state; the interface [KeepsIds] of a backend on such a server
      (each Ensure and Delete takes effect at one of its calls), and what follows from it for
      a caller who is alone ([IdSet]) and for callers whose calls interleave ([shares_ids]).
      [Delays]: the interface [ServesIds] of a backend on a server that takes its time, where
      an id is live or leaving and a failed call may have taken effect, with what follows for
      the same two ([IdServer], [accounts_ids]).  [Store]: what such a server keeps, and the
      fate of its entries.  [Cluster]: the API server and its objects, on which the three
      custom-resource backends are instances of both interfaces; [SubstrateStore]: the control
      plane, its actors and paged listings, with the Substrate backend; [Backends]: the
      theorems for all four.
    - [Compose], [EndToEnd], [Provision], [Restart], [Deployed], [Race], [Orphans]: the parts
      together (below).
    - [Main] ([cmd/playwright-proxy/main.go]): [run] as a program over its calls.  [Lifetime]:
      the goroutines of [run], its context and its HTTP servers with the concurrent manager,
      as one system that is played step by step; [LifetimeFacts] what a step changes,
      [LifetimeInv] the invariants, [LifetimeProps] and [LifetimeLive] the theorems.
    - [Tests]: the assertions of the repository's unit tests, evaluated on the definitions.

    ** How the parts are put together

    - A handler's Get, Refresh, MarkActive and connection counts are goroutines of
      [SessionSys]; [Compose.request_of] names them, and [Compose.realises] is a handler whose
      calls are answered by goroutines that have finished, by fields read through session
      pointers and by runs of [Identify.Lookup], while everything else of the manager runs.
      [SessionSys.gstep] assumes that only sessions handed out are refreshed or marked;
      [Compose.handler_obeys_manager] discharges that assumption.
    - [Deployed] is the manager and its server as one system: the Ensures and Deletes of
      goroutines are begun, served call by call and returned from between all other steps
      of [SessionSys.gstep], and so are executions of others ([foreign]): another replica of
      the proxy, someone who deletes a sandbox by hand, or a call of the manager that takes
      effect although its answer is an error.  [Race] plays such runs; [Orphans] keeps the
      books of the sandboxes.
    - [EndToEnd] puts handlers, index and lookups on top of [Deployed]: [EndToEnd.serves] is a
      handler whose calls are answered there, and the class [EndToEnd.Provides] is what it
      relies on from the backend; [Provision] has an instance for each of the four.
    - [Restart] runs Reconcile on what any backend with [IdSet] or [KeepsIds] lists.
    - [Lifetime] is the program around the manager: requests reach the manager while their
      connections are open, scans are those of the one loop, and the start-up order, the
      context and the shutdown are those of [run].  Its manager makes a run of
      [SessionSys.gstep], so what is proved of that holds of it.

    ** What the theorems show

    - Session manager: one Ensure of an id at a time ([ensure_singleflight]); no panic, no
      deadlock, and in a fair run every call returns ([fair_runs_finish]); a session leaves the
      map only resolved and for one of three reasons ([session_removal]); what Get and Refresh
      return ([get_outcome], [refresh_outcome]); each id goes through absent,
      pending, up or down ([lifecycle_refinement]); a dropped session never comes back
      ([dropped_for_good]); the scan takes exactly the idle ones ([reap_scan_correct]); the
      control points are the source's programs ([control_bisimulation]); its metrics are
      well typed and its counters exact.
    - Index: an address that is never taken while another pod has it, and whose pods keep it and
      a non-empty label until they leave the watch, maps exactly to the present labelled pod
      ([index_tracks_pods]), however the index was told ([relist_equivalent]); outside that
      scope it is wrong ([update_leaves_entry], [reused_address_misresolved]); a lookup is sound
      under any interference ([lookup_sound]); what a miss costs ([lookup_miss_cost]).
    - Proxy: whose sandbox is dialled and sent a request ([isolation]), at most one retry with
      the same body ([http_retries_once], [buffer_body_preserves]), what the client is sent and
      in which order ([http_relays]), connection counts around the copying and
      closed connections ([ws_accounting]), the one record of a request ([http_accounting]),
      rejections.
      A tunnel delivers what was sent, in order, and all of it when it ends cleanly
      ([tunnel_carries]), counts it ([tunnel_counts_bytes]) and ends ([tunnel_ends]).
    - Composed: every dial and request for a client is for an endpoint that an Ensure of the id
      on a pod with its address returned, with the sandbox of the id on the server
      ([end_to_end]); with SandboxClaims, for the address of a claim reported ready
      ([claims_end_to_end]); what a restart recovers after any interleaving
      of earlier calls ([restart_recovers]); the sandbox of a live session is on the server
      unless a Delete comes after its Ensure, of someone else or the reaper's of an earlier
      session ([live_sandbox]), which [live_sandbox_witness] shows happening; and a sandbox
      on the server has a session, or one is being made, or its Delete is to come, unless
      something failed or someone else made it ([no_orphans], [at_rest]).
    - Backends: an endpoint is returned only for the ready object or actor of the id
      ([ensure_sound] and its siblings); what a backend makes of its ids on servers that take
      their time and, exactly a set, on prompt ones ([backends_keep_ids]), and the serial order
      of interleaved calls ([backends_share_ids]), with a run in which an Ensure succeeds on a
      claim that is being deleted; the Substrate
      loops end ([substrate_ensure_returns], [substrate_list_returns]) and List reads every
      page ([substrate_list_pages]).
    - The program: it is made of its parts ([program_refines], [run_starts_in_order]); it
      serves, scans and is ready only after a Reconcile that ran on an empty manager
      ([startup_order]); why it ends ([program_ends_for_cause]), that it does
      ([program_ends]) and what its shutdown leaves ([shutdown_graceful]).
    - Configuration, addresses, metrics: [FromEnv_valid], [addr_roundtrip], [metrics_never_panic].
    - Behaviours the code does not intend, shown by runs: the reaper can delete the sandbox of
      a live session, a Delete that fails leaves a sandbox nobody deletes
      ([no_orphans_witness]), a Refresh in the cooldown can return a session not yet resolved, a
      reused pod address is misresolved, a client can drop its actor header; and three more
      in [ProxyProps], [Isola] and [Backend] ([interim_status_recorded],
      [isolaName_collision], [addr_ipv6_undialable]).

    ** Bounds and fuel

    - [Identify.poll] runs the 100 rounds of the source; it is structural on them.
    - [Substrate.running_loop] and [probe_loop] take fuel.  [ready_rounds] is 302:
      60 s in steps of 200 ms are 300 rounds, and two more see the deadline passed;
      [substrate_ensure_returns] proves that with a clock that runs 302 give a result.
      [list_loop] takes one unit for each page; [substrate_list_pages] uses as many as there
      are pages, and [substrate_list_returns] one more than a control plane that keeps its
      actors has pages.
    - A tunnel takes at most 16 steps of its own once its connections are closed
      ([closed_steps_bounded]); [LifetimeLive.todo] bounds the steps of [run] that remain, but
      for the polls of a Shutdown, which its deadline ends.
    - [ReapLoop] runs over the ticks its context lets through; the API pollers are described
      by what they may return ([Kube.polls]), so no bound is needed.
    - Durations and instants are [Z] with the wrap-around or saturation of [int64] written out
      where the source computes them.

    ** What is not modelled

    - The Kubernetes client, gRPC, Prometheus and the HTTP servers are third-party code:
      environments, classes with documented laws, or logs.  Of [net/http] servers [Lifetime] has
      the listener and the number of connections in each state.  Bytes of response bodies are
      not tracked, only their counts and errors.
    - Of the generated Control API code only the messages, fields and stubs the Substrate
      backend uses.
    - Log calls; [Substrate.Close], [statusRecorder.Flush] and the handler's constructor, which
      touch no state of the program; build-time version strings.
    - The servers of [Cluster] and [SubstrateStore] answer truly of what they have when a call
      comes, or fail.  Their fate is arbitrary: an entry that is being deleted may stay for any
      number of calls, and a failed call may have taken effect, before its answer.
      [backends_keep_ids], [backends_share_ids] and [claims_end_to_end] hold for every fate;
      [KeepsIds], on which [live_sandbox], [no_orphans], [restart_recovers] and [end_to_end] are
      built, has its instances on servers that are [prompt] (there a call that failed and took
      effect can be a [foreign] execution of [Deployed]).  What they keep changes by the calls
      of the backends, the proxy's or another's; someone who makes, under the proxy's names, an
      object that no backend makes is outside their invariants.  Lists of the Substrate backend are described
      with nothing else going on; the pages of a listing that races are up to the server.
    - [Session.reap_scan] is one step, under the mutex as in the code; the atomic fields other
      goroutines write meanwhile are read once for each session, and the theorems about the
      scan hold session by session.
    - Manifests and scripts.
    - [EndToEnd] and [Lifetime] are two views of one program: [Lifetime] has the number of the
      connections in each state, not the handler of each, so what a shutdown cuts off a given
      handler is not a theorem. *)

From stdpp Require Export prelude gmap strings pretty fin_maps relations sorting.
From Stdlib Require Export ZArith Lia.

#[global] Set Default Goal Selector "!".

Declare Scope go_scope.
Delimit Scope go_scope with go.

(** ** World-passing effects

    Effectful Go code is a function of the world it runs in: it returns a value
    and the world after it.  The world is a parameter of each component. *)

Definition IO (W A : Type) : Type := W -> A * W.

Definition io_ret {W A} (a : A) : IO W A := fun w => (a, w).
Definition io_bind {W A B} (m : IO W A) (f : A -> IO W B) : IO W B :=
  fun w => let '(a, w') := m w in f a w'.

Declare Scope io_scope.
Notation "'let*' x := m 'in' k" := (io_bind m (fun x => k))
  (at level 200, x name, m at level 100, k at level 200) : io_scope.
Notation "m ;; k" := (io_bind m (fun _ => k)) (at level 100, k at level 200) : io_scope.
Open Scope io_scope.

Lemma io_bind_run {W A B} (m : IO W A) (f : A -> IO W B) w :
  io_bind m f w = f (m w).1 (m w).2.
Proof. unfold io_bind. by destruct (m w). Qed.

Lemma io_bind_eq {W A B} (m : IO W A) (f : A -> IO W B) w a w' :
  m w = (a, w') -> io_bind m f w = f a w'.
Proof. intros H. by rewrite io_bind_run, H. Qed.

Lemma io_ret_run {W A} (a : A) (w : W) : io_ret a w = (a, w).
Proof. reflexivity. Qed.

Lemma io_bind_assoc {W A B C} (m : IO W A) (f : A -> IO W B) (g : B -> IO W C) w :
  io_bind (io_bind m f) g w = io_bind m (fun a => io_bind (f a) g) w.
Proof. rewrite !io_bind_run. reflexivity. Qed.

(** A property of the results and worlds a computation leads to from a world: partial
    correctness over world-passing programs, composed along [let*]. *)
Definition wp {W A} (m : IO W A) (Q : A -> W -> Prop) (w : W) : Prop := Q (m w).1 (m w).2.

Lemma wp_ret {W A} (a : A) (Q : A -> W -> Prop) w : wp (io_ret a) Q w <-> Q a w.
Proof. done. Qed.

Lemma wp_bind {W A B} (m : IO W A) (f : A -> IO W B) (Q : B -> W -> Prop) w :
  wp (io_bind m f) Q w <-> wp m (fun a => wp (f a) Q) w.
Proof. unfold wp. by rewrite io_bind_run. Qed.

Lemma wp_mono {W A} (m : IO W A) (P Q : A -> W -> Prop) w :
  wp m P w -> (forall a w', P a w' -> Q a w') -> wp m Q w.
Proof. unfold wp. auto. Qed.

Lemma wp_run {W A} (m : IO W A) (Q : A -> W -> Prop) w a w' :
  wp m Q w -> m w = (a, w') -> Q a w'.
Proof. unfold wp. intros H E. by rewrite E in H. Qed.

(** Hoare triples over them. *)
Definition triple {W A} (P : W -> Prop) (m : IO W A) (Q : A -> W -> Prop) : Prop :=
  forall w, P w -> wp m Q w.

Lemma triple_ret {W A} (a : A) (P : W -> Prop) (Q : A -> W -> Prop) :
  (forall w, P w -> Q a w) -> triple P (io_ret a) Q.
Proof. intros H w Hw. by apply H. Qed.

Lemma triple_bind {W A B} (P : W -> Prop) (R : A -> W -> Prop) (Q : B -> W -> Prop)
    (m : IO W A) (f : A -> IO W B) :
  triple P m R -> (forall a, triple (R a) (f a) Q) -> triple P (io_bind m f) Q.
Proof. intros Hm Hf w Hw. apply wp_bind. apply Hm in Hw. by apply Hf. Qed.

Lemma triple_weaken {W A} (P P' : W -> Prop) (Q Q' : A -> W -> Prop) (m : IO W A) :
  triple P m Q -> (forall w, P' w -> P w) -> (forall a w, Q a w -> Q' a w) -> triple P' m Q'.
Proof. intros Hm HP HQ w Hw. apply HQ, Hm, HP, Hw. Qed.

(** ** Results of Go functions that return a value and an error *)

Inductive result (E A : Type) : Type :=
| Ok (a : A)
| Err (e : E).
Arguments Ok {E A} a.
Arguments Err {E A} e.

Definition is_ok {E A} (r : result E A) : bool :=
  match r with Ok _ => true | Err _ => false end.

#[export] Instance result_eq_dec {E A} `{EqDecision E, EqDecision A} :
  EqDecision (result E A).
Proof. solve_decision. Defined.

Definition result_bind {E A B} (r : result E A) (f : A -> result E B) : result E B :=
  match r with Ok a => f a | Err e => Err e end.

Declare Scope result_scope.
Notation "'let?' x := r 'in' k" := (result_bind r (fun x => k))
  (at level 200, x pattern, r at level 100, k at level 200) : result_scope.
Open Scope result_scope.

(** [if err != nil return ..., wrap(err)] *)
Definition map_err {E E' A} (f : E -> E') (r : result E A) : result E' A :=
  match r with Ok a => Ok a | Err e => Err (f e) end.

(** [if cond return nil, err] *)
Definition require {E} (b : bool) (e : E) : result E unit := if b then Ok tt else Err e.

Lemma result_bind_Ok {E A B} (r : result E A) (f : A -> result E B) b :
  result_bind r f = Ok b <-> exists a, r = Ok a /\ f a = Ok b.
Proof. destruct r; simpl; naive_solver. Qed.

Lemma map_err_Ok {E E' A} (f : E -> E') (r : result E A) a : map_err f r = Ok a <-> r = Ok a.
Proof. destruct r; simpl; naive_solver. Qed.

Lemma require_Ok {E} b (e : E) u : require b e = Ok u <-> b = true.
Proof. destruct b, u; simpl; naive_solver. Qed.

#[export] Hint Rewrite @result_bind_Ok @map_err_Ok @require_Ok : go.

Lemma is_ok_true {E A} (r : result E A) : is_ok r = true <-> exists a, r = Ok a.
Proof. destruct r; simpl; naive_solver. Qed.

(** ** Machine integers: a value of Go's [int64] or [int32] is a [Z] kept in
    range by the wrap-around of its width. *)

Definition wrap (bits : Z) (z : Z) : Z :=
  (z + 2 ^ (bits - 1)) mod 2 ^ bits - 2 ^ (bits - 1).

Definition int64_min : Z := - 2 ^ 63.
Definition int64_max : Z := 2 ^ 63 - 1.
Definition wrap64 : Z -> Z := wrap 64.
Definition wrap32 : Z -> Z := wrap 32.

Definition in_int64 (z : Z) : Prop := (int64_min <= z <= int64_max)%Z.
Definition in_int32 (z : Z) : Prop := (- 2 ^ 31 <= z < 2 ^ 31)%Z.

#[export] Instance in_int64_dec z : Decision (in_int64 z).
Proof. unfold in_int64. apply _. Defined.
#[export] Instance in_int32_dec z : Decision (in_int32 z).
Proof. unfold in_int32. apply _. Defined.

Lemma wrap_range bits z :
  (0 < bits)%Z -> (- 2 ^ (bits - 1) <= wrap bits z < 2 ^ (bits - 1))%Z.
Proof.
  intros Hb. unfold wrap.
  assert (2 ^ bits = 2 * 2 ^ (bits - 1))%Z as Hp.
  { replace bits with (Z.succ (bits - 1)) at 1 by lia. rewrite Z.pow_succ_r; lia. }
  assert (0 < 2 ^ (bits - 1))%Z by (apply Z.pow_pos_nonneg; lia).
  pose proof (Z.mod_pos_bound (z + 2 ^ (bits - 1)) (2 ^ bits)). lia.
Qed.

Lemma wrap_id bits z :
  (0 < bits)%Z -> (- 2 ^ (bits - 1) <= z < 2 ^ (bits - 1))%Z -> wrap bits z = z.
Proof.
  intros Hb Hz. unfold wrap.
  assert (2 ^ bits = 2 * 2 ^ (bits - 1))%Z as Hp.
  { replace bits with (Z.succ (bits - 1)) at 1 by lia. rewrite Z.pow_succ_r; lia. }
  rewrite Z.mod_small by lia. lia.
Qed.

Lemma wrap64_range z : in_int64 (wrap64 z).
Proof.
  unfold wrap64, in_int64, int64_min, int64_max.
  pose proof (wrap_range 64 z). lia.
Qed.

Lemma wrap64_id z : in_int64 z -> wrap64 z = z.
Proof.
  unfold wrap64, in_int64, int64_min, int64_max. intros. apply wrap_id; lia.
Qed.

Lemma wrap32_id z : in_int32 z -> wrap32 z = z.
Proof. unfold wrap32, in_int32. intros. apply wrap_id; lia. Qed.

(** [time.Duration] differences saturate instead of wrapping ([Time.Sub]). *)
Definition sat64 (z : Z) : Z := Z.max int64_min (Z.min int64_max z).

Lemma sat64_id z : in_int64 z -> sat64 z = z.
Proof. unfold sat64, in_int64. lia. Qed.

(** ** Lists *)

Section lists.
Context {A B : Type}.

(** The first element a decision accepts, as a [for ... { if ... break }] loop
    finds it. *)
Fixpoint find_first (f : A -> option B) (l : list A) : option B :=
  match l with
  | [] => None
  | a :: l' => match f a with Some b => Some b | None => find_first f l' end
  end.

Lemma find_first_Some (f : A -> option B) l b :
  find_first f l = Some b <->
  exists l1 a l2, l = l1 ++ a :: l2 /\ f a = Some b /\ Forall (fun x => f x = None) l1.
Proof.
  split.
  - induction l as [|a l IH]; simpl; [done|].
    destruct (f a) as [b'|] eqn:Ha; intros H; simplify_eq.
    + exists [], a, l. eauto.
    + destruct (IH H) as (l1 & a' & l2 & -> & Ha' & Hl1).
      exists (a :: l1), a', l2. eauto.
  - intros (l1 & a & l2 & -> & Ha & Hl1).
    induction Hl1 as [|x l1 Hx Hl1 IH]; simpl; [by rewrite Ha|by rewrite Hx].
Qed.

Lemma find_first_None (f : A -> option B) l :
  find_first f l = None <-> Forall (fun x => f x = None) l.
Proof.
  induction l as [|a l IH]; simpl; [by split|].
  rewrite Forall_cons, <- IH. destruct (f a); naive_solver.
Qed.
End lists.

Lemma omap_cons_eq {A B} (f : A -> option B) a l :
  omap f (a :: l) = match f a with Some b => b :: omap f l | None => omap f l end.
Proof. reflexivity. Qed.

Lemma omap_none {A B} (f : A -> option B) (P : A -> Prop) l :
  (forall a, P a -> f a = None) -> Forall P l -> omap f l = [].
Proof. intros Hf. induction 1 as [|a l Ha _ IH]; [done|]. by rewrite omap_cons_eq, Hf. Qed.

(** A list without duplicates splits at an element in one way. *)
Lemma split_unique {A} (x : A) a b c d :
  a ++ x :: b = c ++ x :: d -> NoDup (a ++ x :: b) -> a = c /\ b = d.
Proof.
  revert c. induction a as [|y a IH]; intros [|z c] Heq Hnd; simpl in *; simplify_eq; [done|..].
  - apply NoDup_cons in Hnd as [Hno _]. set_solver.
  - apply NoDup_cons in Hnd as [Hno _]. set_solver.
  - apply NoDup_cons in Hnd as [_ Hnd]. by destruct (IH c ltac:(done) Hnd) as [-> ->].
Qed.

Lemma list_delete_insert {A} (l : list A) i x : delete i (<[i := x]> l) = delete i l.
Proof. revert i. induction l as [|y l IH]; intros [|i]; simpl; [done..|]. f_equal. apply IH. Qed.

(** ** Tactics and hints *)

Create HintDb go discriminated.
Create Rewrite HintDb go.

#[export] Hint Resolve wrap64_range : go.
#[export] Hint Rewrite @io_bind_run @io_ret_run : go.

(** Split every decision and match of the goal, keeping the equations. *)
Ltac go_cases :=
  repeat (first [progress simplify_eq/= | case_match | progress simplify_option_eq]).

Ltac go_solve := go_cases; eauto with go; try lia; try done.

(** Close a decidable goal on concrete data by evaluating its decision. *)
Ltac by_decision := apply (bool_decide_unpack _); vm_compute; exact I.
