(* ===== verification/GoStd.v ===== *)
(** * The parts of Go's standard library the proxy uses

    Errors and their chains ([errors], [fmt.Errorf], [net.OpError]), byte strings
    ([strings], [strconv], [fmt]), host:port addresses ([net]), canonical header
    maps ([net/http]) and times.  Strings are byte strings, as in Go. *)

From S2P Require Import Prelude.
From Stdlib Require Export Ascii.
Local Open Scope Z_scope.

(** ** Errors *)

(** A printed argument of a format call. *)
Inductive fmtarg :=
| FStr (s : string)
| FInt (n : Z).

(** gRPC status codes ([google.golang.org/grpc/codes]), the ones the code tests
    and the rest. *)
Inductive Code :=
| CodeOK
| CodeUnknown
| CodeNotFound
| CodeAlreadyExists
| CodeFailedPrecondition
| CodeOther (n : Z).

(** The dynamic types of error values the code distinguishes: plain text,
    formatted text, formatted text that wraps a cause with [%w], the Kubernetes
    API status error, a gRPC status error, [*net.OpError] (whose [Unwrap] is its
    [Err]) and the two context errors. *)
Inductive error :=
| NewError (text : string)
| Errorf (format : string) (args : list fmtarg)
| Errorf_w (format : string) (args : list fmtarg) (cause : error)
| StatusError (code : Z) (text : string)
| GrpcError (code : Code) (text : string)
| OpError (op : string) (cause : error)
| ContextCanceled
| ContextDeadlineExceeded.

#[export] Instance fmtarg_eq_dec : EqDecision fmtarg.
Proof. solve_decision. Defined.
#[export] Instance Code_eq_dec : EqDecision Code.
Proof. solve_decision. Defined.
#[export] Instance error_eq_dec : EqDecision error.
Proof. solve_decision. Defined.

(** [errors.Unwrap] *)
Definition Unwrap (e : error) : option error :=
  match e with
  | Errorf_w _ _ c => Some c
  | OpError _ c => Some c
  | _ => None
  end.

(** [errors.As] with a target that [f] recognises: the first error of the chain
    that has it. *)
Fixpoint errors_As {A} (f : error -> option A) (e : error) : option A :=
  match f e with
  | Some a => Some a
  | None =>
      match e with
      | Errorf_w _ _ c => errors_As f c
      | OpError _ c => errors_As f c
      | _ => None
      end
  end.

(** [errors.Is err context.Canceled] *)
Definition is_context_canceled (e : error) : bool :=
  match errors_As (fun e => match e with ContextCanceled => Some tt | _ => None end) e with
  | Some _ => true
  | None => false
  end.

Lemma errors_As_wrap {A} (f : error -> option A) format args e :
  f (Errorf_w format args e) = None ->
  errors_As f (Errorf_w format args e) = errors_As f e.
Proof. intros H. simpl. by rewrite H. Qed.

(** ** Byte strings *)

Fixpoint to_chars (s : string) : list ascii :=
  match s with EmptyString => [] | String c s => c :: to_chars s end.

Fixpoint of_chars (l : list ascii) : string :=
  match l with [] => EmptyString | c :: l => String c (of_chars l) end.

Definition len (s : string) : nat := String.length s.

Definition byte_of (c : ascii) : Z := Z.of_N (N_of_ascii c).

(** [strings.Contains] *)
Fixpoint has_prefix (p s : list ascii) : bool :=
  match p, s with
  | [], _ => true
  | a :: p, b :: s => bool_decide (a = b) && has_prefix p s
  | _ :: _, [] => false
  end.

Fixpoint contains (p s : list ascii) : bool :=
  has_prefix p s || match s with [] => false | _ :: s => contains p s end.

Definition strings_Contains (s sub : string) : bool := contains (to_chars sub) (to_chars s).

(** [strings.ContainsAny], for a set of ASCII characters. *)
Definition strings_ContainsAny (s : string) (chars : list ascii) : bool :=
  existsb (fun c => bool_decide (c ∈ chars)) (to_chars s).

(** Split at the first separator byte: [strings.Cut] with a one-byte separator. *)
Fixpoint cut_chars (sep : ascii) (s : list ascii) : option (list ascii * list ascii) :=
  match s with
  | [] => None
  | c :: s =>
      if decide (c = sep) then Some ([], s)
      else match cut_chars sep s with
           | Some (l, r) => Some (c :: l, r)
           | None => None
           end
  end.

Definition strings_Cut (s : string) (sep : ascii) : string * string * bool :=
  match cut_chars sep (to_chars s) with
  | Some (l, r) => (of_chars l, of_chars r, true)
  | None => (s, EmptyString, false)
  end.

(** [strings.CutPrefix] *)
Fixpoint cut_prefix (p s : list ascii) : option (list ascii) :=
  match p, s with
  | [], s => Some s
  | a :: p, b :: s => if decide (a = b) then cut_prefix p s else None
  | _ :: _, [] => None
  end.

Definition strings_CutPrefix (s prefix : string) : string * bool :=
  match cut_prefix (to_chars prefix) (to_chars s) with
  | Some r => (of_chars r, true)
  | None => (s, false)
  end.

(** [strings.SplitSeq] with a one-byte separator: always at least one part. *)
Fixpoint split_chars (sep : ascii) (s : list ascii) : list (list ascii) :=
  match s with
  | [] => [[]]
  | c :: s =>
      if decide (c = sep) then [] :: split_chars sep s
      else match split_chars sep s with
           | p :: ps => (c :: p) :: ps
           | [] => [[c]]
           end
  end.

Definition strings_Split (s : string) (sep : ascii) : list string :=
  map of_chars (split_chars sep (to_chars s)).

(** [strings.TrimSpace]: Unicode white space, one, two or three bytes in UTF-8. *)
Definition is_space1 (c : ascii) : bool :=
  let n := byte_of c in (9 <=? n) && (n <=? 13) || (n =? 32).
Definition is_space2 (c d : ascii) : bool :=
  (byte_of c =? 0xC2) && ((byte_of d =? 0x85) || (byte_of d =? 0xA0)).
Definition is_space3 (c d e : ascii) : bool :=
  let '(x, y, z) := (byte_of c, byte_of d, byte_of e) in
  (x =? 0xE1) && (y =? 0x9A) && (z =? 0x80)
  || (x =? 0xE2) && (y =? 0x80)
     && ((0x80 <=? z) && (z <=? 0x8A) || (z =? 0xA8) || (z =? 0xA9) || (z =? 0xAF))
  || (x =? 0xE2) && (y =? 0x81) && (z =? 0x9F)
  || (x =? 0xE3) && (y =? 0x80) && (z =? 0x80).

Fixpoint trim_with (sp2 : ascii -> ascii -> bool) (sp3 : ascii -> ascii -> ascii -> bool)
    (l : list ascii) : list ascii :=
  match l with
  | [] => []
  | c :: l1 =>
      if is_space1 c then trim_with sp2 sp3 l1 else
      match l1 with
      | [] => l
      | d :: l2 =>
          if sp2 c d then trim_with sp2 sp3 l2 else
          match l2 with
          | [] => l
          | e :: l3 => if sp3 c d e then trim_with sp2 sp3 l3 else l
          end
      end
  end.

Definition strings_TrimSpace (s : string) : string :=
  let l := trim_with is_space2 is_space3 (to_chars s) in
  of_chars (rev (trim_with (fun c d => is_space2 d c) (fun c d e => is_space3 e d c) (rev l))).

(** Case mapping of the ASCII letters. *)
Definition is_lower (c : ascii) : bool := (97 <=? byte_of c) && (byte_of c <=? 122).
Definition is_upper (c : ascii) : bool := (65 <=? byte_of c) && (byte_of c <=? 90).
Definition lower_byte (c : ascii) : ascii :=
  if is_upper c then ascii_of_N (N_of_ascii c + 32) else c.
Definition upper_byte (c : ascii) : ascii :=
  if is_lower c then ascii_of_N (N_of_ascii c - 32) else c.

(** [strings.ToLower]; the bytes of a non-ASCII rune are kept. *)
Definition strings_ToLower (s : string) : string :=
  of_chars (map lower_byte (to_chars s)).

(** [strings.EqualFold] against an ASCII string: simple Unicode folding, in which
    the Kelvin sign (E2 84 AA) folds to k and the long s (C5 BF) to s. *)
Fixpoint fold_chars (l : list ascii) : list ascii :=
  match l with
  | [] => []
  | c :: l1 =>
      match l1 with
      | d :: l2 =>
          if (byte_of c =? 0xC5) && (byte_of d =? 0xBF) then "s"%char :: fold_chars l2 else
          match l2 with
          | e :: l3 =>
              if (byte_of c =? 0xE2) && (byte_of d =? 0x84) && (byte_of e =? 0xAA)
              then "k"%char :: fold_chars l3
              else lower_byte c :: fold_chars l1
          | [] => lower_byte c :: fold_chars l1
          end
      | [] => [lower_byte c]
      end
  end.

Definition strings_EqualFold (s t : string) : bool :=
  bool_decide (fold_chars (to_chars s) = fold_chars (to_chars t)).

(** ** Numbers: [strconv.Atoi] on a 64-bit platform, [fmt]'s %d and %x *)

Definition is_digit (c : ascii) : bool := (48 <=? byte_of c) && (byte_of c <=? 57).
Definition digit_val (c : ascii) : Z := byte_of c - 48.

Definition ErrSyntax : error := NewError "invalid syntax".
Definition ErrRange : error := NewError "value out of range".

(** The digit loop of [strconv.ParseUint], base 10, 64 bits: a range error is
    reported as soon as the value overflows, before later bytes are looked at. *)
Fixpoint parse_uint (n : Z) (l : list ascii) : result error Z :=
  match l with
  | [] => Ok n
  | c :: l =>
      if negb (is_digit c) then Err ErrSyntax
      else if (2 ^ 64 - 1) / 10 + 1 <=? n then Err ErrRange
      else let n1 := n * 10 + digit_val c in
           if 2 ^ 64 <=? n1 then Err ErrRange else parse_uint n1 l
  end.

Definition strconv_Atoi (s : string) : result error Z :=
  let '(neg, digits) :=
    match to_chars s with
    | "-"%char :: l => (true, l)
    | "+"%char :: l => (false, l)
    | l => (false, l)
    end in
  let fail e := Err (Errorf_w "strconv.Atoi: parsing %q: %w" [FStr s] e) in
  match digits with
  | [] => fail ErrSyntax
  | _ =>
      match parse_uint 0 digits with
      | Err e => fail e
      | Ok un =>
          if negb neg && (2 ^ 63 <=? un) then fail ErrRange
          else if neg && (2 ^ 63 <? un) then fail ErrRange
          else Ok (if neg then - un else un)
      end
  end.

(** [%d] and [strconv.Itoa] *)
Definition fmt_d (z : Z) : string := pretty z.

(** [%x] of a byte *)
Definition hex_digit (n : Z) : ascii :=
  ascii_of_N (Z.to_N (if n <? 10 then 48 + n else 87 + n)).
Definition hex_byte (b : Z) : list ascii := [hex_digit (b / 16); hex_digit (b mod 16)].
Definition fmt_x (bytes : list Z) : string := of_chars (bytes ≫= hex_byte).

(** ** Addresses: [net.SplitHostPort] *)

Fixpoint index_byte (c : ascii) (l : list ascii) : option nat :=
  match l with
  | [] => None
  | d :: l => if decide (d = c) then Some 0%nat else S <$> index_byte c l
  end.

Fixpoint last_index_byte (c : ascii) (l : list ascii) : option nat :=
  match l with
  | [] => None
  | d :: l =>
      match last_index_byte c l with
      | Some i => Some (S i)
      | None => if decide (d = c) then Some 0%nat else None
      end
  end.

Definition has_byte (c : ascii) (l : list ascii) : bool := bool_decide (c ∈ l).

Definition addr_error (addr why : string) : error :=
  Errorf "address %s: %s" [FStr addr; FStr why].

Definition net_SplitHostPort (hostport : string) : result error (string * string) :=
  let s := to_chars hostport in
  let fail why := Err (addr_error hostport why) in
  match last_index_byte ":" s with
  | None => fail "missing port in address"
  | Some i =>
      let finish host j k :=
        if has_byte "[" (drop j s) then fail "unexpected '[' in address"
        else if has_byte "]" (drop k s) then fail "unexpected ']' in address"
        else Ok (of_chars host, of_chars (drop (S i) s)) in
      if bool_decide (head s = Some "["%char) then
        match index_byte "]" s with
        | None => fail "missing ']' in address"
        | Some e =>
            if (S e =? length s)%nat then fail "missing port in address"
            else if (S e =? i)%nat then finish (take (e - 1) (drop 1 s)) 1%nat (S e)
            else if bool_decide (s !! S e = Some ":"%char) then fail "too many colons in address"
            else fail "missing port in address"
        end
      else
        if has_byte ":" (take i s) then fail "too many colons in address"
        else finish (take i s) 0%nat 0%nat
  end.

Example split_v4 : net_SplitHostPort "10.0.0.7:9222" = Ok ("10.0.0.7", "9222").
Proof. reflexivity. Qed.
Example split_v6 : net_SplitHostPort "[fd00::1]:9222" = Ok ("fd00::1", "9222").
Proof. reflexivity. Qed.

(** ** Header maps: [net/http.Header] and its canonical keys *)

(** [validHeaderFieldByte]: the token characters of RFC 7230. *)
Definition is_token_byte (c : ascii) : bool :=
  is_digit c || is_lower c || is_upper c
  || bool_decide (c ∈ to_chars "!#$%&'*+-.^_`|~").

Fixpoint canonical_chars (upper : bool) (l : list ascii) : list ascii :=
  match l with
  | [] => []
  | c :: l =>
      (if upper then upper_byte c else lower_byte c)
      :: canonical_chars (bool_decide (c = "-"%char)) l
  end.

(** [textproto.CanonicalMIMEHeaderKey] *)
Definition CanonicalHeaderKey (k : string) : string :=
  let l := to_chars k in
  if forallb is_token_byte l then of_chars (canonical_chars true l) else k.

Definition Header : Type := gmap string (list string).

Definition Header_Get (h : Header) (k : string) : string :=
  match h !! CanonicalHeaderKey k with Some (v :: _) => v | _ => EmptyString end.
Definition Header_Set (h : Header) (k v : string) : Header :=
  <[CanonicalHeaderKey k := [v]]> h.
Definition Header_Del (h : Header) (k : string) : Header :=
  delete (CanonicalHeaderKey k) h.
Definition Header_Add (h : Header) (k v : string) : Header :=
  <[CanonicalHeaderKey k := default [] (h !! CanonicalHeaderKey k) ++ [v]]> h.

Example canonical_actor : CanonicalHeaderKey "ate-target-actor" = "Ate-Target-Actor".
Proof. reflexivity. Qed.

(** ** Contexts, clocks and the world

    A context is a root (the [context.Background] tree of a request, of a
    goroutine, of the process signal handler) with the earliest of the deadlines
    put on it.  The world says what time it is and which roots are cancelled. *)

Record Ctx := mkCtx { ctx_root : nat; ctx_deadline : option Z }.

Class World (W : Type) : Type := {
  now : W -> Z;
  root_cancelled : nat -> W -> bool;
  (** what the world can become while this goroutine waits *)
  later : W -> W -> Prop;
  later_refl w : later w w;
  later_trans w1 w2 w3 : later w1 w2 -> later w2 w3 -> later w1 w3;
  later_now w1 w2 : later w1 w2 -> now w1 <= now w2;
}.

#[export] Hint Resolve later_refl : go.

Definition Background : Ctx := mkCtx 0 None.

(** [context.WithTimeout]: never later than the parent's deadline. *)
Definition WithTimeout (ctx : Ctx) (t d : Z) : Ctx :=
  mkCtx (ctx_root ctx)
    (Some match ctx_deadline ctx with
          | Some p => Z.min p (t + d)
          | None => t + d
          end).

(** [ctx.Err()] *)
Definition ctx_Err `{World W} (ctx : Ctx) (w : W) : option error :=
  if root_cancelled (ctx_root ctx) w then Some ContextCanceled
  else match ctx_deadline ctx with
       | Some d => if d <=? now w then Some ContextDeadlineExceeded else None
       | None => None
       end.

Definition millisecond : Z := 1000000.
Definition second : Z := 1000 * millisecond.
Definition minute : Z := 60 * second.
Definition hour : Z := 60 * minute.

(** ** Lemmas *)

Lemma of_to_chars s : of_chars (to_chars s) = s.
Proof. induction s; simpl; congruence. Qed.

Lemma to_of_chars l : to_chars (of_chars l) = l.
Proof. induction l; simpl; congruence. Qed.

#[export] Instance of_chars_inj : Inj (=) (=) of_chars.
Proof. intros l1 l2 H. by rewrite <- (to_of_chars l1), H, to_of_chars. Qed.

#[export] Instance to_chars_inj : Inj (=) (=) to_chars.
Proof. intros s1 s2 H. by rewrite <- (of_to_chars s1), H, of_to_chars. Qed.

Lemma to_chars_app s1 s2 : to_chars (s1 +:+ s2) = to_chars s1 ++ to_chars s2.
Proof. induction s1; simpl; [done|]. unfold String.app. simpl. f_equal. apply IHs1. Qed.

Lemma of_chars_app l1 l2 : of_chars (l1 ++ l2) = of_chars l1 +:+ of_chars l2.
Proof. apply (inj to_chars). by rewrite to_chars_app, !to_of_chars. Qed.

Lemma length_to_chars s : length (to_chars s) = len s.
Proof. induction s; simpl; [done|]. by f_equal. Qed.

#[export] Hint Rewrite of_to_chars to_of_chars to_chars_app of_chars_app length_to_chars : go.

Lemma has_prefix_spec p s : has_prefix p s = true <-> exists r, s = p ++ r.
Proof.
  revert s. induction p as [|a p IH]; intros s; simpl; [naive_solver|].
  destruct s as [|b s]; [naive_solver|].
  rewrite andb_true_iff, bool_decide_eq_true, IH. naive_solver.
Qed.

Lemma contains_spec p s : contains p s = true <-> exists l r, s = l ++ p ++ r.
Proof.
  induction s as [|b s IH]; simpl; rewrite orb_true_iff, has_prefix_spec.
  - split; [|intros (l & r & H)].
    + intros [[r Hr]|]; [|done]. exists [], r. done.
    + left. destruct l; [|done]. eauto.
  - rewrite IH. split.
    + intros [[r ->]|(l & r & ->)]; [by exists [], r|by exists (b :: l), r].
    + intros ([|c l] & r & H); simplify_eq/=; eauto.
Qed.

(** [Contains] of one byte. *)
Lemma strings_Contains_byte s c :
  strings_Contains s (String c EmptyString) = true <-> c ∈ to_chars s.
Proof.
  unfold strings_Contains. rewrite contains_spec. simpl. split.
  - intros (l & r & ->). set_solver.
  - intros H. apply list_elem_of_split in H as (l & r & ->). eauto.
Qed.

Lemma cut_chars_Some sep s l r :
  cut_chars sep s = Some (l, r) <-> s = l ++ sep :: r /\ sep ∉ l.
Proof.
  revert l r. induction s as [|c s IH]; intros l r; simpl.
  - split; [done|]. intros [H _]. by destruct l.
  - case_decide as Hc; subst.
    + split; [intros; simplify_eq; set_solver|].
      intros [H Hl]. destruct l; simplify_eq/=; set_solver.
    + destruct (cut_chars sep s) as [[l' r']|] eqn:E.
      * split.
        -- intros ?; simplify_eq. destruct (proj1 (IH _ _) eq_refl) as [-> ?].
           split; [done|set_solver].
        -- intros [H Hl]. destruct l as [|d l]; simplify_eq/=.
           assert (Some (l', r') = Some (l, r)) by (apply IH; set_solver). by simplify_eq.
      * split; [done|]. intros [H Hl]. destruct l as [|d l]; simplify_eq/=.
        enough (None = Some (l, r)) by done. apply IH. set_solver.
Qed.

Lemma cut_chars_None sep s : cut_chars sep s = None <-> sep ∉ s.
Proof.
  induction s as [|c s IH]; simpl; [set_solver|].
  case_decide; subst; [set_solver|].
  destruct (cut_chars sep s) as [[]|]; [|set_solver].
  split; [done|]. intros Hn. exfalso. apply Hn.
  destruct (decide (sep ∈ s)); [set_solver|]. apply IH in n. done.
Qed.

Lemma cut_prefix_Some p s r : cut_prefix p s = Some r <-> s = p ++ r.
Proof.
  revert s. induction p as [|a p IH]; intros s; simpl; [naive_solver|].
  destruct s as [|b s]; [naive_solver|]. case_decide; subst.
  - rewrite IH. naive_solver.
  - naive_solver.
Qed.

Lemma strings_CutPrefix_app p s : strings_CutPrefix (p +:+ s) p = (s, true).
Proof.
  unfold strings_CutPrefix.
  rewrite (proj2 (cut_prefix_Some (to_chars p) _ (to_chars s))).
  - by rewrite of_to_chars.
  - by rewrite to_chars_app.
Qed.

Lemma strings_CutPrefix_true p s r :
  strings_CutPrefix s p = (r, true) -> s = p +:+ r.
Proof.
  unfold strings_CutPrefix. destruct (cut_prefix _ _) eqn:E; intros H; simplify_eq.
  apply cut_prefix_Some in E. apply (inj to_chars).
  by rewrite to_chars_app, to_of_chars.
Qed.

(** *** Decimal numbers *)

Lemma digit_val_char (d : N) :
  (d < 10)%N ->
  is_digit (pretty_N_char d) = true /\ digit_val (pretty_N_char d) = Z.of_N d.
Proof.
  intros Hd. assert (d ∈ [0; 1; 2; 3; 4; 5; 6; 7; 8; 9]%N) as H.
  { rewrite !elem_of_cons. lia. }
  repeat (apply elem_of_cons in H as [->|H]; [done|]). by apply elem_of_nil in H.
Qed.

Lemma N_lt_ind (P : N -> Prop) :
  (forall x, (forall y, (y < x)%N -> P y) -> P x) -> forall x, P x.
Proof. intros H x. induction (N.lt_wf_0 x). eauto. Qed.

Lemma parse_pretty_go x s :
  (x < 2 ^ 64)%N ->
  parse_uint 0 (to_chars (pretty_N_go x s)) = parse_uint (Z.of_N x) (to_chars s).
Proof.
  revert s. induction x as [x IH] using N_lt_ind; intros s Hx.
  destruct (decide (x = 0)%N) as [->|Hx0]; [by rewrite pretty_N_go_0|].
  rewrite pretty_N_go_step by lia.
  assert (x / 10 < x)%N by (apply N.div_lt; lia).
  rewrite IH by lia. cbn [parse_uint to_chars].
  destruct (digit_val_char (x `mod` 10)) as [-> ->]; [apply N.mod_lt; lia|].
  rewrite N2Z.inj_div, N2Z.inj_mod.
  pose proof (Z.div_mod (Z.of_N x) 10). pose proof (Z.mod_pos_bound (Z.of_N x) 10).
  change ((2 ^ 64 - 1) / 10 + 1) with 1844674407370955162.
  assert (Z.of_N x < 18446744073709551616) by (change (2 ^ 64)%N with 18446744073709551616%N in Hx; lia).
  change (2 ^ 64) with 18446744073709551616. change (Z.of_N 10) with 10.
  destruct (Z.leb_spec 1844674407370955162 (Z.of_N x / 10)); [lia|]. simpl.
  destruct (Z.leb_spec 18446744073709551616 (Z.of_N x / 10 * 10 + Z.of_N x `mod` 10)); [lia|].
  f_equal. lia.
Qed.

Lemma parse_pretty_N (x : N) :
  (x < 2 ^ 64)%N -> parse_uint 0 (to_chars (pretty x)) = Ok (Z.of_N x).
Proof.
  intros Hx. unfold pretty, pretty_N. case_decide; [by subst|].
  by rewrite parse_pretty_go.
Qed.

Definition decimal_char (c : ascii) : Prop := is_digit c = true \/ c = "-"%char.

Lemma pretty_go_digits x s :
  Forall decimal_char (to_chars s) -> Forall decimal_char (to_chars (pretty_N_go x s)).
Proof.
  revert s. induction x as [x IH] using N_lt_ind; intros s Hs.
  destruct (decide (x = 0)%N) as [->|Hx0]; [by rewrite pretty_N_go_0|].
  rewrite pretty_N_go_step by lia. apply IH.
  - apply N.div_lt; lia.
  - simpl. constructor; [|done]. left. apply digit_val_char, N.mod_lt. lia.
Qed.

Lemma pretty_N_digits (x : N) : Forall decimal_char (to_chars (pretty x)).
Proof.
  unfold pretty, pretty_N. case_decide; [by repeat constructor|].
  by apply pretty_go_digits.
Qed.

Lemma fmt_d_decimal z : Forall decimal_char (to_chars (fmt_d z)).
Proof.
  destruct z; simpl; [by repeat constructor|apply pretty_N_digits|].
  unfold fmt_d, pretty, pretty_Z. rewrite to_chars_app.
  constructor; [by right|]. apply pretty_N_digits.
Qed.

Lemma fmt_d_not_in z c : is_digit c = false -> c <> "-"%char -> c ∉ to_chars (fmt_d z).
Proof.
  intros Hd Hm Hc. pose proof (fmt_d_decimal z) as H.
  rewrite Forall_forall in H. destruct (H c Hc); congruence.
Qed.

(** [Atoi] reads back what [%d] prints, on the whole range of [int]. *)
Lemma Atoi_fmt_d z : in_int64 z -> strconv_Atoi (fmt_d z) = Ok z.
Proof.
  unfold in_int64, int64_min, int64_max. intros Hz.
  unfold strconv_Atoi.
  assert (exists c l, to_chars (fmt_d (Z.abs z)) = c :: l /\ is_digit c = true) as (c & l & Hc & Hd).
  { pose proof (fmt_d_decimal (Z.abs z)) as HF.
    destruct (to_chars (fmt_d (Z.abs z))) as [|c l] eqn:E.
    - exfalso. pose proof (parse_pretty_N (Z.to_N (Z.abs z))) as HP.
      assert (fmt_d (Z.abs z) = pretty (Z.to_N (Z.abs z))) as HE by (by destruct z).
      rewrite HE in E. rewrite E in HP. simpl in HP.
      assert (z = 0) as -> by (injection HP; lia). done.
    - exists c, l. split; [done|]. inversion HF as [|? ? [?| ->]]; subst; [done|].
      exfalso. assert (parse_uint 0 (to_chars (pretty (Z.to_N (Z.abs z)))) =
        Ok (Z.of_N (Z.to_N (Z.abs z)))) as HP by (apply parse_pretty_N; lia).
      assert (fmt_d (Z.abs z) = pretty (Z.to_N (Z.abs z))) as HE by (by destruct z).
      rewrite HE in E. rewrite E in HP. done. }
  assert (parse_uint 0 (c :: l) = Ok (Z.abs z)) as HP.
  { rewrite <- Hc. replace (fmt_d (Z.abs z)) with (pretty (Z.to_N (Z.abs z))) by (by destruct z).
    rewrite parse_pretty_N by lia. f_equal. lia. }
  destruct (decide (z < 0)) as [Hneg|Hpos].
  - assert (to_chars (fmt_d z) = "-"%char :: c :: l) as ->.
    { rewrite <- Hc. destruct z; [lia|lia|]. done. }
    rewrite HP. cbn [negb andb].
    destruct (Z.ltb_spec (2 ^ 63) (Z.abs z)); [lia|]. f_equal. lia.
  - replace (fmt_d z) with (fmt_d (Z.abs z)) by (f_equal; lia). rewrite Hc.
    replace (match c :: l with
      | "-"%char :: l0 => (true, l0) | "+"%char :: l0 => (false, l0) | l0 => (false, l0) end)
      with (false, c :: l) by (by destruct c as [[] [] [] [] [] [] [] []]).
    rewrite HP. cbn [negb andb].
    destruct (Z.leb_spec (2 ^ 63) (Z.abs z)); [lia|]. f_equal. lia.
Qed.

(** *** Addresses *)

Lemma has_byte_false c l : has_byte c l = false <-> c ∉ l.
Proof. unfold has_byte. by rewrite bool_decide_eq_false. Qed.

Lemma last_index_byte_app c l r :
  c ∉ r -> last_index_byte c (l ++ c :: r) = Some (length l).
Proof.
  intros Hr. induction l as [|d l IH]; simpl.
  - assert (last_index_byte c r = None) as ->; [|by rewrite decide_True].
    induction r as [|e r IH]; simpl; [done|].
    apply not_elem_of_cons in Hr as [? ?].
    by rewrite IH, decide_False by done.
  - by rewrite IH.
Qed.

(** A plain host (a name or an IPv4 address) and a port come back unchanged. *)
Lemma SplitHostPort_plain h p :
  ":"%char ∉ to_chars h -> "["%char ∉ to_chars h -> "]"%char ∉ to_chars h ->
  ":"%char ∉ to_chars p -> "["%char ∉ to_chars p -> "]"%char ∉ to_chars p ->
  net_SplitHostPort (h +:+ ":" +:+ p) = Ok (h, p).
Proof.
  intros Hc Ho Hcl Pc Po Pcl. unfold net_SplitHostPort.
  rewrite !to_chars_app.
  change (to_chars ":" ++ to_chars p) with (":"%char :: to_chars p).
  rewrite last_index_byte_app by done.
  rewrite take_app_length, drop_0.
  rewrite bool_decide_eq_false_2 by (destruct (to_chars h); simpl; set_solver).
  rewrite (proj2 (has_byte_false _ (to_chars h))) by done.
  rewrite !(proj2 (has_byte_false _ (_ ++ _))) by set_solver.
  replace (drop (S (length (to_chars h))) (to_chars h ++ ":"%char :: to_chars p))
    with (to_chars p); [by rewrite !of_to_chars|].
  rewrite drop_app_ge by lia.
  by replace (S (length (to_chars h)) - length (to_chars h))%nat with 1%nat by lia.
Qed.

(** An unbracketed host with a colon, such as an IPv6 address, is refused. *)
Lemma SplitHostPort_colon_host h p :
  ":"%char ∈ to_chars h -> head (to_chars h) <> Some "["%char -> ":"%char ∉ to_chars p ->
  net_SplitHostPort (h +:+ ":" +:+ p) =
  Err (addr_error (h +:+ ":" +:+ p) "too many colons in address").
Proof.
  intros Hc Hh Pc. unfold net_SplitHostPort. rewrite !to_chars_app.
  change (to_chars ":" ++ to_chars p) with (":"%char :: to_chars p).
  rewrite last_index_byte_app by done.
  rewrite take_app_length.
  rewrite bool_decide_eq_false_2 by (destruct (to_chars h); simpl in *; set_solver).
  assert (has_byte ":" (to_chars h) = true) as ->; [|done].
  by apply bool_decide_eq_true_2.
Qed.
