(* ===== verification/GoTime.v ===== *)
(** * [time.ParseDuration]

    The algorithm of Go's [time] package: unsigned 64-bit accumulation with its overflow
    tests, and fractions scaled in IEEE double precision. *)

From S2P Require Import Prelude GoStd.
From Stdlib Require Import Floats.SpecFloat.
Local Open Scope Z_scope.

(** ** Double precision *)

Definition b64_of_Z (z : Z) : spec_float := binary_normalize 53 1024 z 0 false.
Definition b64_mul : spec_float -> spec_float -> spec_float := SFmul 53 1024.
Definition b64_div : spec_float -> spec_float -> spec_float := SFdiv 53 1024.

(** [uint64(x)] of a finite non-negative float below 2^64. *)
Definition b64_to_Z (x : spec_float) : Z :=
  match x with
  | S754_finite false m e => Z.shiftl (Z.pos m) e
  | _ => 0
  end.

(** ** Scanning *)

Definition max63 : Z := 2 ^ 63.

(** [leadingInt]: the value and the rest, or None on overflow. *)
Fixpoint leadingInt (x : Z) (l : list ascii) : option (Z * list ascii) :=
  match l with
  | [] => Some (x, [])
  | c :: l' =>
      if negb (is_digit c) then Some (x, l)
      else if max63 / 10 <? x then None
      else let x' := x * 10 + digit_val c in
           if max63 <? x' then None else leadingInt x' l'
  end.

(** [leadingFraction]: digits past the overflow are skipped. *)
Fixpoint leadingFraction (x scale : Z) (overflow : bool) (l : list ascii) : Z * Z * list ascii :=
  match l with
  | [] => (x, scale, [])
  | c :: l' =>
      if negb (is_digit c) then (x, scale, l)
      else if overflow then leadingFraction x scale true l'
      else if (max63 - 1) / 10 <? x then leadingFraction x scale true l'
      else let y := x * 10 + digit_val c in
           if max63 <? y then leadingFraction x scale true l'
           else leadingFraction y (scale * 10) false l'
  end.

Fixpoint leadingUnit (l : list ascii) : list ascii * list ascii :=
  match l with
  | [] => ([], [])
  | c :: l' =>
      if bool_decide (c = "."%char) || is_digit c then ([], l)
      else let '(u, r) := leadingUnit l' in (c :: u, r)
  end.

Definition micro_sign : string := of_chars [ascii_of_nat 194; ascii_of_nat 181; "s"%char].
Definition greek_mu : string := of_chars [ascii_of_nat 206; ascii_of_nat 188; "s"%char].

Definition unit_of (u : string) : option Z :=
  if decide (u = "ns") then Some 1
  else if decide (u = "us" \/ u = micro_sign \/ u = greek_mu) then Some 1000
  else if decide (u = "ms") then Some millisecond
  else if decide (u = "s") then Some second
  else if decide (u = "m") then Some minute
  else if decide (u = "h") then Some hour
  else None.

(** [uint64(float64(f) * (float64(unit) / scale))] *)
Definition fraction (f scale unit : Z) : Z :=
  b64_to_Z (b64_mul (b64_of_Z f) (b64_div (b64_of_Z unit) (b64_of_Z scale))).

(** ** The parser *)

Definition invalid (orig : string) : error := Errorf "time: invalid duration %q" [FStr orig].

(** One number with its unit: its value and the rest of the string. *)
Definition parse_term (orig : string) (s : list ascii) : result error (Z * list ascii) :=
  match s with
  | [] => Err (invalid orig)
  | c :: _ =>
      if negb (bool_decide (c = "."%char) || is_digit c) then Err (invalid orig) else
      match leadingInt 0 s with
      | None => Err (invalid orig)
      | Some (v, s1) =>
          let pre := negb (length s =? length s1)%nat in
          let '(f, scale, s2, post) :=
            match s1 with
            | "."%char :: s' =>
                let '(f, scale, s2) := leadingFraction 0 1 false s' in
                (f, scale, s2, negb (length s' =? length s2)%nat)
            | _ => (0, 1, s1, false)
            end in
          if negb pre && negb post then Err (invalid orig) else
          let '(u, rest) := leadingUnit s2 in
          match u with
          | [] => Err (Errorf "time: missing unit in duration %q" [FStr orig])
          | _ =>
              match unit_of (of_chars u) with
              | None => Err (Errorf "time: unknown unit %q in duration %q" [FStr (of_chars u); FStr orig])
              | Some unit =>
                  if max63 / unit <? v then Err (invalid orig) else
                  let v := v * unit in
                  let v := if 0 <? f then v + fraction f scale unit else v in
                  if max63 <? v then Err (invalid orig) else Ok (v, rest)
              end
          end
      end
  end.

(** The loop over the terms; [fuel] bounds their number, each takes a byte at least. *)
Fixpoint parse_terms (fuel : nat) (orig : string) (d : Z) (s : list ascii) : result error Z :=
  match s, fuel with
  | [], _ => Ok d
  | _, O => Err (invalid orig)
  | _, S fuel =>
      match parse_term orig s with
      | Err e => Err e
      | Ok (v, rest) =>
          if max63 <? d + v then Err (invalid orig) else parse_terms fuel orig (d + v) rest
      end
  end.

Definition ParseDuration (orig : string) : result error Z :=
  let '(neg, s) :=
    match to_chars orig with
    | "-"%char :: l => (true, l)
    | "+"%char :: l => (false, l)
    | l => (false, l)
    end in
  match s with
  | ["0"%char] => Ok 0
  | [] => Err (invalid orig)
  | _ =>
      let? d := parse_terms (length s) orig 0 s in
      if neg then Ok (- d)
      else if max63 - 1 <? d then Err (invalid orig)
      else Ok d
  end.

Example parse_10m : ParseDuration "10m" = Ok (10 * minute).
Proof. vm_compute. reflexivity. Qed.
Example parse_1h30m : ParseDuration "1h30m" = Ok (90 * minute).
Proof. vm_compute. reflexivity. Qed.
Example parse_fraction : ParseDuration "1.5h" = Ok (90 * minute).
Proof. vm_compute. reflexivity. Qed.
Example parse_milli : ParseDuration "-.25s" = Ok (-250 * millisecond).
Proof. vm_compute. reflexivity. Qed.
Example parse_zero : ParseDuration "0" = Ok 0.
Proof. vm_compute. reflexivity. Qed.
Example parse_no_unit : is_ok (ParseDuration "10") = false.
Proof. vm_compute. reflexivity. Qed.
Example parse_empty : is_ok (ParseDuration "") = false.
Proof. vm_compute. reflexivity. Qed.
Example parse_max : ParseDuration "9223372036854775807ns" = Ok (max63 - 1).
Proof. vm_compute. reflexivity. Qed.
Example parse_overflow : is_ok (ParseDuration "9223372036854775808ns") = false.
Proof. vm_compute. reflexivity. Qed.
Example parse_min : ParseDuration "-9223372036854775808ns" = Ok (- max63).
Proof. vm_compute. reflexivity. Qed.

(** ** Bounds *)

Lemma b64_to_Z_nonneg x : 0 <= b64_to_Z x.
Proof.
  destruct x as [| | |[] m e]; simpl; try lia. by apply Z.shiftl_nonneg.
Qed.

Lemma leadingInt_nonneg x l y r : 0 <= x -> leadingInt x l = Some (y, r) -> 0 <= y.
Proof.
  revert x. induction l as [|c l IH]; simpl; intros x Hx; [by intros [= <- <-]|].
  destruct (negb (is_digit c)) eqn:Hd; [by intros [= <- <-]|].
  repeat case_match; try done. apply IH.
  apply negb_false_iff in Hd. unfold is_digit in Hd. unfold digit_val.
  apply andb_true_iff in Hd as [Hge%Z.leb_le _]. lia.
Qed.

Lemma unit_of_pos u n : unit_of u = Some n -> 0 < n.
Proof. unfold unit_of. repeat case_decide; intros; simplify_eq; done. Qed.

Lemma parse_term_nonneg orig s v rest : parse_term orig s = Ok (v, rest) -> 0 <= v.
Proof.
  unfold parse_term. destruct s as [|c s]; [done|].
  destruct (negb _); [done|].
  destruct (leadingInt 0 (c :: s)) as [[x s1]|] eqn:Hx; [|done].
  pose proof (leadingInt_nonneg 0 _ _ _ ltac:(lia) Hx) as Hpos.
  destruct (match s1 with [] => _ | _ => _ end) as [[[f scale] s2] post].
  destruct (negb _ && negb post); [done|]. destruct (leadingUnit s2) as [u r].
  destruct u as [|a u]; [done|]. destruct (unit_of _) as [n|] eqn:Hn; [|done].
  apply unit_of_pos in Hn. destruct (max63 / n <? x); [done|].
  destruct (max63 <? _); [done|]. intros [= <- <-].
  pose proof (b64_to_Z_nonneg (b64_mul (b64_of_Z f) (b64_div (b64_of_Z n) (b64_of_Z scale)))).
  unfold fraction. destruct (0 <? f); nia.
Qed.

Lemma parse_terms_range fuel orig d s r :
  0 <= d <= max63 -> parse_terms fuel orig d s = Ok r -> 0 <= r <= max63.
Proof.
  revert d s. induction fuel as [|fuel IH]; intros d [|c s] Hd; cbn [parse_terms]; try (by intros [= <-]).
  destruct (parse_term orig (c :: s)) as [[v rest]|] eqn:Hv; [|done].
  apply parse_term_nonneg in Hv. destruct (Z.ltb_spec max63 (d + v)); [done|]. apply IH. lia.
Qed.

(** A parsed duration is an [int64]. *)
Lemma ParseDuration_range s d : ParseDuration s = Ok d -> in_int64 d.
Proof.
  unfold ParseDuration, in_int64, int64_min, int64_max.
  destruct (match to_chars s with [] => _ | _ => _ end) as [neg l].
  assert (forall k : result error Z, (let? d := parse_terms (length l) s 0 l in
    if neg then Ok (- d) else if max63 - 1 <? d then Err (invalid s) else Ok d) = Ok d ->
    - 2 ^ 63 <= d <= 2 ^ 63 - 1) as Hk.
  { intros _. rewrite result_bind_Ok. intros (r & Hr%parse_terms_range & H); [|unfold max63; lia].
    unfold max63 in *. destruct neg; [by simplify_eq; lia|].
    destruct (Z.ltb_spec (2 ^ 63 - 1) r); [done|]. simplify_eq. lia. }
  specialize (Hk (Ok 0)). destruct l as [|c [|c' l]]; [done| |];
    destruct c as [[] [] [] [] [] [] [] []]; first [exact Hk|intros [= <-]; lia].
Qed.
