(* ===== verification/Effects.v ===== *)
(** * Programs that call the outside world

    The proxy, the backends and the main program only act through calls: of the API
    server, the session manager, the network.  A component lists its calls in a signature
    [E]; [env] answers each of them from everything that was called and answered before,
    so that it ranges over all behaviours of the outside world, and the history is the
    trace the theorems speak of. *)

From S2P Require Import Prelude.

Section effects.
Context {E : Type -> Type}.

Record event := Ev { ev_type : Type; ev_call : E ev_type; ev_answer : ev_type }.

Definition history : Type := list event.
Definition environment : Type := forall A, E A -> history -> A.

Context (env : environment).

Definition perform {A} (e : E A) : IO history A := fun h =>
  let a := env A e h in (a, h ++ [Ev A e a]).

Lemma perform_eq {A} (e : E A) h a :
  env A e h = a -> perform e h = (a, h ++ [Ev A e a]).
Proof. by intros <-. Qed.

Lemma perform_then {A B} (e : E A) (f : A -> IO history B) h a :
  env A e h = a -> io_bind (perform e) f h = f a (h ++ [Ev A e a]).
Proof. intros H. by apply io_bind_eq, perform_eq. Qed.

Lemma perform_unit (e : E unit) h : perform e h = (tt, h ++ [Ev unit e tt]).
Proof. apply perform_eq. by destruct (env unit e h). Qed.

(** The calls a program adds to the history. *)
Definition adds {A} (m : IO history A) (P : A -> history -> Prop) : Prop :=
  forall h, exists l, (m h).2 = h ++ l /\ P (m h).1 l.

Lemma adds_ret {A} (a : A) (P : A -> history -> Prop) : P a [] -> adds (io_ret a) P.
Proof. intros H h. exists []. by rewrite app_nil_r. Qed.

Lemma adds_perform {A} (e : E A) (P : A -> history -> Prop) :
  (forall a, P a [Ev A e a]) -> adds (perform e) P.
Proof. intros H h. exists [Ev A e (env A e h)]. split; [done|apply H]. Qed.

Lemma adds_bind {A B} (m : IO history A) (f : A -> IO history B)
    (P : A -> history -> Prop) (Q : B -> history -> Prop) :
  adds m P ->
  (forall a l, P a l -> adds (f a) (fun b l' => Q b (l ++ l'))) ->
  adds (io_bind m f) Q.
Proof.
  intros Hm Hf h. rewrite io_bind_run. destruct (Hm h) as (l & Hl & HP).
  destruct (Hf _ _ HP (m h).2) as (l' & Hl' & HQ).
  exists (l ++ l'). split; [|exact HQ]. by rewrite Hl', Hl, (assoc app).
Qed.

(** One call, then the rest. *)
Lemma adds_call {A B} (e : E A) (f : A -> IO history B) (Q : B -> history -> Prop) :
  (forall a, adds (f a) (fun b l => Q b (Ev A e a :: l))) ->
  adds (io_bind (perform e) f) Q.
Proof.
  intros Hf. eapply (adds_bind _ _ (fun a l => l = [Ev A e a])); [by apply adds_perform|].
  intros a l ->. apply Hf.
Qed.

Lemma adds_mono {A} (m : IO history A) (P Q : A -> history -> Prop) :
  adds m P -> (forall a l, P a l -> Q a l) -> adds m Q.
Proof. intros Hm H h. destruct (Hm h) as (l & ? & ?). exists l. auto. Qed.

Lemma adds_run {A} (m : IO history A) (P : A -> history -> Prop) h a h' :
  adds m P -> m h = (a, h') -> exists l, h' = h ++ l /\ P a l.
Proof. intros Hm H. destruct (Hm h) as (l & Hl & HP). rewrite H in *. eauto. Qed.

(** Only calls of one kind. *)
Definition calls_only {A} (P : event -> Prop) (m : IO history A) : Prop :=
  adds m (fun _ l => Forall P l).

Lemma calls_only_ret {A} P (a : A) : calls_only P (io_ret a).
Proof. by apply adds_ret. Qed.

Lemma calls_only_perform {A} (P : event -> Prop) (e : E A) :
  (forall a, P (Ev A e a)) -> calls_only P (perform e).
Proof. intros HP. apply adds_perform. intros a. repeat constructor. apply HP. Qed.

Lemma calls_only_bind {A B} P (m : IO history A) (f : A -> IO history B) :
  calls_only P m -> (forall a, calls_only P (f a)) -> calls_only P (io_bind m f).
Proof.
  intros Hm Hf. eapply adds_bind; [exact Hm|]. intros a l Hl.
  eapply adds_mono; [apply Hf|]. intros b l' Hl'. by apply Forall_app.
Qed.

(** *** Permitted calls

    What a component may call can depend on what its calls returned before: [allowed] is
    the client's side of an interface. *)
Section permission.
Context (allowed : history -> event -> Prop).

(** From [h] on, every call of [l] is allowed by the calls before it. *)
Fixpoint permitted (h l : history) : Prop :=
  match l with
  | [] => True
  | e :: l => allowed h e /\ permitted (h ++ [e]) l
  end.

Lemma permitted_app h l1 l2 : permitted h (l1 ++ l2) <-> permitted h l1 /\ permitted (h ++ l1) l2.
Proof.
  revert h. induction l1 as [|e l1 IH]; intros h; simpl; [rewrite app_nil_r; tauto|].
  rewrite IH, <- (assoc app). tauto.
Qed.

Lemma permitted_at h l1 e l2 : permitted h (l1 ++ e :: l2) -> allowed (h ++ l1) e.
Proof. by intros [_ [H _]]%permitted_app. Qed.

(** After the calls [h], [m] makes only permitted ones. *)
Definition lawful {A} (h : history) (m : IO history A) (Q : A -> history -> Prop) : Prop :=
  adds m (fun a l => permitted h l /\ Q a (h ++ l)).

Lemma lawful_ret {A} h (a : A) (Q : A -> history -> Prop) : Q a h -> lawful h (io_ret a) Q.
Proof. intros H. apply adds_ret. by rewrite app_nil_r. Qed.

Lemma lawful_perform {A} h (e : E A) (Q : A -> history -> Prop) :
  (forall a, allowed h (Ev A e a)) -> (forall a, Q a (h ++ [Ev A e a])) -> lawful h (perform e) Q.
Proof. intros Ha HQ. apply adds_perform. intros a. by split; [split; [apply Ha|]|]. Qed.

Lemma lawful_bind {A B} h (m : IO history A) (f : A -> IO history B) P (Q : B -> history -> Prop) :
  lawful h m P -> (forall a h', P a h' -> lawful h' (f a) Q) -> lawful h (io_bind m f) Q.
Proof.
  intros Hm Hf. eapply adds_bind; [exact Hm|]. intros a l [Hl HP].
  eapply adds_mono; [apply (Hf _ _ HP)|]. intros b l' [Hl' HQ].
  rewrite permitted_app, (assoc app). auto.
Qed.

Lemma lawful_call {A B} h (e : E A) (f : A -> IO history B) (Q : B -> history -> Prop) :
  (forall a, allowed h (Ev A e a)) -> (forall a, lawful (h ++ [Ev A e a]) (f a) Q) ->
  lawful h (io_bind (perform e) f) Q.
Proof.
  intros Ha Hf. eapply (lawful_bind _ _ _ (fun a h' => h' = h ++ [Ev A e a])).
  - by apply lawful_perform.
  - by intros a h' ->.
Qed.

Lemma lawful_mono {A} h (m : IO history A) (P Q : A -> history -> Prop) :
  lawful h m P -> (forall a h', P a h' -> Q a h') -> lawful h m Q.
Proof. intros Hm H. eapply adds_mono; [exact Hm|]. intros a l [? ?]. auto. Qed.

Lemma lawful_calls_only {A} h (P : event -> Prop) (m : IO history A) :
  calls_only P m -> (forall h e, P e -> allowed h e) ->
  lawful h m (fun _ h' => exists l, h' = h ++ l).
Proof.
  intros Hm HP. eapply adds_mono; [exact Hm|]. intros a l Hl. split; [|by exists l].
  clear Hm. revert h. induction Hl as [|e l He _ IH]; intros h; simpl; auto.
Qed.
End permission.

(** *** Calls answered by the environment *)

Fixpoint answered_by (h l : history) : Prop :=
  match l with
  | [] => True
  | e :: l => ev_answer e = env _ (ev_call e) h /\ answered_by (h ++ [e]) l
  end.

Lemma answered_by_app h l1 l2 :
  answered_by h (l1 ++ l2) <-> answered_by h l1 /\ answered_by (h ++ l1) l2.
Proof.
  revert h. induction l1 as [|e l1 IH]; intros h; simpl; [rewrite app_nil_r; tauto|].
  rewrite IH, <- (assoc app). tauto.
Qed.

(** [m] only adds calls, with the answers of the environment. *)
Definition performs {A} (m : IO history A) : Prop :=
  forall h, exists l, (m h).2 = h ++ l /\ answered_by h l.

Lemma performs_ret {A} (a : A) : performs (io_ret a).
Proof. intros h. exists []. by rewrite app_nil_r. Qed.

Lemma performs_perform {A} (e : E A) : performs (perform e).
Proof. intros h. by eexists [_]. Qed.

Lemma performs_bind {A B} (m : IO history A) (f : A -> IO history B) :
  performs m -> (forall a, performs (f a)) -> performs (io_bind m f).
Proof.
  intros Hm Hf h. rewrite io_bind_run. destruct (Hm h) as (l & Hl & Ha).
  destruct (Hf (m h).1 (m h).2) as (l' & Hl' & Ha'). exists (l ++ l').
  rewrite Hl', answered_by_app, (assoc app). by rewrite Hl in *.
Qed.
End effects.
Arguments event : clear implicits.
Arguments history : clear implicits.
Arguments environment : clear implicits.
Arguments Ev {E A} _ _ : rename.

Create HintDb calls_only discriminated.
#[export] Hint Resolve calls_only_ret : calls_only.
#[export] Hint Extern 1 (calls_only _ (perform _ _)) =>
  apply calls_only_perform; intros ?; exact I : calls_only.

(** A program all of whose calls are of one kind, by cases on its text. *)
Ltac solve_calls_only :=
  repeat first
    [ solve [eauto with calls_only]
    | apply calls_only_bind; [|intros ?]
    | case_match ].

Create HintDb performs discriminated.
#[export] Hint Resolve performs_ret performs_perform : performs.

(** A program whose parts do so. *)
Ltac solve_performs :=
  repeat first
    [ solve [eauto with performs]
    | apply performs_bind; [|intros ?]
    | case_match ].
