(* ===== verification/Backend.v ===== *)
(** * The backend abstraction ([internal/backend/backend.go])

    The endpoint of a sandbox, the two addresses the proxy dials on it, and the
    interface every sandbox provisioner implements. *)

From S2P Require Import Prelude GoStd.
Local Open Scope Z_scope.

Record Endpoint := mkEndpoint {
  Host : string;
  TargetActor : string;
  Port : Z;
  MCPPort : Z;
}.

#[export] Instance Endpoint_eq_dec : EqDecision Endpoint.
Proof. solve_decision. Defined.

(** The zero value of the struct. *)
Definition Endpoint_zero : Endpoint := mkEndpoint "" "" 0 0.

(** [fmt.Sprintf("%s:%d", host, port)] *)
Definition host_port (host : string) (port : Z) : string := host +:+ ":" +:+ fmt_d port.

Definition Addr (e : Endpoint) : string := host_port (Host e) (Port e).

Definition MCPAddr (e : Endpoint) : string :=
  let port := MCPPort e in
  let port := if port =? 0 then Port e else port in
  host_port (Host e) port.

(** The interface [Backend]: what the session manager calls. *)
Class Backend (W : Type) : Type := {
  Ensure : Ctx -> string -> IO W (result error Endpoint);
  Delete : Ctx -> string -> IO W (option error);
  List : Ctx -> IO W (result error (list string));
}.

(** ** Addresses *)

(** A host that is a DNS name or an IPv4 address. *)
Definition plain_host (h : string) : Prop :=
  ":"%char ∉ to_chars h /\ "["%char ∉ to_chars h /\ "]"%char ∉ to_chars h.

#[export] Instance plain_host_dec h : Decision (plain_host h).
Proof. unfold plain_host. apply _. Defined.

Lemma host_port_split h p :
  plain_host h -> net_SplitHostPort (host_port h p) = Ok (h, fmt_d p).
Proof.
  intros (? & ? & ?). apply SplitHostPort_plain; try done; by apply fmt_d_not_in.
Qed.

(** C40. The two dial addresses split back into the host and the port they were made of,
    the MCP one falling back to the WebSocket port, when the host is a DNS name or an
    IPv4 address. *)
Theorem addr_roundtrip (e : Endpoint) :
  plain_host (Host e) -> in_int64 (Port e) -> in_int64 (MCPPort e) ->
  (exists p, net_SplitHostPort (Addr e) = Ok (Host e, p) /\ strconv_Atoi p = Ok (Port e)) /\
  (exists p, net_SplitHostPort (MCPAddr e) = Ok (Host e, p) /\
     strconv_Atoi p = Ok (if MCPPort e =? 0 then Port e else MCPPort e)).
Proof.
  intros Hh Hp Hm. split; eexists; (split; [by apply host_port_split|]);
    apply Atoi_fmt_d; [done|]. by destruct (MCPPort e =? 0).
Qed.

Lemma addr_roundtrip_witness :
  exists p, net_SplitHostPort (Addr (mkEndpoint "10.0.0.7" "" 9222 8931)) = Ok ("10.0.0.7", p).
Proof.
  destruct (addr_roundtrip (mkEndpoint "10.0.0.7" "" 9222 8931)) as [[p [H _]] _].
  - by_decision.
  - by_decision.
  - by_decision.
  - exists p. exact H.
Defined.

(** A host that holds a colon and is not bracketed, such as an IPv6 pod address, gives
    dial addresses that cannot be split. *)
Theorem addr_ipv6_undialable (e : Endpoint) :
  ":"%char ∈ to_chars (Host e) -> head (to_chars (Host e)) <> Some "["%char ->
  exists err1 err2,
    net_SplitHostPort (Addr e) = Err err1 /\ net_SplitHostPort (MCPAddr e) = Err err2.
Proof.
  intros Hc Hh. do 2 eexists.
  split; apply SplitHostPort_colon_host; try done; by apply fmt_d_not_in.
Qed.

Lemma addr_ipv6_undialable_witness :
  exists err, net_SplitHostPort (Addr (mkEndpoint "fd00::7" "" 9222 8931)) = Err err.
Proof.
  destruct (addr_ipv6_undialable (mkEndpoint "fd00::7" "" 9222 8931)) as (e1 & e2 & H & _).
  - by_decision.
  - by_decision.
  - exists e1. exact H.
Defined.
