(* ===== verification/Ids.v ===== *)
(** * Backends as sets of ids, alone and shared

    A backend's Ensure and Delete are programs over a server that keeps a state.  Each has
    one call at which it takes effect on the set of ids ([KeepsIds]).  From that follow what
    a caller who is alone sees ([IdSet]) and what any number of callers of one server see:
    their calls can be put in an order, that of those points, in which each of them acts on
    the set at once ([shares_ids]). *)

From S2P Require Import Prelude GoStd Effects Backend.

(** ** Calls of a backend *)

Inductive op :=
| DoEnsure (ctx : Ctx) (id : string)
| DoDelete (ctx : Ctx) (id : string).

Definition op_id (o : op) : string := match o with DoEnsure _ id | DoDelete _ id => id end.

(** Run one; whether it succeeds. *)
Definition op_run {W} (B : Backend.Backend W) (o : op) (w : W) : bool * W :=
  match o with
  | DoEnsure ctx id => (is_ok (Backend.Ensure ctx id w).1, (Backend.Ensure ctx id w).2)
  | DoDelete ctx id =>
      (match (Backend.Delete ctx id w).1 with None => true | Some _ => false end,
       (Backend.Delete ctx id w).2)
  end.

(** The effect on a set of ids. *)
Definition op_set (o : op) (id : string) (P : Prop) : Prop :=
  match o with DoEnsure _ i => P \/ id = i | DoDelete _ i => P /\ id <> i end.

#[export] Instance op_set_proper o id : Proper (iff ==> iff) (op_set o id).
Proof. intros P Q H. destruct o; simpl; by rewrite H. Qed.

(** ** What a backend promises to a caller who is alone *)

Class IdSet {W} (B : Backend.Backend W) (inv : W -> Prop) (managed : W -> string -> Prop)
    (dom : string -> Prop) : Prop := {
  ensure_adds_id ctx id w :
    dom id -> inv w ->
    inv (Backend.Ensure ctx id w).2 /\
    forall id', dom id' ->
      (managed w id' -> managed (Backend.Ensure ctx id w).2 id') /\
      (managed (Backend.Ensure ctx id w).2 id' -> id' = id \/ managed w id') /\
      (is_ok (Backend.Ensure ctx id w).1 = true -> managed (Backend.Ensure ctx id w).2 id);
  delete_removes_id ctx id w :
    dom id -> inv w ->
    inv (Backend.Delete ctx id w).2 /\
    forall id', dom id' ->
      match (Backend.Delete ctx id w).1 with
      | None => managed (Backend.Delete ctx id w).2 id' <-> managed w id' /\ id' <> id
      | Some _ => managed (Backend.Delete ctx id w).2 id' <-> managed w id'
      end;
  list_returns_ids ctx w ids :
    inv w -> (Backend.List ctx w).1 = Ok ids ->
    inv (Backend.List ctx w).2 /\
    forall id, id ∈ ids <-> id <> EmptyString /\ dom id /\ managed w id;
}.

(** ** A server that keeps a state *)

Section server.
Context {E : Type -> Type} {Σ : Type}.

(** How a call with its answer changes the state, and which answers are true of it. *)
Record Server := mkServer {
  apply : Σ -> event E -> Σ;
  honest : Σ -> event E -> Prop;
}.

Context (S : Server).

Definition after (σ : Σ) (l : history E) : Σ := foldl (apply S) σ l.

Fixpoint honestly (σ : Σ) (l : history E) : Prop :=
  match l with
  | [] => True
  | e :: l => honest S σ e /\ honestly (apply S σ e) l
  end.

(** A server without other callers: its state is what the calls before left of [σ0]. *)
Definition honest_env (σ0 : Σ) (env : environment E) : Prop :=
  forall A (c : E A) h, honest S (after σ0 h) (Ev c (env A c h)).

Lemma after_app σ l1 l2 : after σ (l1 ++ l2) = after (after σ l1) l2.
Proof. apply foldl_app. Qed.

Lemma honestly_app σ l1 l2 : honestly σ (l1 ++ l2) <-> honestly σ l1 /\ honestly (after σ l1) l2.
Proof. revert σ. induction l1 as [|e l1 IH]; intros σ; simpl; [tauto|]. rewrite IH. tauto. Qed.

Lemma answered_honestly σ0 env h l :
  honest_env σ0 env -> answered_by env h l -> honestly (after σ0 h) l.
Proof.
  intros Henv. revert h. induction l as [|e l IH]; intros h; simpl; [done|]. intros [He Hl].
  split; [destruct e; simpl in He; subst; apply Henv|]. apply IH in Hl. by rewrite after_app in Hl.
Qed.

(** *** The interface *)

(** [allowed o h e]: an execution of [o] that has called [h] may call and be answered [e].
    [point o e]: the call at which it takes effect, the first time. *)
Class KeepsIds (B : environment E -> Backend.Backend (history E)) (inv : Σ -> Prop)
    (managed : Σ -> string -> Prop) (dom : string -> Prop)
    (allowed : op -> history E -> event E -> Prop) (point : op -> event E -> bool) : Prop := {
  ensure_lawful env ctx id :
    lawful (allowed (DoEnsure ctx id)) [] (@Backend.Ensure _ (B env) ctx id) (fun r h =>
      is_ok r = true -> existsb (point (DoEnsure ctx id)) h = true);
  delete_lawful env ctx id :
    lawful (allowed (DoDelete ctx id)) [] (@Backend.Delete _ (B env) ctx id) (fun r h =>
      existsb (point (DoDelete ctx id)) h = match r with None => true | Some _ => false end);
  list_lawful env ctx :
    adds (@Backend.List _ (B env) ctx) (fun r l => forall σ, inv σ -> honestly σ l ->
      after σ l = σ /\ forall ids, r = Ok ids ->
        forall id, id ∈ ids <-> id <> EmptyString /\ dom id /\ managed σ id);
  programs_follow env ctx id :
    performs env (@Backend.Ensure _ (B env) ctx id) /\
    performs env (@Backend.Delete _ (B env) ctx id) /\
    performs env (@Backend.List _ (B env) ctx);
  step_keeps o h e σ :
    dom (op_id o) -> allowed o h e -> inv σ -> honest S σ e ->
    inv (apply S σ e) /\ forall id, dom id ->
      managed (apply S σ e) id <->
      (if point o e && negb (existsb (point o) h) then op_set o id (managed σ id) else managed σ id);
}.

Context (B : environment E -> Backend.Backend (history E)) (inv : Σ -> Prop)
  (managed : Σ -> string -> Prop) (dom : string -> Prop)
  (allowed : op -> history E -> event E -> Prop) (point : op -> event E -> bool).
Context `{!KeepsIds B inv managed dom allowed point}.

(** Has an execution taken effect? *)
Notation done_ o h := (existsb (point o) h).

Lemma op_performs env o h : exists l, (op_run (B env) o h).2 = h ++ l /\ answered_by env h l.
Proof.
  destruct o as [ctx id|ctx id]; destruct (programs_follow env ctx id) as (He & Hd & _).
  - apply (He h).
  - apply (Hd h).
Qed.

(** The calls of an execution, and what its result tells of its effect. *)
Lemma op_lawful env o h l :
  (op_run (B env) o h).2 = h ++ l ->
  permitted (allowed o) [] l /\
  ((op_run (B env) o h).1 = true -> done_ o l = true) /\
  (forall ctx id, o = DoDelete ctx id -> (op_run (B env) o h).1 = false -> done_ o l = false).
Proof.
  destruct o as [ctx id|ctx id]; simpl.
  - destruct (ensure_lawful env ctx id h) as (l' & -> & Hl & HQ). intros <-%app_inv_head.
    split_and!; [done|exact HQ|]. by intros.
  - destruct (delete_lawful env ctx id h) as (l' & -> & Hl & HQ). intros <-%app_inv_head.
    simpl in HQ. split; [done|]. rewrite HQ. split; [done|]. by intros.
Qed.

Lemma done_snoc o h e :
  done_ o (h ++ [e]) = (point o e && negb (done_ o h)) || done_ o h.
Proof. rewrite existsb_app. simpl. by destruct (point o e), (done_ o h). Qed.

(** The effect of a stretch of calls. *)
Lemma lawful_effect o h l σ :
  dom (op_id o) -> permitted (allowed o) h l -> inv σ -> honestly σ l ->
  inv (after σ l) /\ forall id, dom id ->
    managed (after σ l) id <->
    (if done_ o (h ++ l) && negb (done_ o h) then op_set o id (managed σ id) else managed σ id).
Proof.
  intros Ho. revert h σ. induction l as [|e l IH]; intros h σ.
  { intros _ Hσ _. split; [done|]. intros id _. rewrite app_nil_r. by destruct (done_ o h). }
  intros [He Hl] Hσ [Hhe Hhl]. destruct (step_keeps o h e σ Ho He Hσ Hhe) as [Hσ' Hm].
  destruct (IH _ _ Hl Hσ' Hhl) as [Hinv Hm']. split; [exact Hinv|]. intros id Hid. simpl.
  specialize (Hm id Hid). specialize (Hm' id Hid). rewrite <- (assoc app) in Hm'. simpl in Hm'.
  rewrite Hm', done_snoc, existsb_app. simpl.
  destruct (point o e), (done_ o h), (done_ o l); simpl in *; by rewrite ?Hm.
Qed.

(** *** Alone *)

Lemma op_alone σ0 env o h :
  honest_env σ0 env -> dom (op_id o) -> inv (after σ0 h) ->
  inv (after σ0 (op_run (B env) o h).2) /\
  exists effective : bool,
    (forall id, dom id -> managed (after σ0 (op_run (B env) o h).2) id <->
       (if effective then op_set o id (managed (after σ0 h) id) else managed (after σ0 h) id)) /\
    ((op_run (B env) o h).1 = true -> effective = true) /\
    (forall ctx id, o = DoDelete ctx id -> (op_run (B env) o h).1 = false -> effective = false).
Proof.
  intros Henv Ho Hh. destruct (op_performs env o h) as (l & Hl & Ha).
  destruct (op_lawful env o h l Hl) as (Hp & Hok & Hdel).
  destruct (lawful_effect o [] l (after σ0 h) Ho Hp Hh) as [Hinv Hm].
  { by eapply answered_honestly. }
  rewrite Hl, after_app. split; [exact Hinv|]. exists (done_ o l). simpl in Hm.
  split_and!; [|done..]. intros id Hid. rewrite (Hm id Hid). by destruct (done_ o l).
Qed.

Lemma id_set_alone σ0 env :
  honest_env σ0 env ->
  IdSet (B env) (fun h => inv (after σ0 h)) (fun h => managed (after σ0 h)) dom.
Proof.
  intros Henv. split.
  - intros ctx id h Hid Hh.
    destruct (op_alone σ0 env (DoEnsure ctx id) h Henv Hid Hh) as [Hinv (eff & Hm & Hok & _)].
    split; [exact Hinv|]. simpl in Hm, Hok. intros id' Hid'.
    pose proof (Hm id' Hid') as Hm'. pose proof (Hm id Hid) as Hm0.
    split_and!; [destruct eff; naive_solver..|]. intros Hr. rewrite Hm0, (Hok Hr). by right.
  - intros ctx id h Hid Hh.
    destruct (op_alone σ0 env (DoDelete ctx id) h Henv Hid Hh) as [Hinv (eff & Hm & Hok & Hno)].
    split; [exact Hinv|]. simpl in Hm, Hok, Hno. intros id' Hid'. specialize (Hm id' Hid').
    destruct (Backend.Delete ctx id h).1.
    + by rewrite (Hno _ _ eq_refl eq_refl) in Hm.
    + by rewrite (Hok eq_refl) in Hm.
  - intros ctx h ids Hh Hids.
    destruct (list_lawful env ctx h) as (l & Hl & HQ).
    destruct (programs_follow env ctx EmptyString) as (_ & _ & Hf). destruct (Hf h) as (l' & Hl' & Ha).
    rewrite Hl in Hl'. apply app_inv_head in Hl' as <-.
    destruct (HQ (after σ0 h) Hh) as [Hsame Hin]; [by eapply answered_honestly|].
    rewrite Hl, after_app, Hsame. auto.
Qed.

(** *** Sharing the server

    Any number of executions, numbered, whose calls the server answers one after the
    other: a shared history lists the calls with the execution that made each. *)
Section shared.
Context (ops : nat -> op).
Implicit Types (H : list (nat * event E)) (t u : nat).

(** The calls of one execution. *)
Definition mine (t : nat) H : history E := (filter (fun x => x.1 = t) H).*2.

(** Every execution that has called has so far made calls its program makes, whatever it was answered. *)
Definition executing H : Prop :=
  forall t, mine t H <> [] -> exists env l, (op_run (B env) (ops t) []).2 = mine t H ++ l.

(** The execution has returned, a success or not. *)
Definition returned (t : nat) (ok : bool) H : Prop :=
  exists env, op_run (B env) (ops t) [] = (ok, mine t H).

(** The order in which the executions took effect, after the calls [seen]. *)
Fixpoint order_from (seen H : list (nat * event E)) : list nat :=
  match H with
  | [] => []
  | x :: H =>
      (if point (ops x.1) x.2 && negb (done_ (ops x.1) (mine x.1 seen)) then [x.1] else [])
      ++ order_from (seen ++ [x]) H
  end.
Definition order H : list nat := order_from [] H.

(** A set of ids after operations one at a time. *)
Definition in_order (id : string) (P : Prop) (ts : list nat) : Prop :=
  foldl (fun P t => op_set (ops t) id P) P ts.

Lemma mine_app t H1 H2 : mine t (H1 ++ H2) = mine t H1 ++ mine t H2.
Proof. unfold mine. by rewrite filter_app, fmap_app. Qed.

Lemma mine_cons t x H : mine t (x :: H) = (if decide (x.1 = t) then [x.2] else []) ++ mine t H.
Proof. unfold mine. rewrite filter_cons. by case_decide. Qed.

(** The calls of one execution, marked with it. *)
Lemma mine_pairs t u l : mine t (map (pair u) l) = if decide (u = t) then l else [].
Proof.
  induction l as [|e l IH]; [by case_decide|]. simpl. rewrite mine_cons, IH. simpl. by case_decide.
Qed.

Lemma order_from_app seen H1 H2 :
  order_from seen (H1 ++ H2) = order_from seen H1 ++ order_from (seen ++ H1) H2.
Proof.
  revert seen. induction H1 as [|x H1 IH]; intros seen; simpl; [by rewrite app_nil_r|].
  by rewrite IH, <- !(assoc app).
Qed.

(** Who is in the order: those whose point is among the calls. *)
Lemma elem_order_from t seen H :
  t ∈ order_from seen H <-> done_ (ops t) (mine t seen) = false /\ done_ (ops t) (mine t H) = true.
Proof.
  revert seen. induction H as [|x H IH]; intros seen; simpl; [set_solver|].
  rewrite elem_of_app, IH, mine_app, !mine_cons, !existsb_app. simpl.
  destruct (decide (x.1 = t)) as [<-|Hne]; simpl; rewrite !orb_false_r.
  - destruct (point (ops x.1) x.2), (done_ (ops x.1) (mine x.1 seen)),
      (done_ (ops x.1) (mine x.1 H)); simpl; set_solver.
  - destruct (point _ _ && negb _); set_solver.
Qed.

Lemma order_from_NoDup seen H : NoDup (order_from seen H).
Proof.
  revert seen. induction H as [|x H IH]; intros seen; simpl; [constructor|].
  apply NoDup_app. split_and!; [|intros t|apply IH].
  - case_match; repeat constructor. set_solver.
  - rewrite elem_order_from, mine_app, mine_cons, !existsb_app. intros Ht.
    destruct (point _ _ && negb _) eqn:Hp; [|set_solver].
    apply list_elem_of_singleton in Ht as ->. apply andb_prop in Hp as [Hp _].
    rewrite decide_True by done. simpl. rewrite Hp. simpl. rewrite orb_true_r. by intros [? _].
Qed.

Lemma in_order_app id P l1 l2 : in_order id P (l1 ++ l2) = in_order id (in_order id P l1) l2.
Proof. apply foldl_app. Qed.

Lemma executing_app H1 H2 : executing (H1 ++ H2) -> executing H1.
Proof.
  intros Hx t Hne. destruct (Hx t) as (env & l & Hl).
  { rewrite mine_app. by intros [? _]%app_nil. }
  exists env, (mine t H2 ++ l).
  by rewrite Hl, mine_app, (assoc app).
Qed.

Lemma executing_allowed H t e :
  executing (H ++ [(t, e)]) -> allowed (ops t) (mine t H) e.
Proof.
  intros Hx. unfold executing in Hx. specialize (Hx t).
  rewrite mine_app, mine_cons in Hx. simpl in Hx. rewrite decide_True in Hx by done.
  destruct Hx as (env & l & Hl); [by intros [_ ?]%app_nil|]. rewrite <- (assoc app) in Hl.
  destruct (op_lawful env (ops t) [] (mine t H ++ [e] ++ l) Hl) as (Hp & _).
  by apply permitted_at in Hp.
Qed.

(** The set at any moment is the one of the order so far. *)
Lemma order_tracks σ0 H :
  (forall t, dom (op_id (ops t))) -> inv σ0 -> honestly σ0 H.*2 -> executing H ->
  inv (after σ0 H.*2) /\
  forall id, dom id -> managed (after σ0 H.*2) id <-> in_order id (managed σ0 id) (order H).
Proof.
  intros Hdom Hinv. induction H as [|[t e] H IH] using rev_ind; [by intros|].
  rewrite fmap_app, after_app, honestly_app. simpl. intros (Hhon & He & _) Hx.
  destruct (IH Hhon (executing_app _ _ Hx)) as [Hinv' Hm].
  destruct (step_keeps (ops t) (mine t H) e _ (Hdom t) (executing_allowed _ _ _ Hx) Hinv' He)
    as [Hinv'' Hm']. split; [exact Hinv''|]. intros id Hid.
  unfold order. rewrite order_from_app, in_order_app. simpl. rewrite app_nil_r.
  rewrite (Hm' id Hid). destruct (point _ _ && negb _); simpl; by rewrite (Hm id Hid).
Qed.

Lemma returned_true t H : returned t true H -> t ∈ order H.
Proof.
  intros [env Hr]. apply elem_order_from. split; [done|].
  destruct (op_lawful env (ops t) [] (mine t H)) as (_ & Hok & _); [by rewrite Hr|].
  apply Hok. by rewrite Hr.
Qed.

Lemma returned_false t H ctx id :
  ops t = DoDelete ctx id -> returned t false H -> t ∉ order H.
Proof.
  intros Ho [env Hr] [_ Ht]%elem_order_from.
  destruct (op_lawful env (ops t) [] (mine t H)) as (_ & _ & Hno); [by rewrite Hr|].
  rewrite (Hno ctx id Ho) in Ht; [done|by rewrite Hr].
Qed.

(** The call at which an execution in the order took effect. *)
Lemma elem_order_split t seen H :
  t ∈ order_from seen H -> exists H1 e H2, H = H1 ++ (t, e) :: H2 /\ point (ops t) e = true /\
    done_ (ops t) (mine t (seen ++ H1)) = false.
Proof.
  revert seen. induction H as [|[u e] H IH]; intros seen; simpl; [set_solver|].
  intros [Ht|(H1 & e' & H2 & -> & Hp & Hd)%IH]%elem_of_app.
  - destruct (point (ops u) e) eqn:Hp; [|by apply elem_of_nil in Ht].
    destruct (done_ (ops u) (mine u seen)) eqn:Hd; [by apply elem_of_nil in Ht|].
    apply list_elem_of_singleton in Ht as ->. exists [], e, H. rewrite app_nil_r. by split_and!.
  - exists ((u, e) :: H1), e', H2. rewrite <- (assoc app) in Hd. by split_and!.
Qed.

Lemma took_effect σ0 H t ctx id :
  (forall t, dom (op_id (ops t))) -> inv σ0 -> honestly σ0 H.*2 -> executing H ->
  ops t = DoEnsure ctx id -> t ∈ order H ->
  exists H1 e H2, H = H1 ++ (t, e) :: H2 /\ point (ops t) e = true /\
    managed (after σ0 (H1 ++ [(t, e)]).*2) id.
Proof.
  intros Hdom Hinv Hhon Hx Ho (H1 & e & H2 & -> & Hp & Hd)%elem_order_split.
  exists H1, e, H2. split_and!; [done..|].
  rewrite fmap_app, honestly_app in Hhon. destruct Hhon as [Hhon [He _]].
  replace (H1 ++ (t, e) :: H2) with ((H1 ++ [(t, e)]) ++ H2) in Hx
    by (by rewrite <- (assoc app)).
  pose proof (executing_app _ _ Hx) as Hx1.
  destruct (order_tracks σ0 H1 Hdom Hinv Hhon (executing_app _ _ Hx1)) as [Hinv' _].
  destruct (step_keeps (ops t) (mine t H1) e _ (Hdom t) (executing_allowed _ _ _ Hx1) Hinv' He)
    as [_ Hm]. pose proof (Hdom t) as Hid. rewrite Ho in Hid. rewrite fmap_app, after_app. simpl.
  apply (Hm id Hid). simpl in Hd. rewrite Hp, Hd, Ho. by right.
Qed.

(** *** The promise to callers that share the server

    However the calls of any number of Ensures and Deletes interleave, they can be put in
    an order in which each acts on the set of ids at once: the set is always the one of the
    order so far, no execution is in it twice, one that succeeded is, a Delete that failed
    is not, and one that returned before another began comes before it. *)
Record serializable (σ0 : Σ) (H : list (nat * event E)) (ord : list (nat * event E) -> list nat)
  : Prop := {
  ord_set id : dom id -> managed (after σ0 H.*2) id <-> in_order id (managed σ0 id) (ord H);
  ord_once : NoDup (ord H);
  ord_succeeded t : returned t true H -> t ∈ ord H;
  ord_failed t ctx id : ops t = DoDelete ctx id -> returned t false H -> t ∉ ord H;
  ord_prefix H1 H2 : H = H1 ++ H2 -> ord H1 `prefix_of` ord H;
  ord_begun t : t ∈ ord H -> mine t H <> [];
}.

Lemma order_serializes σ0 H :
  (forall t, dom (op_id (ops t))) -> inv σ0 -> honestly σ0 H.*2 -> executing H ->
  serializable σ0 H order.
Proof.
  intros Hdom Hinv Hhon Hx. split.
  - intros id Hid. by apply order_tracks.
  - apply order_from_NoDup.
  - intros t. apply returned_true.
  - intros t ctx id. apply returned_false.
  - intros H1 H2 ->. unfold order. rewrite order_from_app. by eexists.
  - intros t [_ Ht]%elem_order_from Hnil. by rewrite Hnil in Ht.
Qed.
End shared.

Definition shares_ids : Prop :=
  forall ops σ0, exists ord, forall H,
    (forall t, dom (op_id (ops t))) -> inv σ0 -> honestly σ0 H.*2 -> executing ops H ->
    serializable ops σ0 H ord.

Lemma keeps_ids_shares : shares_ids.
Proof. intros ops σ0. exists (order ops). apply order_serializes. Qed.
End server.
Arguments Server : clear implicits.
