(* ===== verification/Metrics.v ===== *)
(** * Prometheus instrumentation ([internal/metrics/metrics.go])

    The Prometheus client is third-party code, so a [Metrics] value records the
    operations the proxy performs on it: the registrations made by [New] and the
    wiring calls, then one entry per counter, gauge or histogram operation.  A
    [*Metrics] pointer is an [option Metrics]; every method is a no-op on nil.

    A duration in seconds ([float64]) is represented by the exact number of
    nanoseconds it is computed from. *)

From S2P Require Import Prelude GoStd.
Local Open Scope Z_scope.

Definition OutcomeSuccess : string := "success".
Definition OutcomeFailure : string := "failure".
Definition DirClientToBackend : string := "c2b".
Definition DirBackendToClient : string := "b2c".
Definition LookupCacheHit : string := "cache_hit".
Definition LookupAPIFallback : string := "api_fallback".
Definition LookupMiss : string := "miss".

(** The collector fields of the struct. *)
Inductive collector :=
| sessionsCreated | sessionsRefreshed | sessionsReaped | ensureDuration | ensureFailures
| sessionLifetime | sessionIdle
| activeConns | connDuration | requests | requestLatency | bytes
| lookups | unknownClients
| backendDialFailures | proxyErrors | backendDeleteFailures.

#[export] Instance collector_eq_dec : EqDecision collector.
Proof. solve_decision. Defined.

Inductive kind := KCounter | KGauge | KHistogram.

#[export] Instance kind_eq_dec : EqDecision kind.
Proof. solve_decision. Defined.

(** A collector's descriptor: its name, kind, variable labels and, for a histogram,
    its bucket bounds in milliseconds ([prometheus.DefBuckets] is the client's). *)
Inductive buckets :=
| NoBuckets
| Buckets (ms : list Z)
| ExponentialBuckets (start factor : Z) (count : nat)
| DefBuckets.

Record desc := mkDesc {
  name : string;
  dkind : kind;
  labels : list string;
  dbuckets : buckets;
}.

(** The collectors [New] builds. *)
Definition desc_of (c : collector) : desc :=
  match c with
  | sessionsCreated =>
      mkDesc "playwright_sessions_created_total" KCounter ["backend"; "outcome"] NoBuckets
  | sessionsRefreshed =>
      mkDesc "playwright_sessions_refreshed_total" KCounter ["backend"; "outcome"] NoBuckets
  | sessionsReaped =>
      mkDesc "playwright_sessions_reaped_total" KCounter ["reason"] NoBuckets
  | ensureDuration =>
      mkDesc "playwright_session_ensure_duration_seconds" KHistogram ["backend"; "outcome"]
        (Buckets [250; 500; 1000; 2000; 5000; 10000; 20000; 30000; 60000; 120000])
  | ensureFailures =>
      mkDesc "playwright_session_ensure_failures_total" KCounter ["backend"] NoBuckets
  | sessionLifetime =>
      mkDesc "playwright_session_lifetime_seconds" KHistogram ["backend"]
        (ExponentialBuckets 10000 2 12)
  | sessionIdle =>
      mkDesc "playwright_session_idle_seconds" KHistogram [] (ExponentialBuckets 30000 2 10)
  | activeConns => mkDesc "playwright_active_connections" KGauge [] NoBuckets
  | connDuration =>
      mkDesc "playwright_connection_duration_seconds" KHistogram ["protocol"]
        (ExponentialBuckets 1000 2 14)
  | requests => mkDesc "playwright_requests_total" KCounter ["protocol"; "code"] NoBuckets
  | requestLatency =>
      mkDesc "playwright_request_duration_seconds" KHistogram ["protocol"] DefBuckets
  | bytes => mkDesc "playwright_bytes_transferred_total" KCounter ["direction"] NoBuckets
  | lookups => mkDesc "playwright_lookups_total" KCounter ["result"] NoBuckets
  | unknownClients => mkDesc "playwright_unknown_client_total" KCounter [] NoBuckets
  | backendDialFailures =>
      mkDesc "playwright_backend_dial_failures_total" KCounter [] NoBuckets
  | proxyErrors => mkDesc "playwright_proxy_errors_total" KCounter ["kind"] NoBuckets
  | backendDeleteFailures =>
      mkDesc "playwright_backend_delete_failures_total" KCounter [] NoBuckets
  end.

(** What is asked of the registry. *)
Inductive regop :=
| RegGoCollector
| RegProcessCollector
| RegBuildInfo (name : string) (labels values : list string)
| RegCollector (c : collector)
| RegGaugeFunc (name : string).

(** What is asked of a collector: the label values given to [WithLabelValues] and
    the operation. *)
Inductive promop :=
| Inc (c : collector) (lvs : list string)
| Dec (c : collector) (lvs : list string)
| Add (c : collector) (lvs : list string) (n : Z)
| Observe (c : collector) (lvs : list string) (d : Z).

#[export] Instance promop_eq_dec : EqDecision promop.
Proof. solve_decision. Defined.

Record Metrics := mkMetrics { reg : list regop; ops : list promop }.

(** The order of the last [MustRegister] call of [New]. *)
Definition registered_collectors : list collector :=
  [sessionsCreated; sessionsRefreshed; sessionsReaped; ensureDuration; ensureFailures;
   sessionLifetime; sessionIdle; activeConns; connDuration;
   requests; requestLatency; bytes; lookups; unknownClients;
   backendDialFailures; proxyErrors; backendDeleteFailures].

Definition New (backend version commit : string) : Metrics :=
  mkMetrics
    ([RegGoCollector; RegProcessCollector;
      RegBuildInfo "playwright_build_info" ["version"; "commit"; "backend"]
        [version; commit; backend]]
     ++ map RegCollector registered_collectors)
    [].

(** Every method starts with [if m == nil { return }]. *)
Definition emit (op : promop) (m : option Metrics) : option Metrics :=
  match m with
  | None => None
  | Some m => Some (mkMetrics (reg m) (ops m ++ [op]))
  end.

Definition register (r : regop) (m : option Metrics) : option Metrics :=
  match m with
  | None => None
  | Some m => Some (mkMetrics (reg m ++ [r]) (ops m))
  end.

Definition Registry (m : option Metrics) : option (list regop) := reg <$> m.

Definition RegisterSessionsActive : option Metrics -> option Metrics :=
  register (RegGaugeFunc "playwright_sessions_active").

Definition RegisterRegisteredPods : option Metrics -> option Metrics :=
  register (RegGaugeFunc "playwright_registered_pods").

(** ** Session lifecycle *)

Definition SessionCreated (backend outcome : string) : option Metrics -> option Metrics :=
  emit (Inc sessionsCreated [backend; outcome]).

Definition SessionRefreshed (backend outcome : string) : option Metrics -> option Metrics :=
  emit (Inc sessionsRefreshed [backend; outcome]).

Definition SessionReaped (reason : string) : option Metrics -> option Metrics :=
  emit (Inc sessionsReaped [reason]).

Definition ObserveEnsure (backend outcome : string) (seconds : Z)
  : option Metrics -> option Metrics :=
  emit (Observe ensureDuration [backend; outcome] seconds).

Definition EnsureFailed (backend : string) : option Metrics -> option Metrics :=
  emit (Inc ensureFailures [backend]).

Definition ObserveLifetime (backend : string) (seconds : Z)
  : option Metrics -> option Metrics :=
  emit (Observe sessionLifetime [backend] seconds).

Definition ObserveIdle (seconds : Z) : option Metrics -> option Metrics :=
  emit (Observe sessionIdle [] seconds).

(** ** Usage and activity *)

Definition ConnOpened : option Metrics -> option Metrics := emit (Inc activeConns []).

Definition ConnClosed (protocol : string) (seconds : Z) (m : option Metrics)
  : option Metrics :=
  emit (Observe connDuration [protocol] seconds) (emit (Dec activeConns []) m).

Definition CountRequest (protocol code : string) : option Metrics -> option Metrics :=
  emit (Inc requests [protocol; code]).

Definition RecordRequest (protocol code : string) (seconds : Z) (m : option Metrics)
  : option Metrics :=
  emit (Observe requestLatency [protocol] seconds) (emit (Inc requests [protocol; code]) m).

Definition AddBytes (direction : string) (n : Z) (m : option Metrics) : option Metrics :=
  if n <=? 0 then m else emit (Add bytes [direction] n) m.

(** ** Routing and errors *)

Definition Lookup (result : string) : option Metrics -> option Metrics :=
  emit (Inc lookups [result]).

Definition UnknownClient : option Metrics -> option Metrics := emit (Inc unknownClients []).

Definition BackendDialFailure : option Metrics -> option Metrics :=
  emit (Inc backendDialFailures []).

Definition ProxyError (kind : string) : option Metrics -> option Metrics :=
  emit (Inc proxyErrors [kind]).

Definition BackendDeleteFailure : option Metrics -> option Metrics :=
  emit (Inc backendDeleteFailures []).

(** ** What the client library requires of its callers

    [WithLabelValues] panics when the number of values differs from the number of
    labels, [MustRegister] panics on a name registered twice, [Counter.Add] panics
    on a negative value, and a histogram's buckets must increase. *)

Definition op_ok (op : promop) : Prop :=
  match op with
  | Inc c lvs =>
      (dkind (desc_of c) = KCounter \/ dkind (desc_of c) = KGauge) /\
      length lvs = length (labels (desc_of c))
  | Dec c lvs => dkind (desc_of c) = KGauge /\ length lvs = length (labels (desc_of c))
  | Add c lvs n =>
      dkind (desc_of c) = KCounter /\ length lvs = length (labels (desc_of c)) /\ 0 <= n
  | Observe c lvs _ =>
      dkind (desc_of c) = KHistogram /\ length lvs = length (labels (desc_of c))
  end.

#[export] Instance op_ok_dec op : Decision (op_ok op).
Proof. destruct op; simpl; apply _. Defined.

Definition reg_names (r : regop) : list string :=
  match r with
  | RegBuildInfo n _ _ => [n]
  | RegCollector c => [name (desc_of c)]
  | RegGaugeFunc n => [n]
  | _ => []
  end.

Definition bucket_bounds (b : buckets) : list Z :=
  match b with
  | Buckets ms => ms
  | ExponentialBuckets start factor count =>
      map (fun i => start * factor ^ Z.of_nat i) (seq 0 count)
  | _ => []
  end.

Fixpoint increasing (l : list Z) : bool :=
  match l with
  | a :: (b :: _) as l' => (a <? b) && increasing l'
  | _ => true
  end.

(** The method calls a client of the package can make. *)
Inductive call :=
| CSessionCreated (backend outcome : string)
| CSessionRefreshed (backend outcome : string)
| CSessionReaped (reason : string)
| CObserveEnsure (backend outcome : string) (seconds : Z)
| CEnsureFailed (backend : string)
| CObserveLifetime (backend : string) (seconds : Z)
| CObserveIdle (seconds : Z)
| CConnOpened
| CConnClosed (protocol : string) (seconds : Z)
| CCountRequest (protocol code : string)
| CRecordRequest (protocol code : string) (seconds : Z)
| CAddBytes (direction : string) (n : Z)
| CLookup (result : string)
| CUnknownClient
| CBackendDialFailure
| CProxyError (kind : string)
| CBackendDeleteFailure.

Definition run_call (c : call) : option Metrics -> option Metrics :=
  match c with
  | CSessionCreated b o => SessionCreated b o
  | CSessionRefreshed b o => SessionRefreshed b o
  | CSessionReaped r => SessionReaped r
  | CObserveEnsure b o s => ObserveEnsure b o s
  | CEnsureFailed b => EnsureFailed b
  | CObserveLifetime b s => ObserveLifetime b s
  | CObserveIdle s => ObserveIdle s
  | CConnOpened => ConnOpened
  | CConnClosed p s => ConnClosed p s
  | CCountRequest p c => CountRequest p c
  | CRecordRequest p c s => RecordRequest p c s
  | CAddBytes d n => AddBytes d n
  | CLookup r => Lookup r
  | CUnknownClient => UnknownClient
  | CBackendDialFailure => BackendDialFailure
  | CProxyError k => ProxyError k
  | CBackendDeleteFailure => BackendDeleteFailure
  end.

Definition run_calls (cs : list call) (m : option Metrics) : option Metrics :=
  fold_left (fun m c => run_call c m) cs m.

(** The value the gauge of open connections shows after a list of operations. *)
Definition gauge_delta (op : promop) : Z :=
  match op with Inc activeConns _ => 1 | Dec activeConns _ => -1 | _ => 0 end.
Definition active_conns_value (l : list promop) : Z := foldr (fun op n => gauge_delta op + n) 0 l.

Definition conn_delta (c : call) : Z :=
  match c with CConnOpened => 1 | CConnClosed _ _ => -1 | _ => 0 end.

(** ** Lemmas *)

Lemma emit_Some op m : emit op (Some m) = Some (mkMetrics (reg m) (ops m ++ [op])).
Proof. reflexivity. Qed.

Lemma active_conns_value_app l1 l2 :
  active_conns_value (l1 ++ l2) = active_conns_value l1 + active_conns_value l2.
Proof. unfold active_conns_value. induction l1; simpl; lia. Qed.

(** What one call appends, and that it leaves the registry alone. *)
Lemma run_call_appends c m :
  exists l, run_call c (Some m) = Some (mkMetrics (reg m) (ops m ++ l)) /\
    Forall op_ok l /\ active_conns_value l = conn_delta c.
Proof.
  destruct c; simpl; unfold AddBytes; try case_match;
    try (eexists [_]; split; [reflexivity|]; split; [repeat constructor; simpl; auto; lia|done]).
  - exists [Dec activeConns []; Observe connDuration [protocol] seconds].
    split; [unfold ConnClosed, RecordRequest; simpl; by rewrite <- app_assoc|]. split; [repeat constructor|done].
  - exists [Inc requests [protocol; code]; Observe requestLatency [protocol] seconds].
    split; [unfold ConnClosed, RecordRequest; simpl; by rewrite <- app_assoc|]. split; [repeat constructor; simpl; auto|done].
  - exists []. rewrite app_nil_r. split; [by destruct m|]. split; [constructor|done].
Qed.

Lemma run_calls_appends cs m :
  exists l, run_calls cs (Some m) = Some (mkMetrics (reg m) (ops m ++ l)) /\
    Forall op_ok l /\ active_conns_value l = foldr (fun c n => conn_delta c + n) 0 cs.
Proof.
  revert m. induction cs as [|c cs IH]; intros m; simpl.
  - exists []. rewrite app_nil_r. by destruct m.
  - destruct (run_call_appends c m) as (l1 & H1 & Hok1 & Hn1).
    unfold run_calls in *. simpl. rewrite H1.
    destruct (IH (mkMetrics (reg m) (ops m ++ l1))) as (l2 & -> & Hok2 & Hn2). simpl.
    exists (l1 ++ l2). rewrite active_conns_value_app, Hn1, Hn2.
    split; [by rewrite (assoc app)|]. split; [by apply Forall_app|done].
Qed.

(** Whatever sequence of methods is called, on the metrics of a wired proxy or on a
    nil pointer, no operation of the client library panics: the names registered
    are distinct, every histogram's buckets increase, every operation gives as many
    label values as its collector has labels, of a collector of the right kind, and
    no counter is decreased; and the gauge of open connections counts the
    [ConnOpened] calls not yet closed. *)
Theorem metrics_never_panic (backend version commit : string) (cs : list call) :
  let m0 := RegisterRegisteredPods (RegisterSessionsActive (Some (New backend version commit))) in
  (exists m, run_calls cs m0 = Some m /\
     NoDup (reg m ≫= reg_names) /\
     (forall c, increasing (bucket_bounds (dbuckets (desc_of c))) = true) /\
     Forall op_ok (ops m) /\
     active_conns_value (ops m) = foldr (fun c n => conn_delta c + n) 0 cs) /\
  run_calls cs None = None.
Proof.
  split.
  - destruct (run_calls_appends cs (mkMetrics
      (reg (New backend version commit) ++
        [RegGaugeFunc "playwright_sessions_active"] ++ [RegGaugeFunc "playwright_registered_pods"])
      [])) as (l & Hl & Hok & Hn).
    eexists. split; [exact Hl|]. simpl. split; [by_decision|].
    split; [by intros []|done].
  - induction cs as [|c cs IH]; [done|]. unfold run_calls in *. simpl.
    replace (run_call c None) with (@None Metrics); [done|].
    destruct c; simpl; unfold AddBytes; try case_match; done.
Qed.
