(* ===== verification/Session.v ===== *)
(** * The session manager ([internal/session/session.go])

    Sessions live in a heap of shared objects, as the code's [*Session] pointers
    do; the manager's two maps refer to them.  Every function of the file is a
    program over the actions a goroutine performs: critical sections and atomic
    accesses, the [select] on a session's [ready] channel, and calls of the
    backend.  [SessionSys] runs such programs concurrently. *)

From S2P Require Import Prelude GoStd Backend Metrics.
Local Open Scope Z_scope.

(** ** Data *)

(** A [*Session] pointer. *)
Notation loc := nat (only parsing).

Record Session := mkSession {
  ID : string;
  SEndpoint : Endpoint;
  created : Z;
  lastActive : Z;      (* atomic.Int64, unix nanos *)
  activeConn : Z;      (* atomic.Int32 *)
  ready : bool;        (* the ready channel is closed *)
  serr : option error; (* the err field *)
}.

#[export] Instance Session_eq_dec : EqDecision Session.
Proof. solve_decision. Defined.

(** Declared for Get, which never returns it. *)
Definition ErrNoSession : error := NewError "no session".

Definition refreshCooldown : Z := 2 * second.

(** The immutable fields of the manager. *)
Record Manager := mkManager {
  backendKind : string;
  ensureTimeout : Z;
  idleTTL : Z;
}.

(** Completed backend calls, in order (history kept for the theorems). *)
Inductive bcall :=
| BEnsure (id : string) (r : result error Endpoint)
| BDelete (id : string) (r : option error).

#[export] Instance bcall_eq_dec : EqDecision bcall.
Proof. solve_decision. Defined.

(** The shared state: the clock, the cancelled context roots, the objects, the
    fields the mutex guards, the metrics and the history.  [panicked] records a
    run-time panic (closing a closed channel, a nil or dangling pointer). *)
Record state := mkState {
  clock : Z;
  cancelled : gset nat;
  heap : gmap loc Session;
  nextloc : loc;
  sessions : gmap string loc;
  lastRefresh : gmap string Z;
  mx : option Metrics;
  calls : list bcall;
  panicked : bool;
}.

(** Field updates. *)
Definition set_heap h st :=
  mkState (clock st) (cancelled st) h (nextloc st) (sessions st) (lastRefresh st)
    (mx st) (calls st) (panicked st).
Definition set_sessions m st :=
  mkState (clock st) (cancelled st) (heap st) (nextloc st) m (lastRefresh st)
    (mx st) (calls st) (panicked st).
Definition set_lastRefresh m st :=
  mkState (clock st) (cancelled st) (heap st) (nextloc st) (sessions st) m
    (mx st) (calls st) (panicked st).
Definition set_metrics f st :=
  mkState (clock st) (cancelled st) (heap st) (nextloc st) (sessions st) (lastRefresh st)
    (f (mx st)) (calls st) (panicked st).
Definition set_clock t st :=
  mkState t (cancelled st) (heap st) (nextloc st) (sessions st) (lastRefresh st)
    (mx st) (calls st) (panicked st).
Definition set_cancelled s st :=
  mkState (clock st) s (heap st) (nextloc st) (sessions st) (lastRefresh st)
    (mx st) (calls st) (panicked st).
Definition log_call c st :=
  mkState (clock st) (cancelled st) (heap st) (nextloc st) (sessions st) (lastRefresh st)
    (mx st) (calls st ++ [c]) (panicked st).
Definition panic st :=
  mkState (clock st) (cancelled st) (heap st) (nextloc st) (sessions st) (lastRefresh st)
    (mx st) (calls st) true.

(** [&Session{ID: id, created: now, ready: make(chan struct{})}], with [lastActive]
    stored. *)
Definition alloc (id : string) (st : state) : loc * state :=
  let sess := mkSession id Endpoint_zero (clock st) (wrap64 (clock st)) 0 false None in
  (nextloc st,
   mkState (clock st) (cancelled st) (<[nextloc st := sess]> (heap st)) (S (nextloc st))
     (sessions st) (lastRefresh st) (mx st) (calls st) (panicked st)).

(** An access through a pointer; a dangling one panics. *)
Definition update (p : loc) (f : Session -> Session) (st : state) : state :=
  match heap st !! p with
  | Some s => set_heap (<[p := f s]> (heap st)) st
  | None => panic st
  end.

Definition with_endpoint ep s :=
  mkSession (ID s) ep (created s) (lastActive s) (activeConn s) (ready s) (serr s).
Definition with_lastActive t s :=
  mkSession (ID s) (SEndpoint s) (created s) t (activeConn s) (ready s) (serr s).
Definition with_activeConn n s :=
  mkSession (ID s) (SEndpoint s) (created s) (lastActive s) n (ready s) (serr s).
Definition with_ready s :=
  mkSession (ID s) (SEndpoint s) (created s) (lastActive s) (activeConn s) true (serr s).
Definition with_err e s :=
  mkSession (ID s) (SEndpoint s) (created s) (lastActive s) (activeConn s) (ready s) (Some e).

(** ** Programs *)

(** What a [select] on [sess.ready] and [ctx.Done()] picks. *)
Inductive select := SelReady | SelDone (e : error).

(** One action of a goroutine.  A critical section (the code between [mu.Lock] and
    [mu.Unlock], or one atomic access) returns a value and the sessions for which
    it started [go m.resolve]. *)
Inductive act : Set -> Type :=
| Crit {X : Set} (f : state -> X * list loc * state) : act X
| Select (p : loc) (ctx : Ctx) : act select
| CallEnsure (ctx : Ctx) (id : string) : act (result error Endpoint)
| CallDelete (ctx : Ctx) (id : string) : act (option error)
| CallList (ctx : Ctx) : act (result error (list string)).

Inductive prog (A : Type) : Type :=
| Ret (a : A)
| Do {X : Set} (a : act X) (k : X -> prog A).
Arguments Ret {A} a.
Arguments Do {A X} a k.

Fixpoint prog_bind {A B} (f : A -> prog B) (p : prog A) : prog B :=
  match p with
  | Ret a => f a
  | Do a k => Do a (fun x => prog_bind f (k x))
  end.

Declare Scope prog_scope.
Notation "'let!' x := p 'in' k" := (prog_bind (fun x => k) p)
  (at level 200, x pattern, p at level 100, k at level 200) : prog_scope.
Notation "p >>= f" := (prog_bind f p) (at level 60, right associativity) : prog_scope.
Open Scope prog_scope.

Definition do_ {X : Set} (a : act X) : prog X := Do a Ret.
Definition crit {X : Set} (f : state -> X * list loc * state) : prog X := do_ (Crit f).
(** A section that reads, and one that only writes. *)
Definition read {X : Set} (f : state -> X) : prog X := crit (fun st => (f st, [], st)).
Definition write (f : state -> state) : prog unit := crit (fun st => (tt, [], f st)).

Definition time_Now : prog Z := read clock.

Definition session_id (p : loc) (st : state) : string :=
  match heap st !! p with Some s => ID s | None => EmptyString end.
Definition session_err (p : loc) (st : state) : option error :=
  match heap st !! p with Some s => serr s | None => None end.

(** ** Methods of [Session] *)

Definition MarkActive (p : loc) : prog unit :=
  let! now := time_Now in
  write (update p (with_lastActive (wrap64 now))).

Definition add_conn (d : Z) (s : Session) : Session :=
  with_activeConn (wrap32 (activeConn s + d)) s.

Definition ConnOpened (p : loc) : prog unit :=
  write (update p (add_conn 1)) >>= fun _ => MarkActive p.

Definition ConnClosed (p : loc) : prog unit :=
  write (update p (add_conn (-1))) >>= fun _ => MarkActive p.

Definition ActiveConns (s : Session) : Z := activeConn s.

(** [time.Unix(0, lastActive)], as unix nanoseconds *)
Definition LastActive (s : Session) : Z := lastActive s.

(** ** The manager *)

Definition New (now : Z) (m : option Metrics) : state :=
  mkState now ∅ ∅ 0%nat ∅ ∅ (RegisterSessionsActive m) [] false.

(** The value of the gauge [New] registers. *)
Definition activeCount (st : state) : nat := size (sessions st).

Section manager.
Context (m : Manager).

(** [resolve], after its Ensure call has returned [r] at time [start + elapsed] *)
Definition resolve_finish (p : loc) (elapsed : Z) (r : result error Endpoint) : prog unit :=
  (match r with
   | Err e =>
       write (update p (with_err e)) >>= fun _ =>
       write (set_metrics (fun mx =>
         SessionCreated (backendKind m) OutcomeFailure
           (EnsureFailed (backendKind m)
             (ObserveEnsure (backendKind m) OutcomeFailure elapsed mx))))
   | Ok ep =>
       write (update p (with_endpoint ep)) >>= fun _ =>
       write (set_metrics (fun mx =>
         SessionCreated (backendKind m) OutcomeSuccess
           (ObserveEnsure (backendKind m) OutcomeSuccess elapsed mx)))
   end) >>= fun _ =>
  (* close(sess.ready): a second close panics *)
  write (fun st =>
    match heap st !! p with
    | Some s => if ready s then panic st else update p with_ready st
    | None => panic st
    end).

Definition resolve (p : loc) : prog unit :=
  let! now := time_Now in
  let ctx := WithTimeout Background now (ensureTimeout m) in
  let! (start, id) := read (fun st => (clock st, session_id p st)) in
  let! r := do_ (CallEnsure ctx id) in
  let! fin := time_Now in
  resolve_finish p (sat64 (fin - start)) r.

(** The loop of [Reconcile] over the listed ids, under the lock. *)
Fixpoint reconcile_ids (ids : list string) (st : state) : list loc * state :=
  match ids with
  | [] => ([], st)
  | id :: ids =>
      match sessions st !! id with
      | Some _ => reconcile_ids ids st
      | None =>
          let '(p, st1) := alloc id st in
          let '(ps, st2) := reconcile_ids ids (set_sessions (<[id := p]> (sessions st1)) st1) in
          (p :: ps, st2)
      end
  end.

Definition Reconcile (ctx : Ctx) : prog (option error) :=
  let! r := do_ (CallList ctx) in
  match r with
  | Err e => Ret (Some e)
  | Ok ids =>
      crit (fun st => let '(ps, st') := reconcile_ids ids st in (tt, ps, st')) >>= fun _ =>
      Ret None
  end.

(** The first critical section of [Get]. *)
Definition get_acquire (id : string) (st : state) : loc * list loc * state :=
  match sessions st !! id with
  | Some p => (p, [], st)
  | None =>
      let '(p, st1) := alloc id st in
      (p, [p], set_sessions (<[id := p]> (sessions st1)) st1)
  end.

(** The second: drop the broken session, if it is still the current one. *)
Definition get_drop (id : string) (p : loc) (st : state) : state :=
  if decide (sessions st !! id = Some p) then set_sessions (delete id (sessions st)) st
  else st.

Definition Get (ctx : Ctx) (id : string) : prog (result error loc) :=
  let! p := crit (get_acquire id) in
  let! sel := do_ (Select p ctx) in
  match sel with
  | SelReady =>
      let! e := read (session_err p) in
      match e with
      | Some e => write (get_drop id p) >>= fun _ => Ret (Err e)
      | None => Ret (Ok p)
      end
  | SelDone e => Ret (Err e)
  end.

(** One iteration of the scan of [reapOnce]. *)
Definition reap_visit (cutoff : Z) (acc : list loc * state) (entry : string * loc)
  : list loc * state :=
  let '(victims, st) := acc in
  let '(id, p) := entry in
  match heap st !! p with
  | None => (victims, panic st)
  | Some s =>
      if negb (ready s) then acc
      else if 0 <? ActiveConns s then acc
      else if cutoff <? LastActive s then acc
      else (victims ++ [p],
            set_lastRefresh (delete id (lastRefresh st))
              (set_sessions (delete id (sessions st)) st))
  end.

(** The scan visits the map in an order the runtime picks. *)
Definition order : Type := list (string * loc) -> list (string * loc).

(** The scan holds the lock, so that the map is its own; the activity of a session it reads
    without it, once per session.  Here all these reads are of one moment: which session is a
    victim is decided by the read of that session alone, and what is stated of a scan below is
    stated session by session. *)
Definition reap_scan (cutoff : Z) (ord : order) (st : state) : list loc * state :=
  fold_left (reap_visit cutoff) (ord (map_to_list (sessions st))) ([], st).

Fixpoint reap_delete (ctx : Ctx) (victims : list loc) : prog unit :=
  match victims with
  | [] => Ret tt
  | p :: victims =>
      let! id := read (session_id p) in
      let! err := do_ (CallDelete ctx id) in
      write (fun st =>
        match err with
        | Some _ => set_metrics BackendDeleteFailure st
        | None =>
            match heap st !! p with
            | None => panic st
            | Some s =>
                set_metrics (fun mx =>
                  ObserveLifetime (backendKind m) (sat64 (clock st - created s))
                    (ObserveIdle (sat64 (clock st - LastActive s))
                      (SessionReaped "idle" mx))) st
            end
        end) >>= fun _ =>
      reap_delete ctx victims
  end.

Definition reapOnce (ord : order) (ctx : Ctx) : prog unit :=
  let! cutoff := read (fun st => clock st + wrap64 (- idleTTL m)) in
  let! victims := crit (fun st => let '(vs, st') := reap_scan cutoff ord st in (vs, [], st')) in
  reap_delete ctx victims.

(** [ReapLoop], over what its [select] picks at each turn: a tick, with the map
    order of that scan, or [ctx.Done()]. *)
Inductive wakeup : Type := Tick (ord : order) | Done.

Fixpoint ReapLoop (ctx : Ctx) (events : list wakeup) : prog unit :=
  match events with
  | [] | Done :: _ => Ret tt
  | Tick ord :: events => reapOnce ord ctx >>= fun _ => ReapLoop ctx events
  end.

(** What the critical section of [Refresh] decides. *)
Inductive decision : Type :=
| ReturnCurrent (p : loc)   (* in the cooldown, with a cached session *)
| GetOnly (id : string)     (* in the cooldown, with none *)
| Refreshed (id : string).  (* dropped if current, cooldown restarted *)

Definition refresh_lock (stale : loc) (st : state) : decision * state :=
  let id := session_id stale st in
  let cooling :=
    match lastRefresh st !! id with
    | Some last => sat64 (clock st - last) <? refreshCooldown
    | None => false
    end in
  if cooling then
    match sessions st !! id with
    | Some cur => (ReturnCurrent cur, st)
    | None => (GetOnly id, st)
    end
  else
    let st := if decide (sessions st !! id = Some stale)
              then set_sessions (delete id (sessions st)) st else st in
    (Refreshed id, set_lastRefresh (<[id := clock st]> (lastRefresh st)) st).

Definition Refresh (ctx : Ctx) (stale : loc) : prog (result error loc) :=
  let! d := crit (fun st => let '(d, st') := refresh_lock stale st in (d, [], st')) in
  match d with
  | ReturnCurrent p => Ret (Ok p)
  | GetOnly id => Get ctx id
  | Refreshed id =>
      let! r := Get ctx id in
      match r with
      | Err e =>
          write (set_metrics (SessionRefreshed (backendKind m) OutcomeFailure)) >>= fun _ =>
          Ret (Err e)
      | Ok p =>
          write (set_metrics (SessionRefreshed (backendKind m) OutcomeSuccess)) >>= fun _ =>
          Ret (Ok p)
      end
  end.
End manager.
