(* ===== verification/SessionFacts.v ===== *)
(** * The manager's critical sections

    What each critical section of [Session] computes, on every branch. *)

From S2P Require Import Prelude GoStd Backend Metrics Session.
Local Open Scope Z_scope.

(** ** Field projections of updated states *)

Lemma state_eta st :
  st = mkState (clock st) (cancelled st) (heap st) (nextloc st) (sessions st)
         (lastRefresh st) (mx st) (calls st) (panicked st).
Proof. by destruct st. Qed.

Lemma sessions_update p f st : sessions (update p f st) = sessions st.
Proof. unfold update. by case_match. Qed.
Lemma nextloc_update p f st : nextloc (update p f st) = nextloc st.
Proof. unfold update. by case_match. Qed.
Lemma calls_update p f st : calls (update p f st) = calls st.
Proof. unfold update. by case_match. Qed.
Lemma lastRefresh_update p f st : lastRefresh (update p f st) = lastRefresh st.
Proof. unfold update. by case_match. Qed.
Lemma clock_update p f st : clock (update p f st) = clock st.
Proof. unfold update. by case_match. Qed.
Lemma cancelled_update p f st : cancelled (update p f st) = cancelled st.
Proof. unfold update. by case_match. Qed.

Lemma heap_update p f st s :
  heap st !! p = Some s -> heap (update p f st) = <[p := f s]> (heap st).
Proof. unfold update. by intros ->. Qed.
Lemma panicked_update p f st s :
  heap st !! p = Some s -> panicked (update p f st) = panicked st.
Proof. unfold update. by intros ->. Qed.

#[export] Hint Rewrite sessions_update nextloc_update calls_update lastRefresh_update
  clock_update cancelled_update : go.

(** ** The idle scan *)

(** Idle, as the reaper sees it. *)
Definition reapable (cutoff : Z) (s : Session) : bool :=
  ready s && (activeConn s <=? 0) && (lastActive s <=? cutoff).

Definition victim (cutoff : Z) (st : state) (id : string) : bool :=
  match sessions st !! id ≫= fun p => heap st !! p with
  | Some s => reapable cutoff s
  | None => false
  end.

(** Every pointer of the map is live. *)
Definition maps_live (st : state) : Prop :=
  forall id p, sessions st !! id = Some p -> is_Some (heap st !! p).

Definition drop_ids (ids : list string) (st : state) : state :=
  set_lastRefresh (foldr delete (lastRefresh st) ids)
    (set_sessions (foldr delete (sessions st) ids) st).

Definition pointer_reapable (cutoff : Z) (st : state) (p : loc) : bool :=
  match heap st !! p with Some s => reapable cutoff s | None => false end.

Lemma reap_visit_eq cutoff vs st id p s :
  heap st !! p = Some s ->
  reap_visit cutoff (vs, st) (id, p) =
  if reapable cutoff s then (vs ++ [p], drop_ids [id] st) else (vs, st).
Proof.
  intros Hp. unfold reap_visit, reapable, drop_ids, ActiveConns, LastActive. rewrite Hp.
  destruct (ready s); simpl; [|done].
  destruct (Z.ltb_spec 0 (activeConn s)), (Z.leb_spec (activeConn s) 0); try lia; simpl; [done|].
  by destruct (Z.ltb_spec cutoff (lastActive s)), (Z.leb_spec (lastActive s) cutoff); try lia.
Qed.

Lemma foldr_delete_cons_comm {V} (ids : list string) id (m : gmap string V) :
  foldr delete (delete id m) ids = delete id (foldr delete m ids).
Proof. induction ids as [|i ids IH]; simpl; [done|]. by rewrite IH, delete_delete. Qed.

Lemma drop_ids_cons id ids st : drop_ids ids (drop_ids [id] st) = drop_ids (id :: ids) st.
Proof. unfold drop_ids; simpl. by rewrite !foldr_delete_cons_comm. Qed.

(** The scan of a list of live entries: the idle ones are its victims, in order,
    and their ids leave both maps. *)
Lemma reap_fold cutoff l vs st :
  Forall (fun e : string * loc => is_Some (heap st !! e.2)) l ->
  fold_left (reap_visit cutoff) l (vs, st) =
  (vs ++ (snd <$> filter (fun e => pointer_reapable cutoff st e.2) l),
   drop_ids (fst <$> (filter (fun e => pointer_reapable cutoff st e.2) l)) st).
Proof.
  revert vs st. induction l as [|[id p] l IH]; intros vs st Hl.
  { rewrite app_nil_r. unfold drop_ids. simpl. by destruct st. }
  inversion Hl as [|? ? [s Hs] Hl']; subst; simpl in Hs.
  cbn [fold_left]. rewrite (reap_visit_eq _ _ _ _ _ _ Hs).
  assert (pointer_reapable cutoff st p = reapable cutoff s) as Hr
    by (unfold pointer_reapable; simpl; by rewrite Hs).
  destruct (reapable cutoff s); [rewrite filter_cons_True|rewrite filter_cons_False];
    simpl; rewrite ?Hr; try done; [|by apply IH|by intros []].
  rewrite IH by exact Hl'.
  change (pointer_reapable cutoff (drop_ids [id] st)) with (pointer_reapable cutoff st).
  by rewrite drop_ids_cons, <- (assoc app).
Qed.

Lemma lookup_foldr_delete {V} (ids : list string) (m : gmap string V) i :
  foldr delete m ids !! i = if decide (i ∈ ids) then None else m !! i.
Proof.
  induction ids as [|j ids IH]; simpl; [done|].
  destruct (decide (i = j)) as [->|Hne].
  - rewrite lookup_delete_eq, decide_True by set_solver. done.
  - rewrite lookup_delete_ne, IH by done.
    destruct (decide (i ∈ ids)); [rewrite decide_True by set_solver|rewrite decide_False by set_solver]; done.
Qed.

Lemma victim_ids cutoff (l : list (string * loc)) st id :
  l ≡ₚ map_to_list (sessions st) ->
  id ∈ fst <$> (filter (fun e => pointer_reapable cutoff st e.2) l) <->
  victim cutoff st id = true.
Proof.
  intros Hperm. unfold victim. rewrite list_elem_of_fmap. split.
  - intros ([id' p] & -> & [Hr Hin]%list_elem_of_filter).
    rewrite Hperm in Hin. apply elem_of_map_to_list in Hin.
    unfold pointer_reapable in Hr. simpl in *. rewrite Hin. simpl. case_match; [by apply Is_true_true|done].
  - destruct (sessions st !! id) as [p|] eqn:Hp; simpl; [|done].
    destruct (heap st !! p) as [s|] eqn:Hs; [|done]. intros Hr.
    exists (id, p). split; [done|]. apply list_elem_of_filter. split.
    + unfold pointer_reapable. simpl. by rewrite Hs, Hr.
    + rewrite Hperm. by apply elem_of_map_to_list.
Qed.

Lemma reap_scan_eq cutoff (ord : order) st :
  maps_live st -> ord (map_to_list (sessions st)) ≡ₚ map_to_list (sessions st) ->
  reap_scan cutoff ord st =
  (let l := filter (fun e => pointer_reapable cutoff st e.2) (ord (map_to_list (sessions st))) in
   (snd <$> l, drop_ids (fst <$> l) st)).
Proof.
  intros Hl Hp. unfold reap_scan. rewrite reap_fold; [done|].
  apply Forall_forall. intros [id p] Hin. rewrite Hp in Hin.
  apply elem_of_map_to_list in Hin. eauto.
Qed.

Lemma reap_lookup cutoff (ord : order) st :
  ord (map_to_list (sessions st)) ≡ₚ map_to_list (sessions st) ->
  forall V (m : gmap string V) id,
  foldr delete m (fst <$> (filter (fun e => pointer_reapable cutoff st e.2)
    (ord (map_to_list (sessions st))))) !! id =
  if victim cutoff st id then None else m !! id.
Proof.
  intros Ho V m id. rewrite lookup_foldr_delete.
  pose proof (victim_ids cutoff _ st id Ho) as Hv.
  destruct (victim cutoff st id); case_decide; naive_solver.
Qed.

(** C6. The idle scan removes exactly the sessions that are resolved, have no open
    connection and were last active at or before the cutoff, with their cooldown
    entries; it keeps every other entry of both maps and touches nothing else; each
    victim is reported once, and the order in which the runtime iterates over the
    map changes the order of the victims only. *)
Theorem reap_scan_correct (cutoff : Z) (ord : order) (st : state) :
  maps_live st ->
  ord (map_to_list (sessions st)) ≡ₚ map_to_list (sessions st) ->
  let '(victims, st') := reap_scan cutoff ord st in
  (forall id, sessions st' !! id = if victim cutoff st id then None else sessions st !! id) /\
  (forall id, lastRefresh st' !! id = if victim cutoff st id then None else lastRefresh st !! id) /\
  victims ≡ₚ snd <$> (filter (fun e => pointer_reapable cutoff st e.2) (map_to_list (sessions st))) /\
  st' = set_lastRefresh (lastRefresh st') (set_sessions (sessions st') st) /\
  (forall ord2, ord2 (map_to_list (sessions st)) ≡ₚ map_to_list (sessions st) ->
     (reap_scan cutoff ord2 st).2 = st').
Proof.
  intros Hl Hp. rewrite reap_scan_eq by done. cbn [fst snd].
  pose proof (fun o Ho => reap_lookup cutoff o st Ho) as Hlook.
  split; [apply Hlook, Hp|]. split; [apply Hlook, Hp|]. split; [by rewrite Hp|].
  split; [done|]. intros ord2 Hp2. rewrite reap_scan_eq by done. simpl. unfold drop_ids.
  f_equal; [|f_equal]; apply map_eq; intros id; by rewrite !Hlook.
Qed.

(** Two resolved sessions, one idle since 5, one with an open connection, visited in
    reverse order. *)
Definition two_sessions : state :=
  mkState 100 ∅
    (<[0%nat := mkSession "a" Endpoint_zero 1 5 0 true None]>
      (<[1%nat := mkSession "b" Endpoint_zero 1 5 1 true None]> ∅)) 2
    (<["a" := 0%nat]> (<["b" := 1%nat]> ∅)) ∅ None [] false.

Lemma two_sessions_live : maps_live two_sessions.
Proof.
  intros id p. unfold two_sessions. simpl.
  rewrite !lookup_insert_Some, lookup_empty. intros [[_ <-]|(_ & [[_ <-]|(_ & ?)])]; [by eexists..|done].
Qed.

Lemma reap_scan_correct_witness :
  sessions (reap_scan 10 (@reverse _) two_sessions).2 !! "a" = None /\
  sessions (reap_scan 10 (@reverse _) two_sessions).2 !! "b" = Some 1%nat.
Proof.
  pose proof (reap_scan_correct 10 (@reverse _) two_sessions two_sessions_live
    (reverse_Permutation _)) as H.
  destruct (reap_scan 10 (@reverse _) two_sessions) as [vs st'].
  destruct H as (Hm & _). simpl. rewrite !Hm. split; reflexivity.
Defined.
