(* ===== verification/SessionSys.v ===== *)
(** * The session manager under concurrency

    Goroutines run the programs of [Session] in any interleaving; the clock
    advances, contexts are cancelled and requests arrive at any moment; a backend
    call returns any result.  [gstep] is the transition relation and [run] an
    executable scheduler for it. *)

From S2P Require Import Prelude GoStd Backend Metrics Session SessionFacts.
Local Open Scope Z_scope.

#[export] Instance state_world : World state.
Proof.
  refine {| now := clock;
            root_cancelled r st := bool_decide (r ∈ cancelled st);
            later st1 st2 := clock st1 <= clock st2 |}; intros; lia.
Defined.

(** What a goroutine ends with. *)
Inductive outcome :=
| OUnit
| OGet (id : string) (r : result error loc)
| ORefresh (stale : loc) (r : result error loc).

(** ** Steps *)

(** The effect of one action: the value it yields, the sessions for which it starts
    [go m.resolve], the state after it. *)
Definition astep {X : Set} (a : act X) : state -> X -> list loc -> state -> Prop :=
  match a in act X return state -> X -> list loc -> state -> Prop with
  | Crit f => fun st x sp st' => f st = (x, sp, st')
  | Select p ctx => fun st x sp st' =>
      sp = [] /\ st' = st /\
      match x with
      | SelReady => exists s, heap st !! p = Some s /\ ready s = true
      | SelDone e => ctx_Err ctx st = Some e
      end
  | CallEnsure _ id => fun st r sp st' => sp = [] /\ st' = log_call (BEnsure id r) st
  | CallDelete _ id => fun st r sp st' => sp = [] /\ st' = log_call (BDelete id r) st
  | CallList _ => fun st _ sp st' => sp = [] /\ st' = st
  end.

Definition pstep {A} (pr : prog A) (st : state) (sp : list loc) (pr' : prog A) (st' : state)
  : Prop :=
  match pr with
  | Ret _ => False
  | Do a k => exists x, astep a st x sp st' /\ pr' = k x
  end.

Notation goroutine := (prog outcome) (only parsing).

Section system.
Context (m : Manager).

Definition as_unit (p : prog unit) : goroutine := p >>= fun _ => Ret OUnit.
Definition resolve_goroutine (p : loc) : goroutine := as_unit (resolve m p).
Definition get_goroutine (ctx : Ctx) (id : string) : goroutine :=
  Get ctx id >>= fun r => Ret (OGet id r).
Definition refresh_goroutine (ctx : Ctx) (stale : loc) : goroutine :=
  Refresh m ctx stale >>= fun r => Ret (ORefresh stale r).
Definition reap_goroutine (ord : order) (ctx : Ctx) : goroutine := as_unit (reapOnce m ord ctx).
Definition reconcile_goroutine (ctx : Ctx) : goroutine :=
  Reconcile ctx >>= fun _ => Ret OUnit.

(** What the proxy does with a session a finished Get or Refresh gave it. *)
Inductive touch : Type := TMark | TOpen | TClose.
Definition touch_goroutine (t : touch) (p : loc) : goroutine :=
  as_unit (match t with TMark => MarkActive p | TOpen => ConnOpened p | TClose => ConnClosed p end).

Record system : Type := mkSystem { sst : state; pool : list goroutine }.

Definition spawn (gs : list goroutine) (s : system) : system :=
  mkSystem (sst s) (pool s ++ gs).

(** [p] is a session some finished Get handed out; the proxy calls Refresh only
    with such a session. *)
Definition got (s : system) (p : loc) : Prop :=
  exists id, Ret (OGet id (Ok p)) ∈ pool s.
Definition held (s : system) (p : loc) : Prop :=
  got s p \/ exists stale, Ret (ORefresh stale (Ok p)) ∈ pool s.

Definition valid_order (ord : order) : Prop := forall l, ord l ≡ₚ l.

Inductive gstep : system -> system -> Prop :=
| g_run s i pr sp pr' st' :
    pool s !! i = Some pr -> pstep pr (sst s) sp pr' st' ->
    gstep s (mkSystem st' (<[i := pr']> (pool s) ++ map resolve_goroutine sp))
| g_tick s d :
    0 <= d -> gstep s (mkSystem (set_clock (clock (sst s) + d) (sst s)) (pool s))
| g_cancel s r :
    r <> 0%nat -> gstep s (mkSystem (set_cancelled ({[r]} ∪ cancelled (sst s)) (sst s)) (pool s))
| g_get s ctx id : gstep s (spawn [get_goroutine ctx id] s)
| g_refresh s ctx p : got s p -> gstep s (spawn [refresh_goroutine ctx p] s)
| g_touch s t p : held s p -> gstep s (spawn [touch_goroutine t p] s)
| g_reap s ord ctx : valid_order ord -> gstep s (spawn [reap_goroutine ord ctx] s)
| g_reconcile s ctx : gstep s (spawn [reconcile_goroutine ctx] s).

Definition init (t : Z) (mx : option Metrics) : system := mkSystem (New t mx) [].

Definition reachable (s : system) : Prop := exists t mx, rtc gstep (init t mx) s.
End system.

(** ** Control points

    The residual programs of the goroutines, named.  [prog_of] gives each control
    point the program that is left to run there, and [cstep] is the transition
    relation between control points: [control_simulation] shows that the programs
    of [Session] make exactly these steps. *)

Inductive kont :=
| KGet (id : string)         (* Get called by the proxy *)
| KCool (stale : loc)        (* Get called by Refresh in the cooldown *)
| KRefresh (stale : loc).    (* Get called by Refresh after a drop *)

Inductive pc :=
| PDone (o : outcome)
| PGet (ctx : Ctx) (id : string) (k : kont)
| PSelect (ctx : Ctx) (id : string) (p : loc) (k : kont)
| PCheck (id : string) (p : loc) (k : kont)
| PDrop (id : string) (p : loc) (e : error) (k : kont)
| PCount (stale : loc) (r : result error loc)
| PRefresh (ctx : Ctx) (stale : loc)
| PRes0 (p : loc)
| PRes1 (p : loc) (t : Z)
| PRes2 (p : loc) (ctx : Ctx) (start : Z) (id : string)
| PRes3 (p : loc) (start : Z) (r : result error Endpoint)
| PRes4 (p : loc) (elapsed : Z) (r : result error Endpoint)
| PRes5 (p : loc) (elapsed : Z) (r : result error Endpoint)
| PRes6 (p : loc) (r : result error Endpoint)
| PReap0 (ord : order) (ctx : Ctx)
| PReap1 (ord : order) (ctx : Ctx) (cutoff : Z)
| PReap2 (ctx : Ctx) (p : loc) (vs : list loc)
| PReap3 (ctx : Ctx) (p : loc) (id : string) (vs : list loc)
| PReap4 (ctx : Ctx) (p : loc) (err : option error) (vs : list loc)
| PRec0 (ctx : Ctx)
| PRec1 (ids : list string)
| PConn (d : Z) (p : loc)
| PMark0 (p : loc)
| PMark1 (p : loc) (t : Z).

Definition res_metrics (m : Manager) (elapsed : Z) (r : result error Endpoint)
  : option Metrics -> option Metrics :=
  match r with
  | Err _ => fun mx =>
      SessionCreated (backendKind m) OutcomeFailure
        (EnsureFailed (backendKind m) (ObserveEnsure (backendKind m) OutcomeFailure elapsed mx))
  | Ok _ => fun mx =>
      SessionCreated (backendKind m) OutcomeSuccess
        (ObserveEnsure (backendKind m) OutcomeSuccess elapsed mx)
  end.

Definition res_store (r : result error Endpoint) : Session -> Session :=
  match r with Err e => with_err e | Ok ep => with_endpoint ep end.

Definition close_ready (p : loc) (st : state) : state :=
  match heap st !! p with
  | Some s => if ready s then panic st else update p with_ready st
  | None => panic st
  end.

Definition reap_record (m : Manager) (p : loc) (err : option error) (st : state) : state :=
  match err with
  | Some _ => set_metrics BackendDeleteFailure st
  | None =>
      match heap st !! p with
      | None => panic st
      | Some s =>
          set_metrics (fun mx =>
            ObserveLifetime (backendKind m) (sat64 (clock st - created s))
              (ObserveIdle (sat64 (clock st - LastActive s)) (SessionReaped "idle" mx))) st
      end
  end.

Section control.
Context (m : Manager).

(** The end of Refresh, once its Get has returned. *)
Definition count_refresh (r : result error loc) : prog (result error loc) :=
  match r with
  | Err e => write (set_metrics (SessionRefreshed (backendKind m) OutcomeFailure)) >>=
             fun _ => Ret (Err e)
  | Ok p => write (set_metrics (SessionRefreshed (backendKind m) OutcomeSuccess)) >>=
            fun _ => Ret (Ok p)
  end.

(** The rest of a Get, in the goroutine that called it. *)
Definition in_kont (k : kont) (pr : prog (result error loc)) : goroutine :=
  match k with
  | KGet id => pr >>= fun r => Ret (OGet id r)
  | KCool stale => pr >>= fun r => Ret (ORefresh stale r)
  | KRefresh stale => (pr >>= count_refresh) >>= fun r => Ret (ORefresh stale r)
  end.

(** The control point after Get has returned [r] to [k]. *)
Definition after_get (k : kont) (r : result error loc) : pc :=
  match k with
  | KGet id => PDone (OGet id r)
  | KCool stale => PDone (ORefresh stale r)
  | KRefresh stale => PCount stale r
  end.

Definition reap_from (ctx : Ctx) (vs : list loc) : pc :=
  match vs with [] => PDone OUnit | p :: vs => PReap2 ctx p vs end.

Definition after_decision (ctx : Ctx) (stale : loc) (d : decision) : pc :=
  match d with
  | ReturnCurrent p => PDone (ORefresh stale (Ok p))
  | GetOnly id => PGet ctx id (KCool stale)
  | Refreshed id => PGet ctx id (KRefresh stale)
  end.

Definition get_finish (id : string) (p : loc) (e : option error) : prog (result error loc) :=
  match e with
  | Some e => write (get_drop id p) >>= fun _ => Ret (Err e)
  | None => Ret (Ok p)
  end.

Definition get_wait (ctx : Ctx) (id : string) (p : loc) : prog (result error loc) :=
  let! sel := do_ (Select p ctx) in
  match sel with
  | SelReady => let! e := read (session_err p) in get_finish id p e
  | SelDone e => Ret (Err e)
  end.

Definition prog_of (c : pc) : goroutine :=
  match c with
  | PDone o => Ret o
  | PGet ctx id k => in_kont k (Get ctx id)
  | PSelect ctx id p k => in_kont k (get_wait ctx id p)
  | PCheck id p k =>
      in_kont k (let! e := read (session_err p) in get_finish id p e)
  | PDrop id p e k => in_kont k (get_finish id p (Some e))
  | PCount stale r => count_refresh r >>= fun r => Ret (ORefresh stale r)
  | PRefresh ctx stale => refresh_goroutine m ctx stale
  | PRes0 p => resolve_goroutine m p
  | PRes1 p t => as_unit (
      let! (start, id) := read (fun st => (clock st, session_id p st)) in
      let! r := do_ (CallEnsure (WithTimeout Background t (ensureTimeout m)) id) in
      let! fin := time_Now in
      resolve_finish m p (sat64 (fin - start)) r)
  | PRes2 p ctx start id => as_unit (
      let! r := do_ (CallEnsure ctx id) in let! fin := time_Now in
      resolve_finish m p (sat64 (fin - start)) r)
  | PRes3 p start r => as_unit (let! fin := time_Now in resolve_finish m p (sat64 (fin - start)) r)
  | PRes4 p elapsed r => as_unit (resolve_finish m p elapsed r)
  | PRes5 p elapsed r => as_unit (
      write (set_metrics (res_metrics m elapsed r)) >>= fun _ => write (close_ready p))
  | PRes6 p _ => as_unit (write (close_ready p))
  | PReap0 ord ctx => reap_goroutine m ord ctx
  | PReap1 ord ctx cutoff => as_unit (
      let! victims := crit (fun st => let '(vs, st') := reap_scan cutoff ord st in (vs, [], st')) in
      reap_delete m ctx victims)
  | PReap2 ctx p vs => as_unit (reap_delete m ctx (p :: vs))
  | PReap3 ctx p id vs => as_unit (
      let! err := do_ (CallDelete ctx id) in
      write (reap_record m p err) >>= fun _ => reap_delete m ctx vs)
  | PReap4 ctx p err vs => as_unit (
      write (reap_record m p err) >>= fun _ => reap_delete m ctx vs)
  | PRec0 ctx => reconcile_goroutine ctx
  | PRec1 ids =>
      crit (fun st => let '(ps, st') := reconcile_ids ids st in (tt, ps, st')) >>= fun _ =>
      Ret OUnit
  | PConn d p => as_unit (write (update p (add_conn d)) >>= fun _ => MarkActive p)
  | PMark0 p => as_unit (MarkActive p)
  | PMark1 p t => as_unit (write (update p (with_lastActive (wrap64 t))))
  end.

Inductive cstep : pc -> state -> list loc -> pc -> state -> Prop :=
| c_get ctx id k st p sp st' :
    get_acquire id st = (p, sp, st') ->
    cstep (PGet ctx id k) st sp (PSelect ctx id p k) st'
| c_ready ctx id p k st s :
    heap st !! p = Some s -> ready s = true ->
    cstep (PSelect ctx id p k) st [] (PCheck id p k) st
| c_done ctx id p k st e :
    ctx_Err ctx st = Some e ->
    cstep (PSelect ctx id p k) st [] (after_get k (Err e)) st
| c_check_ok id p k st :
    session_err p st = None ->
    cstep (PCheck id p k) st [] (after_get k (Ok p)) st
| c_check_err id p k st e :
    session_err p st = Some e ->
    cstep (PCheck id p k) st [] (PDrop id p e k) st
| c_drop id p e k st :
    cstep (PDrop id p e k) st [] (after_get k (Err e)) (get_drop id p st)
| c_count stale r st :
    cstep (PCount stale r) st [] (PDone (ORefresh stale r))
      (set_metrics (SessionRefreshed (backendKind m)
         (if is_ok r then OutcomeSuccess else OutcomeFailure)) st)
| c_refresh ctx stale st d st' :
    refresh_lock stale st = (d, st') ->
    cstep (PRefresh ctx stale) st [] (after_decision ctx stale d) st'
| c_res0 p st : cstep (PRes0 p) st [] (PRes1 p (clock st)) st
| c_res1 p t st :
    cstep (PRes1 p t) st []
      (PRes2 p (WithTimeout Background t (ensureTimeout m)) (clock st) (session_id p st)) st
| c_res2 p ctx start id r st :
    cstep (PRes2 p ctx start id) st [] (PRes3 p start r) (log_call (BEnsure id r) st)
| c_res3 p start r st :
    cstep (PRes3 p start r) st [] (PRes4 p (sat64 (clock st - start)) r) st
| c_res4 p el r st : cstep (PRes4 p el r) st [] (PRes5 p el r) (update p (res_store r) st)
| c_res5 p el r st :
    cstep (PRes5 p el r) st [] (PRes6 p r) (set_metrics (res_metrics m el r) st)
| c_res6 p r st : cstep (PRes6 p r) st [] (PDone OUnit) (close_ready p st)
| c_reap0 ord ctx st :
    cstep (PReap0 ord ctx) st [] (PReap1 ord ctx (clock st + wrap64 (- idleTTL m))) st
| c_reap1 ord ctx cutoff st vs st' :
    reap_scan cutoff ord st = (vs, st') ->
    cstep (PReap1 ord ctx cutoff) st [] (reap_from ctx vs) st'
| c_reap2 ctx p vs st : cstep (PReap2 ctx p vs) st [] (PReap3 ctx p (session_id p st) vs) st
| c_reap3 ctx p id vs st err :
    cstep (PReap3 ctx p id vs) st [] (PReap4 ctx p err vs) (log_call (BDelete id err) st)
| c_reap4 ctx p err vs st :
    cstep (PReap4 ctx p err vs) st [] (reap_from ctx vs) (reap_record m p err st)
| c_rec_err ctx st : cstep (PRec0 ctx) st [] (PDone OUnit) st
| c_rec_ok ctx ids st : cstep (PRec0 ctx) st [] (PRec1 ids) st
| c_rec1 ids st ps st' :
    reconcile_ids ids st = (ps, st') ->
    cstep (PRec1 ids) st ps (PDone OUnit) st'
| c_conn d p st : cstep (PConn d p) st [] (PMark0 p) (update p (add_conn d) st)
| c_mark0 p st : cstep (PMark0 p) st [] (PMark1 p (clock st)) st
| c_mark1 p t st :
    cstep (PMark1 p t) st [] (PDone OUnit) (update p (with_lastActive (wrap64 t)) st).

Lemma prog_of_after_get k r : prog_of (after_get k r) = in_kont k (Ret r).
Proof. by destruct k. Qed.

Lemma prog_of_reap_from ctx vs : prog_of (reap_from ctx vs) = as_unit (reap_delete m ctx vs).
Proof. by destruct vs. Qed.

(** Run one action of a residual program and name the control point it leads to. *)
Ltac next_point c := exists c; split; [reflexivity|econstructor; eauto].

Lemma simulate_get c st sp pr' st' :
  match c with
  | PGet _ _ _ | PSelect _ _ _ _ | PCheck _ _ _ | PDrop _ _ _ _ | PCount _ _ => True
  | _ => False
  end ->
  pstep (prog_of c) st sp pr' st' -> exists c', pr' = prog_of c' /\ cstep c st sp c' st'.
Proof.
  destruct c; try done; intros _.
  - (* PGet *) 
    intros Hs.
    assert (exists p, get_acquire id st = (p, sp, st') /\ pr' = prog_of (PSelect ctx id p k))
      as (p & Ha & ->) by (destruct k; destruct Hs as (p & Ha & ->); by exists p).
    next_point (PSelect ctx id p k).
  - (* PSelect *)
    assert (pstep (prog_of (PSelect ctx id p k)) st sp pr' st' ->
      exists sel, sp = [] /\ st' = st /\
        pr' = prog_of (match sel with SelReady => PCheck id p k
                                    | SelDone e => after_get k (Err e) end) /\
        match sel with SelReady => exists s, heap st !! p = Some s /\ ready s = true
                     | SelDone e => ctx_Err ctx st = Some e end) as Hs.
    { destruct k; intros (sel & (-> & -> & Hsel) & ->); exists sel; by destruct sel. }
    intros (sel & -> & -> & -> & Hsel)%Hs. destruct sel as [|e].
    + destruct Hsel as (s & ? & ?). next_point (PCheck id p k).
    + next_point (after_get k (Err e)).
  - (* PCheck *)
    destruct (session_err p st) as [e|] eqn:He.
    + intros Hs. exists (PDrop id p e k).
      destruct k; destruct Hs as (x & Ha & ->); simpl in Ha; rewrite He in Ha; simplify_eq;
        (split; [reflexivity|by constructor]).
    + intros Hs. exists (after_get k (Ok p)).
      destruct k; destruct Hs as (x & Ha & ->); simpl in Ha; rewrite He in Ha; simplify_eq;
        (split; [reflexivity|by constructor]).
  - (* PDrop *)
    intros Hs. exists (after_get k (Err e)).
    destruct k; destruct Hs as (x & Ha & ->); simpl in Ha; simplify_eq;
      (split; [reflexivity|constructor]).
  - (* PCount *)
    intros Hs. exists (PDone (ORefresh stale r)).
    destruct r; destruct Hs as (x & Ha & ->); simpl in Ha; simplify_eq;
      (split; [reflexivity|constructor]).
Qed.

Lemma simulate_resolve c st sp pr' st' :
  match c with
  | PRes0 _ | PRes1 _ _ | PRes2 _ _ _ _ | PRes3 _ _ _ | PRes4 _ _ _ | PRes5 _ _ _
  | PRes6 _ _ => True
  | _ => False
  end ->
  pstep (prog_of c) st sp pr' st' -> exists c', pr' = prog_of c' /\ cstep c st sp c' st'.
Proof.
  destruct c; try done; intros _.
  - intros (x & Ha & ->); simpl in Ha; simplify_eq. next_point (PRes1 p (clock st')).
  - intros (x & Ha & ->); simpl in Ha; simplify_eq.
    next_point (PRes2 p (WithTimeout Background t (ensureTimeout m)) (clock st') (session_id p st')).
  - intros (r & (-> & ->) & ->). next_point (PRes3 p start r).
  - intros (x & Ha & ->); simpl in Ha; simplify_eq.
    next_point (PRes4 p (sat64 (clock st' - start)) r).
  - intros Hs. exists (PRes5 p elapsed r).
    destruct r; destruct Hs as (x & Ha & ->); simpl in Ha; simplify_eq;
      (split; [reflexivity|by constructor]).
  - intros (x & Ha & ->); simpl in Ha; simplify_eq. next_point (PRes6 p r).
  - intros (x & Ha & ->); simpl in Ha; simplify_eq. next_point (PDone OUnit).
Qed.

(** The programs of [Session] make exactly the steps of the control automaton. *)
Lemma control_simulation c st sp pr' st' :
  pstep (prog_of c) st sp pr' st' -> exists c', pr' = prog_of c' /\ cstep c st sp c' st'.
Proof.
  destruct c; try (by apply simulate_get); try (by apply simulate_resolve).
  - done.
  - (* PRefresh *)
    intros (d & Ha & ->). simpl in Ha.
    destruct (refresh_lock stale st) as [d' st1] eqn:Hd. simplify_eq.
    exists (after_decision ctx stale d). split; [by destruct d|by constructor].
  - intros (x & Ha & ->); simpl in Ha; simplify_eq.
    next_point (PReap1 ord ctx (clock st' + wrap64 (- idleTTL m))).
  - intros (vs & Ha & ->). simpl in Ha.
    destruct (reap_scan cutoff ord st) as [vs' st1] eqn:Hd. simplify_eq.
    exists (reap_from ctx vs). split; [by destruct vs|by constructor].
  - intros (x & Ha & ->); simpl in Ha; simplify_eq. next_point (PReap3 ctx p (session_id p st') vs).
  - intros (err & (-> & ->) & ->). next_point (PReap4 ctx p err vs).
  - intros (x & Ha & ->); simpl in Ha; simplify_eq.
    exists (reap_from ctx vs). split; [by destruct vs|constructor].
  - intros ([ids|e] & (-> & ->) & ->); [next_point (PRec1 ids)|next_point (PDone OUnit)].
  - intros (x & Ha & ->). simpl in Ha.
    destruct (reconcile_ids ids st) as [ps st1] eqn:Hd. simplify_eq. next_point (PDone OUnit).
  - intros (x & Ha & ->); simpl in Ha; simplify_eq. next_point (PMark0 p).
  - intros (x & Ha & ->); simpl in Ha; simplify_eq. next_point (PMark1 p (clock st')).
  - intros (x & Ha & ->); simpl in Ha; simplify_eq. next_point (PDone OUnit).
Qed.

Lemma control_steps c st sp c' st' :
  cstep c st sp c' st' -> pstep (prog_of c) st sp (prog_of c') st'.
Proof.
  destruct 1; try (eexists; split; [reflexivity|reflexivity]).
  - destruct k; exists p; done.
  - destruct k; exists SelReady; (split; [simpl; eauto|reflexivity]).
  - destruct k; exists (SelDone e); (split; [simpl; eauto|reflexivity]).
  - destruct k; exists None; (split; [simpl; by rewrite H|reflexivity]).
  - destruct k; exists (Some e); (split; [simpl; by rewrite H|reflexivity]).
  - destruct k; by exists tt.
  - destruct r; by exists tt.
  - exists d. split; [simpl; by rewrite H|by destruct d].
  - by exists r.
  - destruct r; by exists tt.
  - exists vs. split; [simpl; by rewrite H|by destruct vs].
  - by exists err.
  - exists tt. split; [done|by destruct vs].
  - exists (Err (NewError "")). done.
  - exists (Ok ids). done.
  - exists tt. split; [simpl; by rewrite H|done].
Qed.

(** A goroutine of the manager makes a step from a control point exactly when the
    control automaton does: the automaton is the source's programs, no more and no
    less. *)
Theorem control_bisimulation (c : pc) (st : state) (sp : list loc) (pr' : goroutine) (st' : state) :
  pstep (prog_of c) st sp pr' st' <-> exists c', pr' = prog_of c' /\ cstep c st sp c' st'.
Proof.
  split; [apply control_simulation|]. intros (c' & -> & Hc). by apply control_steps.
Qed.

Lemma prog_of_Ret c o : prog_of c = Ret o -> c = PDone o.
Proof. destruct c; try destruct k; try destruct r; simpl; intros; by simplify_eq. Qed.
End control.
