(* ===== verification/SessionSched.v ===== *)
(** * An executable scheduler for the session manager, and the races it finds

    [run] plays a list of choices (which goroutine moves, what the backend answers, how
    the clock advances); [run_sound] shows that it only makes steps of [gstep].  Two
    schedules are then evaluated: the reaper's Delete hitting a live session, and
    Refresh handing out an unresolved one. *)

From S2P Require Import Prelude GoStd Backend Metrics Session SessionFacts SessionSys.
Local Open Scope Z_scope.

(** What the environment answers to an action. *)
Inductive answer :=
| ANone
| ASel (x : select)
| AEnsure (r : result error Endpoint)
| ADelete (r : option error)
| AList (r : result error (list string)).

Definition act_run {X : Set} (a : act X) (ans : answer) (st : state)
  : option (X * list loc * state) :=
  match a in act X return option (X * list loc * state) with
  | Crit f => Some (f st)
  | Select p ctx =>
      match ans with
      | ASel SelReady =>
          match heap st !! p with
          | Some s => if ready s then Some (SelReady, [], st) else None
          | None => None
          end
      | ASel (SelDone e) =>
          if decide (ctx_Err ctx st = Some e) then Some (SelDone e, [], st) else None
      | _ => None
      end
  | CallEnsure _ id =>
      match ans with AEnsure r => Some (r, [], log_call (BEnsure id r) st) | _ => None end
  | CallDelete _ id =>
      match ans with ADelete r => Some (r, [], log_call (BDelete id r) st) | _ => None end
  | CallList _ => match ans with AList r => Some (r, [], st) | _ => None end
  end.

Lemma act_run_sound {X : Set} (a : act X) ans st x sp st' :
  act_run a ans st = Some (x, sp, st') -> astep a st x sp st'.
Proof.
  destruct a; simpl.
  - intros [= H]. done.
  - destruct ans as [|[|e]| | |]; try done.
    + case_match; [|done]. case_match; [|done]. intros; simplify_eq. eauto.
    + case_decide; [|done]. intros; simplify_eq. eauto.
  - destruct ans; try done. intros; by simplify_eq.
  - destruct ans; try done. intros; by simplify_eq.
  - destruct ans; try done. intros; by simplify_eq.
Qed.

Inductive choice :=
| Run (i : nat) (ans : answer)
| Tick (d : Z)
| Cancel (r : nat)
| CallGet (ctx : Ctx) (id : string)
| CallRefresh (ctx : Ctx) (p : loc)
| Reap (ctx : Ctx).

Section scheduler.
Context (m : Manager).

Definition gave (p : loc) (g : goroutine) : bool :=
  match g with Ret (OGet _ (Ok q)) => bool_decide (p = q) | _ => false end.

Definition step (s : system) (c : choice) : option system :=
  match c with
  | Run i ans =>
      match pool s !! i with
      | Some (Do a k) =>
          match act_run a ans (sst s) with
          | Some (x, sp, st') =>
              Some (mkSystem st' (<[i := k x]> (pool s) ++ map (resolve_goroutine m) sp))
          | None => None
          end
      | _ => None
      end
  | Tick d =>
      if 0 <=? d then Some (mkSystem (set_clock (clock (sst s) + d) (sst s)) (pool s)) else None
  | Cancel r =>
      if decide (r = 0%nat) then None
      else Some (mkSystem (set_cancelled ({[r]} ∪ cancelled (sst s)) (sst s)) (pool s))
  | CallGet ctx id => Some (spawn [get_goroutine ctx id] s)
  | CallRefresh ctx p =>
      if existsb (gave p) (pool s) then Some (spawn [refresh_goroutine m ctx p] s) else None
  | Reap ctx => Some (spawn [reap_goroutine m (fun l => l) ctx] s)
  end.

Fixpoint run (s : system) (cs : list choice) : option system :=
  match cs with
  | [] => Some s
  | c :: cs => match step s c with Some s' => run s' cs | None => None end
  end.

Lemma step_sound s c s' : step s c = Some s' -> gstep m s s'.
Proof.
  destruct c; simpl.
  - destruct (pool s !! i) as [[o|X a k]|] eqn:Hi; try done.
    destruct (act_run a ans (sst s)) as [[[x sp] st']|] eqn:Ha; [|done].
    intros [= <-]. apply (g_run m s i (Do a k)); [done|].
    exists x. split; [by eapply act_run_sound|done].
  - destruct (Z.leb_spec 0 d); [|done]. intros [= <-]. by apply g_tick.
  - case_decide; [done|]. intros [= <-]. by apply g_cancel.
  - intros [= <-]. apply g_get.
  - destruct (existsb (gave p) (pool s)) eqn:Hg; [|done]. intros [= <-]. apply g_refresh.
    apply existsb_exists in Hg as (g & Hin & Hg).
    destruct g as [[|id [q|]|]|]; try done. apply bool_decide_eq_true in Hg as ->.
    exists id. by apply list_elem_of_In.
  - intros [= <-]. apply g_reap. by intros l.
Qed.

(** Every schedule the scheduler accepts is a run of the concurrent system. *)
Lemma run_sound s cs s' : run s cs = Some s' -> rtc (gstep m) s s'.
Proof.
  revert s. induction cs as [|c cs IH]; simpl; intros s; [by intros [= ->]|].
  destruct (step s c) as [s1|] eqn:Hs; [|done]. intros H.
  eapply rtc_l; [by eapply step_sound|by apply IH].
Qed.

(** *** Schedules *)

(** A resolver's six steps around its backend call, which returns [r]. *)
Definition resolve_run (i : nat) (r : result error Endpoint) : list choice :=
  [Run i ANone; Run i ANone; Run i (AEnsure r); Run i ANone; Run i ANone; Run i ANone; Run i ANone].

(** A whole Get by goroutine [i] whose resolver is goroutine [S i]. *)
Definition get_run (i : nat) (id : string) (r : result error Endpoint) : list choice :=
  CallGet Background id :: Run i ANone :: resolve_run (S i) r ++
  [Run i (ASel SelReady); Run i ANone].
End scheduler.

Definition demo_manager : Manager := mkManager "sandboxclaim" minute (30 * minute).
Definition demo_ep (n : string) : Endpoint := mkEndpoint n "" 3000 3001.

(** A client asks again for an id the reaper has just dropped from the map but not
    yet deleted. *)
Definition reap_race : list choice :=
  get_run 0 "a" (Ok (demo_ep "10.0.0.1")) ++
  [Tick (30 * minute); Reap Background; Run 2 ANone; Run 2 ANone] ++
  get_run 3 "a" (Ok (demo_ep "10.0.0.1")) ++
  [Run 2 ANone; Run 2 (ADelete None); Run 2 ANone].

Definition final (cs : list choice) : option system := run demo_manager (init 0 None) cs.

Lemma final_reachable cs s : final cs = Some s -> reachable demo_manager s.
Proof. intros H. exists 0, None. by eapply run_sound. Qed.

(** Two clients whose requests failed on the same dead endpoint refresh it. *)
Definition refresh_race : list choice :=
  get_run 0 "a" (Ok (demo_ep "10.0.0.1")) ++
  [CallRefresh Background 0; CallRefresh Background 0;
   Run 2 ANone; Run 2 ANone; Run 3 ANone].

(** The session the id maps to, when it is in use by a client: Get gave it out, it is
    resolved and carries no error. *)
Definition served (id : string) (s : system) : bool :=
  match sessions (sst s) !! id ≫= fun p => (fun x => (p, x)) <$> heap (sst s) !! p with
  | Some (p, x) => ready x && bool_decide (serr x = None) && existsb (gave p) (pool s)
  | None => false
  end.

Definition last_call (s : system) : option bcall := last (calls (sst s)).

(** A client's Refresh has returned a session that is not resolved yet. *)
Definition refreshed_unresolved (s : system) : bool :=
  existsb (fun g : goroutine => match g with
    | Ret (ORefresh _ (Ok p)) =>
        match heap (sst s) !! p with
        | Some x => negb (ready x) && bool_decide (SEndpoint x = Endpoint_zero)
        | None => false
        end
    | _ => false
    end) (pool s).

(** A run that ends in a state [P] accepts makes that state reachable. *)
Lemma final_witness (P : system -> bool) cs :
  match final cs with Some s => P s | None => false end = true ->
  exists s, reachable demo_manager s /\ P s = true.
Proof.
  destruct (final cs) as [s|] eqn:Hs; [|done]. intros HP. exists s.
  split; [by eapply final_reachable|done].
Qed.

(** The state a schedule ends in, and the next one. *)
Definition final_state (cs : list choice) : system := default (init 0 None) (final cs).

Definition next (s : system) (c : choice) : system := default s (step demo_manager s c).

Lemma final_state_reachable cs : reachable demo_manager (final_state cs).
Proof.
  unfold final_state. destruct (final cs) eqn:H; simpl; [by eapply final_reachable|].
  by exists 0, None.
Qed.

Lemma next_gstep s c :
  match step demo_manager s c with Some _ => true | None => false end = true ->
  gstep demo_manager s (next s c).
Proof.
  unfold next. destruct (step demo_manager s c) eqn:H; [|done]. intros _. by eapply step_sound.
Qed.

Definition reaped_live (s : system) : bool :=
  served "a" s && bool_decide (last_call s = Some (BDelete "a" None)).

(** The reaper deletes a sandbox that serves a live session: some run ends with a
    successful Delete of an id whose current session is resolved, without error, and
    held by a client, and no later Ensure restores the sandbox. *)
Theorem reaper_deletes_live_session :
  exists (m : Manager) (s : system) (id : string),
    reachable m s /\ served id s = true /\ last_call s = Some (BDelete id None).
Proof.
  destruct (final_witness reaped_live reap_race) as (s & Hr & [Hs Hc]%andb_true_iff);
    [by vm_compute|].
  exists demo_manager, s, "a". by apply bool_decide_eq_true in Hc.
Qed.

(** Two concurrent Refreshes of one dead session do not collapse onto one wait: some
    run ends with a Refresh that returned, without error, a session that is still
    unresolved and whose endpoint is the zero value. *)
Theorem refresh_returns_unresolved :
  exists (m : Manager) (s : system), reachable m s /\ refreshed_unresolved s = true.
Proof.
  destruct (final_witness refreshed_unresolved refresh_race) as (s & Hr & Hs); [by vm_compute|].
  by exists demo_manager, s.
Qed.
