(* ===== verification/SessionInv.v ===== *)
(** * The invariant of the session manager

    An unresolved session is always the current one of its id and has exactly one
    goroutine resolving it; a resolved one holds what a completed Ensure returned;
    no goroutine panics. *)

From S2P Require Import Prelude GoStd Backend Metrics Session SessionFacts SessionSys.
Local Open Scope Z_scope.

(** The session a [resolve] goroutine works on. *)
Definition resolving (c : pc) : option loc :=
  match c with
  | PRes0 p | PRes1 p _ | PRes2 p _ _ _ | PRes3 p _ _ | PRes4 p _ _ | PRes5 p _ _
  | PRes6 p _ => Some p
  | _ => None
  end.

(** ** What a control point knows of the state *)

Definition session_at (st : state) (p : loc) (P : Session -> Prop) : Prop :=
  exists s, heap st !! p = Some s /\ P s.

Definition is_ready (s : Session) : Prop := ready s = true.

(** The fields [resolve] publishes. *)
Definition published (r : result error Endpoint) (s : Session) : Prop :=
  match r with Ok ep => SEndpoint s = ep /\ serr s = None | Err e => serr s = Some e end.

Definition kont_ok (st : state) (id : string) (k : kont) : Prop :=
  match k with
  | KGet id' => id' = id
  | KCool stale | KRefresh stale => session_at st stale (fun s => ID s = id)
  end.

(** An error a Get of [id] may return: its context's, or the one a completed Ensure of
    that id returned. *)
Definition get_error (st : state) (id : string) (e : error) : Prop :=
  e = ContextCanceled \/ e = ContextDeadlineExceeded \/ BEnsure id (Err e) ∈ calls st.

Definition outcome_ok (st : state) (o : outcome) : Prop :=
  match o with
  | OUnit => True
  | OGet id (Ok p) => session_at st p (fun s => ID s = id /\ is_ready s /\ serr s = None)
  | OGet id (Err e) => get_error st id e
  | ORefresh stale (Ok p) =>
      session_at st stale (fun s0 => session_at st p (fun s => ID s = ID s0))
  | ORefresh stale (Err e) => session_at st stale (fun s0 => get_error st (ID s0) e)
  end.

Definition pc_ok (st : state) (c : pc) : Prop :=
  match c with
  | PDone o => outcome_ok st o
  | PGet _ id k => kont_ok st id k
  | PSelect _ id p k => kont_ok st id k /\ session_at st p (fun s => ID s = id)
  | PCheck id p k => kont_ok st id k /\ session_at st p (fun s => ID s = id /\ is_ready s)
  | PDrop id p e k =>
      kont_ok st id k /\ session_at st p (fun s => ID s = id /\ is_ready s /\ serr s = Some e)
  | PCount stale r => outcome_ok st (ORefresh stale r)
  | PRefresh _ stale => session_at st stale is_ready
  | PRes0 p | PRes1 p _ => session_at st p (fun s => serr s = None)
  | PRes2 p _ _ id => session_at st p (fun s => serr s = None /\ ID s = id)
  | PRes3 p _ r | PRes4 p _ r =>
      session_at st p (fun s => serr s = None /\ BEnsure (ID s) r ∈ calls st)
  | PRes5 p _ r | PRes6 p r =>
      session_at st p (fun s => published r s /\ BEnsure (ID s) r ∈ calls st)
  | PReap2 _ p vs => Forall (fun p => session_at st p is_ready) (p :: vs)
  | PReap3 _ p _ vs | PReap4 _ p _ vs =>
      Forall (fun p => session_at st p is_ready) (p :: vs)
  | PConn _ p | PMark0 p | PMark1 p _ => session_at st p (fun _ => True)
  | PReap0 ord _ | PReap1 ord _ _ => valid_order ord
  | PRec0 _ | PRec1 _ => True
  end.

Definition resolved (st : state) (s : Session) : Prop :=
  match serr s with
  | None => BEnsure (ID s) (Ok (SEndpoint s)) ∈ calls st
  | Some e => BEnsure (ID s) (Err e) ∈ calls st
  end.

Definition unready (st : state) (p : loc) : Prop := session_at st p (fun s => ready s = false).

Record Inv (st : state) (pcs : list pc) : Prop := mkInv {
  inv_dom p : is_Some (heap st !! p) <-> (p < nextloc st)%nat;
  inv_map id p : sessions st !! id = Some p -> session_at st p (fun s => ID s = id);
  inv_unready p s : heap st !! p = Some s -> ready s = false -> sessions st !! ID s = Some p;
  inv_one : NoDup (omap resolving pcs);
  inv_resolver p : p ∈ omap resolving pcs <-> unready st p;
  inv_resolved p s : heap st !! p = Some s -> ready s = true -> resolved st s;
  inv_pcs : Forall (pc_ok st) pcs;
  inv_safe : panicked st = false;
}.

(** ** What a step may change *)

(** The published part of a session. *)
Definition core (s : Session) : string * Z * Endpoint * bool * option error :=
  (ID s, created s, SEndpoint s, ready s, serr s).

(** From [st] to [st'], by a goroutine that may write to the unresolved session [q]. *)
Record ext (q : option loc) (st st' : state) : Prop := mkExt {
  ext_calls b : b ∈ calls st -> b ∈ calls st';
  ext_heap p s : heap st !! p = Some s ->
    exists s', heap st' !! p = Some s' /\ ID s' = ID s /\
      (ready s = true \/ Some p <> q -> core s' = core s);
}.

Lemma session_at_ext q st st' p (P Q : Session -> Prop) :
  ext q st st' -> session_at st p P ->
  (forall s s', P s -> ID s' = ID s -> (ready s = true \/ Some p <> q -> core s' = core s) -> Q s') ->
  session_at st' p Q.
Proof.
  intros [_ Hh] (s & Hs & HP) HQ. destruct (Hh _ _ Hs) as (s' & Hs' & Hid & Hc).
  exists s'. split; [done|]. by apply (HQ s s').
Qed.

Lemma kont_ok_ext q st st' id k : ext q st st' -> kont_ok st id k -> kont_ok st' id k.
Proof.
  intros He. destruct k; simpl; [done| |];
    intros H; apply (session_at_ext q st st' _ _ _ He H); congruence.
Qed.

Lemma core_fields s s' :
  core s' = core s ->
  ID s' = ID s /\ created s' = created s /\ SEndpoint s' = SEndpoint s /\
  ready s' = ready s /\ serr s' = serr s.
Proof. unfold core. intros. by simplify_eq. Qed.

Lemma get_error_ext q st st' id e : ext q st st' -> get_error st id e -> get_error st' id e.
Proof. intros [Hc _]. unfold get_error. naive_solver. Qed.

Lemma outcome_ok_ext q st st' o : ext q st st' -> outcome_ok st o -> outcome_ok st' o.
Proof.
  intros He. destruct o as [|id [p|e]|stale [p|e]]; simpl; try done;
    try by apply (get_error_ext q).
  - intros H; apply (session_at_ext q st st' _ _ _ He H).
    unfold is_ready. intros s s' (? & ? & ?) Hid Hc.
    destruct (core_fields s s') as (? & ? & ? & ? & ?); [auto|]. split_and!; congruence.
  - intros H; apply (session_at_ext q st st' _ _ _ He H).
    intros s0 s0' Hp Hid _. apply (session_at_ext q st st' _ _ _ He Hp). congruence.
  - intros H; apply (session_at_ext q st st' _ _ _ He H). intros s s' Hs -> _.
    by apply (get_error_ext q st).
Qed.

Lemma ready_list_ext q st st' l :
  ext q st st' -> Forall (fun p => session_at st p is_ready) l ->
  Forall (fun p => session_at st' p is_ready) l.
Proof.
  intros He Hl. eapply Forall_impl; [exact Hl|]. intros p Hp.
  apply (session_at_ext q st st' _ _ _ He Hp).
  unfold is_ready. intros s s' ? Hid Hc.
  destruct (core_fields s s') as (? & ? & ? & ? & ?); [auto|]. congruence.
Qed.

(** Another goroutine's knowledge survives a step. *)
Lemma pc_ok_ext q st st' c :
  ext q st st' -> (resolving c = None \/ resolving c <> q) -> pc_ok st c -> pc_ok st' c.
Proof.
  intros He Hq. pose proof (ext_calls q st st' He) as Hcalls.
  destruct c; cbn [pc_ok resolving] in *;
    try (by apply (outcome_ok_ext q st)); try (by apply (kont_ok_ext q st));
    try (by apply (ready_list_ext q st));
    try done;
    try (intros [Hk H]; split; [by eapply kont_ok_ext|]; revert H);
    intros H; apply (session_at_ext q st st' _ _ _ He H); intros s s' HP Hid Hc; try done.
  1: by rewrite Hid.
  1-3: assert (ready s = true) as Hr by (by destruct_and?);
       destruct (core_fields s s' (Hc (or_introl Hr))) as (_ & _ & _ & E4 & E5);
       unfold is_ready; rewrite ?Hid, ?E4, ?E5; done.
  all: assert (Some p <> q) as Hp by (by destruct Hq);
       destruct (core_fields s s' (Hc (or_intror Hp))) as (_ & _ & E3 & _ & E5).
  1-3: by rewrite ?Hid, E5.
  1-2: destruct HP as [HP HB]; rewrite E5, Hid; split; [exact HP|by apply Hcalls].
  all: destruct HP as [HP HB]; rewrite Hid; split; [|by apply Hcalls];
       unfold published in *; rewrite E3, E5; exact HP.
Qed.

(** ** Preservation, by kinds of steps *)

Lemma omap_NoDup_lookup {A B} (f : A -> option B) l i j a b x :
  NoDup (omap f l) -> l !! i = Some a -> l !! j = Some b -> i <> j ->
  f a = Some x -> f b = Some x -> False.
Proof.
  intros Hnd Hi Hj Hij Ha Hb.
  assert (exists k, delete i l !! k = Some b) as [k Hk].
  { destruct (decide (j < i)%nat).
    - exists j. by rewrite list_lookup_delete_lt.
    - exists (pred j). rewrite list_lookup_delete_ge by lia.
      by replace (S (pred j)) with j by lia. }
  rewrite (delete_Permutation l i a Hi) in Hnd. simpl in Hnd. rewrite Ha in Hnd.
  apply NoDup_cons in Hnd as [Hn _]. apply Hn, list_elem_of_omap.
  exists b. split; [by eapply list_elem_of_lookup_2|done].
Qed.

Lemma others_ok st st' pcs i c j cj :
  Inv st pcs -> pcs !! i = Some c -> ext (resolving c) st st' ->
  j <> i -> pcs !! j = Some cj -> pc_ok st' cj.
Proof.
  intros HI Hi He Hij Hj. apply (pc_ok_ext (resolving c) st).
  - done.
  - destruct (resolving cj) as [x|] eqn:Hx; [right|by left]. intros Heq.
    by apply (omap_NoDup_lookup resolving pcs j i cj c x (inv_one _ _ HI)).
  - by apply (Forall_lookup_1 _ _ _ _ (inv_pcs _ _ HI) Hj).
Qed.

Lemma pcs_ok st st' pcs i c c' :
  Inv st pcs -> pcs !! i = Some c -> ext (resolving c) st st' -> pc_ok st' c' ->
  Forall (pc_ok st') (<[i := c']> pcs).
Proof.
  intros HI Hi He Hc'. apply Forall_lookup_2. intros j cj Hj.
  destruct (decide (j = i)) as [->|Hne].
  - rewrite list_lookup_insert_eq in Hj by (by eapply lookup_lt_Some). by simplify_eq.
  - rewrite list_lookup_insert_ne in Hj by done. by apply (others_ok st st' pcs i c j).
Qed.

(** A step that neither creates a session nor resolves one. *)
Record quiet (q : option loc) (st st' : state) : Prop := mkQuiet {
  q_ext : ext q st st';
  q_next : nextloc st' = nextloc st;
  q_dom p : is_Some (heap st' !! p) -> is_Some (heap st !! p);
  q_ready p s s' : heap st !! p = Some s -> heap st' !! p = Some s' -> ready s' = ready s;
  q_sub id p : sessions st' !! id = Some p -> sessions st !! id = Some p;
  q_keep id p s : sessions st !! id = Some p -> heap st !! p = Some s -> ready s = false ->
    sessions st' !! id = Some p;
  q_panic : panicked st' = panicked st;
}.

Lemma quiet_unready q st st' p : quiet q st st' -> unready st' p <-> unready st p.
Proof.
  intros Hq. unfold unready, session_at. split.
  - intros (s' & Hs' & Hr). destruct (q_dom _ _ _ Hq p) as [s Hs]; [eauto|].
    exists s. split; [done|]. by rewrite <- (q_ready _ _ _ Hq _ _ _ Hs Hs').
  - intros (s & Hs & Hr). destruct (ext_heap _ _ _ (q_ext _ _ _ Hq) _ _ Hs) as (s' & Hs' & _).
    exists s'. split; [done|]. by rewrite (q_ready _ _ _ Hq _ _ _ Hs Hs').
Qed.

Lemma resolved_ext q st st' s s' :
  ext q st st' -> core s' = core s -> resolved st s -> resolved st' s'.
Proof.
  intros He (Hi & _ & Hep & _ & Hs)%core_fields. unfold resolved. rewrite Hs, Hi, Hep.
  case_match; apply (ext_calls _ _ _ He).
Qed.

Lemma Inv_quiet_state q st st' pcs pcs' :
  Inv st pcs -> quiet q st st' -> omap resolving pcs' ≡ₚ omap resolving pcs ->
  Forall (pc_ok st') pcs' -> Inv st' pcs'.
Proof.
  intros HI Hq Hp Hok. pose proof (q_ext _ _ _ Hq) as He.
  split; try done.
  - intros p. rewrite (q_next _ _ _ Hq), <- (inv_dom _ _ HI). split; [apply (q_dom _ _ _ Hq)|].
    intros [s Hs]. destruct (ext_heap _ _ _ He _ _ Hs) as (? & ? & _). eauto.
  - intros id p Hm%(q_sub _ _ _ Hq). apply (session_at_ext q st _ _ _ _ He (inv_map _ _ HI _ _ Hm)).
    intros. congruence.
  - intros p s' Hs' Hr. destruct (q_dom _ _ _ Hq p) as [s Hs]; [eauto|].
    destruct (ext_heap _ _ _ He _ _ Hs) as (s2 & ? & Hid & _). simplify_eq. rewrite Hid.
    rewrite (q_ready _ _ _ Hq _ _ _ Hs Hs') in Hr.
    eapply (q_keep _ _ _ Hq); [|done|done]. by apply (inv_unready _ _ HI).
  - rewrite Hp. apply HI.
  - intros p. rewrite Hp, (quiet_unready _ _ _ p Hq). apply HI.
  - intros p s' Hs' Hr. destruct (q_dom _ _ _ Hq p) as [s Hs]; [eauto|].
    destruct (ext_heap _ _ _ He _ _ Hs) as (s2 & ? & _ & Hc). simplify_eq.
    rewrite (q_ready _ _ _ Hq _ _ _ Hs Hs') in Hr.
    apply (resolved_ext q st _ s); [done|by apply Hc; left|by apply (inv_resolved _ _ HI p)].
  - rewrite (q_panic _ _ _ Hq). apply HI.
Qed.

Lemma omap_insert_same st pcs i c c' :
  Inv st pcs -> pcs !! i = Some c -> resolving c' = resolving c ->
  omap resolving (<[i := c']> pcs) ≡ₚ omap resolving pcs.
Proof.
  intros HI Hi Hr.
  rewrite (delete_Permutation (<[i := c']> pcs) i c')
    by (by apply list_lookup_insert_eq; eapply lookup_lt_Some).
  rewrite list_delete_insert. rewrite (delete_Permutation pcs i c Hi) at 2.
  simpl. by rewrite Hr.
Qed.

Lemma Inv_quiet st st' pcs i c c' :
  Inv st pcs -> pcs !! i = Some c -> quiet (resolving c) st st' ->
  resolving c' = resolving c -> pc_ok st' c' -> Inv st' (<[i := c']> pcs).
Proof.
  intros HI Hi Hq Hr Hok. apply (Inv_quiet_state (resolving c) st _ pcs); try done.
  - by eapply omap_insert_same.
  - eapply pcs_ok; [done|done|apply Hq|done].
Qed.

(** *** Quiet state changes *)

Lemma quiet_same q st st' :
  heap st' = heap st -> nextloc st' = nextloc st -> panicked st' = panicked st ->
  (forall b, b ∈ calls st -> b ∈ calls st') ->
  (forall id p, sessions st' !! id = Some p -> sessions st !! id = Some p) ->
  (forall id p s, sessions st !! id = Some p -> heap st !! p = Some s -> ready s = false ->
     sessions st' !! id = Some p) ->
  quiet q st st'.
Proof.
  intros Hh Hn Hp Hc Hsub Hk. split; try done.
  - split; [done|]. intros p s Hs. exists s. rewrite Hh. auto.
  - intros p. by rewrite Hh.
  - intros p s s' Hs. rewrite Hh, Hs. congruence.
Qed.

Lemma quiet_log q st b : quiet q st (log_call b st).
Proof. apply quiet_same; try done. intros b' Hb. simpl. set_solver. Qed.

Lemma quiet_metrics q st f : quiet q st (set_metrics f st).
Proof. by apply quiet_same. Qed.

Lemma quiet_refl q st : quiet q st st.
Proof. by apply quiet_same. Qed.

(** A write through a live pointer that keeps the id and [ready]. *)
Lemma quiet_update q st p s f :
  heap st !! p = Some s -> ID (f s) = ID s -> ready (f s) = ready s ->
  (ready s = true \/ Some p <> q -> core (f s) = core s) ->
  quiet q st (update p f st).
Proof.
  intros Hs Hid Hr Hc. split.
  - split; [intros b; by rewrite calls_update|].
    intros p' s' Hs'. rewrite (heap_update _ _ _ _ Hs).
    destruct (decide (p' = p)) as [->|Hne].
    + rewrite lookup_insert_eq. simplify_eq. eauto.
    + rewrite lookup_insert_ne by done. eauto.
  - by rewrite nextloc_update.
  - intros p'. rewrite (heap_update _ _ _ _ Hs).
    destruct (decide (p' = p)) as [->|Hne]; [eauto|by rewrite lookup_insert_ne].
  - intros p' s1 s2 H1. rewrite (heap_update _ _ _ _ Hs).
    destruct (decide (p' = p)) as [->|Hne].
    + rewrite lookup_insert_eq. intros; by simplify_eq.
    + rewrite lookup_insert_ne by done. congruence.
  - intros id p'. by rewrite sessions_update.
  - intros id p' s'. by rewrite sessions_update.
  - by apply (panicked_update _ _ _ s).
Qed.

(** Dropping ids whose current session is resolved. *)
Lemma quiet_drop q st st' :
  (forall id, sessions st' !! id = sessions st !! id \/
     sessions st' !! id = None /\
     forall p s, sessions st !! id = Some p -> heap st !! p = Some s -> ready s = true) ->
  heap st' = heap st -> nextloc st' = nextloc st -> panicked st' = panicked st ->
  calls st' = calls st -> quiet q st st'.
Proof.
  intros Hd Hh Hn Hp Hc. apply quiet_same; try done.
  - intros b. by rewrite Hc.
  - intros id p Hm. destruct (Hd id) as [<-|[Hnone _]]; congruence.
  - intros id p s Hm Hs Hr. destruct (Hd id) as [->|[_ Hready]]; [done|].
    rewrite (Hready _ _ Hm Hs) in Hr. done.
Qed.

Lemma quiet_get_drop q st id p :
  session_at st p is_ready -> quiet q st (get_drop id p st).
Proof.
  intros (s & Hs & Hr). unfold get_drop. case_decide; [|apply quiet_refl].
  apply quiet_drop; try done. intros id'. simpl.
  destruct (decide (id' = id)) as [->|]; [right|left; by rewrite lookup_delete_ne].
  rewrite lookup_delete_eq. split; [done|]. intros. congruence.
Qed.

Lemma quiet_refresh_lock q st stale d st' :
  session_at st stale is_ready -> refresh_lock stale st = (d, st') -> quiet q st st'.
Proof.
  intros (s & Hs & Hr). unfold refresh_lock. intros H.
  destruct (match lastRefresh st !! _ with Some _ => _ | None => _ end).
  - case_match; simplify_eq; apply quiet_refl.
  - simplify_eq. apply quiet_drop; try by case_decide. intros id. case_decide; [|by left]. simpl.
    destruct (decide (id = session_id stale st)) as [->|];
      [right|left; by rewrite lookup_delete_ne].
    rewrite lookup_delete_eq. split; [done|]. intros. congruence.
Qed.

Lemma Inv_maps_live st pcs : Inv st pcs -> maps_live st.
Proof. intros HI id p Hp. destruct (inv_map _ _ HI _ _ Hp) as (s & ? & _). eauto. Qed.

Lemma reapable_ready cutoff s : reapable cutoff s = true -> ready s = true.
Proof. unfold reapable. rewrite !andb_true_iff. tauto. Qed.

Lemma quiet_reap q st pcs cutoff ord vs st' :
  Inv st pcs -> valid_order ord -> reap_scan cutoff ord st = (vs, st') ->
  quiet q st st' /\ Forall (fun p => session_at st' p is_ready) vs.
Proof.
  intros HI Ho Hscan. pose proof (Inv_maps_live _ _ HI) as Hl.
  pose proof (reap_lookup cutoff ord st (Ho _)) as Hlook.
  rewrite reap_scan_eq in Hscan by (done || apply Ho). cbv zeta in Hscan. injection Hscan as <- <-. split.
  - apply quiet_drop; try done. intros id. simpl. rewrite Hlook.
    destruct (victim cutoff st id) eqn:Hv; [right|by left]. split; [done|].
    intros p s Hp Hs. unfold victim in Hv. rewrite Hp in Hv. simpl in Hv. rewrite Hs in Hv.
    by eapply reapable_ready.
  - apply Forall_fmap, Forall_forall. intros [id p] [Hr _]%list_elem_of_filter.
    unfold pointer_reapable in Hr. simpl in *. unfold session_at. simpl.
    destruct (heap st !! p) as [s|]; [|done].
    exists s. split; [done|]. by eapply reapable_ready, Is_true_true.
Qed.

(** *** New sessions *)

Record allocs (ps : list loc) (st st' : state) : Prop := mkAllocs {
  al_ps : ps = seq (nextloc st) (length ps);
  al_next : nextloc st' = (nextloc st + length ps)%nat;
  al_old p : (p < nextloc st)%nat -> heap st' !! p = heap st !! p;
  al_new p : p ∈ ps -> session_at st' p (fun s =>
    ready s = false /\ serr s = None /\ sessions st' !! ID s = Some p);
  al_out p : (nextloc st' <= p)%nat -> heap st !! p = None -> heap st' !! p = None;
  al_keep id p : sessions st !! id = Some p -> sessions st' !! id = Some p;
  al_map id p : sessions st' !! id = Some p ->
    sessions st !! id = Some p \/ p ∈ ps /\ session_at st' p (fun s => ID s = id);
  al_calls : calls st' = calls st;
  al_panic : panicked st' = panicked st;
}.

Lemma allocs_nil st : allocs [] st st.
Proof. split; try done; try lia; auto. intros p Hp. by apply elem_of_nil in Hp. Qed.

Lemma allocs_one st id :
  sessions st !! id = None ->
  allocs [nextloc st] st
    (set_sessions (<[id := nextloc st]> (sessions (alloc id st).2)) (alloc id st).2).
Proof.
  intros Hnone. split; simpl; try done; try lia.
  - intros p Hp. rewrite lookup_insert_ne by lia. done.
  - intros p ->%list_elem_of_singleton. eexists. simpl. rewrite lookup_insert_eq.
    split; [reflexivity|]. simpl. by rewrite lookup_insert_eq.
  - intros p Hp Hn. by rewrite lookup_insert_ne by lia.
  - intros id' p Hp. rewrite lookup_insert_ne; congruence.
  - intros id' p. destruct (decide (id' = id)) as [->|Hne].
    + rewrite lookup_insert_eq. intros [= <-]. right. split; [by left|].
      eexists. simpl. rewrite lookup_insert_eq. split; reflexivity.
    + rewrite lookup_insert_ne by done. by left.
Qed.

Lemma allocs_app ps1 ps2 st1 st2 st3 :
  allocs ps1 st1 st2 -> allocs ps2 st2 st3 -> allocs (ps1 ++ ps2) st1 st3.
Proof.
  intros A1 A2.
  assert (forall p, p ∈ ps1 -> (nextloc st1 <= p < nextloc st2)%nat) as Hrange.
  { intros p. rewrite (al_ps _ _ _ A1), list_elem_of_In, in_seq, (al_next _ _ _ A1). lia. }
  pose proof (al_next _ _ _ A1). pose proof (al_next _ _ _ A2).
  split.
  - rewrite length_app, seq_app, <- (al_ps _ _ _ A1), <- (al_next _ _ _ A1).
    by rewrite <- (al_ps _ _ _ A2).
  - rewrite length_app. lia.
  - intros p Hp. rewrite (al_old _ _ _ A2) by lia. by apply A1.
  - intros p [Hp|Hp]%elem_of_app; [|by apply A2].
    destruct (al_new _ _ _ A1 p Hp) as (s & Hs & ? & ? & ?). exists s.
    rewrite (al_old _ _ _ A2) by (apply Hrange in Hp; lia).
    split_and!; try done. by apply (al_keep _ _ _ A2).
  - intros p Hp Hn. apply (al_out _ _ _ A2 p Hp), (al_out _ _ _ A1); [lia|done].
  - intros id p Hp. by apply (al_keep _ _ _ A2), A1.
  - intros id p [Hp|[Hp Hs]]%(al_map _ _ _ A2); [|right; split; [set_solver|done]].
    apply (al_map _ _ _ A1) in Hp as [Hp|[Hp (s & Hs & Hid)]]; [by left|right].
    split; [set_solver|]. exists s. rewrite (al_old _ _ _ A2) by (apply Hrange in Hp; lia). done.
  - rewrite (al_calls _ _ _ A2). apply A1.
  - rewrite (al_panic _ _ _ A2). apply A1.
Qed.

Lemma get_acquire_allocs id st p sp st' :
  get_acquire id st = (p, sp, st') ->
  (sessions st !! id = Some p /\ sp = [] /\ st' = st) \/
  (sessions st !! id = None /\ sp = [p] /\ allocs sp st st' /\ session_at st' p (fun s => ID s = id)).
Proof.
  unfold get_acquire. destruct (sessions st !! id) as [q|] eqn:Hq; intros H; simplify_eq/=; [by left|].
  right. split_and!; try done.
  - by apply allocs_one.
  - eexists. simpl. rewrite lookup_insert_eq. split; reflexivity.
Qed.

Lemma reconcile_allocs ids st ps st' :
  reconcile_ids ids st = (ps, st') -> allocs ps st st'.
Proof.
  revert st ps st'. induction ids as [|id ids IH]; intros st ps st'; simpl.
  { intros [= <- <-]. apply allocs_nil. }
  destruct (sessions st !! id) eqn:Hid; [apply IH|].
  destruct (reconcile_ids ids _) as [ps2 st2] eqn:H2. intros [= <- <-].
  apply (allocs_app [nextloc st] ps2 _ _ _ (allocs_one st id Hid)). by apply IH.
Qed.

Lemma allocs_ext q ps st st' pcs :
  Inv st pcs -> allocs ps st st' -> ext q st st'.
Proof.
  intros HI HA. split; [intros b; by rewrite (al_calls _ _ _ HA)|].
  intros p s Hs. exists s. rewrite (al_old _ _ _ HA); [done|].
  apply (inv_dom _ _ HI). eauto.
Qed.

Lemma omap_spawned pcs i c c' ps :
  pcs !! i = Some c -> resolving c = None -> resolving c' = None ->
  omap resolving (<[i := c']> pcs ++ map PRes0 ps) ≡ₚ ps ++ omap resolving pcs.
Proof.
  intros Hi Hc Hc'. rewrite omap_app, (comm app).
  assert (omap resolving (map PRes0 ps) = ps) as ->.
  { induction ps as [|p ps IH]; [done|]. simpl. by f_equal. }
  f_equiv.
  rewrite (delete_Permutation (<[i := c']> pcs) i c')
    by (by apply list_lookup_insert_eq; eapply lookup_lt_Some).
  rewrite list_delete_insert. rewrite (delete_Permutation pcs i c Hi) at 2.
  simpl. by rewrite Hc, Hc'.
Qed.

Lemma allocs_range ps st st' p :
  allocs ps st st' -> p ∈ ps <-> (nextloc st <= p < nextloc st')%nat.
Proof.
  intros HA. rewrite (al_next _ _ _ HA). rewrite (al_ps _ _ _ HA) at 1.
  rewrite list_elem_of_In, in_seq. lia.
Qed.

(** A session of the state after an allocation is an old one or a new one. *)
Lemma allocs_heap ps st st' pcs p s :
  Inv st pcs -> allocs ps st st' -> heap st' !! p = Some s ->
  (heap st !! p = Some s /\ p ∉ ps) \/
  (p ∈ ps /\ ready s = false /\ serr s = None /\ sessions st' !! ID s = Some p).
Proof.
  intros HI HA Hs. destruct (decide (p ∈ ps)) as [Hp|Hp].
  - right. destruct (al_new _ _ _ HA p Hp) as (s' & ? & ?). naive_solver.
  - left. split; [|done].
    destruct (decide (p < nextloc st)%nat) as [Hlt|Hge]; [by rewrite <- (al_old _ _ _ HA)|].
    rewrite (al_out _ _ _ HA) in Hs; [done| |].
    + rewrite (allocs_range _ _ _ _ HA) in Hp. lia.
    + destruct (heap st !! p) eqn:E; [|done]. exfalso. apply Hge, (inv_dom _ _ HI). eauto.
Qed.

Lemma Inv_allocs st st' pcs i c c' ps :
  Inv st pcs -> pcs !! i = Some c -> resolving c = None -> resolving c' = None ->
  allocs ps st st' -> pc_ok st' c' -> Inv st' (<[i := c']> pcs ++ map PRes0 ps).
Proof.
  intros HI Hi Hc Hc' HA Hok. pose proof (allocs_ext (resolving c) _ _ _ _ HI HA) as He.
  pose proof (omap_spawned pcs i c c' ps Hi Hc Hc') as Hp.
  split.
  - intros p. destruct (decide (p ∈ ps)) as [Hin|Hin].
    + pose proof (proj1 (allocs_range _ _ _ _ HA) Hin).
      destruct (al_new _ _ _ HA p Hin) as (s & Hs & _). rewrite Hs. split; [lia|eauto].
    + rewrite (allocs_range _ _ _ _ HA) in Hin. split.
      * intros [s [[Hs _]|[Hin' _]]%(allocs_heap _ _ _ pcs _ _ HI HA)].
        -- enough (p < nextloc st)%nat by (rewrite (al_next _ _ _ HA); lia).
           apply (inv_dom _ _ HI). eauto.
        -- by rewrite (allocs_range _ _ _ _ HA) in Hin'.
      * intros Hlt. rewrite (al_old _ _ _ HA) by lia. apply (inv_dom _ _ HI). lia.
  - intros id p [Hm|[_ Hs]]%(al_map _ _ _ HA); [|done].
    apply (session_at_ext _ _ _ _ _ _ He (inv_map _ _ HI _ _ Hm)). congruence.
  - intros p s [[Hs _]|(_ & _ & _ & ?)]%(allocs_heap _ _ _ pcs _ _ HI HA) Hr; [|done].
    by apply (al_keep _ _ _ HA), (inv_unready _ _ HI).
  - rewrite Hp. apply NoDup_app. split_and!; [|  |apply HI].
    + rewrite (al_ps _ _ _ HA). apply NoDup_ListNoDup, seq_NoDup.
    + intros p Hin (s & Hs & _)%(inv_resolver _ _ HI).
      rewrite (allocs_range _ _ _ _ HA) in Hin.
      enough (p < nextloc st)%nat by lia. apply (inv_dom _ _ HI). eauto.
  - intros p. rewrite Hp, elem_of_app, (inv_resolver _ _ HI). split.
    + intros [Hin|(s & Hs & Hr)].
      * destruct (al_new _ _ _ HA p Hin) as (s & ? & ? & _). by exists s.
      * exists s. split; [|done]. rewrite (al_old _ _ _ HA); [done|].
        apply (inv_dom _ _ HI). eauto.
    + intros (s & [[Hs _]|[Hin _]]%(allocs_heap _ _ _ pcs _ _ HI HA) & Hr); [right|by left].
      by exists s.
  - intros p s [[Hs _]|(_ & Hu & _)]%(allocs_heap _ _ _ pcs _ _ HI HA) Hr; [|congruence].
    apply (resolved_ext _ _ _ s s He eq_refl). by apply (inv_resolved _ _ HI p).
  - apply Forall_app. split; [by eapply pcs_ok|].
    apply Forall_forall. intros x Hx. apply list_elem_of_In, in_map_iff in Hx as (p & <- & Hin).
    apply list_elem_of_In in Hin. destruct (al_new _ _ _ HA p Hin) as (s & ? & ? & ? & _).
    by exists s.
  - rewrite (al_panic _ _ _ HA). apply HI.
Qed.

(** *** Resolution: [close(sess.ready)] *)

Lemma close_ready_eq st p s :
  heap st !! p = Some s -> ready s = false ->
  close_ready p st = set_heap (<[p := with_ready s]> (heap st)) st.
Proof. intros Hs Hr. unfold close_ready, update. by rewrite Hs, Hr. Qed.

Lemma ext_close st p s :
  heap st !! p = Some s -> ready s = false -> ext (Some p) st (close_ready p st).
Proof.
  intros Hs Hr. rewrite (close_ready_eq _ _ _ Hs Hr). split; [done|]. simpl.
  intros p' s' Hs'. destruct (decide (p' = p)) as [->|Hne].
  - rewrite lookup_insert_eq. simplify_eq. eexists. split; [done|]. split; [done|].
    intros [?|?]; congruence.
  - rewrite lookup_insert_ne by done. eauto.
Qed.

Lemma Inv_close st pcs i p r :
  Inv st pcs -> pcs !! i = Some (PRes6 p r) ->
  Inv (close_ready p st) (<[i := PDone OUnit]> pcs).
Proof.
  intros HI Hi.
  assert (pc_ok st (PRes6 p r)) as (s & Hs & Hpub & Hcall)
    by (eapply Forall_lookup_1; [apply HI|done]).
  assert (p ∈ omap resolving pcs) as Hin.
  { apply list_elem_of_omap. exists (PRes6 p r). split; [by eapply list_elem_of_lookup_2|done]. }
  pose proof (proj1 (inv_resolver _ _ HI p) Hin) as (s' & Hs' & Hr). simplify_eq.
  pose proof (ext_close _ _ _ Hs Hr) as He.
  assert (omap resolving pcs ≡ₚ p :: omap resolving (<[i := PDone OUnit]> pcs)) as Hp.
  { rewrite (delete_Permutation (<[i := PDone OUnit]> pcs) i (PDone OUnit))
      by (by apply list_lookup_insert_eq; eapply lookup_lt_Some).
    rewrite list_delete_insert. by rewrite (delete_Permutation pcs i _ Hi) at 1. }
  pose proof (inv_one _ _ HI) as Hnd. rewrite Hp in Hnd. apply NoDup_cons in Hnd as [Hnot Hnd].
  assert (Forall (pc_ok (close_ready p st)) (<[i := PDone OUnit]> pcs)) as Hpcs
    by (by eapply pcs_ok).
  rewrite (close_ready_eq _ _ _ Hs Hr) in *.
  split; simpl; try done.
  - intros p'. rewrite <- (inv_dom _ _ HI).
    destruct (decide (p' = p)) as [->|Hne]; [rewrite lookup_insert_eq, Hs|rewrite lookup_insert_ne by done];
      naive_solver.
  - intros id p' Hm. apply (session_at_ext _ _ _ _ _ _ He (inv_map _ _ HI _ _ Hm)). congruence.
  - intros p' s'. destruct (decide (p' = p)) as [->|Hne].
    + rewrite lookup_insert_eq. intros [= <-]. done.
    + rewrite lookup_insert_ne by done. apply HI.
  - intros p'. destruct (decide (p' = p)) as [->|Hne].
    + split; [done|]. intros (s2 & Hs2 & Hr2). simpl in Hs2. rewrite lookup_insert_eq in Hs2.
      by simplify_eq.
    + assert (unready (set_heap (<[p := with_ready s]> (heap st)) st) p' <-> unready st p') as ->.
      { unfold unready, session_at. simpl. by rewrite lookup_insert_ne. }
      rewrite <- (inv_resolver _ _ HI), Hp. set_solver.
  - intros p' s'. destruct (decide (p' = p)) as [->|Hne].
    + rewrite lookup_insert_eq. intros [= <-] _. unfold resolved. simpl.
      destruct r; simpl in Hpub; [destruct Hpub as [-> ->]|rewrite Hpub]; done.
    + rewrite lookup_insert_ne by done. apply HI.
  - apply HI.
Qed.

(** ** Every step preserves the invariant *)

Lemma after_get_ok st id k r :
  kont_ok st id k ->
  match r with
  | Ok p => session_at st p (fun s => ID s = id /\ is_ready s /\ serr s = None)
  | Err e => get_error st id e
  end ->
  pc_ok st (after_get k r).
Proof.
  destruct k; simpl; destruct r as [p|e]; try (by intros ->);
    intros (s0 & Hs0 & <-); [|by exists s0| |by exists s0];
    intros (s & Hs & ? & _); exists s0; (split; [done|]); by exists s.
Qed.

Lemma ctx_Err_get_error ctx (st : state) id e : ctx_Err ctx st = Some e -> get_error st id e.
Proof. unfold ctx_Err, get_error. repeat case_match; naive_solver. Qed.

Lemma stored_error st pcs p s e :
  Inv st pcs -> heap st !! p = Some s -> is_ready s -> serr s = Some e -> get_error st (ID s) e.
Proof.
  intros HI Hs Hr He. pose proof (inv_resolved _ _ HI _ _ Hs Hr) as H.
  unfold resolved in H. rewrite He in H. by right; right.
Qed.

Lemma resolving_after_get k r : resolving (after_get k r) = None.
Proof. by destruct k. Qed.

Section steps.
Context (m : Manager).

Lemma Inv_get st pcs i c sp c' st' :
  match c with
  | PGet _ _ _ | PSelect _ _ _ _ | PCheck _ _ _ | PDrop _ _ _ _ => True
  | _ => False
  end ->
  Inv st pcs -> pcs !! i = Some c -> cstep m c st sp c' st' ->
  Inv st' (<[i := c']> pcs ++ map PRes0 sp).
Proof.
  intros Hc HI Hi Hstep.
  pose proof (Forall_lookup_1 _ _ _ _ (inv_pcs _ _ HI) Hi) as Hok.
  destruct Hstep; try done; simpl in Hok; rewrite ?app_nil_r.
  - destruct (get_acquire_allocs _ _ _ _ _ H) as [(Hm & -> & ->)|(Hm & -> & HA & Hs)].
    + rewrite app_nil_r. apply (Inv_quiet st _ _ _ _ _ HI Hi); [apply quiet_refl|done|].
      split; [done|]. by apply HI.
    + apply (Inv_allocs st _ _ _ _ _ _ HI Hi); try done. split; [|done].
      eapply kont_ok_ext; [|exact Hok]. by eapply (allocs_ext None).
  - destruct Hok as [Hk (s' & Hs' & Hid)]. simplify_eq.
    apply (Inv_quiet st _ _ _ _ _ HI Hi); [apply quiet_refl|done|]. simpl. split; [done|].
    by exists s.
  - apply (Inv_quiet st _ _ _ _ _ HI Hi); [apply quiet_refl|apply resolving_after_get|].
    eapply after_get_ok; [apply Hok|]. by eapply ctx_Err_get_error.
  - destruct Hok as [Hk (s & Hs & Hid & Hr)]. unfold session_err in H. rewrite Hs in H.
    apply (Inv_quiet st _ _ _ _ _ HI Hi); [apply quiet_refl|apply resolving_after_get|].
    eapply after_get_ok; [done|]. by exists s.
  - destruct Hok as [Hk (s & Hs & Hid & Hr)]. unfold session_err in H. rewrite Hs in H.
    apply (Inv_quiet st _ _ _ _ _ HI Hi); [apply quiet_refl|done|]. simpl. split; [done|].
    by exists s.
  - destruct Hok as [Hk (s & Hs & Hid & Hr & He)].
    assert (quiet None st (get_drop id p st)) as Hq by (apply quiet_get_drop; by exists s).
    apply (Inv_quiet st _ _ _ _ _ HI Hi);
      [exact Hq|apply resolving_after_get|].
    eapply after_get_ok; [by eapply kont_ok_ext; [apply Hq|]|].
    apply (get_error_ext None st); [apply Hq|]. subst id. by eapply stored_error.
Qed.

Lemma Inv_resolve st pcs i c sp c' st' :
  is_Some (resolving c) ->
  Inv st pcs -> pcs !! i = Some c -> cstep m c st sp c' st' ->
  Inv st' (<[i := c']> pcs ++ map PRes0 sp).
Proof.
  intros Hc HI Hi Hstep.
  pose proof (Forall_lookup_1 _ _ _ _ (inv_pcs _ _ HI) Hi) as Hok.
  destruct Hstep; try (by destruct Hc); simpl in Hok; rewrite app_nil_r.
  - by apply (Inv_quiet st _ _ _ _ _ HI Hi); [apply quiet_refl| |].
  - apply (Inv_quiet st _ _ _ _ _ HI Hi); [apply quiet_refl|done|].
    destruct Hok as (s & Hs & He). exists s. unfold session_id. by rewrite Hs.
  - apply (Inv_quiet st _ _ _ _ _ HI Hi); [apply quiet_log|done|].
    destruct Hok as (s & Hs & He & Hid). exists s. simpl. rewrite Hid. set_solver.
  - by apply (Inv_quiet st _ _ _ _ _ HI Hi); [apply quiet_refl| |].
  - destruct Hok as (s & Hs & He & Hcall).
    assert (unready st p) as (s' & Hs' & Hr).
    { apply (inv_resolver _ _ HI), list_elem_of_omap. exists (PRes4 p el r).
      split; [by eapply list_elem_of_lookup_2|done]. }
    simplify_eq.
    apply (Inv_quiet st _ _ _ _ _ HI Hi); [|done|].
    + apply (quiet_update _ _ _ s); [done|by destruct r..|]. intros [?|?]; simpl in *; congruence.
    + exists (res_store r s). rewrite (heap_update _ _ _ _ Hs), lookup_insert_eq, calls_update.
      by destruct r.
  - by apply (Inv_quiet st _ _ _ _ _ HI Hi); [apply quiet_metrics| |].
  - by eapply Inv_close.
Qed.

Lemma Inv_touch st pcs i p c c' f :
  Inv st pcs -> pcs !! i = Some c -> session_at st p (fun _ => True) ->
  resolving c = None -> resolving c' = None ->
  (forall s, core (f s) = core s) ->
  (forall st', session_at st' p (fun _ => True) -> pc_ok st' c') ->
  Inv (update p f st) (<[i := c']> pcs).
Proof.
  intros HI Hi (s & Hs & _) Hc Hc' Hf Hok.
  destruct (core_fields s (f s) (Hf s)) as (? & ? & ? & ? & ?).
  apply (Inv_quiet st _ _ _ _ _ HI Hi); [by apply (quiet_update _ _ _ s)|congruence|].
  apply Hok. exists (f s). by rewrite (heap_update _ _ _ _ Hs), lookup_insert_eq.
Qed.

Lemma reap_from_ok ctx st vs :
  Forall (fun p => session_at st p is_ready) vs -> pc_ok st (reap_from ctx vs).
Proof. by destruct vs. Qed.

Lemma refresh_decision_ok st pcs ctx stale d st' :
  Inv st pcs -> session_at st stale is_ready -> refresh_lock stale st = (d, st') ->
  pc_ok st' (after_decision ctx stale d).
Proof.
  intros HI (s & Hs & Hr) Hl.
  assert (heap st' = heap st) as Hh.
  { revert Hl. unfold refresh_lock. repeat case_match; intros; by simplify_eq. }
  assert (session_at st' stale (fun s0 => ID s0 = session_id stale st)) as Hst.
  { exists s. rewrite Hh. split; [done|]. unfold session_id. by rewrite Hs. }
  revert Hl. unfold refresh_lock.
  destruct (match lastRefresh st !! _ with Some _ => _ | None => _ end).
  - destruct (sessions st !! session_id stale st) as [p|] eqn:Hp; intros [= <- <-]; [|done].
    destruct (inv_map _ _ HI _ _ Hp) as (s2 & Hs2 & Hid). simpl.
    exists s. split; [done|]. exists s2. split; [done|].
    rewrite Hid. unfold session_id. by rewrite Hs.
  - intros [= <- <-]. done.
Qed.

Lemma Inv_cstep st pcs i c sp c' st' :
  Inv st pcs -> pcs !! i = Some c -> cstep m c st sp c' st' ->
  Inv st' (<[i := c']> pcs ++ map PRes0 sp).
Proof.
  intros HI Hi Hstep.
  pose proof (Forall_lookup_1 _ _ _ _ (inv_pcs _ _ HI) Hi) as Hok.
  destruct Hstep; try (by eapply Inv_get; [|done|done|econstructor; eauto]);
    try (by eapply Inv_resolve; [|done|done|econstructor; eauto]);
    simpl in Hok; rewrite ?app_nil_r.
  - by apply (Inv_quiet st _ _ _ _ _ HI Hi); [apply quiet_metrics| |].
  - apply (Inv_quiet st _ _ _ _ _ HI Hi);
      [by eapply quiet_refresh_lock|by destruct d|by eapply refresh_decision_ok].
  - by apply (Inv_quiet st _ _ _ _ _ HI Hi); [apply quiet_refl| |].
  - destruct (quiet_reap None _ _ _ _ _ _ HI Hok H) as [Hq Hvs].
    apply (Inv_quiet st _ _ _ _ _ HI Hi); [done|by destruct vs|by apply reap_from_ok].
  - by apply (Inv_quiet st _ _ _ _ _ HI Hi); [apply quiet_refl| |].
  - by apply (Inv_quiet st _ _ _ _ _ HI Hi); [apply quiet_log| |].
  - apply Forall_cons in Hok as [(s & Hs & _) Hok].
    assert (reap_record m p err st =
      set_metrics (fun mx => mx) st \/ exists f, reap_record m p err st = set_metrics f st)
      as Hrec.
    { unfold reap_record. rewrite Hs. destruct err; eauto. }
    destruct Hrec as [-> | [f ->]];
      (apply (Inv_quiet st _ _ _ _ _ HI Hi);
        [apply quiet_metrics|by destruct vs|by apply reap_from_ok]).
  - by apply (Inv_quiet st _ _ _ _ _ HI Hi); [apply quiet_refl| |].
  - by apply (Inv_quiet st _ _ _ _ _ HI Hi); [apply quiet_refl| |].
  - by apply (Inv_allocs st _ _ _ _ _ _ HI Hi); [| |eapply reconcile_allocs|].
  - by apply (Inv_touch st _ _ _ _ _ _ HI Hi).
  - by apply (Inv_quiet st _ _ _ _ _ HI Hi); [apply quiet_refl| |].
  - by apply (Inv_touch st _ _ _ _ _ _ HI Hi).
Qed.

(** A new goroutine that resolves nothing. *)
Lemma Inv_spawn st pcs c :
  Inv st pcs -> resolving c = None -> pc_ok st c -> Inv st (pcs ++ [c]).
Proof.
  intros HI Hc Hok. apply (Inv_quiet_state None st _ pcs); [done|apply quiet_refl| |].
  - rewrite omap_app. simpl. by rewrite Hc, app_nil_r.
  - apply Forall_app. split; [apply HI|by constructor].
Qed.

Lemma Inv_env st st' pcs :
  Inv st pcs -> heap st' = heap st -> nextloc st' = nextloc st -> sessions st' = sessions st ->
  calls st' = calls st -> panicked st' = panicked st -> Inv st' pcs.
Proof.
  intros HI Hh Hn Hs Hc Hp.
  assert (quiet None st st') as Hq by (apply quiet_same; try done; rewrite ?Hs, ?Hc; done).
  apply (Inv_quiet_state None st _ pcs); [done|done|done|].
  eapply Forall_impl; [apply HI|]. intros c. apply (pc_ok_ext None); [apply Hq|].
  destruct (resolving c); [by right|by left].
Qed.

(** The cutoff of a scan is not ahead of the clock. *)
Definition cutoff_ok (st : state) (c : pc) : Prop :=
  match c with
  | PReap1 _ _ cutoff => cutoff <= clock st + wrap64 (- idleTTL m)
  | _ => True
  end.

(** Time and the contexts are the outside's. *)
Definition surroundings (st : state) : Z * gset nat := (clock st, cancelled st).

Lemma surroundings_update p f st : surroundings (update p f st) = surroundings st.
Proof. unfold surroundings. by rewrite clock_update, cancelled_update. Qed.

Lemma cstep_surroundings c st sp c' st' : cstep m c st sp c' st' -> surroundings st' = surroundings st.
Proof.
  destruct 1; try done; try apply surroundings_update.
  - revert H. unfold get_acquire. case_match; intros; by simplify_eq/=.
  - unfold get_drop. by case_decide.
  - revert H. unfold refresh_lock. repeat case_match; intros; by simplify_eq/=.
  - unfold close_ready. repeat case_match; try done; apply surroundings_update.
  - revert H. unfold reap_scan. generalize (ord (map_to_list (sessions st))) as l.
    intros l. change (surroundings st) with (surroundings ([] : list loc, st).2).
    generalize (([] : list loc, st)) as acc.
    induction l as [|[id p] l IH]; simpl; intros acc H; [by rewrite H|].
    rewrite (IH _ H). unfold reap_visit. destruct acc. simpl. by repeat case_match.
  - unfold reap_record. by repeat case_match.
  - revert st ps st' H. induction ids as [|id ids IH]; simpl; intros st ps st'.
    { by intros [= <- <-]. }
    case_match; [apply IH|]. destruct (reconcile_ids ids _) as [ps2 st2] eqn:H2.
    intros [= <- <-]. by rewrite (IH _ _ _ H2).
Qed.

Lemma cstep_clock c st sp c' st' : cstep m c st sp c' st' -> clock st' = clock st.
Proof. by intros [= H _]%cstep_surroundings. Qed.

Lemma cutoff_cstep c st sp c' st' : cstep m c st sp c' st' -> cutoff_ok st' c'.
Proof. destruct 1; try destruct k; try destruct vs; try destruct d; simpl; try done; lia. Qed.

Definition good (s : system) : Prop :=
  exists pcs, pool s = map (prog_of m) pcs /\ Inv (sst s) pcs /\ Forall (cutoff_ok (sst s)) pcs.

Lemma cutoffs_later st st' pcs :
  clock st <= clock st' -> Forall (cutoff_ok st) pcs -> Forall (cutoff_ok st') pcs.
Proof.
  intros Hc Hf. eapply Forall_impl; [exact Hf|]. intros c. destruct c; simpl; try done. lia.
Qed.

Lemma map_lookup_inv {A B} (f : A -> B) l i b :
  map f l !! i = Some b -> exists a, l !! i = Some a /\ f a = b.
Proof.
  change (map f l) with (f <$> l). rewrite list_lookup_fmap.
  intros (a & -> & ?)%fmap_Some. eauto.
Qed.

Lemma map_insert {A B} (f : A -> B) l i a : map f (<[i := a]> l) = <[i := f a]> (map f l).
Proof. apply (list_fmap_insert f). Qed.

(** What a finished goroutine's result says of the state. *)
Lemma pool_ret s pcs o :
  pool s = map (prog_of m) pcs -> Inv (sst s) pcs -> Ret o ∈ pool s -> outcome_ok (sst s) o.
Proof.
  intros Hp HI Ho. rewrite Hp in Ho.
  apply list_elem_of_In, in_map_iff in Ho as (c & ->%prog_of_Ret & Hin).
  apply list_elem_of_In in Hin. by apply (proj1 (Forall_forall _ _) (inv_pcs _ _ HI) _ Hin).
Qed.

Lemma held_session s pcs p :
  pool s = map (prog_of m) pcs -> Inv (sst s) pcs -> held s p ->
  session_at (sst s) p (fun _ => True).
Proof.
  intros Hp HI [[id H]|[stale H]]; apply (pool_ret s pcs _ Hp HI) in H; simpl in H.
  - destruct H as (x & ? & _). by exists x.
  - destruct H as (s0 & _ & x & ? & _). by exists x.
Qed.

(** Where a goroutine called by the proxy, the reaper or main starts. *)
Definition starting (c : pc) : bool :=
  match c with
  | PGet _ _ (KGet _) | PRefresh _ _ | PMark0 _ | PConn _ _ | PReap0 _ _ | PRec0 _ => true
  | _ => false
  end.

(** A step of the system, on control points: one of them steps and may start resolvers, or a
    goroutine starts, or only the clock and the contexts move. *)
Lemma gstep_pcs s s' pcs :
  pool s = map (prog_of m) pcs -> Inv (sst s) pcs -> gstep m s s' ->
  exists pcs', pool s' = map (prog_of m) pcs' /\ Inv (sst s') pcs' /\
    ((exists i c sp c', pcs !! i = Some c /\ cstep m c (sst s) sp c' (sst s') /\
        pcs' = <[i := c']> pcs ++ map PRes0 sp) \/
     (exists new, pcs' = pcs ++ new /\ Forall (fun c => starting c = true) new /\
        heap (sst s') = heap (sst s) /\ nextloc (sst s') = nextloc (sst s) /\
        sessions (sst s') = sessions (sst s) /\ mx (sst s') = mx (sst s) /\ clock (sst s) <= clock (sst s'))).
Proof.
  intros Hp HI Hstep.
  assert (forall c, starting c = true -> pc_ok (sst s) c ->
    pool (spawn [prog_of m c] s) = map (prog_of m) (pcs ++ [c]) /\ Inv (sst s) (pcs ++ [c])) as Hnew.
  { intros c Hc Hok. split; [simpl; by rewrite Hp, map_app|]. apply Inv_spawn; by destruct c. }
  assert (forall c, starting c = true -> pc_ok (sst s) c -> spawn [prog_of m c] s = s' ->
    exists pcs', pool s' = map (prog_of m) pcs' /\ Inv (sst s') pcs' /\
    ((exists i c sp c', pcs !! i = Some c /\ cstep m c (sst s) sp c' (sst s') /\
        pcs' = <[i := c']> pcs ++ map PRes0 sp) \/
     (exists new, pcs' = pcs ++ new /\ Forall (fun c => starting c = true) new /\
        heap (sst s') = heap (sst s) /\ nextloc (sst s') = nextloc (sst s) /\
        sessions (sst s') = sessions (sst s) /\ mx (sst s') = mx (sst s) /\ clock (sst s) <= clock (sst s')))) as Hspawn.
  { intros c Hc Hok <-. destruct (Hnew c Hc Hok) as [Hpool HI']. exists (pcs ++ [c]).
    split; [done|]. split; [done|]. right. exists [c]. simpl. split_and!; try done; by constructor. }
  destruct Hstep.
  - rewrite Hp in H. apply map_lookup_inv in H as (c & Hi & <-).
    apply control_simulation in H0 as (c' & -> & Hc).
    exists (<[i := c']> pcs ++ map PRes0 sp). simpl. split_and!.
    + rewrite Hp, map_app, map_insert. f_equal. by rewrite map_map.
    + by eapply Inv_cstep.
    + left. by exists i, c, sp, c'.
  - exists pcs. split; [done|]. split; [by apply (Inv_env (sst s))|]. right. exists [].
    rewrite app_nil_r. simpl. split_and!; try done. lia.
  - exists pcs. split; [done|]. split; [by apply (Inv_env (sst s))|]. right. exists [].
    rewrite app_nil_r. simpl. split_and!; try done.
  - by apply (Hspawn (PGet ctx id (KGet id))).
  - apply (Hspawn (PRefresh ctx p)); [done| |done]. destruct H as [id H].
    apply (pool_ret s pcs _ Hp HI) in H as (x & ? & _ & ? & _). by exists x.
  - pose proof (held_session _ _ _ Hp HI H).
    destruct t; [by apply (Hspawn (PMark0 p))|by apply (Hspawn (PConn 1 p))|by apply (Hspawn (PConn (-1) p))].
  - by apply (Hspawn (PReap0 ord ctx)).
  - by apply (Hspawn (PRec0 ctx)).
Qed.

Lemma good_step s s' : good s -> gstep m s s' -> good s'.
Proof.
  intros (pcs & Hp & HI & Hcut) Hstep.
  destruct (gstep_pcs s s' pcs Hp HI Hstep) as (pcs' & Hp' & HI' & Hcase).
  exists pcs'. split; [done|]. split; [done|].
  destruct Hcase as [(i & c & sp & c' & Hi & Hc & ->)|(new & -> & Hnew & _ & _ & _ & _ & Hclk)];
    apply Forall_app; split.
  - apply Forall_insert; [|by eapply cutoff_cstep].
    apply (cutoffs_later (sst s)); [|done]. by rewrite (cstep_clock _ _ _ _ _ Hc).
  - apply Forall_forall. by intros ? (? & <- & ?)%list_elem_of_In%in_map_iff.
  - by apply (cutoffs_later (sst s)).
  - eapply Forall_impl; [exact Hnew|]. by intros [].
Qed.

Lemma reachable_good s : reachable m s -> good s.
Proof.
  intros (t & mx & Hr).
  assert (good (init t mx)) as Hi.
  { exists []. split; [done|]. split; [|done]. split; simpl; try done; try by constructor.
    - intros p. rewrite lookup_empty. split; [by intros []|lia].
    - intros p. split; [by intros ?%elem_of_nil|].
      intros (s0 & Hs0 & _). simpl in Hs0. by rewrite lookup_empty in Hs0. }
  revert Hi. induction Hr; [done|]. intros. by eapply IHHr, good_step.
Qed.

(** ** What a step changes *)

(** A step of a goroutine either resolves a session, or creates some, or neither. *)
Lemma cstep_shape st pcs i c sp c' st' :
  Inv st pcs -> pcs !! i = Some c -> cstep m c st sp c' st' ->
  quiet (resolving c) st st' \/ allocs sp st st' \/
  exists p r, c = PRes6 p r /\ st' = close_ready p st.
Proof.
  intros HI Hi Hstep.
  pose proof (Forall_lookup_1 _ _ _ _ (inv_pcs _ _ HI) Hi) as Hok.
  destruct Hstep; simpl in Hok;
    try (left; first [apply quiet_refl|apply quiet_metrics|apply quiet_log]).
  - destruct (get_acquire_allocs _ _ _ _ _ H) as [(_ & -> & ->)|(_ & _ & HA & _)];
      [left; apply quiet_refl|by right; left].
  - left. apply quiet_get_drop. destruct Hok as [_ (s & ? & _ & ? & _)]. by exists s.
  - left. by eapply quiet_refresh_lock.
  - left. destruct Hok as (s & Hs & He & _).
    assert (unready st p) as (s' & Hs' & Hr).
    { apply (inv_resolver _ _ HI), list_elem_of_omap. exists (PRes4 p el r).
      split; [by eapply list_elem_of_lookup_2|done]. }
    simplify_eq. apply (quiet_update _ _ _ s); [done|by destruct r..|].
    intros [?|?]; simpl in *; congruence.
  - right; right. eauto.
  - left. by eapply quiet_reap.
  - left. unfold reap_record. apply Forall_cons in Hok as [(s & Hs & _) _].
    rewrite Hs. destruct err; apply quiet_metrics.
  - right; left. by eapply reconcile_allocs.
  - left. destruct Hok as (s & Hs & _). by apply (quiet_update _ _ _ s).
  - left. destruct Hok as (s & Hs & _). by apply (quiet_update _ _ _ s).
Qed.

Lemma cstep_ext st pcs i c sp c' st' :
  Inv st pcs -> pcs !! i = Some c -> cstep m c st sp c' st' -> ext (resolving c) st st'.
Proof.
  intros HI Hi Hc. destruct (cstep_shape _ _ _ _ _ _ _ HI Hi Hc) as [H|[H|(p & r & -> & ->)]].
  - apply H.
  - by eapply allocs_ext.
  - assert (unready st p) as (s' & Hs' & Hr).
    { apply (inv_resolver _ _ HI), list_elem_of_omap. exists (PRes6 p r).
      split; [by eapply list_elem_of_lookup_2|done]. }
    by eapply ext_close.
Qed.

(** What a step of the whole system does to the state: a goroutine's step, or none
    of it but the clock and the contexts. *)
Lemma gstep_cases s s' :
  good s -> gstep m s s' ->
  (exists pcs i c sp c', pool s = map (prog_of m) pcs /\ Inv (sst s) pcs /\
     pcs !! i = Some c /\ cutoff_ok (sst s) c /\ cstep m c (sst s) sp c' (sst s')) \/
  (heap (sst s') = heap (sst s) /\ sessions (sst s') = sessions (sst s) /\
   lastRefresh (sst s') = lastRefresh (sst s) /\ calls (sst s') = calls (sst s)).
Proof.
  intros (pcs & Hp & HI & Hcut) Hstep. destruct Hstep; try by right.
  left. rewrite Hp in H. apply map_lookup_inv in H as (c & Hi & <-).
  apply control_simulation in H0 as (c' & -> & Hc).
  exists pcs, i, c, sp, c'. split_and!; try done. by eapply Forall_lookup_1.
Qed.
End steps.
