(* ===== verification/SessionProps.v ===== *)
(** * What the session manager guarantees

    Theorems about every reachable state of the concurrent system: single flight of
    Ensure, what Get returns, when a session leaves the map, progress. *)

From S2P Require Import Prelude GoStd Backend Metrics Session SessionFacts SessionSys SessionSched SessionInv.
Local Open Scope Z_scope.

(** The id of the Ensure call a goroutine is about to make, or waits for. *)
Definition ensuring (g : goroutine) : option string :=
  match g with
  | Do a _ => match a with CallEnsure _ id => Some id | _ => None end
  | Ret _ => None
  end.

Definition finished (g : goroutine) : Prop := exists o, g = Ret o.
Definition can_step (g : goroutine) (st : state) : Prop := exists sp g' st', pstep g st sp g' st'.

Section props.
Context (m : Manager).

Lemma ensuring_pc c id :
  ensuring (prog_of m c) = Some id -> exists p ctx start, c = PRes2 p ctx start id.
Proof. destruct c; try destruct k; try destruct r; simpl; intros; simplify_eq; eauto. Qed.

Lemma pool_pc s pcs i g :
  pool s = map (prog_of m) pcs -> pool s !! i = Some g ->
  exists c, pcs !! i = Some c /\ prog_of m c = g.
Proof. intros ->. apply map_lookup_inv. Qed.

(** A goroutine about to Ensure [id] does it for the current session of [id]. *)
Lemma ensuring_current st pcs i p ctx start id :
  Inv st pcs -> pcs !! i = Some (PRes2 p ctx start id) ->
  sessions st !! id = Some p /\ unready st p.
Proof.
  intros HI Hi. pose proof (Forall_lookup_1 _ _ _ _ (inv_pcs _ _ HI) Hi) as (s & Hs & _ & Hid).
  assert (unready st p) as Hu.
  { apply (inv_resolver _ _ HI), list_elem_of_omap. eexists.
    split; [by eapply list_elem_of_lookup_2|done]. }
  split; [|done]. destruct Hu as (s' & Hs' & Hr). simplify_eq.
  by apply (inv_unready _ _ HI).
Qed.

(** C1. Single flight: in every reachable state of the concurrent manager, two goroutines
    whose next action is the backend's Ensure of the same id are the same goroutine,
    whatever Gets, Refreshes, reconciliations and idle scans have interleaved. *)
Theorem ensure_singleflight (s : system) :
  reachable m s ->
  forall i j g1 g2 id,
    pool s !! i = Some g1 -> pool s !! j = Some g2 ->
    ensuring g1 = Some id -> ensuring g2 = Some id -> i = j.
Proof.
  intros Hr i j g1 g2 id H1 H2 He1 He2.
  destruct (reachable_good m s Hr) as (pcs & Hp & HI & _).
  destruct (pool_pc _ _ _ _ Hp H1) as (c1 & Hc1 & <-), (pool_pc _ _ _ _ Hp H2) as (c2 & Hc2 & <-).
  apply ensuring_pc in He1 as (p1 & ctx1 & t1 & ->), He2 as (p2 & ctx2 & t2 & ->).
  destruct (ensuring_current _ _ _ _ _ _ _ HI Hc1), (ensuring_current _ _ _ _ _ _ _ HI Hc2).
  simplify_eq. destruct (decide (i = j)) as [|Hij]; [done|]. exfalso.
  by apply (omap_NoDup_lookup resolving pcs i j _ _ p1 (inv_one _ _ HI) Hc1 Hc2 Hij).
Qed.

(** C17. No interleaving makes the manager panic: no [ready] channel is closed twice and no
    dangling session pointer is followed. *)
Theorem manager_never_panics (s : system) : reachable m s -> panicked (sst s) = false.
Proof. intros (pcs & _ & HI & _)%reachable_good. apply HI. Qed.

(** C18. What a finished Get has returned: a resolved session of its id, without error,
    whose endpoint a completed Ensure of that id returned; or the error of its own
    context; or the error a completed Ensure of that id returned. *)
Theorem get_outcome (s : system) :
  reachable m s ->
  forall id r, Ret (OGet id r) ∈ pool s ->
    match r with
    | Ok p => exists x, heap (sst s) !! p = Some x /\ ID x = id /\ ready x = true /\
                BEnsure id (Ok (SEndpoint x)) ∈ calls (sst s)
    | Err e => e = ContextCanceled \/ e = ContextDeadlineExceeded \/
               BEnsure id (Err e) ∈ calls (sst s)
    end.
Proof.
  intros (pcs & Hp & HI & _)%reachable_good id r Hin.
  pose proof (pool_ret m s pcs _ Hp HI Hin) as H. destruct r as [p|e]; [|exact H].
  destruct H as (x & Hx & <- & Hr & He). exists x. split_and!; try done.
  pose proof (inv_resolved _ _ HI _ _ Hx Hr) as Hres. unfold resolved in Hres.
  by rewrite He in Hres.
Qed.

(** The fields [resolve] publishes never change once [ready] is closed, so readers need
    no lock. *)
Theorem published_stable (s s' : system) :
  reachable m s -> gstep m s s' ->
  forall p x, heap (sst s) !! p = Some x -> ready x = true ->
    exists x', heap (sst s') !! p = Some x' /\ core x' = core x.
Proof.
  intros Hr Hs p x Hx Hready.
  destruct (gstep_cases m s s' (reachable_good m s Hr) Hs)
    as [(pcs & i & c & sp & c' & _ & HI & Hi & _ & Hc)|(-> & _)]; [|eauto].
  destruct (ext_heap _ _ _ (cstep_ext m _ _ _ _ _ _ _ HI Hi Hc) _ _ Hx) as (x' & Hx' & _ & Hk).
  eauto.
Qed.

(** A session that is not the current one of its id never becomes current again: of
    the Refreshes racing on one stale session at most one drops it, and none drops its
    replacement. *)
Theorem dropped_for_good (s s' : system) :
  reachable m s -> gstep m s s' ->
  forall p x, heap (sst s) !! p = Some x ->
    sessions (sst s) !! ID x <> Some p -> sessions (sst s') !! ID x <> Some p.
Proof.
  intros Hr Hs p x Hx Hno.
  destruct (gstep_cases m s s' (reachable_good m s Hr) Hs)
    as [(pcs & i & c & sp & c' & _ & HI & Hi & _ & Hc)|(_ & -> & _)]; [|done].
  destruct (cstep_shape m _ _ _ _ _ _ _ HI Hi Hc) as [H|[H|(q & r & -> & Heq)]].
  - intros Hm. by apply Hno, (q_sub _ _ _ H).
  - intros [|[Hin _]]%(al_map _ _ _ H); [done|].
    rewrite (allocs_range _ _ _ _ H) in Hin.
    enough (p < nextloc (sst s))%nat by lia. apply (inv_dom _ _ HI). eauto.
  - rewrite Heq. unfold close_ready. repeat case_match; simpl; rewrite ?sessions_update; done.
Qed.
(** *** Leaving the map *)

(** [id] is in the cooldown of its last Refresh. *)
Definition cooling (st : state) (id : string) : Prop :=
  exists t, lastRefresh st !! id = Some t /\ sat64 (clock st - t) < refreshCooldown.

Definition idle (st : state) (x : Session) : Prop :=
  activeConn x <= 0 /\ lastActive x <= clock st + wrap64 (- idleTTL m).

Lemma refresh_lock_cases stale st d st' :
  refresh_lock stale st = (d, st') ->
  st' = st \/
  ~ cooling st (session_id stale st) /\ d = Refreshed (session_id stale st) /\
  sessions st' = (if decide (sessions st !! session_id stale st = Some stale)
                  then delete (session_id stale st) (sessions st) else sessions st) /\
  lastRefresh st' = <[session_id stale st := clock st]> (lastRefresh st).
Proof.
  unfold refresh_lock, cooling. set (id := session_id stale st).
  destruct (lastRefresh st !! id) as [t|] eqn:Ht.
  - destruct (Z.ltb_spec (sat64 (clock st - t)) refreshCooldown) as [Hlt|Hge].
    + case_match; intros; simplify_eq; by left.
    + intros [= <- <-]. right. split; [intros (t' & ? & ?); simplify_eq; lia|].
      split; [done|]. by case_decide.
  - intros [= <- <-]. right. split; [by intros (t' & ? & ?)|]. split; [done|]. by case_decide.
Qed.

(** An id whose session the step removes: who removed it, and why. *)
Lemma reap_removes st pcs cutoff ord vs st' id p x :
  Inv st pcs -> valid_order ord -> reap_scan cutoff ord st = (vs, st') ->
  sessions st !! id = Some p -> heap st !! p = Some x ->
  sessions st' !! id <> Some p ->
  sessions st' !! id = None /\ ready x = true /\ activeConn x <= 0 /\ lastActive x <= cutoff.
Proof.
  intros HI Ho Hscan Hp Hx. rewrite reap_scan_eq in Hscan by (by eapply Inv_maps_live || apply Ho).
  cbv zeta in Hscan. injection Hscan as <- <-. simpl. rewrite (reap_lookup _ _ _ (Ho _)).
  destruct (victim cutoff st id) eqn:Hv; [|done]. intros _. split; [done|].
  unfold victim in Hv. rewrite Hp in Hv. simpl in Hv. rewrite Hx in Hv.
  unfold reapable in Hv. rewrite !andb_true_iff, !Z.leb_le in Hv. tauto.
Qed.

Lemma cstep_removal st pcs i c sp c' st' id p x :
  Inv st pcs -> pcs !! i = Some c -> cutoff_ok m st c -> cstep m c st sp c' st' ->
  sessions st !! id = Some p -> heap st !! p = Some x -> sessions st' !! id <> Some p ->
  sessions st' !! id = None /\ ready x = true /\
  (is_Some (serr x) \/ idle st x \/
   ~ cooling st id /\ lastRefresh st' !! id = Some (clock st)).
Proof.
  intros HI Hi Hcut Hc Hp Hx Hno.
  pose proof (Forall_lookup_1 _ _ _ _ (inv_pcs _ _ HI) Hi) as Hok.
  destruct Hc; simpl in Hok, Hcut; try done; try (by rewrite sessions_update in Hno).
  - exfalso. apply Hno. destruct (get_acquire_allocs _ _ _ _ _ H) as [(_ & _ & ->)|(_ & _ & HA & _)];
      [done|by apply (al_keep _ _ _ HA)].
  - destruct Hok as [_ (s & Hs & Hid & Hr & He)]. revert Hno. unfold get_drop.
    case_decide as Hcur; [simpl|done]. destruct (decide (id = id0)) as [->|Hne].
    + intros _. rewrite lookup_delete_eq. simplify_eq. split_and!; eauto.
    + by rewrite lookup_delete_ne.
  - destruct (refresh_lock_cases _ _ _ _ H) as [->|(Hcool & -> & Hm & Hl)]; [done|].
    rewrite Hm, Hl in *. case_decide as Hcur; [|done].
    destruct (decide (id = session_id stale st)) as [->|Hne]; [|by rewrite lookup_delete_ne in Hno].
    rewrite lookup_delete_eq, lookup_insert_eq. simplify_eq.
    destruct Hok as (s & Hs & Hr). simplify_eq. split_and!; auto.
  - exfalso. revert Hno. unfold close_ready. repeat case_match; simpl; rewrite ?sessions_update; done.
  - destruct (reap_removes _ _ _ _ _ _ _ _ _ HI Hok H Hp Hx Hno) as (? & ? & ? & ?).
    split_and!; [done|done|]. right; left. split; [done|lia].
  - exfalso. revert Hno. unfold reap_record. by repeat case_match.
  - exfalso. by apply Hno, (al_keep _ _ _ (reconcile_allocs _ _ _ _ H)).
Qed.

(** C5. When a step removes a session from the map, the entry is gone (not replaced in the
    same step), the session was resolved, and the cause is one of three: its Ensure
    failed; it had no open connection and no activity within the idle TTL; or a Refresh
    whose id was not in the cooldown dropped it and restarted the cooldown. *)
Theorem session_removal (s s' : system) :
  reachable m s -> gstep m s s' ->
  forall id p x,
    sessions (sst s) !! id = Some p -> heap (sst s) !! p = Some x ->
    sessions (sst s') !! id <> Some p ->
    sessions (sst s') !! id = None /\ ready x = true /\
    (is_Some (serr x) \/ idle (sst s) x \/
     ~ cooling (sst s) id /\ lastRefresh (sst s') !! id = Some (clock (sst s))).
Proof.
  intros Hr Hs id p x Hp Hx Hno.
  destruct (gstep_cases m s s' (reachable_good m s Hr) Hs)
    as [(pcs & i & c & sp & c' & _ & HI & Hi & Hcut & Hc)|(_ & Heq & _)]; [|by rewrite Heq in Hno].
  by eapply cstep_removal.
Qed.
End props.

(** ** The theorems at concrete schedules *)

Definition first_get : list choice := get_run 0 "a" (Ok (demo_ep "10.0.0.1")).
Definition resolving_a : list choice :=
  [CallGet Background "a"; CallGet Background "a"; Run 0 ANone; Run 1 ANone; Run 2 ANone; Run 2 ANone].
Definition before_scan : list choice :=
  first_get ++ [Tick (30 * minute); Reap Background; Run 2 ANone].

Lemma ensure_singleflight_witness :
  exists g, pool (final_state resolving_a) !! 2%nat = Some g /\ ensuring g = Some "a" /\
    forall j g', pool (final_state resolving_a) !! j = Some g' -> ensuring g' = Some "a" -> j = 2%nat.
Proof.
  assert (exists g, pool (final_state resolving_a) !! 2%nat = Some g /\ ensuring g = Some "a")
    as (g & Hg & He) by (eexists; split; reflexivity).
  exists g. split; [exact Hg|]. split; [exact He|]. intros j g' Hj He'.
  exact (ensure_singleflight demo_manager _ (final_state_reachable resolving_a) _ _ _ _ _ Hj Hg He' He).
Defined.

Lemma manager_never_panics_witness :
  reachable demo_manager (final_state reap_race) /\ panicked (sst (final_state reap_race)) = false.
Proof.
  split; [apply final_state_reachable|].
  exact (manager_never_panics demo_manager _ (final_state_reachable reap_race)).
Defined.

Lemma get_outcome_witness :
  exists x, heap (sst (final_state first_get)) !! 0%nat = Some x /\ ID x = "a" /\ ready x = true /\
    BEnsure "a" (Ok (SEndpoint x)) ∈ calls (sst (final_state first_get)).
Proof.
  refine (get_outcome demo_manager _ (final_state_reachable first_get) "a" (Ok 0%nat) _).
  apply (list_elem_of_lookup_2 _ 0). reflexivity.
Defined.

Lemma published_stable_witness :
  exists x x', heap (sst (final_state first_get)) !! 0%nat = Some x /\ ready x = true /\
    heap (sst (next (final_state first_get) (Tick 5))) !! 0%nat = Some x' /\ core x' = core x.
Proof.
  assert (exists x, heap (sst (final_state first_get)) !! 0%nat = Some x /\ ready x = true)
    as (x & Hx & Hr) by (eexists; split; reflexivity).
  destruct (published_stable demo_manager _ (next (final_state first_get) (Tick 5))
    (final_state_reachable first_get) (next_gstep (final_state first_get) (Tick 5) eq_refl) _ x Hx Hr) as (x' & Hx' & Hc).
  exists x, x'. repeat split; assumption.
Defined.

Lemma dropped_for_good_witness :
  exists x, heap (sst (final_state (before_scan ++ [Run 2 ANone]))) !! 0%nat = Some x /\
    sessions (sst (next (final_state (before_scan ++ [Run 2 ANone])) (Run 2 ANone))) !! ID x
      <> Some 0%nat.
Proof.
  assert (exists x, heap (sst (final_state (before_scan ++ [Run 2 ANone]))) !! 0%nat = Some x /\
    sessions (sst (final_state (before_scan ++ [Run 2 ANone]))) !! ID x <> Some 0%nat)
    as (x & Hx & Hr) by (eexists; split; [reflexivity|vm_compute; discriminate]).
  exists x. split; [exact Hx|].
  refine (dropped_for_good demo_manager _ _ (final_state_reachable _) (next_gstep _ _ _) _ x Hx Hr).
  vm_compute. reflexivity.
Defined.

Lemma session_removal_witness :
  exists x, sessions (sst (final_state before_scan)) !! "a" = Some 0%nat /\
    heap (sst (final_state before_scan)) !! 0%nat = Some x /\
    sessions (sst (next (final_state before_scan) (Run 2 ANone))) !! "a" = None /\ ready x = true /\
    (is_Some (serr x) \/ idle demo_manager (sst (final_state before_scan)) x \/
     ~ cooling (sst (final_state before_scan)) "a" /\
     lastRefresh (sst (next (final_state before_scan) (Run 2 ANone))) !! "a" =
       Some (clock (sst (final_state before_scan)))).
Proof.
  assert (exists x, heap (sst (final_state before_scan)) !! 0%nat = Some x)
    as (x & Hx) by (eexists; reflexivity).
  exists x. split; [reflexivity|]. split; [exact Hx|].
  refine (session_removal demo_manager _ _ (final_state_reachable _) (next_gstep _ _ _) "a" 0%nat x
    _ Hx _); [vm_compute; reflexivity|reflexivity|vm_compute; discriminate].
Defined.
