(* ===== verification/SessionRefresh.v ===== *)
(** * What Refresh returns

    A session that has left the map stays out of it; so a Refresh that dropped its stale
    session, or found another in its place, never returns the stale one.  Each goroutine of
    a Refresh carries what it decided under the lock to what it returns. *)

From S2P Require Import Prelude GoStd Backend Metrics Session SessionFacts SessionSys SessionSched SessionInv SessionProps.
Local Open Scope Z_scope.

(** ** Sessions that have left the map *)

(** A session of [id] that has left the map. *)
Definition gone_of (st : state) (id : string) (p : loc) : Prop :=
  session_at st p (fun s => ID s = id /\ sessions st !! id <> Some p).

Section refresh.
Context (m : Manager).

Lemma gone_cstep st pcs i c sp c' st' id p :
  Inv st pcs -> pcs !! i = Some c -> cstep m c st sp c' st' -> gone_of st id p -> gone_of st' id p.
Proof.
  intros HI Hi Hc (s & Hs & Hid & Hno).
  destruct (ext_heap _ _ _ (cstep_ext m _ _ _ _ _ _ _ HI Hi Hc) _ _ Hs) as (s' & Hs' & Hid' & _).
  exists s'. split; [done|]. split; [congruence|].
  destruct (cstep_shape m _ _ _ _ _ _ _ HI Hi Hc) as [H|[H|(q & r & -> & Heq)]].
  - intros Hm. by apply Hno, (q_sub _ _ _ H).
  - intros [|[Hin _]]%(al_map _ _ _ H); [done|].
    rewrite (allocs_range _ _ _ _ H) in Hin.
    enough (p < nextloc st)%nat by lia. apply (inv_dom _ _ HI). eauto.
  - rewrite Heq. unfold close_ready. repeat case_match; simpl; rewrite ?sessions_update; done.
Qed.

Lemma gone_gstep s s' id p :
  good m s -> gstep m s s' -> gone_of (sst s) id p -> gone_of (sst s') id p.
Proof.
  intros Hg Hs Hgone.
  destruct (gstep_cases m s s' Hg Hs) as [(pcs & i & c & sp & c' & _ & HI & Hi & _ & Hc)|(Hh & Hm & _)].
  - by eapply gone_cstep.
  - unfold gone_of, session_at in *. by rewrite Hh, Hm.
Qed.

(** ** What a Refresh knows on its way *)

(** A step before [s] took the lock for this Refresh and decided [d]. *)
Definition decided (s : system) (stale : loc) (d : decision) : Prop :=
  exists s1 st', reachable m s1 /\ rtc (gstep m) s1 s /\ refresh_lock stale (sst s1) = (d, st').

Definition refresh_result (s : system) (stale : loc) (d : decision) (r : result error loc) : Prop :=
  match d with
  | ReturnCurrent p => r = Ok p
  | GetOnly id => outcome_ok (sst s) (OGet id r)
  | Refreshed id => outcome_ok (sst s) (OGet id r) /\ r <> Ok stale
  end.

Definition decided_result (s : system) (stale : loc) (r : result error loc) : Prop :=
  exists d, decided s stale d /\ refresh_result s stale d r.

(** The Get of a Refresh, before and after it has looked in the map. *)
Definition looking (s : system) (id : string) (k : kont) : Prop :=
  match k with
  | KGet _ => True
  | KCool stale => decided s stale (GetOnly id)
  | KRefresh stale => decided s stale (Refreshed id) /\ gone_of (sst s) id stale
  end.
Definition found (s : system) (id : string) (p : loc) (k : kont) : Prop :=
  match k with
  | KGet _ => True
  | KCool stale => decided s stale (GetOnly id)
  | KRefresh stale => decided s stale (Refreshed id) /\ p <> stale
  end.

Definition knows (s : system) (c : pc) : Prop :=
  match c with
  | PGet _ id k => looking s id k
  | PSelect _ id p k | PCheck id p k | PDrop id p _ k => found s id p k
  | PCount stale r => exists id, decided s stale (Refreshed id) /\ refresh_result s stale (Refreshed id) r
  | PDone (ORefresh stale r) => decided_result s stale r
  | _ => True
  end.

Lemma gstep_ext s s' : reachable m s -> gstep m s s' -> exists q, ext q (sst s) (sst s').
Proof.
  intros Hr%(reachable_good m) Hs.
  destruct (gstep_cases m s s' Hr Hs) as [(pcs & i & c & sp & c' & _ & HI & Hi & _ & Hc)|(Hh & _ & _ & Hcalls)].
  - exists (resolving c). by eapply cstep_ext.
  - exists None. split; [by rewrite Hcalls|]. intros p x. rewrite Hh. eauto.
Qed.

Lemma decided_step s s' stale d : gstep m s s' -> decided s stale d -> decided s' stale d.
Proof. intros Hs (s1 & st' & Hr & Hrtc & Hl). exists s1, st'. split_and!; [done|by eapply rtc_r|done]. Qed.

Lemma result_step s s' stale d r :
  reachable m s -> gstep m s s' -> refresh_result s stale d r -> refresh_result s' stale d r.
Proof.
  intros Hr Hs. destruct (gstep_ext s s' Hr Hs) as [q He].
  assert (forall id, outcome_ok (sst s) (OGet id r) -> outcome_ok (sst s') (OGet id r)) as Hok
    by (intros id; by apply (outcome_ok_ext q)).
  destruct d; [done|apply Hok|]. intros [H ?]. split; [by apply Hok|done].
Qed.

(** What others do leaves a goroutine's knowledge true. *)
Lemma knows_step s s' c : reachable m s -> gstep m s s' -> knows s c -> knows s' c.
Proof.
  intros Hr Hs. pose proof (fun stale d => decided_step s s' stale d Hs) as Hd.
  pose proof (fun stale d r => result_step s s' stale d r Hr Hs) as Hres.
  assert (forall id p k, found s id p k -> found s' id p k) as Hf.
  { intros id p [|stale|stale]; simpl; [done|apply Hd|]. intros [? ?]. auto. }
  destruct c; simpl; try done; try apply Hf.
  - destruct o as [|id r|stale r]; [done..|]. intros (d & ? & ?). exists d. auto.
  - destruct k; simpl; [done|apply Hd|]. intros [? Hg]. split; [by apply Hd|].
    by eapply gone_gstep; [apply reachable_good| |].
  - intros (id & ? & Hr2). exists id. split; [by apply Hd|]. by apply (Hres stale (Refreshed id) r).
Qed.

(** The Get of a Refresh returns. *)
Lemma knows_returned s id p k r :
  found s id p k -> outcome_ok (sst s) (OGet id r) -> (forall q, r = Ok q -> q = p) ->
  knows s (after_get k r).
Proof.
  intros Hf Hr Hp. destruct k as [|stale|stale]; [done|..]; simpl in *.
  - exists (GetOnly id). by split.
  - destruct Hf as [Hd Hne]. exists id. split; [done|]. split; [done|].
    intros ->. by rewrite (Hp stale eq_refl) in Hne.
Qed.

Lemma knows_looked s s' pcs i ctx id k p sp :
  reachable m s -> gstep m s s' -> Inv (sst s) pcs -> pcs !! i = Some (PGet ctx id k) ->
  get_acquire id (sst s) = (p, sp, sst s') -> looking s id k -> found s' id p k.
Proof.
  intros Hr Hs HI Hi Ha. destruct k as [|stale|stale]; simpl; [done|by apply decided_step|].
  intros [Hd (x & Hx & _ & Hno)]. split; [by eapply decided_step|]. intros ->.
  destruct (get_acquire_allocs _ _ _ _ _ Ha) as [(? & _)|(_ & -> & HA & _)]; [done|].
  assert (nextloc (sst s) <= stale)%nat by (apply (allocs_range _ _ _ _ HA); by left).
  enough (stale < nextloc (sst s))%nat by lia. apply (inv_dom _ _ HI). eauto.
Qed.

(** What Refresh does under the lock. *)
Lemma refresh_lock_spec stale st d st' :
  refresh_lock stale st = (d, st') ->
  let id := session_id stale st in
  heap st' = heap st /\
  ((cooling st id /\ st' = st /\
      d = match sessions st !! id with Some p => ReturnCurrent p | None => GetOnly id end) \/
   (~ cooling st id /\ d = Refreshed id /\ lastRefresh st' !! id = Some (clock st) /\
      sessions st' !! id <> Some stale)).
Proof.
  intros Hl id. revert Hl. unfold refresh_lock. fold id.
  destruct (match lastRefresh st !! id with Some _ => _ | None => _ end) eqn:Hc.
  - intros Hl. assert (cooling st id /\ st' = st) as [Hcool ->].
    { split; [|by destruct (sessions st !! id); simplify_eq]. destruct (lastRefresh st !! id) as [t|] eqn:Ht; [|done].
      exists t. split; [done|]. by apply Z.ltb_lt. }
    split; [done|]. left. split_and!; [done..|]. by destruct (sessions st !! id); simplify_eq.
  - intros [= <- <-]. split; [by case_decide|]. right. split_and!.
    + intros (t & Ht & Hlt). rewrite Ht in Hc. apply Z.ltb_ge in Hc. lia.
    + done.
    + case_decide; simpl; by rewrite lookup_insert_eq.
    + case_decide; simpl; [by rewrite lookup_delete_eq|done].
Qed.

Lemma knows_decided s s' pcs ctx stale d :
  reachable m s -> gstep m s s' -> Inv (sst s) pcs -> session_at (sst s) stale is_ready ->
  refresh_lock stale (sst s) = (d, sst s') -> knows s' (after_decision ctx stale d).
Proof.
  intros Hr Hs HI (x & Hx & _) Hl.
  assert (decided s' stale d) as Hd by (exists s, (sst s'); split_and!; [done|by apply rtc_once|done]).
  destruct d as [p|id|id]; simpl; [by exists (ReturnCurrent p)|done|]. split; [done|].
  destruct (refresh_lock_spec _ _ _ _ Hl) as [Hh [(_ & _ & He)|(_ & [= ->] & _ & Hno)]]; [by case_match|].
  exists x. rewrite Hh. split; [done|]. split; [|done]. unfold session_id. by rewrite Hx.
Qed.

Lemma knows_cstep s s' pcs i c sp c' :
  reachable m s -> gstep m s s' -> Inv (sst s) pcs -> pcs !! i = Some c ->
  cstep m c (sst s) sp c' (sst s') -> knows s c -> knows s' c'.
Proof.
  intros Hr Hs HI Hi Hc Hk. pose proof (Forall_lookup_1 _ _ _ _ (inv_pcs _ _ HI) Hi) as Hok.
  apply (knows_step s s' c Hr Hs) in Hk as Hk'.
  assert (forall id e, get_error (sst s) id e -> outcome_ok (sst s') (OGet id (Err e))) as Herr.
  { intros id e. destruct (gstep_ext s s' Hr Hs) as [q He]. by apply (get_error_ext q). }
  remember (sst s) as st eqn:Hst. remember (sst s') as st' eqn:Hst'.
  destruct Hc; simpl in Hk, Hk', Hok; try done; try by destruct vs.
  - subst. by eapply knows_looked.
  - apply (knows_returned s' id p k); [done| |done]. rewrite <- Hst'. by eapply Herr, ctx_Err_get_error.
  - destruct Hok as [_ (x & Hx & Hid & Hx')]. apply (knows_returned s' id p k); [done| |by intros q [= ->]].
    rewrite <- Hst'. exists x. unfold session_err in H. rewrite Hx in H. by split_and!.
  - destruct Hok as [_ (x & Hx & <- & Hx' & He)]. apply (knows_returned s' (ID x) p k); [done| |done].
    rewrite <- Hst'. by apply Herr, (stored_error _ pcs p).
  - destruct Hk' as (id & ? & ?). by exists (Refreshed id).
  - subst. by eapply knows_decided.
Qed.

Lemma knows_gstep s s' pcs :
  reachable m s -> gstep m s s' -> pool s = map (prog_of m) pcs -> Inv (sst s) pcs -> Forall (knows s) pcs ->
  exists pcs', pool s' = map (prog_of m) pcs' /\ Inv (sst s') pcs' /\ Forall (knows s') pcs'.
Proof.
  intros Hr Hs Hp HI Hk. destruct (gstep_pcs m s s' pcs Hp HI Hs) as (pcs' & Hp' & HI' & Hcase).
  exists pcs'. split_and!; [done..|].
  assert (Forall (knows s') pcs) as Hk' by (eapply Forall_impl; [exact Hk|]; intros c; by apply knows_step).
  destruct Hcase as [(i & c & sp & c' & Hi & Hc & ->)|(new & -> & Hnew & _)]; apply Forall_app; split.
  - apply Forall_insert; [done|]. eapply knows_cstep; try done. by eapply Forall_lookup_1.
  - apply Forall_forall. by intros ? (? & <- & ?)%list_elem_of_In%in_map_iff.
  - done.
  - eapply Forall_impl; [exact Hnew|]. intros []; try done. by destruct k.
Qed.

Lemma reachable_knows s :
  reachable m s -> exists pcs, pool s = map (prog_of m) pcs /\ Inv (sst s) pcs /\ Forall (knows s) pcs.
Proof.
  intros (t & mx & Hrtc).
  assert (reachable m (init t mx)) as Hr0 by (by exists t, mx).
  assert (exists pcs, pool (init t mx) = map (prog_of m) pcs /\ Inv (sst (init t mx)) pcs /\
    Forall (knows (init t mx)) pcs) as H0.
  { destruct (reachable_good m _ Hr0) as ([|] & Hp & HI & _); [|done]. by exists []. }
  induction Hrtc as [s|s1 s2 s3 Hs _ IH]; [done|].
  destruct H0 as (pcs & Hp & HI & Hk). apply IH.
  - destruct Hr0 as (t0 & mx0 & ?). exists t0, mx0. by eapply rtc_r.
  - by eapply knows_gstep.
Qed.

(** A Get of [id] has returned [r]: a resolved session whose endpoint an Ensure returned, the
    error of its context, or the one of an Ensure. *)
Definition got_result (st : state) (id : string) (r : result error loc) : Prop :=
  match r with
  | Ok p => exists x, heap st !! p = Some x /\ ID x = id /\ ready x = true /\
              BEnsure id (Ok (SEndpoint x)) ∈ calls st
  | Err e => e = ContextCanceled \/ e = ContextDeadlineExceeded \/ BEnsure id (Err e) ∈ calls st
  end.

Lemma outcome_got st pcs id r : Inv st pcs -> outcome_ok st (OGet id r) -> got_result st id r.
Proof.
  intros HI. destruct r as [p|e]; [|done]. intros (x & Hx & <- & Hr & He). exists x. split_and!; [done..|].
  pose proof (inv_resolved _ _ HI _ _ Hx Hr) as Hres. unfold resolved in Hres. by rewrite He in Hres.
Qed.

(** C19. What a finished Refresh has returned.  At some moment of the run it took the lock.  In
    the cooldown of the id it returns the session cached then, resolved or not, or what a
    Get of the id returns when there was none.  Otherwise it restarts the cooldown and
    returns what a Get returns, and never the session it was asked to replace. *)
Theorem refresh_outcome (s : system) (stale : loc) (r : result error loc) :
  reachable m s -> Ret (ORefresh stale r) ∈ pool s ->
  exists s1 st' id, reachable m s1 /\ rtc (gstep m) s1 s /\ session_id stale (sst s1) = id /\
    ((cooling (sst s1) id /\ match sessions (sst s1) !! id with
        | Some p => r = Ok p
        | None => got_result (sst s) id r
        end) \/
     (~ cooling (sst s1) id /\ refresh_lock stale (sst s1) = (Refreshed id, st') /\
        lastRefresh st' !! id = Some (clock (sst s1)) /\ sessions st' !! id <> Some stale /\
        got_result (sst s) id r /\ r <> Ok stale)).
Proof.
  intros Hr Hin. destruct (reachable_knows s Hr) as (pcs & Hp & HI & Hk). rewrite Hp in Hin.
  apply list_elem_of_In, in_map_iff in Hin as (c & ->%prog_of_Ret & Hin%list_elem_of_In).
  rewrite Forall_forall in Hk. destruct (Hk _ Hin) as (d & (s1 & st' & Hr1 & Hrtc & Hl) & Hres).
  exists s1, st', (session_id stale (sst s1)). split_and!; [done..|].
  assert (forall id, outcome_ok (sst s) (OGet id r) -> got_result (sst s) id r) as Hgot
    by (intros id; by eapply outcome_got).
  destruct (refresh_lock_spec _ _ _ _ Hl) as [_ [(Hcool & _ & ->)|(Hcool & -> & Hlast & Hno)]].
  - left. split; [done|]. destruct (sessions (sst s1) !! _); [done|by apply Hgot].
  - right. destruct Hres as [Hres Hne]. split_and!; [done..|by apply Hgot|done].
Qed.
End refresh.

(** ** A Refresh that dials anew, and one in its cooldown *)

Definition refreshed_twice : list choice :=
  get_run 0 "a" (Ok (demo_ep "10.0.0.1")) ++
  [CallRefresh Background 0; Run 2 ANone; Run 2 ANone] ++
  resolve_run 3 (Ok (demo_ep "10.0.0.2")) ++
  [Run 2 (ASel SelReady); Run 2 ANone; Run 2 ANone; CallRefresh Background 0; Run 4 ANone].

Lemma refresh_outcome_witness :
  pool (final_state refreshed_twice) !! 2%nat = Some (Ret (ORefresh 0 (Ok 1%nat))) /\
  pool (final_state refreshed_twice) !! 4%nat = Some (Ret (ORefresh 0 (Ok 1%nat))) /\
  exists s1 id, reachable demo_manager s1 /\ rtc (gstep demo_manager) s1 (final_state refreshed_twice) /\
    (cooling (sst s1) id \/
     got_result (sst (final_state refreshed_twice)) id (Ok 1%nat) /\ Ok 1%nat <> (Ok 0%nat : result error loc)).
Proof.
  assert (pool (final_state refreshed_twice) !! 2%nat = Some (Ret (ORefresh 0 (Ok 1%nat)))) as H2
    by (vm_compute; reflexivity).
  split; [exact H2|]. split; [vm_compute; reflexivity|].
  destruct (refresh_outcome demo_manager _ 0%nat (Ok 1%nat) (final_state_reachable refreshed_twice)
    (list_elem_of_lookup_2 _ _ _ H2)) as (s1 & st' & id & Hr & Hrtc & _ & [[Hc _]|(_ & _ & _ & _ & Hgot & Hne)]);
    exists s1, id; split; try exact Hr; split; try exact Hrtc; [left; exact Hc|right; split; [exact Hgot|exact Hne]].
Defined.
