(* ===== verification/SessionSpec.v ===== *)
(** * The abstract specification of the session manager

    Seen from outside, the manager keeps for each playwright-id one of four things:
    nothing, a sandbox being brought up, a sandbox up at an endpoint, or the error it
    failed with.  [entry_step] is the life cycle of one id; the concurrent system refines
    the product of these automata. *)

From S2P Require Import Prelude GoStd Backend Metrics Session SessionFacts SessionSys SessionSched SessionInv SessionProps.
Local Open Scope Z_scope.

(** ** The abstract machine *)

Inductive entry :=
| Pending                 (* Ensure runs; clients wait *)
| Up (ep : Endpoint)
| Down (e : error).

#[export] Instance entry_eq_dec : EqDecision entry.
Proof. solve_decision. Defined.

(** The life cycle of one id: a sandbox in use keeps its endpoint until it is forgotten, a
    pending one is neither forgotten nor started a second time. *)
Inductive entry_step (ensured : result error Endpoint -> Prop) : option entry -> option entry -> Prop :=
| e_stay o : entry_step ensured o o
| e_start : entry_step ensured None (Some Pending)
| e_up ep : ensured (Ok ep) -> entry_step ensured (Some Pending) (Some (Up ep))
| e_down e : ensured (Err e) -> entry_step ensured (Some Pending) (Some (Down e))
| e_forget_up ep : entry_step ensured (Some (Up ep)) None
| e_forget_down e : entry_step ensured (Some (Down e)) None.

(** ** The abstraction of a state *)

Definition entry_of_session (x : Session) : entry :=
  if ready x then match serr x with Some e => Down e | None => Up (SEndpoint x) end else Pending.

Definition entry_of (st : state) (id : string) : option entry :=
  p ← sessions st !! id; entry_of_session <$> heap st !! p.

Lemma entry_of_core x x' : core x' = core x -> entry_of_session x' = entry_of_session x.
Proof. unfold core, entry_of_session. by intros [= _ _ -> -> ->]. Qed.

Section refinement.
Context (m : Manager).

Lemma entry_of_Some st id p x :
  sessions st !! id = Some p -> heap st !! p = Some x -> entry_of st id = Some (entry_of_session x).
Proof. intros Hp Hx. unfold entry_of. rewrite Hp. simpl. by rewrite Hx. Qed.

Lemma entry_of_None st pcs id : Inv st pcs -> entry_of st id = None <-> sessions st !! id = None.
Proof.
  intros HI. unfold entry_of. destruct (sessions st !! id) as [p|] eqn:Hp; [|done].
  destruct (inv_map _ _ HI _ _ Hp) as (x & Hx & _). simpl. by rewrite Hx.
Qed.

(** A step that resolves nothing forgets resolved entries and keeps the others. *)
Lemma quiet_entry ensured st st' pcs q id :
  Inv st pcs -> quiet q st st' -> entry_step ensured (entry_of st id) (entry_of st' id).
Proof.
  intros HI Hq. destruct (sessions st !! id) as [p|] eqn:Hp.
  - destruct (inv_map _ _ HI _ _ Hp) as (x & Hx & _). rewrite (entry_of_Some _ _ _ _ Hp Hx).
    destruct (ext_heap _ _ _ (q_ext _ _ _ Hq) _ _ Hx) as (x' & Hx' & _ & Hcore).
    destruct (sessions st' !! id) as [p'|] eqn:Hp'.
    + assert (p' = p) as -> by (apply (q_sub _ _ _ Hq) in Hp'; congruence).
      rewrite (entry_of_Some _ _ _ _ Hp' Hx').
      enough (entry_of_session x' = entry_of_session x) as -> by apply e_stay.
      destruct (ready x) eqn:Hr; [by apply entry_of_core, Hcore; left|].
      unfold entry_of_session. by rewrite (q_ready _ _ _ Hq _ _ _ Hx Hx'), Hr.
    + unfold entry_of at 1. rewrite Hp'. simpl. destruct (ready x) eqn:Hr.
      * unfold entry_of_session. rewrite Hr. destruct (serr x); constructor.
      * by rewrite (q_keep _ _ _ Hq _ _ _ Hp Hx Hr) in Hp'.
  - assert (entry_of st id = None) as -> by (unfold entry_of; by rewrite Hp).
    destruct (sessions st' !! id) as [p'|] eqn:Hp'; [by rewrite (q_sub _ _ _ Hq _ _ Hp') in Hp|].
    unfold entry_of. rewrite Hp'. apply e_stay.
Qed.

(** A step that creates sessions starts the ids it adds. *)
Lemma allocs_entry ensured st st' pcs ps id :
  Inv st pcs -> allocs ps st st' -> entry_step ensured (entry_of st id) (entry_of st' id).
Proof.
  intros HI HA. destruct (sessions st !! id) as [p|] eqn:Hp.
  - destruct (inv_map _ _ HI _ _ Hp) as (x & Hx & _).
    rewrite (entry_of_Some _ _ _ _ Hp Hx).
    rewrite (entry_of_Some _ _ p x (al_keep _ _ _ HA _ _ Hp)); [apply e_stay|].
    rewrite (al_old _ _ _ HA); [done|]. apply (inv_dom _ _ HI). eauto.
  - assert (entry_of st id = None) as -> by (unfold entry_of; by rewrite Hp).
    destruct (sessions st' !! id) as [p'|] eqn:Hp'; [|unfold entry_of; rewrite Hp'; apply e_stay].
    destruct (al_map _ _ _ HA _ _ Hp') as [?|[Hin _]]; [congruence|].
    destruct (al_new _ _ _ HA _ Hin) as (x & Hx & Hr & _).
    rewrite (entry_of_Some _ _ _ _ Hp' Hx). unfold entry_of_session. rewrite Hr. apply e_start.
Qed.

(** Closing [ready] publishes what the Ensure returned. *)
Lemma close_entry st pcs i p r id :
  Inv st pcs -> pcs !! i = Some (PRes6 p r) ->
  entry_step (fun r => BEnsure id r ∈ calls st) (entry_of st id) (entry_of (close_ready p st) id).
Proof.
  intros HI Hi.
  pose proof (Forall_lookup_1 _ _ _ _ (inv_pcs _ _ HI) Hi) as (x & Hx & Hpub & Hcall).
  assert (unready st p) as (x' & Hx' & Hr).
  { apply (inv_resolver _ _ HI), list_elem_of_omap. exists (PRes6 p r).
    split; [by eapply list_elem_of_lookup_2|done]. }
  simplify_eq. rewrite (close_ready_eq _ _ _ Hx Hr).
  unfold entry_of. simpl. destruct (sessions st !! id) as [p'|] eqn:Hp; simpl; [|apply e_stay].
  destruct (decide (p' = p)) as [->|Hne]; [|rewrite lookup_insert_ne by done; apply e_stay].
  rewrite lookup_insert_eq, Hx. simpl. unfold entry_of_session. rewrite Hr. simpl.
  destruct (inv_map _ _ HI _ _ Hp) as (x0 & Hx0 & <-). simplify_eq.
  destruct r as [ep|e]; simpl in Hpub.
  - destruct Hpub as [<- ->]. by apply e_up.
  - rewrite Hpub. by apply e_down.
Qed.
(** C11. Refinement: under every interleaving each step of the concurrent manager takes every
    id along its life cycle, and an entry becomes up or down only with what a completed
    Ensure of that id returned. *)
Theorem lifecycle_refinement (s s' : system) :
  reachable m s -> gstep m s s' ->
  forall id, entry_step (fun r => BEnsure id r ∈ calls (sst s)) (entry_of (sst s) id) (entry_of (sst s') id).
Proof.
  intros Hr Hs id.
  destruct (gstep_cases m s s' (reachable_good m s Hr) Hs)
    as [(pcs & i & c & sp & c' & _ & HI & Hi & _ & Hc)|(Hh & Hm & _)].
  - destruct (cstep_shape m _ _ _ _ _ _ _ HI Hi Hc) as [Hq|[HA|(p & r & -> & ->)]].
    + by eapply quiet_entry.
    + by eapply allocs_entry.
    + by eapply close_entry.
  - unfold entry_of. rewrite Hh, Hm. apply e_stay.
Qed.
End refinement.

(** The life of the id [a] along a schedule: every entry it has, in order. *)
Fixpoint lives (id : string) (s : system) (cs : list choice) : list (option entry) :=
  entry_of (sst s) id :: match cs with [] => [] | c :: cs => lives id (next s c) cs end.

Fixpoint dedup {A} `{EqDecision A} (l : list A) : list A :=
  match l with
  | a :: ((b :: _) as l') => if decide (a = b) then dedup l' else a :: dedup l'
  | l => l
  end.

(** Got, used, reaped when idle, got again. *)
Example life_of_a :
  dedup (lives "a" (init 0 None) reap_race) =
    [None; Some Pending; Some (Up (demo_ep "10.0.0.1")); None; Some Pending; Some (Up (demo_ep "10.0.0.1"))].
Proof. vm_compute. reflexivity. Qed.

Lemma lifecycle_refinement_witness :
  entry_step (fun r => BEnsure "a" r ∈ calls (sst (final_state (before_scan ++ [Run 2 ANone]))))
    (entry_of (sst (final_state (before_scan ++ [Run 2 ANone]))) "a")
    (entry_of (sst (next (final_state (before_scan ++ [Run 2 ANone])) (Run 2 ANone))) "a").
Proof.
  exact (lifecycle_refinement demo_manager _ _ (final_state_reachable _) (next_gstep (final_state (before_scan ++ [Run 2 ANone])) (Run 2 ANone) eq_refl) "a").
Defined.
