(* ===== verification/SessionMetrics.v ===== *)
(** * The session manager's metrics

    Every operation the concurrent manager makes of the Prometheus client is well typed for
    its collector, and the counters of created sessions agree with the sessions there are. *)

From S2P Require Import Prelude GoStd Backend Metrics Session SessionFacts SessionSys SessionSched SessionInv SessionProps.
Local Open Scope Z_scope.

(** ** Counting *)

(** The sessions of the heap that satisfy [P]. *)
Definition which (P : Session -> bool) (h : gmap loc Session) : gset loc :=
  dom (filter (fun e : loc * Session => P e.2 = true) h).

Lemma elem_of_which P h p : p ∈ which P h <-> exists x, h !! p = Some x /\ P x = true.
Proof.
  unfold which. rewrite elem_of_dom. split.
  - intros [x [Hx HP]%map_lookup_filter_Some]. by exists x.
  - intros (x & Hx & HP). exists x. by apply map_lookup_filter_Some.
Qed.

(** Resolved, with an endpoint or with an error. *)
Definition resolved_as (b : bool) (x : Session) : bool :=
  ready x && Bool.eqb b (match serr x with None => true | Some _ => false end).
Definition resolved_sessions (b : bool) (st : state) : nat := size (which (resolved_as b) (heap st)).

Definition outcome (b : bool) : string := if b then OutcomeSuccess else OutcomeFailure.

(** The increments of [playwright_sessions_created_total] for an outcome. *)
Definition is_created (m : Manager) (b : bool) (o : promop) : bool :=
  bool_decide (o = Inc sessionsCreated [backendKind m; outcome b]).
Definition created_count (m : Manager) (b : bool) (l : list promop) : nat :=
  length (List.filter (is_created m b) l).

Section metrics.
Context (m : Manager).

Lemma created_app b l1 l2 : created_count m b (l1 ++ l2) = (created_count m b l1 + created_count m b l2)%nat.
Proof. unfold created_count. by rewrite List.filter_app, length_app. Qed.

(** The goroutines that have counted their session and not closed [ready] yet. *)
Definition closing (b : bool) (c : pc) : bool :=
  match c with PRes6 _ r => Bool.eqb b (is_ok r) | _ => false end.
Definition closings (b : bool) (pcs : list pc) : nat := length (List.filter (closing b) pcs).

Lemma closings_step b pcs i c c' sp :
  pcs !! i = Some c ->
  (closings b (<[i := c']> pcs ++ map PRes0 sp) + Nat.b2n (closing b c) =
   closings b pcs + Nat.b2n (closing b c'))%nat.
Proof.
  intros Hi. unfold closings. rewrite List.filter_app, length_app.
  assert (List.filter (closing b) (map PRes0 sp) = []) as -> by (induction sp; done).
  rewrite (insert_take_drop pcs i c') by (by eapply lookup_lt_Some).
  rewrite <- (take_drop_middle pcs i c Hi) at 3.
  rewrite !List.filter_app. simpl. rewrite !length_app.
  destruct (closing b c), (closing b c'); simpl; lia.
Qed.

(** ** The operations of a step *)

(** What a step adds to the log. *)
Definition emits (f : option Metrics -> option Metrics) (l : list promop) : Prop :=
  forall x, f (Some x) = Some (mkMetrics (reg x) (ops x ++ l)).

Lemma emits_emit op : emits (emit op) [op].
Proof. done. Qed.

Lemma emits_then f g l1 l2 : emits f l1 -> emits g l2 -> emits (fun mx => g (f mx)) (l1 ++ l2).
Proof. intros Hf Hg x. rewrite Hf, Hg. simpl. by rewrite (assoc app). Qed.

Definition res_ops (el : Z) (r : result error Endpoint) : list promop :=
  match r with
  | Err _ => [Observe ensureDuration [backendKind m; OutcomeFailure] el;
              Inc ensureFailures [backendKind m];
              Inc sessionsCreated [backendKind m; OutcomeFailure]]
  | Ok _ => [Observe ensureDuration [backendKind m; OutcomeSuccess] el;
             Inc sessionsCreated [backendKind m; OutcomeSuccess]]
  end.

Lemma emits_res el r : emits (res_metrics m el r) (res_ops el r).
Proof.
  intros [rg l]. destruct r; unfold res_metrics, ObserveEnsure, EnsureFailed, SessionCreated, emit;
    simpl; by rewrite <- !(assoc app).
Qed.

Lemma mx_update p f st : mx (update p f st) = mx st.
Proof. unfold update. by case_match. Qed.

Lemma mx_reap_scan cutoff ord st vs st' : reap_scan cutoff ord st = (vs, st') -> mx st' = mx st.
Proof.
  unfold reap_scan. generalize (ord (map_to_list (sessions st))) as l. intros l.
  change (mx st) with (mx ([] : list loc, st).2).
  generalize (([] : list loc, st)) as acc.
  induction l as [|[id p] l IH]; simpl; intros acc H; [by rewrite H|].
  rewrite (IH _ H). unfold reap_visit. destruct acc. simpl. by repeat case_match.
Qed.

Lemma mx_reconcile ids st ps st' : reconcile_ids ids st = (ps, st') -> mx st' = mx st.
Proof.
  revert st ps st'. induction ids as [|id ids IH]; simpl; intros st ps st'; [by intros [= <- <-]|].
  case_match; [apply IH|]. destruct (reconcile_ids ids _) as [ps2 st2] eqn:H2.
  intros [= <- <-]. by rewrite (IH _ _ _ H2).
Qed.

(** The log of a step: nothing, or the operations of one call of the metrics. *)
Definition step_ops (c : pc) (st : state) : list promop :=
  match c with
  | PCount _ r =>
      [Inc sessionsRefreshed [backendKind m; if is_ok r then OutcomeSuccess else OutcomeFailure]]
  | PRes5 _ el r => res_ops el r
  | PReap4 _ p (Some _) _ => [Inc backendDeleteFailures []]
  | PReap4 _ p None _ =>
      match heap st !! p with
      | Some s => [Inc sessionsReaped ["idle"]; Observe sessionIdle [] (sat64 (clock st - LastActive s));
                   Observe sessionLifetime [backendKind m] (sat64 (clock st - created s))]
      | None => []
      end
  | _ => []
  end.

Lemma cstep_ops c st sp c' st' x :
  cstep m c st sp c' st' -> mx st = Some x ->
  mx st' = Some (mkMetrics (reg x) (ops x ++ step_ops c st)).
Proof.
  intros Hstep Hx.
  assert (forall st2, mx st2 = mx st -> mx st2 = Some (mkMetrics (reg x) (ops x ++ []))) as Hsame.
  { intros st2 ->. rewrite Hx, app_nil_r. by destruct x. }
  destruct Hstep; simpl; try (apply Hsame; done); try (apply Hsame, mx_update).
  - apply Hsame. revert H. unfold get_acquire. case_match; intros; by simplify_eq/=.
  - apply Hsame. unfold get_drop. by case_decide.
  - unfold SessionRefreshed, emit. by rewrite Hx.
  - apply Hsame. revert H. unfold refresh_lock. repeat case_match; intros; by simplify_eq/=.
  - rewrite Hx. apply emits_res.
  - apply Hsame. unfold close_ready. repeat case_match; try done. apply mx_update.
  - apply Hsame. by eapply mx_reap_scan.
  - unfold reap_record. destruct err; simpl.
    + by rewrite Hx.
    + destruct (heap st !! p); [|apply Hsame; done]. simpl. rewrite Hx. simpl.
      by rewrite <- !(assoc app).
  - apply Hsame. by eapply mx_reconcile.
Qed.

Lemma step_ops_ok c st : Forall op_ok (step_ops c st).
Proof.
  destruct c; simpl; try by constructor.
  - by repeat constructor.
  - destruct r; repeat constructor; simpl; auto.
  - destruct err; [by repeat constructor; left|]. case_match; [|constructor].
    repeat constructor; simpl; auto.
Qed.

Lemma created_step_ops b c st :
  created_count m b (step_ops c st) =
    match c with PRes5 _ _ r => Nat.b2n (Bool.eqb b (is_ok r)) | _ => 0%nat end.
Proof.
  destruct c; try done; simpl; [|by repeat case_match].
  assert (forall b', is_created m b (Inc sessionsCreated [backendKind m; outcome b']) = Bool.eqb b b') as Hc.
  { intros b'. unfold is_created. destruct b, b'; first [by apply bool_decide_eq_true_2|by apply bool_decide_eq_false_2]. }
  pose proof (Hc (is_ok r)) as Hr. unfold created_count.
  destruct r; unfold outcome in Hr; cbn in Hr |- *; rewrite Hr; by destruct b.
Qed.

(** ** The counters and the sessions *)

Lemma resolved_same b st st' :
  (forall p, (exists x, heap st !! p = Some x /\ resolved_as b x = true) <->
             (exists x, heap st' !! p = Some x /\ resolved_as b x = true)) ->
  resolved_sessions b st' = resolved_sessions b st.
Proof.
  intros H. unfold resolved_sessions. f_equal. apply set_eq. intros p. by rewrite !elem_of_which, H.
Qed.

Lemma resolved_quiet b q st st' : quiet q st st' -> resolved_sessions b st' = resolved_sessions b st.
Proof.
  intros Hq. apply resolved_same. intros p. split.
  - intros (x & Hx & Hr). destruct (ext_heap _ _ _ (q_ext _ _ _ Hq) _ _ Hx) as (x' & Hx' & _ & Hc).
    exists x'. split; [done|]. unfold resolved_as in *. apply andb_true_iff in Hr as [Hr He].
    destruct (core_fields x x') as (_ & _ & _ & -> & ->); [auto|]. by rewrite Hr.
  - intros (x' & Hx' & Hr). destruct (q_dom _ _ _ Hq p) as [x Hx]; [eauto|].
    destruct (ext_heap _ _ _ (q_ext _ _ _ Hq) _ _ Hx) as (x2 & Hx2 & _ & Hc). simplify_eq.
    exists x. split; [done|]. unfold resolved_as in *. apply andb_true_iff in Hr as [Hr He].
    rewrite (q_ready _ _ _ Hq _ _ _ Hx Hx') in Hr.
    destruct (core_fields x x') as (_ & _ & _ & _ & <-); [auto|]. by rewrite Hr.
Qed.

Lemma resolved_allocs b ps st st' pcs :
  Inv st pcs -> allocs ps st st' -> resolved_sessions b st' = resolved_sessions b st.
Proof.
  intros HI HA. apply resolved_same. intros p. split.
  - intros (x & Hx & Hr). exists x. split; [|done]. rewrite (al_old _ _ _ HA); [done|].
    apply (inv_dom _ _ HI). eauto.
  - intros (x & Hx & Hr). destruct (decide (p < nextloc st)%nat) as [Hlt|Hge].
    + rewrite (al_old _ _ _ HA) in Hx by done. by exists x.
    + destruct (decide (p < nextloc st')%nat) as [Hlt'|Hge'].
      * assert (p ∈ ps) as Hin by (rewrite (allocs_range _ _ _ _ HA); lia).
        destruct (al_new _ _ _ HA p Hin) as (x' & Hx' & Hr' & _). simplify_eq.
        unfold resolved_as in Hr. by rewrite Hr' in Hr.
      * rewrite (al_out _ _ _ HA) in Hx; [done|lia|].
        destruct (heap st !! p) eqn:E; [|done]. destruct Hge. apply (inv_dom _ _ HI). eauto.
Qed.

Lemma resolved_close b st p r x :
  heap st !! p = Some x -> ready x = false -> serr x = match r with Ok _ => None | Err e => Some e end ->
  resolved_sessions b (close_ready p st) =
    (resolved_sessions b st + Nat.b2n (Bool.eqb b (@is_ok error Endpoint r)))%nat.
Proof.
  intros Hx Hr He. rewrite (close_ready_eq _ _ _ Hx Hr). unfold resolved_sessions. simpl.
  assert (resolved_as b (with_ready x) = Bool.eqb b (is_ok r)) as Hb.
  { unfold resolved_as. simpl. rewrite He. by destruct r. }
  destruct (Bool.eqb b (is_ok r)) eqn:Heq; simpl.
  - assert (which (resolved_as b) (<[p:=with_ready x]> (heap st)) =
      {[p]} ∪ which (resolved_as b) (heap st)) as ->.
    { apply set_eq. intros q. rewrite elem_of_union, elem_of_singleton, !elem_of_which. split.
      - intros (y & [[<- <-]|[Hne Hy]]%lookup_insert_Some & Hy2); [by left|right; eauto].
      - intros [->|(y & Hy & Hy2)].
        + exists (with_ready x). by rewrite lookup_insert_eq.
        + destruct (decide (q = p)) as [->|Hne]; [|exists y; by rewrite lookup_insert_ne].
          simplify_eq. unfold resolved_as in Hy2. by rewrite Hr in Hy2. }
    rewrite size_union, size_singleton; [lia|]. apply disjoint_singleton_l.
    rewrite elem_of_which. intros (y & Hy & Hy2). simplify_eq. unfold resolved_as in Hy2.
    by rewrite Hr in Hy2.
  - rewrite Nat.add_0_r. f_equal. apply set_eq. intros q. rewrite !elem_of_which. split.
    + intros (y & [[<- <-]|[Hne Hy]]%lookup_insert_Some & Hy2); [by rewrite Hb in Hy2|eauto].
    + intros (y & Hy & Hy2). exists y. rewrite lookup_insert_ne; [done|]. intros ->. simplify_eq.
      unfold resolved_as in Hy2. by rewrite Hr in Hy2.
Qed.

Lemma resolved_cstep b st pcs i c sp c' st' :
  Inv st pcs -> pcs !! i = Some c -> cstep m c st sp c' st' ->
  resolved_sessions b st' = (resolved_sessions b st + Nat.b2n (closing b c))%nat.
Proof.
  intros HI Hi Hc.
  assert (closing b c = false -> resolved_sessions b st' = resolved_sessions b st ->
    resolved_sessions b st' = (resolved_sessions b st + Nat.b2n (closing b c))%nat) as Hno
    by (intros -> ->; simpl; lia).
  assert ((exists p r, c = PRes6 p r) \/ closing b c = false) as [(p & r & ->)|Hcl].
  { destruct c; try (right; done). left. eauto. }
  - pose proof (Forall_lookup_1 _ _ _ _ (inv_pcs _ _ HI) Hi) as (x & Hx & Hpub & _).
    assert (unready st p) as (x' & Hx' & Hr).
    { apply (inv_resolver _ _ HI), list_elem_of_omap. exists (PRes6 p r).
      split; [by eapply list_elem_of_lookup_2|done]. }
    simplify_eq. inversion Hc; subst. simpl. apply (resolved_close b st p r x); [done|done|].
    destruct r; simpl in Hpub; [by destruct Hpub|done].
  - apply Hno; [done|]. destruct (cstep_shape m _ _ _ _ _ _ _ HI Hi Hc) as [H|[H|(p & r & -> & ->)]].
    + by eapply resolved_quiet.
    + by eapply resolved_allocs.
    + pose proof (Forall_lookup_1 _ _ _ _ (inv_pcs _ _ HI) Hi) as (x & Hx & Hpub & _).
      assert (unready st p) as (x' & Hx' & Hr).
      { apply (inv_resolver _ _ HI), list_elem_of_omap. exists (PRes6 p r).
        split; [by eapply list_elem_of_lookup_2|done]. }
      simplify_eq. rewrite (resolved_close b st p r x); [simpl in Hcl; rewrite Hcl; simpl; lia|done|done|].
      destruct r; simpl in Hpub; [by destruct Hpub|done].
Qed.

Lemma closing_cstep b c st sp c' st' :
  cstep m c st sp c' st' ->
  closing b c' = match c with PRes5 _ _ r => Bool.eqb b (is_ok r) | _ => false end.
Proof. destruct 1; try destruct k; try destruct d; try destruct vs; done. Qed.

(** The log of a run, against the goroutines of the state it leads to. *)
Definition accounted (x0 : Metrics) (s : system) : Prop :=
  exists pcs l, pool s = map (prog_of m) pcs /\ Inv (sst s) pcs /\
    mx (sst s) = Some (mkMetrics (reg x0) (ops x0 ++ l)) /\ Forall op_ok l /\
    forall b, created_count m b l = (resolved_sessions b (sst s) + closings b pcs)%nat.

Lemma accounted_step x0 s s' : accounted x0 s -> gstep m s s' -> accounted x0 s'.
Proof.
  intros (pcs & l & Hp & HI & Hmx & Hok & Hb) Hs.
  destruct (gstep_pcs m s s' pcs Hp HI Hs) as (pcs' & Hp' & HI' & Hcase). exists pcs'.
  destruct Hcase as [(i & c & sp & c' & Hi & Hc & ->)|(new & -> & Hnew & Hheap & _ & _ & Hm & _)].
  - exists (l ++ step_ops c (sst s)). split_and!; [done|done| | |].
    + rewrite (cstep_ops _ _ _ _ _ _ Hc Hmx). simpl. by rewrite (assoc app).
    + apply Forall_app. split; [done|apply step_ops_ok].
    + intros b. rewrite created_app, created_step_ops, Hb, (resolved_cstep b _ _ _ _ _ _ _ HI Hi Hc).
      pose proof (closings_step b pcs i c c' sp Hi) as Hcl.
      rewrite (closing_cstep b _ _ _ _ _ Hc) in Hcl. destruct c; simpl in *; lia.
  - exists l. rewrite Hm. split_and!; [done..|]. intros b. rewrite Hb.
    unfold resolved_sessions. rewrite Hheap. f_equal. unfold closings.
    rewrite List.filter_app, length_app.
    enough (List.filter (closing b) new = []) as -> by (simpl; lia).
    clear HI' Hp'. induction Hnew as [|c new Hc _ IH]; [done|]. simpl.
    assert (closing b c = false) as -> by (destruct c; done). exact IH.
Qed.

(** The metrics [New] starts with: its gauge is registered. *)
Definition wired (x : Metrics) : Metrics :=
  mkMetrics (reg x ++ [RegGaugeFunc "playwright_sessions_active"]) (ops x).

Lemma accounted_run t x0 s : rtc (gstep m) (init t (Some x0)) s -> accounted (wired x0) s.
Proof.
  intros Hr.
  assert (accounted (wired x0) (init t (Some x0))) as Hi.
  { destruct (reachable_good m (init t (Some x0))) as (pcs & Hp & HI & _); [by exists t, (Some x0)|].
    destruct pcs; [|done]. exists [], []. split_and!; [done|done| |constructor|].
    - simpl. by rewrite app_nil_r.
    - intros b. unfold resolved_sessions, which. simpl.
      by rewrite map_filter_empty, dom_empty_L, size_empty. }
  revert Hi. induction Hr as [|s s1 s2 Hs _ IH]; [done|]. intros Ha. apply IH. by eapply accounted_step.
Qed.

Lemma closings_unready b pcs st :
  Inv st pcs -> (forall p, ~ unready st p) -> closings b pcs = 0%nat.
Proof.
  intros HI Hno. unfold closings.
  enough (List.filter (closing b) pcs = []) as -> by done.
  assert (omap resolving pcs = []) as Hnil.
  { destruct (omap resolving pcs) as [|p l] eqn:E; [done|]. destruct (Hno p).
    apply (inv_resolver _ _ HI). rewrite E. by left. }
  clear HI. induction pcs as [|c pcs IH]; [done|]. simpl in *.
  destruct c; simpl in *; try done; by apply IH.
Qed.

(** C37. Whatever the goroutines do, the manager makes only operations that are typed like their
    collectors: the label values and the kind fit, nothing negative is added; and it never
    registers anything after [New]. *)
Theorem manager_metrics_typed (t : Z) (x0 : Metrics) (s : system) :
  rtc (gstep m) (init t (Some x0)) s -> Forall op_ok (ops x0) ->
  exists x, mx (sst s) = Some x /\ Registry (RegisterSessionsActive (Some x0)) = Some (reg x) /\
    Forall op_ok (ops x).
Proof.
  intros (pcs & l & _ & _ & Hmx & Hok & _)%accounted_run H0.
  eexists. split; [exact Hmx|]. split; [done|]. by apply Forall_app.
Qed.

(** C36. The counters of created sessions: never fewer than the sessions that are resolved, with
    each outcome, and exactly those when nothing is being brought up. *)
Theorem created_counters_exact (t : Z) (x0 : Metrics) (s : system) :
  rtc (gstep m) (init t (Some x0)) s ->
  exists x l, mx (sst s) = Some x /\ ops x = ops x0 ++ l /\
    forall b, (resolved_sessions b (sst s) <= created_count m b l)%nat /\
      ((forall p x, heap (sst s) !! p = Some x -> ready x = true) ->
       created_count m b l = resolved_sessions b (sst s)).
Proof.
  intros (pcs & l & _ & HI & Hmx & _ & Hb)%accounted_run.
  eexists _, l. split; [exact Hmx|]. split; [done|]. intros b. rewrite Hb. split; [lia|]. intros Hall.
  rewrite (closings_unready b pcs _ HI); [lia|].
  intros p (x & Hx & Hr). by rewrite (Hall p x Hx) in Hr.
Qed.
End metrics.

(** ** The theorems at a concrete schedule *)

Definition fresh_metrics : Metrics := Metrics.New "sandboxclaim" "v1" "abc".

(** A Get whose Ensure failed, then one that succeeded, with metrics wired. *)
Definition two_gets : list choice :=
  get_run 0 "a" (Err (NewError "no capacity")) ++ [Run 0 ANone] ++ get_run 2 "a" (Ok (demo_ep "10.0.0.1")).
Definition counted : option system := run demo_manager (init 0 (Some fresh_metrics)) two_gets.
Definition counted_state : system := default (init 0 None) counted.

Lemma counted_reached : rtc (gstep demo_manager) (init 0 (Some fresh_metrics)) counted_state.
Proof. apply (run_sound demo_manager _ two_gets). vm_compute. reflexivity. Qed.

Lemma manager_metrics_typed_witness :
  exists x, mx (sst counted_state) = Some x /\ length (ops x) = 5%nat /\ Forall op_ok (ops x).
Proof.
  destruct (manager_metrics_typed demo_manager 0 fresh_metrics counted_state counted_reached
    ltac:(by constructor)) as (x & Hx & _ & Hok).
  exists x. split; [exact Hx|]. split; [|exact Hok].
  vm_compute in Hx. injection Hx as <-. reflexivity.
Defined.

Lemma created_counters_exact_witness :
  exists l, created_count demo_manager true l = 1%nat /\ created_count demo_manager false l = 1%nat /\
    resolved_sessions true (sst counted_state) = 1%nat.
Proof.
  destruct (created_counters_exact demo_manager 0 fresh_metrics counted_state counted_reached)
    as (x & l & _ & _ & Hb).
  assert (forall p y, heap (sst counted_state) !! p = Some y -> ready y = true) as Hall.
  { assert (map_Forall (fun _ y => ready y = true) (heap (sst counted_state))) as H by by_decision.
    exact H. }
  exists l. split; [|split].
  - rewrite (proj2 (Hb true) Hall). vm_compute. reflexivity.
  - rewrite (proj2 (Hb false) Hall). vm_compute. reflexivity.
  - vm_compute. reflexivity.
Defined.
