(* ===== verification/SessionClient.v ===== *)
(** * What a client of the session manager relies on

    A goroutine that has finished stays finished, a session keeps its id, and the endpoint
    stored in a session, resolved or not, is the zero one or one a completed Ensure of the
    session's id returned. *)

From S2P Require Import Prelude GoStd Backend Metrics Session SessionFacts SessionSys SessionInv.
Local Open Scope Z_scope.

(** A pointer read by [Session.Endpoint]: None is a nil dereference. *)
Definition endpoint_at (st : state) (p : loc) : option Endpoint := SEndpoint <$> heap st !! p.

(** The endpoint of a session comes from an Ensure of its id, or was never set. *)
Definition endpoint_from (st : state) (x : Session) : Prop :=
  SEndpoint x = Endpoint_zero \/ BEnsure (ID x) (Ok (SEndpoint x)) ∈ calls st.
Definition endpoints_from (st : state) : Prop :=
  forall p x, heap st !! p = Some x -> endpoint_from st x.

Section steps.
Context (m : Manager).

(** A step that touches no endpoint keeps them where they come from. *)
Lemma endpoints_kept st st' :
  (forall b, b ∈ calls st -> b ∈ calls st') ->
  (forall p x', heap st' !! p = Some x' -> SEndpoint x' = Endpoint_zero \/
     exists x, heap st !! p = Some x /\ ID x' = ID x /\ SEndpoint x' = SEndpoint x) ->
  endpoints_from st -> endpoints_from st'.
Proof.
  intros Hc Hh He p x' Hx'. unfold endpoint_from.
  destruct (Hh _ _ Hx') as [?|(x & Hx & -> & ->)]; [by left|].
  destruct (He _ _ Hx) as [?|?]; auto.
Qed.

Lemma endpoints_quiet st st' : quiet None st st' -> endpoints_from st -> endpoints_from st'.
Proof.
  intros Hq. apply endpoints_kept; [apply (ext_calls None), Hq|].
  intros p x' Hx'. right. destruct (q_dom _ _ _ Hq p) as [x Hx]; [eauto|].
  destruct (ext_heap _ _ _ (q_ext _ _ _ Hq) _ _ Hx) as (x2 & Hx2 & Hid & Hk). simplify_eq.
  destruct (core_fields x x') as (_ & _ & Hep & _); [apply Hk; by right|]. by exists x.
Qed.

(** [f] rewrites nothing an endpoint depends on. *)
Lemma endpoints_update st p f :
  (forall x, ID (f x) = ID x /\ SEndpoint (f x) = SEndpoint x) ->
  endpoints_from st -> endpoints_from (update p f st).
Proof.
  intros Hf. apply endpoints_kept; [intros b; by rewrite calls_update|].
  intros p' x' Hx'. right. destruct (heap st !! p) as [x|] eqn:Hp.
  - rewrite (heap_update _ _ _ _ Hp) in Hx'.
    apply lookup_insert_Some in Hx' as [[<- <-]|[_ Hx']]; [exists x; by destruct (Hf x)|by exists x'].
  - unfold update in Hx'. rewrite Hp in Hx'. by exists x'.
Qed.

(** Sessions are created with the zero endpoint. *)
Definition zero_new (st st' : state) : Prop :=
  calls st' = calls st /\
  forall p x', heap st' !! p = Some x' -> heap st !! p = Some x' \/ SEndpoint x' = Endpoint_zero.

Lemma zero_new_alloc id f st : zero_new st (set_sessions f (alloc id st).2).
Proof.
  split; [done|]. intros p x'. simpl.
  intros [[_ <-]|[_ H]]%lookup_insert_Some; [by right|by left].
Qed.

Lemma zero_new_acquire id st p sp st' : get_acquire id st = (p, sp, st') -> zero_new st st'.
Proof.
  unfold get_acquire. destruct (sessions st !! id); [intros [= _ _ <-]; split; auto|].
  intros [= _ _ <-]. apply zero_new_alloc.
Qed.

Lemma zero_new_reconcile ids st ps st' : reconcile_ids ids st = (ps, st') -> zero_new st st'.
Proof.
  revert st ps st'. induction ids as [|id ids IH]; intros st ps st'; simpl.
  { intros [= _ <-]. split; auto. }
  destruct (sessions st !! id); [apply IH|].
  destruct (reconcile_ids ids _) as [ps2 st2] eqn:H2. intros [= _ <-].
  destruct (IH _ _ _ H2) as [Hc Hz]. split; [by rewrite Hc|].
  intros p x' [Hx|?]%Hz; [|by right]. revert Hx. by apply (proj2 (zero_new_alloc id _ st)).
Qed.

Lemma endpoints_zero_new st st' : zero_new st st' -> endpoints_from st -> endpoints_from st'.
Proof.
  intros [Hc Hz]. apply endpoints_kept; [intros b; by rewrite Hc|].
  intros p x' [Hx|Hx]%Hz; eauto.
Qed.

Lemma endpoints_cstep st pcs i c sp c' st' :
  Inv st pcs -> pcs !! i = Some c -> cstep m c st sp c' st' ->
  endpoints_from st -> endpoints_from st'.
Proof.
  intros HI Hi Hstep.
  pose proof (Forall_lookup_1 _ _ _ _ (inv_pcs _ _ HI) Hi) as Hok.
  destruct Hstep; simpl in Hok;
    try (apply endpoints_quiet; first [apply quiet_refl|apply quiet_metrics|apply quiet_log]).
  - by eapply endpoints_zero_new, zero_new_acquire.
  - apply endpoints_quiet, quiet_get_drop. destruct Hok as [_ (s & ? & _ & ? & _)]. by exists s.
  - by eapply endpoints_quiet, quiet_refresh_lock.
  - destruct Hok as (s & Hs & _ & Hcall). intros He p' x'.
    rewrite (heap_update _ _ _ _ Hs). unfold endpoint_from. rewrite calls_update.
    intros [[<- <-]|[_ Hx']]%lookup_insert_Some; [|by apply (He p')].
    destruct r as [ep|e]; [by right|exact (He p s Hs)].
  - destruct Hok as (s & Hs & _). unfold close_ready. rewrite Hs.
    destruct (ready s); [done|by apply endpoints_update].
  - by eapply endpoints_quiet, quiet_reap.
  - apply endpoints_quiet. unfold reap_record. apply Forall_cons in Hok as [(s & Hs & _) _].
    rewrite Hs. destruct err; apply quiet_metrics.
  - by eapply endpoints_zero_new, zero_new_reconcile.
  - by apply endpoints_update.
  - by apply endpoints_update.
Qed.

Lemma endpoints_gstep s s' :
  good m s -> gstep m s s' -> endpoints_from (sst s) -> endpoints_from (sst s').
Proof.
  intros Hg Hs. destruct (gstep_cases m s s' Hg Hs)
    as [(pcs & i & c & sp & c' & _ & HI & Hi & _ & Hc)|(Hh & _ & _ & Hcalls)].
  - by eapply endpoints_cstep.
  - intros He p x. unfold endpoint_from. rewrite Hh, Hcalls. apply He.
Qed.

Lemma reachable_endpoints s : reachable m s -> endpoints_from (sst s).
Proof.
  intros (t & mx & Hr).
  assert (good m (init t mx)) as Hg by (apply reachable_good; by exists t, mx).
  assert (endpoints_from (sst (init t mx))) as He.
  { intros p x Hx. simpl in Hx. by rewrite lookup_empty in Hx. }
  revert Hg He. induction Hr as [|s s1 s2 Hstep _ IH]; [done|]. intros Hg He.
  apply IH; [by eapply good_step|by eapply endpoints_gstep].
Qed.

Lemma reachable_rtc s s' : reachable m s -> rtc (gstep m) s s' -> reachable m s'.
Proof. intros (t & mx & H) Hs. exists t, mx. by etrans. Qed.

(** ** What does not change *)

(** Nothing a client has learnt of the manager is lost by a step. *)
Record later_than (s s' : system) : Prop := mkLater {
  lt_pool o : Ret o ∈ pool s -> Ret o ∈ pool s';
  lt_calls b : b ∈ calls (sst s) -> b ∈ calls (sst s');
  lt_heap p x : heap (sst s) !! p = Some x ->
    exists x', heap (sst s') !! p = Some x' /\ ID x' = ID x /\ (ready x = true -> core x' = core x);
}.

#[export] Instance later_than_preorder : PreOrder later_than.
Proof.
  split.
  - intros s. split; eauto.
  - intros s1 s2 s3 [P1 C1 H1] [P2 C2 H2]. split; [auto..|].
    intros p x (x2 & (x3 & Hx3 & Hid3 & Hk3)%H2 & Hid2 & Hk2)%H1. exists x3.
    split; [done|]. split; [congruence|]. intros Hr. rewrite <- (Hk2 Hr). apply Hk3.
    destruct (core_fields x x2) as (_ & _ & _ & -> & _); auto.
Qed.

Lemma gstep_pool s s' o : gstep m s s' -> Ret o ∈ pool s -> Ret o ∈ pool s'.
Proof.
  destruct 1 as [s i pr sp pr' st' Hi Hp| | | | | | |]; simpl; intros Ho; try set_solver.
  apply elem_of_app. left. apply list_elem_of_lookup in Ho as [j Hj].
  destruct (decide (i = j)) as [->|Hne].
  - assert (pr = Ret o) as -> by congruence. destruct Hp.
  - apply list_elem_of_lookup. exists j. by rewrite list_lookup_insert_ne.
Qed.

Lemma gstep_later s s' : reachable m s -> gstep m s s' -> later_than s s'.
Proof.
  intros Hr Hs. split; [intros o; by apply gstep_pool|..];
  destruct (gstep_cases m s s' (reachable_good m s Hr) Hs)
    as [(pcs & i & c & sp & c' & _ & HI & Hi & _ & Hc)|(Hh & _ & _ & Hcalls)].
  - apply (ext_calls _ _ _ (cstep_ext m _ _ _ _ _ _ _ HI Hi Hc)).
  - by rewrite Hcalls.
  - intros p x Hx. destruct (ext_heap _ _ _ (cstep_ext m _ _ _ _ _ _ _ HI Hi Hc) _ _ Hx)
      as (x' & Hx' & Hid & Hk). eauto 6.
  - rewrite Hh. eauto.
Qed.

Lemma rtc_later s s' : reachable m s -> rtc (gstep m) s s' -> later_than s s'.
Proof.
  intros Hr Hs. revert Hr. induction Hs as [s|s s1 s2 Hstep _ IH]; intros Hr; [done|].
  etrans; [by eapply gstep_later|]. apply IH. by eapply reachable_rtc, rtc_once.
Qed.

Lemma got_later s s' p : later_than s s' -> got s p -> got s' p.
Proof. intros Hl [id H]. exists id. by apply (lt_pool _ _ Hl). Qed.
Lemma held_later s s' p : later_than s s' -> held s p -> held s' p.
Proof.
  intros Hl [H|[stale H]]; [left; by eapply got_later|right; exists stale; by apply (lt_pool _ _ Hl)].
Qed.

(** ** What a finished call tells its caller *)

Lemma get_returns s id p :
  reachable m s -> Ret (OGet id (Ok p)) ∈ pool s ->
  exists x, heap (sst s) !! p = Some x /\ ID x = id /\ ready x = true /\
    BEnsure id (Ok (SEndpoint x)) ∈ calls (sst s).
Proof.
  intros (pcs & Hp & HI & _)%reachable_good Hin.
  destruct (pool_ret m s pcs _ Hp HI Hin) as (x & Hx & <- & Hr & He). exists x. split_and!; try done.
  pose proof (inv_resolved _ _ HI _ _ Hx Hr) as Hres. unfold resolved in Hres.
  by rewrite He in Hres.
Qed.

Lemma refresh_returns s stale p :
  reachable m s -> Ret (ORefresh stale (Ok p)) ∈ pool s ->
  exists x0 x, heap (sst s) !! stale = Some x0 /\ heap (sst s) !! p = Some x /\ ID x = ID x0.
Proof.
  intros (pcs & Hp & HI & _)%reachable_good Hin.
  destruct (pool_ret m s pcs _ Hp HI Hin) as (x0 & Hx0 & x & Hx & Hid). by exists x0, x.
Qed.
End steps.
