(* ===== verification/SessionLive.v ===== *)
(** * Progress of the session manager

    No goroutine of the manager is stuck: a Get or Refresh that waits on a session's
    [ready] channel waits for a goroutine that can always finish its resolution.  What
    Reconcile leaves in the map. *)

From S2P Require Import Prelude GoStd Backend Metrics Session SessionFacts SessionSys SessionSched SessionInv SessionProps.
Local Open Scope Z_scope.

Section live.
Context (m : Manager).

(** Steps a resolving goroutine has left. *)
Definition left (c : pc) : nat :=
  match c with
  | PRes0 _ => 6 | PRes1 _ _ => 5 | PRes2 _ _ _ _ => 4 | PRes3 _ _ _ => 3
  | PRes4 _ _ _ => 2 | PRes5 _ _ _ => 1 | _ => 0
  end%nat.

(** Whatever its backend call returns, a resolving goroutine's next step exists. *)
Lemma resolving_steps c p st (r : result error Endpoint) :
  resolving c = Some p ->
  (exists r, c = PRes6 p r) \/
  exists c' st', cstep m c st [] c' st' /\ resolving c' = Some p /\ (left c' < left c)%nat.
Proof.
  destruct c; simpl; intros; simplify_eq;
    try (right; eexists _, _; split; [first [apply c_res2 with (r := r)|constructor]|];
         simpl; split; [done|lia]).
  left. eauto.
Qed.

Lemma ready_after_close st p x :
  heap st !! p = Some x -> ready x = false ->
  heap (close_ready p st) !! p = Some (with_ready x).
Proof. intros Hx Hr. rewrite (close_ready_eq _ _ _ Hx Hr). simpl. by rewrite lookup_insert_eq. Qed.

Lemma run_pc st pcs j c c' st' :
  pcs !! j = Some c -> cstep m c st [] c' st' ->
  gstep m (mkSystem st (map (prog_of m) pcs)) (mkSystem st' (map (prog_of m) (<[j := c']> pcs))).
Proof.
  intros Hj Hc. rewrite map_insert, <- (app_nil_r (<[j := _]> _)).
  change (@nil goroutine) with (map (resolve_goroutine m) []).
  apply (g_run m (mkSystem st _) j (prog_of m c)); [|by apply control_steps].
  simpl. change (map (prog_of m) pcs) with (prog_of m <$> pcs). by rewrite list_lookup_fmap, Hj.
Qed.

Lemma resolver_finishes n st pcs j c p :
  Inv st pcs -> pcs !! j = Some c -> resolving c = Some p -> (left c <= n)%nat ->
  exists st' c', rtc (gstep m) (mkSystem st (map (prog_of m) pcs))
      (mkSystem st' (map (prog_of m) (<[j := c']> pcs))) /\
    exists x, heap st' !! p = Some x /\ ready x = true.
Proof.
  revert st pcs c. induction n as [n IH] using lt_wf_ind. intros st pcs c HI Hj Hp Hn.
  destruct (resolving_steps c p st (Err (NewError EmptyString)) Hp)
    as [[r ->]|(c' & st' & Hc & Hp' & Hlt)].
  - exists (close_ready p st), (PDone OUnit). split.
    + apply rtc_once. by eapply run_pc; [|constructor].
    + destruct (proj1 (inv_resolver _ _ HI p)) as (x & Hx & Hr).
      { apply list_elem_of_omap. exists (PRes6 p r). split; [by eapply list_elem_of_lookup_2|done]. }
      exists (with_ready x). split; [by apply ready_after_close|done].
  - assert (<[j := c']> pcs !! j = Some c') as Hj'
      by (apply list_lookup_insert_eq; by eapply lookup_lt_Some).
    pose proof (Inv_cstep m _ _ _ _ _ _ _ HI Hj Hc) as HI'. rewrite app_nil_r in HI'.
    destruct (IH (left c') ltac:(lia) st' _ c' HI' Hj' Hp' (le_n _)) as (st2 & c2 & Hrun & Hx).
    exists st2, c2. split; [|done]. eapply rtc_l; [by eapply run_pc|].
    by rewrite list_insert_insert_eq in Hrun.
Qed.

(** A control point of the invariant can step, unless it is the end or waits for an
    unresolved session. *)
Lemma pc_steps st pcs i c :
  Inv st pcs -> pcs !! i = Some c ->
  (exists o, c = PDone o) \/
  (exists ctx id p k, c = PSelect ctx id p k /\ unready st p) \/
  (exists sp c' st', cstep m c st sp c' st').
Proof.
  intros HI Hi. pose proof (Forall_lookup_1 _ _ _ _ (inv_pcs _ _ HI) Hi) as Hok.
  destruct c; try (right; right; eexists _, _, _;
    first [apply c_res2 with (r := Err (NewError EmptyString))|apply c_reap3 with (err := None)
          |apply c_rec_ok with (ids := [])|by econstructor]); [by left; eauto|..].
  - right; right. destruct (get_acquire id st) as [[p sp] st'] eqn:Ha.
    eexists _, _, _. by econstructor.
  - right. destruct Hok as [_ (x & Hx & _)]. destruct (ready x) eqn:Hr.
    + right. eexists _, _, _. by econstructor.
    + left. exists ctx, id, p, k. split; [done|]. by exists x.
  - right; right. destruct (session_err p st) eqn:He; eexists _, _, _.
    + by apply c_check_err.
    + by apply c_check_ok.
  - right; right. destruct (refresh_lock stale st) as [d st'] eqn:Hd.
    eexists _, _, _. by econstructor.
  - right; right. destruct (reap_scan cutoff ord st) as [vs st'] eqn:Hd.
    eexists _, _, _. by econstructor.
  - right; right. destruct (reconcile_ids ids st) as [ps st'] eqn:Hd.
    eexists _, _, _. by econstructor.
Qed.

Lemma cstep_can_step c st sp c' st' : cstep m c st sp c' st' -> can_step (prog_of m c) st.
Proof. intros H%control_steps. by eexists _, _, _. Qed.

(** No goroutine is stuck: each has finished, or can step, now or after a run in which
    it does not move; a wait for [ready] is always ended by the resolver of that session. *)
Theorem no_deadlock (s : system) :
  reachable m s ->
  forall i g, pool s !! i = Some g ->
    finished g \/
    exists s', rtc (gstep m) s s' /\ pool s' !! i = Some g /\ can_step g (sst s').
Proof.
  intros (pcs & Hp & HI & _)%reachable_good i g Hi.
  destruct (pool_pc m _ _ _ _ Hp Hi) as (c & Hc & <-).
  destruct (pc_steps _ _ _ _ HI Hc) as [[o ->]|[(ctx & id & p & k & -> & Hu)|(sp & c' & st' & Hs)]].
  - left. by exists o.
  - right. apply (inv_resolver _ _ HI) in Hu as Hin.
    apply list_elem_of_omap in Hin as (cj & [j Hj]%list_elem_of_lookup & Hr).
    destruct (resolver_finishes _ _ _ _ _ _ HI Hj Hr (le_n _)) as (st' & c' & Hrun & x & Hx & Hready).
    destruct s as [st gs]. simpl in *. subst gs. eexists. split; [exact Hrun|].
    assert (j <> i) by (intros ->; simplify_eq).
    simpl. rewrite map_insert. split; [by rewrite list_lookup_insert_ne|].
    eapply (cstep_can_step (PSelect ctx id p k)). by apply (c_ready m ctx id p k _ x).
  - right. exists s. split; [done|]. split; [done|]. by eapply cstep_can_step.
Qed.

(** *** Reconcile *)

Definition fresh_session (id : string) (t : Z) : Session :=
  mkSession id Endpoint_zero t (wrap64 t) 0 false None.

Lemma reconcile_ids_sessions ids st ps st' :
  reconcile_ids ids st = (ps, st') ->
  (forall p, (nextloc st <= p)%nat -> heap st !! p = None) ->
  clock st' = clock st /\
  (forall id, sessions st' !! id =
     match sessions st !! id with
     | Some p => Some p
     | None => if decide (id ∈ ids) then sessions st' !! id else None
     end) /\
  (forall id, id ∈ ids -> sessions st !! id = None ->
     exists p, p ∈ ps /\ sessions st' !! id = Some p /\
               heap st' !! p = Some (fresh_session id (clock st))) /\
  (forall p, p ∈ ps -> exists id, id ∈ ids /\ sessions st !! id = None /\
               sessions st' !! id = Some p).
Proof.
  revert st ps st'. induction ids as [|id ids IH]; intros st ps st'; simpl.
  { intros [= <- <-] _. split_and!; try done.
    - intros id. by destruct (sessions st !! id).
    - by intros id ?%elem_of_nil.
    - by intros p ?%elem_of_nil. }
  destruct (sessions st !! id) as [q|] eqn:Hq.
  - intros H Hdom. destruct (IH _ _ _ H Hdom) as (Hc & Hm & Hn & Hps). split_and!; try done.
    + intros i. rewrite Hm at 1. case_match; [done|].
      case_decide; case_decide; set_solver.
    + intros i [->|Hi]%elem_of_cons; [congruence|]. by apply Hn.
    + intros p Hp. destruct (Hps p Hp) as (i & ? & ? & ?). exists i. set_solver.
  - destruct (reconcile_ids ids _) as [ps2 st2] eqn:H2. intros [= <- <-] Hdom.
    pose proof (reconcile_allocs _ _ _ _ H2) as HA.
    destruct (IH _ _ _ H2) as (Hc & Hm & Hn & Hps).
    { simpl. intros p Hp. rewrite lookup_insert_ne by lia. apply Hdom. lia. }
    simpl in *.
    assert (sessions st2 !! id = Some (nextloc st)) as Hid.
    { rewrite Hm. by rewrite lookup_insert_eq. }
    split_and!; [done|..].
    + intros i. destruct (decide (i = id)) as [->|Hne].
      * rewrite Hq. by rewrite decide_True by set_solver.
      * rewrite Hm at 1. rewrite lookup_insert_ne by done.
        case_match; [done|]. case_decide; case_decide; set_solver.
    + intros i Hi Hnone. destruct (decide (i = id)) as [->|Hne].
      * exists (nextloc st). split; [by left|]. split; [done|].
        rewrite (al_old _ _ _ HA) by (simpl; lia). simpl. by rewrite lookup_insert_eq.
      * destruct (Hn i) as (p & ? & ? & ?); [set_solver|by rewrite lookup_insert_ne|].
        exists p. split; [by right|done].
    + intros p [->|Hp]%elem_of_cons; [exists id; set_solver|].
      destruct (Hps p Hp) as (i & Hi & Hnone & Hm').
      destruct (decide (i = id)) as [->|Hne]; [by rewrite lookup_insert_eq in Hnone|].
      rewrite lookup_insert_ne in Hnone by done. exists i. split; [set_solver|done].
Qed.

Lemma reconcile_size ids st ps st' :
  reconcile_ids ids st = (ps, st') ->
  size (sessions st') = (size (sessions st) + length ps)%nat.
Proof.
  revert st ps st'. induction ids as [|id ids IH]; intros st ps st'; simpl.
  { intros [= <- <-]. simpl. lia. }
  destruct (sessions st !! id) as [q|] eqn:Hq; [apply IH|].
  destruct (reconcile_ids ids _) as [ps2 st2] eqn:H2. intros [= <- <-].
  rewrite (IH _ _ _ H2). simpl. rewrite map_size_insert_None by done. lia.
Qed.

(** On an empty manager: one pending session for each listed id, and no other. *)
Lemma adopts_empty ids st0 ps st :
  sessions st0 = ∅ -> heap st0 = ∅ -> reconcile_ids ids st0 = (ps, st) ->
  size (sessions st) = length ps /\
  forall id, (is_Some (sessions st !! id) <-> id ∈ ids) /\
    forall p, sessions st !! id = Some p -> p ∈ ps /\ heap st !! p = Some (fresh_session id (clock st0)).
Proof.
  intros Hs Hh Hrec. assert (forall id, sessions st0 !! id = None) as Hno by (intros id; by rewrite Hs).
  destruct (reconcile_ids_sessions _ _ _ _ Hrec) as (_ & Hm & Hn & _); [intros p _; by rewrite Hh|].
  split; [by rewrite (reconcile_size _ _ _ _ Hrec), Hs|]. intros id.
  assert (is_Some (sessions st !! id) <-> id ∈ ids) as Hin.
  { split.
    - intros [p Hp]. rewrite Hm, Hno in Hp. by case_decide.
    - intros H. destruct (Hn id H (Hno id)) as (p & _ & Hp & _). by exists p. }
  split; [exact Hin|]. intros p Hp. assert (id ∈ ids) as H by (apply Hin; by exists p).
  destruct (Hn id H (Hno id)) as (p' & Hps & Hp' & Hheap).
  rewrite Hp in Hp'. by injection Hp' as <-.
Qed.

(** Reconcile leaves in the map its old entries and one new entry per listed id that had
    none; each new session is created unresolved at the current time and given to one
    resolver, duplicates in the list included once. *)
Theorem reconcile_populates (s : system) :
  reachable m s ->
  forall ids ps st', reconcile_ids ids (sst s) = (ps, st') ->
    dom (sessions st') = dom (sessions (sst s)) ∪ list_to_set ids /\
    (forall id p, sessions (sst s) !! id = Some p -> sessions st' !! id = Some p) /\
    (forall id, id ∈ ids -> sessions (sst s) !! id = None ->
       exists p, p ∈ ps /\ sessions st' !! id = Some p /\
                 heap st' !! p = Some (fresh_session id (clock (sst s)))) /\
    NoDup ps /\
    size (sessions st') = (size (sessions (sst s)) + length ps)%nat.
Proof.
  intros (pcs & _ & HI & _)%reachable_good ids ps st' H.
  pose proof (reconcile_allocs _ _ _ _ H) as HA.
  destruct (reconcile_ids_sessions _ _ _ _ H) as (_ & Hm & Hn & Hps).
  { intros p Hp. destruct (heap (sst s) !! p) eqn:E; [|done].
    assert (p < nextloc (sst s))%nat; [|lia]. apply (inv_dom _ _ HI). eauto. }
  split_and!.
  - apply set_eq. intros id. rewrite elem_of_union, !elem_of_dom, elem_of_list_to_set. split.
    + intros [p Hp]. destruct (sessions (sst s) !! id) eqn:E; [by left; eauto|].
      rewrite Hm, E in Hp. case_decide; [by right|done].
    + intros [[p Hp]|Hin]; [exists p; by apply (al_keep _ _ _ HA)|].
      destruct (sessions (sst s) !! id) as [p|] eqn:E; [exists p; by apply (al_keep _ _ _ HA)|].
      destruct (Hn _ Hin E) as (p & _ & -> & _). eauto.
  - apply (al_keep _ _ _ HA).
  - exact Hn.
  - rewrite (al_ps _ _ _ HA). apply NoDup_ListNoDup, seq_NoDup.
  - by eapply reconcile_size.
Qed.
End live.

(** ** The theorems at concrete schedules *)

(** Goroutine 0 waits for a session that goroutine 1 has not begun to resolve. *)
Definition waiting_a : list choice := [CallGet Background "a"; Run 0 ANone].

Lemma no_deadlock_witness :
  exists g, pool (final_state waiting_a) !! 0%nat = Some g /\
    (finished g \/
     exists s', rtc (gstep demo_manager) (final_state waiting_a) s' /\
       pool s' !! 0%nat = Some g /\ can_step g (sst s')).
Proof.
  assert (exists g, pool (final_state waiting_a) !! 0%nat = Some g) as (g & Hg)
    by (eexists; reflexivity).
  exists g. split; [exact Hg|].
  exact (no_deadlock demo_manager _ (final_state_reachable waiting_a) 0%nat g Hg).
Defined.

Lemma reconcile_populates_witness :
  let s := final_state first_get in
  exists ps st', reconcile_ids ["a"; "b"; "b"; "c"] (sst s) = (ps, st') /\
    size (sessions st') = (size (sessions (sst s)) + length ps)%nat /\ length ps = 2%nat.
Proof.
  cbv zeta. set (s := final_state first_get).
  assert (exists ps st', reconcile_ids ["a"; "b"; "b"; "c"] (sst s) = (ps, st') /\ length ps = 2%nat)
    as (ps & st' & H & Hl) by (eexists _, _; split; vm_compute; reflexivity).
  exists ps, st'. split; [exact H|].
  destruct (reconcile_populates demo_manager s (final_state_reachable _) _ ps st' H)
    as (_ & _ & _ & _ & Hs).
  split; [exact Hs|exact Hl].
Defined.
