(* ===== verification/SessionFair.v ===== *)
(** * Fair runs of the session manager

    An infinite run of the concurrent manager in which no goroutine that can step is passed
    over for ever.  In every such run every goroutine finishes: each Get, Refresh, scan and
    Reconcile returns, and each session that is created is resolved. *)

From S2P Require Import Prelude GoStd Backend Metrics Session SessionFacts SessionSys SessionSched SessionInv SessionProps SessionClient SessionLive.
Local Open Scope Z_scope.

Section fair.
Context (m : Manager).

(** Goroutine [i] makes the step from [s] to [s']. *)
Definition moves (i : nat) (s s' : system) : Prop :=
  exists pr sp pr' st', pool s !! i = Some pr /\ pstep pr (sst s) sp pr' st' /\
    s' = mkSystem st' (<[i := pr']> (pool s) ++ map (resolve_goroutine m) sp).

Definition enabled (i : nat) (s : system) : Prop :=
  exists g, pool s !! i = Some g /\ can_step g (sst s).

(** A run; it may idle. *)
Definition execution (σ : nat -> system) : Prop :=
  reachable m (σ 0%nat) /\ forall n, σ (S n) = σ n \/ gstep m (σ n) (σ (S n)).

(** Weak fairness: a goroutine that can step moves or ceases to be able to.  A goroutine in a
    backend call can step, so this includes that the calls of the backend return. *)
Definition fair (σ : nat -> system) : Prop :=
  forall i n, enabled i (σ n) ->
    exists k, (n <= k)%nat /\ (moves i (σ k) (σ (S k)) \/ ~ enabled i (σ k)).

(** ** One goroutine along a run *)

(** A step of the system is one of the goroutine, or leaves it where it is. *)
Lemma gstep_stays s s' i g :
  gstep m s s' -> pool s !! i = Some g -> moves i s s' \/ pool s' !! i = Some g.
Proof.
  intros Hs Hi.
  assert (forall gs, pool (spawn gs s) !! i = Some g) as Hspawn
    by (intros gs; by apply lookup_app_l_Some).
  destruct Hs as [s j pr sp pr' st' Hj Hp| | | | | | |]; try (by right).
  destruct (decide (j = i)) as [->|Hne].
  - left. by exists pr, sp, pr', st'.
  - right. apply lookup_app_l_Some. by rewrite list_lookup_insert_ne.
Qed.

Context (σ : nat -> system) (Hexec : execution σ).

Lemma execution_reachable n : reachable m (σ n).
Proof.
  induction n as [|n IH]; [apply Hexec|].
  destruct (proj2 Hexec n) as [->|Hs]; [done|]. by eapply reachable_rtc, rtc_once.
Qed.

Lemma execution_later n k : (n <= k)%nat -> later_than (σ n) (σ k).
Proof.
  induction 1 as [|k _ IH]; [done|]. etrans; [exact IH|].
  destruct (proj2 Hexec k) as [->|Hs]; [done|]. eapply gstep_later; [|exact Hs]. apply execution_reachable.
Qed.

(** Up to any later point it has not moved, or there is a first time it moved. *)
Lemma until n k i g :
  (n <= k)%nat -> pool (σ n) !! i = Some g ->
  pool (σ k) !! i = Some g \/
  exists k', (n <= k' < k)%nat /\ pool (σ k') !! i = Some g /\ moves i (σ k') (σ (S k')).
Proof.
  intros Hle Hi. induction Hle as [|k Hle [IH|(k' & ? & ? & ?)]]; [by left| |].
  - destruct (proj2 Hexec k) as [->|Hs]; [by left|].
    destruct (gstep_stays _ _ _ _ Hs IH) as [Hm|?]; [right|by left].
    exists k. split; [lia|done].
  - right. exists k'. split; [lia|done].
Qed.

Context (Hfair : fair σ).

(** A goroutine that stays able to step while it waits moves. *)
Lemma eventually_moves n i g :
  pool (σ n) !! i = Some g ->
  (forall k, (n <= k)%nat -> pool (σ k) !! i = Some g -> can_step g (sst (σ k))) ->
  exists k, (n <= k)%nat /\ pool (σ k) !! i = Some g /\ moves i (σ k) (σ (S k)).
Proof.
  intros Hi Hcan. destruct (Hfair i n) as (k & Hk & Hm).
  { exists g. split; [done|]. by apply Hcan. }
  destruct (until n k i g Hk Hi) as [Hik|(k' & ? & ? & ?)]; [|exists k'; split; [lia|done]].
  destruct Hm as [Hm|Hno]; [by exists k|]. destruct Hno. exists g. split; [done|]. by apply Hcan.
Qed.

(** What it moves to. *)
Lemma moves_to n i X (a : act X) k :
  pool (σ n) !! i = Some (Do a k) -> moves i (σ n) (σ (S n)) ->
  exists x, pool (σ (S n)) !! i = Some (k x).
Proof.
  intros Hi (pr & sp & pr' & st' & Hi' & Hp & ->). simplify_eq. destruct Hp as (x & _ & ->).
  exists x. simpl. apply lookup_app_l_Some, list_lookup_insert_eq. by eapply lookup_lt_Some.
Qed.

(** ** Resolution *)

Definition is_ready_at (s : system) (p : loc) : Prop := session_at (sst s) p is_ready.

Lemma ready_later n k p : (n <= k)%nat -> is_ready_at (σ n) p -> is_ready_at (σ k) p.
Proof.
  intros Hle (x & Hx & Hr). destruct (lt_heap _ _ (execution_later n k Hle) _ _ Hx) as (x' & Hx' & _ & Hc).
  exists x'. split; [done|]. unfold is_ready in *. by destruct (core_fields x x' (Hc Hr)) as (_ & _ & _ & -> & _).
Qed.

Lemma resolving_can_step c p st : resolving c = Some p -> can_step (prog_of m c) st.
Proof.
  intros Hc. destruct (resolving_steps m c p st (Err (NewError EmptyString)) Hc)
    as [[r ->]|(c' & st' & Hs & _)].
  - eapply (cstep_can_step m (PRes6 p r)). constructor.
  - by eapply cstep_can_step.
Qed.

Lemma cstep_resolving c p st sp c' st' :
  resolving c = Some p -> cstep m c st sp c' st' ->
  (resolving c' = Some p /\ (left c' < left c)%nat) \/ exists r, c = PRes6 p r /\ st' = close_ready p st.
Proof. intros Hp Hc. destruct Hc; simplify_eq/=; try (left; split; [done|lia]). right. eauto. Qed.

(** A resolver resolves its session. *)
Lemma resolver_resolves d c n j p :
  (left c <= d)%nat -> resolving c = Some p -> pool (σ n) !! j = Some (prog_of m c) ->
  session_at (sst (σ n)) p (fun _ => True) ->
  exists k, (n <= k)%nat /\ is_ready_at (σ k) p.
Proof.
  revert c n. induction d as [d IH] using lt_wf_ind. intros c n Hd Hp Hj Hx.
  destruct (eventually_moves n j _ Hj) as (k & Hk & Hjk & Hm).
  { intros k _ _. by eapply resolving_can_step. }
  destruct Hm as (pr & sp & pr' & st' & Hj' & Hstep & Heq). simplify_eq.
  apply control_simulation in Hstep as (c' & -> & Hc).
  destruct Hx as (x & Hx & _).
  destruct (lt_heap _ _ (execution_later n k Hk) _ _ Hx) as (xk & Hxk & _).
  destruct (cstep_resolving _ _ _ _ _ _ Hp Hc) as [[Hp' Hlt]|(r & -> & ->)].
  - destruct (IH (left c') ltac:(lia) c' (S k)) as (k' & Hk' & Hr); [done|done| | |].
    + rewrite Heq. simpl. apply lookup_app_l_Some, list_lookup_insert_eq. by eapply lookup_lt_Some.
    + destruct (lt_heap _ _ (execution_later k (S k) ltac:(lia)) _ _ Hxk) as (x' & Hx' & _). by exists x'.
    + exists k'. split; [lia|done].
  - exists (S k). split; [lia|]. unfold is_ready_at. rewrite Heq. simpl.
    destruct (ready xk) eqn:Hr.
    + pose proof (execution_reachable k) as Hreach. apply reachable_good in Hreach as (pcs & _).
      exists xk. split; [|done]. unfold close_ready. by rewrite Hxk, Hr.
    + exists (with_ready xk). split; [by apply ready_after_close|done].
Qed.

(** The session a goroutine waits for. *)
Definition waiting (g : goroutine) : option loc :=
  match g with
  | Do a _ => match a with Select p _ => Some p | _ => None end
  | Ret _ => None
  end.

Lemma waiting_pc c p : waiting (prog_of m c) = Some p -> exists ctx id k, c = PSelect ctx id p k.
Proof.
  destruct c; try destruct k; try destruct r; intros H; first [discriminate H|injection H as <-; eauto].
Qed.

(** It becomes ready. *)
Lemma waited_resolves n i p g :
  pool (σ n) !! i = Some g -> waiting g = Some p -> exists k', (n <= k')%nat /\ is_ready_at (σ k') p.
Proof.
  intros Hi Hw. destruct (reachable_good m _ (execution_reachable n)) as (pcs & Hp & HI & _).
  destruct (pool_pc m _ _ _ _ Hp Hi) as (c & Hc & <-).
  apply waiting_pc in Hw as (ctx & id & k & ->).
  pose proof (Forall_lookup_1 _ _ _ _ (inv_pcs _ _ HI) Hc) as [_ (x & Hx & _)].
  destruct (ready x) eqn:Hr.
  - exists n. split; [done|]. by exists x.
  - assert (unready (sst (σ n)) p) as Hu by (by exists x).
    apply (inv_resolver _ _ HI), list_elem_of_omap in Hu as (cj & [j Hj]%list_elem_of_lookup & Hres).
    apply (resolver_resolves (left cj) cj n j p); [done|done| |by exists x].
    rewrite Hp. change (map (prog_of m) pcs) with (prog_of m <$> pcs). by rewrite list_lookup_fmap, Hj.
Qed.

(** ** Every goroutine finishes *)

Lemma goroutine_finishes (g : goroutine) n i :
  pool (σ n) !! i = Some g -> exists k o, (n <= k)%nat /\ pool (σ k) !! i = Some (Ret o).
Proof.
  revert n. induction g as [o|X a k IH]; intros n Hi; [by exists n, o|].
  assert ((exists n', (n <= n')%nat /\ pool (σ n') !! i = Some (Do a k) /\ moves i (σ n') (σ (S n'))) ->
    exists k' o, (n <= k')%nat /\ pool (σ k') !! i = Some (Ret o)) as Hmove.
  { intros (n' & Hn' & Hi' & Hm). destruct (moves_to _ _ _ _ _ Hi' Hm) as [x Hx].
    destruct (IH x _ Hx) as (k' & o & Hk' & Ho). exists k', o. split; [lia|done]. }
  apply Hmove. clear Hmove IH. destruct a as [X f|p ctx|ctx id|ctx id|ctx].
  1,3-5: apply eventually_moves; [done|]; intros k' _ _.
  - destruct (f (sst (σ k'))) as [[x sp] st'] eqn:Hf. by exists sp, (k x), st', x.
  - exists [], (k (Ok Endpoint_zero)), (log_call (BEnsure id (Ok Endpoint_zero)) (sst (σ k'))), (Ok Endpoint_zero). done.
  - exists [], (k None), (log_call (BDelete id None) (sst (σ k'))), None. done.
  - exists [], (k (Ok [])), (sst (σ k')), (Ok []). done.
  - destruct (waited_resolves _ _ p _ Hi eq_refl) as (n' & Hn' & Hr).
    destruct (until n n' i _ Hn' Hi) as [Hi'|(k' & ? & ? & ?)]; [|exists k'; split; [lia|done]].
    destruct (eventually_moves n' i _ Hi') as (k' & ? & ? & ?); [|exists k'; split; [lia|done]].
    intros k' Hk' _. destruct (ready_later _ _ _ Hk' Hr) as (x & Hx & Hrx).
    exists [], (k SelReady), (sst (σ k')), SelReady. split; [|done]. split; [done|]. split; [done|]. by exists x.
Qed.

Lemma session_resolves n p x :
  heap (sst (σ n)) !! p = Some x -> exists k, (n <= k)%nat /\ is_ready_at (σ k) p.
Proof.
  intros Hx. destruct (ready x) eqn:Hr; [exists n; split; [done|]; by exists x|].
  destruct (reachable_good m _ (execution_reachable n)) as (pcs & Hp & HI & _).
  assert (unready (sst (σ n)) p) as Hu by (by exists x).
  apply (inv_resolver _ _ HI), list_elem_of_omap in Hu as (cj & [j Hj]%list_elem_of_lookup & Hres).
  apply (resolver_resolves (left cj) cj n j p); [done|done| |by exists x].
  rewrite Hp. change (map (prog_of m) pcs) with (prog_of m <$> pcs). by rewrite list_lookup_fmap, Hj.
Qed.
End fair.

(** C4. In every fair run, whatever the backend answers and the contexts do and however the other
    goroutines are scheduled, every goroutine finishes: each Get and Refresh returns to
    its caller, each scan and Reconcile ends; and every session gets resolved. *)
Theorem fair_runs_finish (m : Manager) (σ : nat -> system) :
  execution m σ -> fair m σ ->
  (forall n i g, pool (σ n) !! i = Some g ->
     exists k o, (n <= k)%nat /\ pool (σ k) !! i = Some (Ret o)) /\
  (forall n p x, heap (sst (σ n)) !! p = Some x ->
     exists k x', (n <= k)%nat /\ heap (sst (σ k)) !! p = Some x' /\ ready x' = true).
Proof.
  intros He Hf. split.
  - intros n i g Hi. by apply (goroutine_finishes m σ He Hf g).
  - intros n p x Hx. destruct (session_resolves m σ He Hf n p x Hx) as (k & Hk & x' & Hx' & Hr).
    by exists k, x'.
Qed.

(** ** A run that ends is fair *)

Lemma finished_run_fair m σ N :
  execution m σ -> (forall n, (N <= n)%nat -> σ n = σ N) ->
  (forall i g, pool (σ N) !! i = Some g -> finished g) -> fair m σ.
Proof.
  intros He Hend Hfin i n (g & Hi & Hg).
  assert (forall k, (N <= k)%nat -> pool (σ k) !! i <> Some g) as Hno.
  { intros k Hk Hik. rewrite (Hend k Hk) in Hik. apply Hfin in Hik as [o ->].
    by destruct Hg as (sp & g' & st' & []). }
  destruct (until m σ He n (n + N) i g ltac:(lia) Hi) as [Hik|(k & Hk & _ & Hm)].
  - by destruct (Hno (n + N)%nat ltac:(lia)).
  - exists k. split; [lia|by left].
Qed.

(** The states of a schedule, one after the other; the last one for ever. *)
Definition replay (m : Manager) (s : system) (cs : list choice) (n : nat) : system :=
  default s (run m s (take n cs)).

Lemma run_snoc m s cs c :
  run m s (cs ++ [c]) = match run m s cs with Some s' => step m s' c | None => None end.
Proof.
  revert s. induction cs as [|c' cs IH]; intros s; simpl; [by destruct (step m s c)|].
  destruct (step m s c'); [apply IH|done].
Qed.

Lemma run_take m s cs n : is_Some (run m s cs) -> is_Some (run m s (take n cs)).
Proof.
  revert s n. induction cs as [|c cs IH]; intros s [|n] H; simpl in *; try done.
  destruct (step m s c); [by apply IH|by destruct H].
Qed.

Lemma replay_execution m s cs :
  reachable m s -> is_Some (run m s cs) -> execution m (replay m s cs).
Proof.
  intros Hr Hrun. split; [done|]. intros n. unfold replay.
  destruct (cs !! n) as [c|] eqn:Hc.
  - right. rewrite (take_S_r _ _ _ Hc), run_snoc.
    destruct (run_take m s cs n Hrun) as [s1 H1]. rewrite H1. simpl.
    pose proof (run_take m s cs (S n) Hrun) as [s2 H2].
    rewrite (take_S_r _ _ _ Hc), run_snoc, H1 in H2. rewrite H2. by apply step_sound in H2.
  - left. apply lookup_ge_None in Hc. by rewrite !take_ge by lia.
Qed.

Definition is_finished (g : goroutine) : bool := match g with Ret _ => true | Do _ _ => false end.

Lemma replay_fair m s cs :
  reachable m s -> is_Some (run m s cs) ->
  forallb is_finished (pool (replay m s cs (length cs))) = true -> fair m (replay m s cs).
Proof.
  intros Hr Hrun Hfin. apply (finished_run_fair m _ (length cs)); [by apply replay_execution| |].
  - intros n Hn. unfold replay. by rewrite !take_ge by lia.
  - intros i g Hi. rewrite forallb_forall in Hfin.
    specialize (Hfin g (proj1 (list_elem_of_In _ _) (list_elem_of_lookup_2 _ _ _ Hi))).
    destruct g; [by eexists|done].
Qed.

(** The Get of [a] of the schedules above, with its resolver, along its fair run. *)
Lemma fair_runs_finish_witness :
  exists k o, pool (replay demo_manager (init 0 None) first_get k) !! 0%nat = Some (Ret o).
Proof.
  assert (reachable demo_manager (init 0 None)) as Hr by (exists 0, None; apply rtc_refl).
  assert (is_Some (run demo_manager (init 0 None) first_get)) as Hrun by (eexists; vm_compute; reflexivity).
  destruct (fair_runs_finish demo_manager (replay demo_manager (init 0 None) first_get)
    (replay_execution _ _ _ Hr Hrun) (replay_fair _ _ _ Hr Hrun ltac:(vm_compute; reflexivity)))
    as [Hfin _].
  assert (exists g, pool (replay demo_manager (init 0 None) first_get 1) !! 0%nat = Some g) as [g Hg]
    by (eexists; reflexivity).
  destruct (Hfin 1%nat 0%nat g Hg) as (k & o & _ & Ho). by exists k, o.
Defined.
