(* ===== verification/Identify.v ===== *)
(** * Pod IP to playwright-id ([internal/identify/identify.go])

    The index is shared by the informer's event handlers, the lookups of concurrent
    requests and the diagnostic timers.  An operation is a program over the index that
    lets the others run before each of its critical sections, API calls and sleeps:
    [env] says what they have made of the index by then, and [api] what the API server
    answers; every theorem is about all of them. *)

From S2P Require Import Prelude GoStd Metrics.
Local Open Scope Z_scope.

(** ** Data *)

Record Pod := mkPod {
  PodName : string;
  PodNamespace : string;
  Labels : gmap string string;
  PodIP : string; (* Status.PodIP *)
}.

(** What an informer hands to a handler. *)
Inductive obj :=
| OPod (p : Pod)
| OTombstone (o : obj)  (* cache.DeletedFinalStateUnknown *)
| OOther.

Definition diagnosticTTL : Z := 10 * minute.

Record ListOptions := mkListOptions { LabelSelector : string; FieldSelector : string }.

(** A pending [time.AfterFunc] of [claimDiagnostic]. *)
Record timer := mkTimer { due : Z; timerIP : string; expiresAt : Z }.

(** The fields of [Index] that change, the pending timers and the clock. *)
Record Index := mkIndex {
  byPodIP : gmap string string;
  ready : bool;
  diagnosedIPs : gmap string Z;
  timers : list timer;
  imx : option Metrics;
  clock : Z;
}.

(** The fields that do not. *)
Record config := mkConfig {
  labelKey : string;
  client : bool; (* client is not nil *)
  namespace : string;
}.

Definition set_byPodIP m i :=
  mkIndex m (ready i) (diagnosedIPs i) (timers i) (imx i) (clock i).
Definition set_ready i := mkIndex (byPodIP i) true (diagnosedIPs i) (timers i) (imx i) (clock i).
Definition set_diagnosed m i := mkIndex (byPodIP i) (ready i) m (timers i) (imx i) (clock i).
Definition set_timers l i := mkIndex (byPodIP i) (ready i) (diagnosedIPs i) l (imx i) (clock i).
Definition set_imx f i :=
  mkIndex (byPodIP i) (ready i) (diagnosedIPs i) (timers i) (f (imx i)) (clock i).
Definition pass d i :=
  mkIndex (byPodIP i) (ready i) (diagnosedIPs i) (timers i) (imx i) (clock i + d).

Definition New (now : Z) (m : option Metrics) : Index :=
  mkIndex ∅ false ∅ [] (RegisterRegisteredPods m) now.

Definition registeredCount (i : Index) : nat := size (byPodIP i).

Definition Ready (i : Index) : bool := ready i.

Definition label (c : config) (p : Pod) : string := default EmptyString (Labels p !! labelKey c).

(** ** Event handlers *)

Definition upsertFromObj (c : config) (o : obj) (i : Index) : Index :=
  match o with
  | OPod p =>
      if decide (label c p = EmptyString) then i
      else if decide (PodIP p = EmptyString) then i
      else set_byPodIP (<[PodIP p := label c p]> (byPodIP i)) i
  | _ => i
  end.

Definition deleteFromObj (o : obj) (i : Index) : Index :=
  let remove p :=
    if decide (PodIP p = EmptyString) then i
    else set_byPodIP (delete (PodIP p) (byPodIP i)) i in
  match o with
  | OPod p => remove p
  | OTombstone (OPod p) => remove p
  | _ => i
  end.

(** The handlers [Run] registers. *)
Inductive event :=
| EAdd (o : obj)
| EUpdate (old new : obj)
| EDelete (o : obj).

Definition handle (c : config) (i : Index) (e : event) : Index :=
  match e with
  | EAdd o => upsertFromObj c o i
  | EUpdate _ o => upsertFromObj c o i
  | EDelete o => deleteFromObj o i
  end.

(** ** Diagnostics *)

(** The critical section of [claimDiagnostic], at its [now]. *)
Definition claim_crit (ip : string) (now : Z) (i : Index) : bool * Index :=
  match diagnosedIPs i !! ip with
  | Some existing =>
      if now <? existing then (false, i)
      else (true, set_diagnosed (<[ip := now + diagnosticTTL]> (diagnosedIPs i)) i)
  | None => (true, set_diagnosed (<[ip := now + diagnosticTTL]> (diagnosedIPs i)) i)
  end.

(** [time.AfterFunc(diagnosticTTL, ...)] *)
Definition after_func (ip : string) (expires : Z) (i : Index) : Index :=
  set_timers (timers i ++ [mkTimer (clock i + diagnosticTTL) ip expires]) i.

(** The function it runs. *)
Definition timer_fires (t : timer) (i : Index) : Index :=
  if decide (diagnosedIPs i !! timerIP t = Some (expiresAt t))
  then set_diagnosed (delete (timerIP t) (diagnosedIPs i)) i
  else i.

Definition release_crit (ip : string) (i : Index) : Index :=
  set_diagnosed (delete ip (diagnosedIPs i)) i.

(** ** Lookups *)

Section lookup.
Context (c : config).
Context (env : nat -> Index -> Index).
Context (api : nat -> ListOptions -> Ctx -> Index -> result error (list Pod)).

(** The index, how often the others have run and the List calls made. *)
Record world := mkWorld { idx : Index; turn : nat; lists : nat }.

(** A critical section, or an access to the index that takes no lock. *)
Definition crit {A} (f : Index -> A * Index) : IO world A := fun w =>
  let '(a, i) := f (env (turn w) (idx w)) in (a, mkWorld i (S (turn w)) (lists w)).

Definition count (f : option Metrics -> option Metrics) : IO world unit :=
  crit (fun i => (tt, set_imx f i)).

Definition time_Now : IO world Z := crit (fun i => (clock i, i)).
Definition Sleep (d : Z) : IO world unit := crit (fun i => (tt, pass d i)).

Definition List (opts : ListOptions) (ctx : Ctx) : IO world (result error (list Pod)) := fun w =>
  let i := env (turn w) (idx w) in
  (api (lists w) opts ctx i, mkWorld i (S (turn w)) (S (lists w))).

Definition lookupCache (ip : string) : IO world (option string) :=
  crit (fun i => (byPodIP i !! ip, i)).

Definition claimDiagnostic (ip : string) : IO world bool :=
  let* now := time_Now in
  let* claimed := crit (claim_crit ip now) in
  if claimed
  then crit (fun i => (true, after_func ip (now + diagnosticTTL) i))
  else io_ret false.

Definition releaseDiagnostic (ip : string) : IO world unit :=
  crit (fun i => (tt, release_crit ip i)).

Definition by_ip (ip : string) : string := "status.podIP=" +:+ ip.

Definition lookupViaAPI (ip : string) : IO world (option string) :=
  let* now := time_Now in
  let ctx := WithTimeout Background now (2 * second) in
  let* pods := List (mkListOptions (labelKey c) (by_ip ip)) ctx in
  match pods with
  | Err _ => io_ret None
  | Ok (pod :: _) =>
      if decide (label c pod = EmptyString)
      then claimDiagnostic ip ;; io_ret None
      else io_ret (Some (label c pod))
  | Ok [] =>
      let* claimed := claimDiagnostic ip in
      if claimed then
        let* allPods := List (mkListOptions EmptyString (by_ip ip)) ctx in
        match allPods with
        | Err _ => releaseDiagnostic ip ;; io_ret None
        | Ok _ => io_ret None
        end
      else io_ret None
  end.

(** The [n] polls left of the loop of [Lookup]. *)
Fixpoint poll (n : nat) (ip : string) : IO world (option string) :=
  match n with
  | O => count (Metrics.Lookup LookupMiss) ;; io_ret None
  | S n =>
      let* cached := lookupCache ip in
      match cached with
      | Some id => count (Metrics.Lookup LookupCacheHit) ;; io_ret (Some id)
      | None =>
          let* found := lookupViaAPI ip in
          match found with
          | Some id =>
              crit (fun i => (tt, set_byPodIP (<[ip := id]> (byPodIP i)) i)) ;;
              count (Metrics.Lookup LookupAPIFallback) ;; io_ret (Some id)
          | None => Sleep (100 * millisecond) ;; poll n ip
          end
      end
  end.

Definition Lookup (ip : string) : IO world (option string) :=
  let* cached := lookupCache ip in
  match cached with
  | Some id => count (Metrics.Lookup LookupCacheHit) ;; io_ret (Some id)
  | None =>
      if negb (client c) || bool_decide (namespace c = EmptyString)
      then count (Metrics.Lookup LookupMiss) ;; io_ret None
      else poll 100 ip
  end.

(** [Run], over what the informer library answers: the error of [AddEventHandler] and
    whether the cache synced before [ctx] was done. *)
Definition Run (registered : option error) (synced : bool) : IO world (option error) :=
  match registered with
  | Some e => io_ret (Some (Errorf_w "add event handler: %w" [] e))
  | None =>
      if synced
      then crit (fun i => (tt, set_ready i)) ;; io_ret None
      else io_ret (Some (Errorf "pod cache sync failed" []))
  end.
End lookup.
Arguments mkWorld idx turn lists.
