(* ===== verification/IdentifyFacts.v ===== *)
(** * What the pod index guarantees

    The index follows the pods of an address as long as no two of them have it at once and
    none of them gives it up, or its id, before it leaves the watch; lookups under
    interference return ids some pod of that address carried, take as long as their
    polling loop says, and diagnose an address at most once per period. *)

From S2P Require Import Prelude GoStd Metrics Identify.
Local Open Scope Z_scope.

(** ** The index and the pods of the cluster *)

Section tracking.
Context (c : config).

(** The labelled pods of the namespace, by name. *)
Notation cluster := (gmap string Pod).

(** A change of the cluster and the notification the informer makes of it.  An update may
    change anything: the address, the label's value.  (A pod that loses the label's key
    leaves the watch, which is a deletion.) *)
Inductive change : cluster -> event -> cluster -> Prop :=
| ch_add pods name p :
    pods !! name = None -> change pods (EAdd (OPod p)) (<[name := p]> pods)
| ch_update pods name old p :
    pods !! name = Some old ->
    change pods (EUpdate (OPod old) (OPod p)) (<[name := p]> pods)
| ch_delete pods name p :
    pods !! name = Some p -> change pods (EDelete (OPod p)) (delete name pods)
| ch_lost pods name p :
    pods !! name = Some p -> change pods (EDelete (OTombstone (OPod p))) (delete name pods).

(** No pod has the address [ip]. *)
Definition free (ip : string) (pods : cluster) : Prop :=
  forall name p, pods !! name = Some p -> PodIP p <> ip.

(** What the code relies on, of an address [ip]: a pod takes it when nobody has it, and once
    the pod has it with an id, it keeps the address and some id for as long as it is
    watched. *)
Definition orderly (ip : string) (pods : cluster) (e : event) : Prop :=
  match e with
  | EAdd (OPod p) => PodIP p = ip -> free ip pods
  | EUpdate (OPod old) (OPod p) =>
      (PodIP p = ip -> PodIP old <> ip -> free ip pods) /\
      (PodIP old = ip -> label c old <> EmptyString -> PodIP p = ip /\ label c p <> EmptyString)
  | _ => True
  end.

(** Changes that are orderly for [ip], whatever they do to pods of other addresses. *)
Inductive changes (ip : string) : cluster -> list event -> cluster -> Prop :=
| chs_nil pods : changes ip pods [] pods
| chs_cons pods1 e pods2 es pods3 :
    change pods1 e pods2 -> orderly ip pods1 e -> changes ip pods2 es pods3 ->
    changes ip pods1 (e :: es) pods3.

Definition resolves (pods : cluster) (ip id : string) : Prop :=
  ip <> EmptyString /\ id <> EmptyString /\
  exists name p, pods !! name = Some p /\ PodIP p = ip /\ label c p = id.

(** What the index promises to hold for [ip]. *)
Definition tracks (ip : string) (pods : cluster) (i : Index) : Prop :=
  forall id, byPodIP i !! ip = Some id <-> resolves pods ip id.

(** At most one pod has the address [ip]. *)
Definition single (ip : string) (pods : cluster) : Prop :=
  forall n1 n2 p1 p2, pods !! n1 = Some p1 -> pods !! n2 = Some p2 ->
    PodIP p1 = ip -> PodIP p2 = ip -> n1 = n2.

(** *** What a notification says of one address *)

Definition told (ip : string) (o : obj) (entry : option string) : option string :=
  match o with
  | OPod p =>
      if decide (PodIP p = ip /\ label c p <> EmptyString) then Some (label c p) else entry
  | _ => entry
  end.
Definition tell (ip : string) (entry : option string) (e : event) : option string :=
  match e with
  | EAdd o | EUpdate _ o => told ip o entry
  | EDelete (OPod p) | EDelete (OTombstone (OPod p)) => if decide (PodIP p = ip) then None else entry
  | EDelete _ => entry
  end.

Lemma upsert_told ip o i :
  ip <> EmptyString -> byPodIP (upsertFromObj c o i) !! ip = told ip o (byPodIP i !! ip).
Proof.
  intros Hne. destruct o as [p| |]; [|done..]. simpl.
  destruct (decide (label c p = EmptyString)); [by rewrite decide_False by tauto|].
  destruct (decide (PodIP p = EmptyString)); [rewrite decide_False by (intros [? _]; congruence); done|].
  simpl. case_decide as H.
  - destruct H as [<- _]. apply lookup_insert_eq.
  - apply lookup_insert_ne. tauto.
Qed.

(** A handler's effect on the entry of [ip] is a function of that entry and the event. *)
Lemma handle_tell ip e i :
  ip <> EmptyString -> byPodIP (handle c i e) !! ip = tell ip (byPodIP i !! ip) e.
Proof.
  intros Hne. destruct e as [o|old o|o]; simpl; [by apply upsert_told..|].
  assert (forall p, byPodIP (if decide (PodIP p = EmptyString) then i
    else set_byPodIP (delete (PodIP p) (byPodIP i)) i) !! ip =
    if decide (PodIP p = ip) then None else byPodIP i !! ip) as Hdel.
  { intros p. case_decide as Hemp; [rewrite decide_False by congruence; done|]. simpl.
    case_decide as Hip; [rewrite Hip; apply lookup_delete_eq|by apply lookup_delete_ne]. }
  destruct o as [p|[p| |]|]; [apply Hdel|apply Hdel|done..].
Qed.

(** *** One change *)

(** Pods of other addresses do not matter. *)
Lemma resolves_insert pods name p ip id :
  (forall old, pods !! name = Some old -> PodIP old <> ip \/ label c old = EmptyString) ->
  PodIP p <> ip \/ label c p = EmptyString ->
  resolves (<[name := p]> pods) ip id <-> resolves pods ip id.
Proof.
  intros Hold Hne. unfold resolves. split; intros (? & ? & n & q & Hq & Hip & Hid);
    (split; [done|]; split; [done|]); exists n, q.
  - destruct (decide (n = name)) as [->|]; [rewrite lookup_insert_eq in Hq; destruct Hne; congruence|].
    by rewrite lookup_insert_ne in Hq.
  - destruct (decide (n = name)) as [->|]; [destruct (Hold _ Hq); congruence|].
    by rewrite lookup_insert_ne.
Qed.

Lemma single_insert ip pods name p :
  single ip pods ->
  (PodIP p = ip -> forall n q, pods !! n = Some q -> PodIP q = ip -> n = name) ->
  single ip (<[name := p]> pods).
Proof.
  intros Hd Ha n1 n2 p1 p2.
  destruct (decide (n1 = name)) as [->|H1], (decide (n2 = name)) as [->|H2];
    rewrite ?lookup_insert_eq, ?lookup_insert_ne by done; intros; simplify_eq; eauto.
  symmetry. eauto.
Qed.

(** A pod told with the address it alone has now. *)
Lemma upsert_tracks ip pods name p i :
  ip <> EmptyString -> tracks ip pods i -> single ip (<[name := p]> pods) ->
  (forall old, pods !! name = Some old -> PodIP old = ip -> label c old <> EmptyString ->
     PodIP p = ip /\ label c p <> EmptyString) ->
  forall id, told ip (OPod p) (byPodIP i !! ip) = Some id <-> resolves (<[name := p]> pods) ip id.
Proof.
  intros Hne Ht Hs Hold id. simpl. case_decide as Hp.
  - destruct Hp as [Hip Hl]. unfold resolves. split.
    + intros [= <-]. split; [done|]. split; [done|]. exists name, p. by rewrite lookup_insert_eq.
    + intros (_ & _ & n & q & Hq & Hqip & <-).
      assert (n = name) as -> by (eapply (Hs n name q p); [done|by rewrite lookup_insert_eq|done..]).
      rewrite lookup_insert_eq in Hq. by simplify_eq.
  - assert (PodIP p <> ip \/ label c p = EmptyString) as Hp'.
    { destruct (decide (label c p = EmptyString)); [by right|left; tauto]. }
    rewrite (Ht id). symmetry. apply resolves_insert; [|done]. intros old Ho.
    destruct (decide (PodIP old = ip)) as [Hoip|]; [right|by left].
    destruct (decide (label c old = EmptyString)) as [|Hl]; [done|]. destruct (Hold _ Ho Hoip Hl). tauto.
Qed.

Lemma delete_tracks ip pods name p i :
  ip <> EmptyString -> tracks ip pods i -> single ip pods -> pods !! name = Some p ->
  forall id, (if decide (PodIP p = ip) then None else byPodIP i !! ip) = Some id <->
    resolves (delete name pods) ip id.
Proof.
  intros Hne Ht Hs Hp id. case_decide as Hip.
  - split; [done|]. intros (_ & _ & n & q & Hq & Hqip & _). apply lookup_delete_Some in Hq as [Hn Hq].
    destruct Hn. by eapply (Hs name n p q).
  - rewrite (Ht id). unfold resolves. split; intros (? & ? & n & q & Hq & Hqip & Hid);
      (split; [done|]; split; [done|]); exists n, q.
    + rewrite lookup_delete_ne; [done|]. intros <-. congruence.
    + by apply lookup_delete_Some in Hq as [_ ?].
Qed.

Lemma change_tracks ip pods e pods' i :
  ip <> EmptyString -> change pods e pods' -> orderly ip pods e -> single ip pods -> tracks ip pods i ->
  single ip pods' /\ tracks ip pods' (handle c i e).
Proof.
  intros Hne Hc Ho Hs Ht. unfold tracks. setoid_rewrite (handle_tell ip e i Hne).
  destruct Hc as [pods name p Hn|pods name old p Hold|pods name p Hp|pods name p Hp]; simpl in Ho.
  - assert (single ip (<[name := p]> pods)) as Hs'.
    { apply single_insert; [done|]. intros Hip n q Hq Hqip. by destruct (Ho Hip n q Hq). }
    split; [done|]. apply upsert_tracks; [done..|]. intros old Hold. congruence.
  - destruct Ho as [Ho1 Ho2].
    assert (single ip (<[name := p]> pods)) as Hs'.
    { apply single_insert; [done|]. intros Hip n q Hq Hqip.
      destruct (decide (PodIP old = ip)); [by eapply (Hs n name q old)|].
      by destruct (Ho1 Hip ltac:(done) n q Hq). }
    split; [done|]. apply upsert_tracks; [done..|]. intros old' Hold'. simplify_eq. done.
  - split; [|by apply delete_tracks]. intros n1 n2 p1 p2 [_ H1]%lookup_delete_Some [_ H2]%lookup_delete_Some.
    by apply (Hs n1 n2 p1 p2).
  - split; [|by apply delete_tracks]. intros n1 n2 p1 p2 [_ H1]%lookup_delete_Some [_ H2]%lookup_delete_Some.
    by apply (Hs n1 n2 p1 p2).
Qed.

Lemma changes_track ip pods pods' es i :
  ip <> EmptyString -> changes ip pods es pods' -> single ip pods -> tracks ip pods i ->
  single ip pods' /\ tracks ip pods' (fold_left (handle c) es i).
Proof.
  intros Hne Hc. revert i. induction Hc as [|pods1 e pods2 es pods3 He Ho _ IH]; intros i Hd Ht; [done|].
  destruct (change_tracks _ _ _ _ _ Hne He Ho Hd Ht) as [Hd' Ht']. by apply IH.
Qed.

(** C20. The index refines its specification, address by address: fed the notifications of any
    changes of the cluster in which an address is never taken while another pod has it,
    and a pod that has it with an id keeps the address and a non-empty id until it leaves
    the watch, the index maps that address exactly when a present pod has it with an id,
    and to that id -- whatever happens to pods of other addresses. *)
Theorem index_tracks_pods (ip : string) (pods pods' : cluster) (es : list event) (i : Index) :
  ip <> EmptyString -> changes ip pods es pods' -> single ip pods -> tracks ip pods i ->
  forall id, byPodIP (fold_left (handle c) es i) !! ip = Some id <-> resolves pods' ip id.
Proof. intros Hne Hc Hs Ht. exact (proj2 (changes_track ip pods pods' es i Hne Hc Hs Ht)). Qed.

Lemma tracks_new ip t m : tracks ip ∅ (New t m).
Proof.
  intros id. simpl. rewrite lookup_empty. split; [done|].
  by intros (_ & _ & n & q & Hq & _).
Qed.

Lemma single_empty ip : single ip ∅.
Proof. intros n1 n2 p1 p2 H. by rewrite lookup_empty in H. Qed.

(** Outside that scope the index is wrong.  A pod whose label is emptied keeps its old id, and
    one that changes its address leaves the old one behind: an update only ever adds. *)
Theorem update_leaves_entry (old new : Pod) (i : Index) :
  PodIP old <> EmptyString -> label c old <> EmptyString ->
  PodIP new <> PodIP old \/ label c new = EmptyString ->
  byPodIP (fold_left (handle c) [EAdd (OPod old); EUpdate (OPod old) (OPod new)] i) !! PodIP old =
    Some (label c old).
Proof.
  intros Hne Hl Hnew. cbn [fold_left]. rewrite !handle_tell by done. simpl.
  rewrite (decide_True (P := PodIP old = PodIP old /\ _)) by done.
  rewrite decide_False; [done|]. destruct Hnew; tauto.
Qed.

(** When a finished pod's address has been given to a new pod, a notification about the
    old pod takes the address away from the new one: its deletion leaves the new pod
    unresolved, its update sends the new pod's traffic to the old id. *)
Theorem reused_address_misresolved (a b : Pod) (i : Index) :
  PodIP a = PodIP b -> PodIP b <> EmptyString ->
  label c a <> EmptyString -> label c b <> EmptyString ->
  let i' := fold_left (handle c) [EAdd (OPod a); EAdd (OPod b)] i in
  byPodIP i' !! PodIP b = Some (label c b) /\
  byPodIP (handle c i' (EDelete (OPod a))) !! PodIP b = None /\
  byPodIP (handle c i' (EUpdate (OPod a) (OPod a))) !! PodIP b = Some (label c a).
Proof.
  intros Hip Hne Ha Hb. simpl. rewrite Hip.
  repeat (rewrite decide_False by done; simpl).
  by rewrite lookup_delete_eq, !lookup_insert_eq.
Qed.
End tracking.

(** A pod [w-1] is added, gets its address and is relabelled while [w-2] comes and goes. *)
Definition demo_pod (name ip id : string) : Pod :=
  mkPod name "default" (<["playwright-id" := id]> ∅) ip.
Definition demo_config : config := mkConfig "playwright-id" true "default".
Definition demo_events : list event :=
  [EAdd (OPod (demo_pod "w-1" "" "a"));
   EUpdate (OPod (demo_pod "w-1" "" "a")) (OPod (demo_pod "w-1" "10.0.0.1" "a"));
   EAdd (OPod (demo_pod "w-2" "10.0.0.2" "b"));
   EDelete (OTombstone (OPod (demo_pod "w-2" "10.0.0.2" "b")))].

Lemma demo_changes :
  exists pods, changes demo_config "10.0.0.1" ∅ demo_events pods /\
    pods !! "w-1" = Some (demo_pod "w-1" "10.0.0.1" "a").
Proof.
  eexists. split.
  - eapply chs_cons; [apply (ch_add _ "w-1"); done|done|].
    eapply chs_cons; [apply (ch_update _ "w-1" (demo_pod "w-1" "" "a")); done| |].
    { split; [|done]. intros _ _ n p [[<- <-]|[_ Hp]]%lookup_insert_Some; [done|].
      by rewrite lookup_empty in Hp. }
    eapply chs_cons; [apply (ch_add _ "w-2"); done|done|].
    eapply chs_cons; [apply (ch_lost _ "w-2"); done|done|apply chs_nil].
  - done.
Qed.

Lemma index_tracks_pods_witness :
  byPodIP (fold_left (handle demo_config) demo_events (New 0 None)) !! "10.0.0.1" = Some "a".
Proof.
  destruct demo_changes as (pods & Hc & Hp).
  apply (index_tracks_pods demo_config "10.0.0.1" ∅ pods demo_events (New 0 None)).
  - discriminate.
  - exact Hc.
  - apply single_empty.
  - apply tracks_new.
  - split; [done|]. split; [done|]. exists "w-1". eexists. split; [exact Hp|]. done.
Defined.

Lemma update_leaves_entry_witness :
  byPodIP (fold_left (handle demo_config)
    [EAdd (OPod (demo_pod "w-1" "10.0.0.1" "a"));
     EUpdate (OPod (demo_pod "w-1" "10.0.0.1" "a")) (OPod (demo_pod "w-1" "10.0.0.1" ""))]
    (New 0 None)) !! "10.0.0.1" = Some "a".
Proof.
  exact (update_leaves_entry demo_config (demo_pod "w-1" "10.0.0.1" "a") (demo_pod "w-1" "10.0.0.1" "")
    (New 0 None) ltac:(discriminate) ltac:(discriminate) (or_intror eq_refl)).
Defined.

Lemma reused_address_misresolved_witness :
  byPodIP (handle demo_config (fold_left (handle demo_config)
    [EAdd (OPod (demo_pod "w-1" "10.0.0.1" "a")); EAdd (OPod (demo_pod "w-2" "10.0.0.1" "b"))]
    (New 0 None)) (EUpdate (OPod (demo_pod "w-1" "10.0.0.1" "a"))
      (OPod (demo_pod "w-1" "10.0.0.1" "a")))) !! "10.0.0.1" = Some "a".
Proof.
  destruct (reused_address_misresolved demo_config (demo_pod "w-1" "10.0.0.1" "a")
    (demo_pod "w-2" "10.0.0.1" "b") (New 0 None)) as (_ & _ & H); [done..|].
  exact H.
Defined.

(** ** Interference *)

Section interference.
Context (c : config).
(** The pods there are, or have been, in the namespace. *)
Context (real : Pod -> Prop).
(** The addresses whose diagnostic may be released, its second List having failed. *)
Context (releasable : string -> Prop).

Definition event_pod (e : event) : option Pod :=
  match e with
  | EAdd (OPod p) | EUpdate _ (OPod p) => Some p
  | _ => None
  end.

(** What other goroutines do to the index: handlers, critical sections of other lookups,
    timers that are due. *)
Inductive istep : Index -> Index -> Prop :=
| i_event e i : (forall p, event_pod e = Some p -> real p) -> istep i (handle c i e)
| i_learn p i :
    real p -> label c p <> EmptyString ->
    istep i (set_byPodIP (<[PodIP p := label c p]> (byPodIP i)) i)
| i_claim ip now i : now <= clock i -> istep i (claim_crit ip now i).2
| i_after ip exp i : exp <= clock i + diagnosticTTL -> istep i (after_func ip exp i)
| i_fire t l1 l2 i :
    timers i = l1 ++ t :: l2 -> due t <= clock i ->
    istep i (timer_fires t (set_timers (l1 ++ l2) i))
| i_release ip i : releasable ip -> istep i (release_crit ip i)
| i_ready i : istep i (set_ready i)
| i_count f i : istep i (set_imx f i)
| i_pass d i : 0 <= d -> istep i (pass d i).

(** Every entry of the index is the non-empty label of a pod of that address. *)
Definition sound (i : Index) : Prop :=
  forall ip id, byPodIP i !! ip = Some id ->
    id <> EmptyString /\ exists p, real p /\ PodIP p = ip /\ label c p = id.

Lemma sound_insert p i :
  sound i -> real p -> label c p <> EmptyString ->
  sound (set_byPodIP (<[PodIP p := label c p]> (byPodIP i)) i).
Proof.
  intros Hs Hp Hl ip id H. simpl in H. apply lookup_insert_Some in H as [[<- <-]|[_ H]]; [|by apply Hs].
  split; [done|]. by exists p.
Qed.

Lemma claim_crit_byPodIP ip t i : byPodIP (claim_crit ip t i).2 = byPodIP i.
Proof. unfold claim_crit. by repeat case_match. Qed.
Lemma claim_crit_clock ip t i : clock (claim_crit ip t i).2 = clock i.
Proof. unfold claim_crit. by repeat case_match. Qed.
Lemma timer_fires_byPodIP t i : byPodIP (timer_fires t i) = byPodIP i.
Proof. unfold timer_fires. by case_decide. Qed.

Lemma sound_ext i i' : byPodIP i' = byPodIP i -> sound i -> sound i'.
Proof. unfold sound. by intros ->. Qed.

Lemma sound_delete ip i : sound i -> sound (set_byPodIP (delete ip (byPodIP i)) i).
Proof. intros Hs ip' id H. simpl in H. apply lookup_delete_Some in H as [_ H]. by apply Hs. Qed.

Lemma sound_handle e i :
  sound i -> (forall p, event_pod e = Some p -> real p) -> sound (handle c i e).
Proof.
  intros Hs Hr.
  assert (forall o, (forall p, o = OPod p -> real p) -> sound (upsertFromObj c o i)) as Hup.
  { intros [p| |] Ho; simpl; [|done..]. case_decide; [done|]. case_decide; [done|].
    apply sound_insert; auto. }
  destruct e as [o|old o|o]; simpl.
  - apply Hup. intros p ->. auto.
  - apply Hup. intros p ->. auto.
  - destruct o as [p|[p| |]|]; simpl; try done; case_decide; try done; by apply sound_delete.
Qed.

Lemma sound_istep i i' : istep i i' -> sound i -> sound i'.
Proof.
  intros Hi Hs. destruct Hi; try done.
  - by apply sound_handle.
  - by apply sound_insert.
  - apply (sound_ext i); [apply claim_crit_byPodIP|done].
  - by apply (sound_ext (set_timers (l1 ++ l2) i)); [apply timer_fires_byPodIP|].
Qed.

Lemma clock_istep i i' : istep i i' -> clock i <= clock i'.
Proof.
  assert (forall o, clock (upsertFromObj c o i) = clock i) as Hup.
  { intros [p| |]; simpl; try done. by repeat case_decide. }
  destruct 1; simpl; try lia.
  - destruct e as [o|old o|o]; simpl; rewrite ?Hup; try lia.
    destruct o as [p|[p| |]|]; simpl; try lia; case_decide; simpl; lia.
  - rewrite claim_crit_clock. lia.
  - unfold timer_fires. case_decide; simpl; lia.
Qed.

Lemma rtc_sound i i' : rtc istep i i' -> sound i -> sound i'.
Proof. induction 1; [done|]. eauto using sound_istep. Qed.
Lemma rtc_clock i i' : rtc istep i i' -> clock i <= clock i'.
Proof. induction 1; [done|]. etrans; [by eapply clock_istep|done]. Qed.

(** *** Diagnostics *)

Definition timers_late (i : Index) : Prop := Forall (fun t => expiresAt t <= due t) (timers i).

Lemma handle_other e i :
  diagnosedIPs (handle c i e) = diagnosedIPs i /\ timers (handle c i e) = timers i.
Proof.
  assert (forall o, diagnosedIPs (upsertFromObj c o i) = diagnosedIPs i /\
                    timers (upsertFromObj c o i) = timers i) as Hup.
  { intros [p| |]; simpl; try done. by repeat case_decide. }
  destruct e as [o|old o|o]; simpl; try apply Hup.
  destruct o as [p|[p| |]|]; simpl; try done; by case_decide.
Qed.

Lemma claim_crit_timers ip t i : timers (claim_crit ip t i).2 = timers i.
Proof. unfold claim_crit. by repeat case_match. Qed.

Lemma timers_late_istep i i' : istep i i' -> timers_late i -> timers_late i'.
Proof.
  unfold timers_late. intros Hi Ht. destruct Hi; try done.
  - by rewrite (proj2 (handle_other e i)).
  - by rewrite claim_crit_timers.
  - simpl. apply Forall_app. split; [done|]. apply Forall_singleton. simpl. lia.
  - rewrite H, Forall_app, Forall_cons in Ht.
    assert (timers (timer_fires t (set_timers (l1 ++ l2) i)) = l1 ++ l2) as ->
      by (unfold timer_fires; by case_decide).
    apply Forall_app. tauto.
Qed.

(** An unexpired claim survives a step. *)
Lemma claimed_istep ip exp i i' :
  istep i i' -> ~ releasable ip -> timers_late i -> clock i' < exp ->
  diagnosedIPs i !! ip = Some exp -> diagnosedIPs i' !! ip = Some exp.
Proof.
  intros Hi Hrel Ht Hexp Hd. pose proof (clock_istep _ _ Hi) as Hclock. destruct Hi; try done.
  - by rewrite (proj1 (handle_other e i)).
  - unfold claim_crit. destruct (decide (ip0 = ip)) as [->|Hne].
    + rewrite Hd. destruct (Z.ltb_spec now exp); [done|]. lia.
    + repeat case_match; simpl; by rewrite ?lookup_insert_ne.
  - unfold timer_fires. case_decide as Heq; simpl; [|done].
    destruct (decide (timerIP t = ip)) as [<-|Hne]; [|by rewrite lookup_delete_ne].
    simpl in Heq. rewrite Heq in Hd. simplify_eq.
    unfold timers_late in Ht. rewrite H, Forall_app, Forall_cons in Ht.
    destruct Ht as (_ & Hlate & _).
    assert (clock i < expiresAt t); [|lia].
    revert Hexp. unfold timer_fires. case_decide; simpl; lia.
  - simpl. rewrite lookup_delete_ne; [done|]. intros ->. done.
Qed.

(** An address is diagnosed at most once per period: after a claim succeeds, every claim
    of that address fails until the period is over, whatever happens in between but a
    release of the address. *)
Theorem diagnosed_once (ip : string) (t : Z) (i i1 i2 : Index) :
  timers_late i -> claim_crit ip t i = (true, i1) -> ~ releasable ip ->
  rtc istep i1 i2 -> clock i2 < t + diagnosticTTL ->
  forall t', t' <= clock i2 -> claim_crit ip t' i2 = (false, i2).
Proof.
  intros Ht Hc Hrel Hrun Hlt t' Ht'.
  assert (diagnosedIPs i1 !! ip = Some (t + diagnosticTTL) /\ timers_late i1) as [Hd Hl].
  { revert Hc. unfold claim_crit. repeat case_match; intros; simplify_eq; simpl;
      by rewrite lookup_insert_eq. }
  clear Hc Ht. assert (diagnosedIPs i2 !! ip = Some (t + diagnosticTTL)) as Hd2.
  { induction Hrun as [|x y z Hxy Hyz IH]; [done|].
    pose proof (rtc_clock _ _ Hyz). apply IH; [done|done| |by eapply timers_late_istep].
    apply (claimed_istep _ _ x); [done..|lia|done]. }
  unfold claim_crit. rewrite Hd2. destruct (Z.ltb_spec t' (t + diagnosticTTL)); [done|lia].
Qed.

Context (env : nat -> Index -> Index).
Context (env_ok : forall n i, rtc istep i (env n i)).
Context (api : nat -> ListOptions -> Ctx -> Index -> result error (list Pod)).
(** A List with a field selector on the address returns pods of that address. *)
Context (api_selects : forall n key ip ctx i pods,
  api n (mkListOptions key (by_ip ip)) ctx i = Ok pods ->
  Forall (fun p => real p /\ PodIP p = ip) pods).

Definition good (w : world) : Prop := sound (idx w).

Lemma good_crit {A} (f : Index -> A * Index) (Q : A -> Prop) :
  (forall i, sound i -> sound (f i).2 /\ Q (f i).1) ->
  triple good (crit env f) (fun a w => good w /\ Q a).
Proof.
  intros Hf w Hw. unfold wp, crit, good in *.
  destruct (Hf (env (turn w) (idx w))) as [? ?]; [exact (rtc_sound _ _ (env_ok _ _) Hw)|].
  by destruct (f (env (turn w) (idx w))).
Qed.

(** The id [Lookup] returns, and those it stores. *)
Definition carried (ip : string) (o : option string) : Prop :=
  forall id, o = Some id -> id <> EmptyString /\ exists p, real p /\ PodIP p = ip /\ label c p = id.

Lemma good_list key ip ctx :
  triple good (List env api (mkListOptions key (by_ip ip)) ctx)
    (fun r w => good w /\ forall pods, r = Ok pods -> Forall (fun p => real p /\ PodIP p = ip) pods).
Proof.
  intros w Hw. unfold wp, List, good in *. simpl. split; [exact (rtc_sound _ _ (env_ok _ _) Hw)|].
  intros pods. apply api_selects.
Qed.

Lemma good_then {A B} (m : IO world A) (f : A -> IO world B) (Q : A -> Prop) R :
  triple good m (fun a w => good w /\ Q a) ->
  (forall a, Q a -> triple good (f a) R) -> triple good (io_bind m f) R.
Proof.
  intros Hm Hf. eapply triple_bind; [exact Hm|]. intros a w [Hw Hq]. by apply Hf.
Qed.

Lemma good_ret {A} (a : A) (Q : A -> Prop) : Q a -> triple good (io_ret a) (fun a w => good w /\ Q a).
Proof. intros Hq w Hw. by split. Qed.

Lemma good_claim ip : triple good (claimDiagnostic env ip) (fun _ w => good w /\ True).
Proof.
  eapply good_then; [by apply (good_crit _ (fun _ => True))|]. intros t _.
  eapply good_then; [apply (good_crit _ (fun _ => True))|].
  - intros i Hi. split; [|done]. apply (sound_ext i); [apply claim_crit_byPodIP|done].
  - intros [] _; [|by apply good_ret]. by apply (good_crit _ (fun _ => True)).
Qed.

Lemma good_count f : triple good (count env f) (fun _ w => good w /\ True).
Proof. by apply (good_crit _ (fun _ => True)). Qed.

Lemma good_lookupViaAPI ip :
  triple good (lookupViaAPI c env api ip) (fun o w => good w /\ carried ip o).
Proof.
  eapply good_then; [by apply (good_crit _ (fun _ => True))|]. intros t _.
  eapply good_then; [apply good_list|]. intros [[|pod pods]|e] Hp.
  - eapply good_then; [apply good_claim|]. intros [] _; [|by apply good_ret].
    eapply good_then; [apply good_list|]. intros [?|e] _; [by apply good_ret|].
    eapply good_then; [by apply (good_crit _ (fun _ => True))|]. intros _ _. by apply good_ret.
  - pose proof (Hp _ eq_refl) as [[Hr Hip] _]%Forall_cons. case_decide.
    + eapply good_then; [apply good_claim|]. intros _ _. by apply good_ret.
    + apply good_ret. intros id [= <-]. split; [done|]. by exists pod.
  - by apply good_ret.
Qed.

Lemma good_cache ip : triple good (lookupCache env ip) (fun o w => good w /\ carried ip o).
Proof.
  apply (good_crit _ (carried ip)). intros i Hi. split; [done|]. intros id Hid.
  by apply Hi.
Qed.

Lemma good_poll n ip : triple good (poll c env api n ip) (fun o w => good w /\ carried ip o).
Proof.
  induction n as [|n IH]; simpl.
  - eapply good_then; [apply good_count|]. intros _ _. by apply good_ret.
  - eapply good_then; [apply good_cache|]. intros [id|] Hc.
    { eapply good_then; [apply good_count|]. intros _ _. by apply good_ret. }
    eapply good_then; [apply good_lookupViaAPI|]. intros [id|] Hid.
    + destruct (Hid _ eq_refl) as (Hne & p & Hr & <- & <-).
      eapply good_then; [apply (good_crit _ (fun _ => True))|].
      { intros i Hi. split; [by apply sound_insert|done]. }
      intros _ _. eapply good_then; [apply good_count|]. intros _ _. by apply good_ret.
    + eapply good_then; [by apply (good_crit _ (fun _ => True))|]. intros _ _. apply IH.
Qed.

Lemma good_lookup ip : triple good (Lookup c env api ip) (fun o w => good w /\ carried ip o).
Proof.
  eapply good_then; [apply good_cache|]. intros [id'|] Hc.
  { eapply good_then; [apply good_count|]. intros _ _. by apply good_ret. }
  case_match; [|apply good_poll].
  eapply good_then; [apply good_count|]. intros _ _. by apply good_ret.
Qed.

(** C21. Whatever the informer, the timers and other lookups do to the index meanwhile, a
    lookup that resolves an address returns the non-empty label value of a pod that has
    or had that address, and leaves an index in which every entry is one. *)
Theorem lookup_sound (ip : string) (w w' : world) (id : string) :
  sound (idx w) -> Lookup c env api ip w = (Some id, w') ->
  id <> EmptyString /\ (exists p, real p /\ PodIP p = ip /\ label c p = id) /\ sound (idx w').
Proof.
  intros Hw Hl. destruct (wp_run _ _ _ _ _ (good_lookup ip w Hw) Hl) as [Hg Hc].
  destruct (Hc _ eq_refl). auto.
Qed.

(** *** Polls and time *)

(** From [w] to [w'] at least [d] passed and between [lo] and [hi] List calls were made. *)
Definition took (lo hi : nat) (d : Z) (w w' : world) : Prop :=
  clock (idx w) + d <= clock (idx w') /\ (lists w + lo <= lists w' <= lists w + hi)%nat.

(** A program whose runs take that much, whatever the world. *)
Definition takes {A} (lo hi : nat) (d : Z) (m : IO world A) : Prop :=
  forall w, took lo hi d w (m w).2.

Lemma takes_bind {A B} l1 h1 d1 l2 h2 d2 (m : IO world A) (f : A -> IO world B) :
  takes l1 h1 d1 m -> (forall a, takes l2 h2 d2 (f a)) ->
  takes (l1 + l2) (h1 + h2) (d1 + d2) (io_bind m f).
Proof.
  intros Hm Hf w. rewrite io_bind_run. specialize (Hm w). specialize (Hf (m w).1 (m w).2).
  unfold took in *. lia.
Qed.

Lemma takes_weaken {A} l h d l' h' d' (m : IO world A) :
  takes l h d m -> (l' <= l)%nat -> (h <= h')%nat -> d' <= d -> takes l' h' d' m.
Proof. intros Hm ? ? ? w. specialize (Hm w). unfold took in *. lia. Qed.

Lemma takes_crit {A} d (f : Index -> A * Index) :
  (forall i, clock i + d <= clock (f i).2) -> takes 0 0 d (crit env f).
Proof.
  intros Hf w. unfold took, crit.
  pose proof (rtc_clock _ _ (env_ok (turn w) (idx w))).
  specialize (Hf (env (turn w) (idx w))). destruct (f (env (turn w) (idx w))). simpl in *. lia.
Qed.

Lemma takes_ret {A} (a : A) : takes 0 0 0 (io_ret a).
Proof. intros w. unfold took. simpl. lia. Qed.

Lemma takes_list opts ctx : takes 1 1 0 (List env api opts ctx).
Proof.
  intros w. unfold took, List. simpl. pose proof (rtc_clock _ _ (env_ok (turn w) (idx w))). lia.
Qed.

Lemma takes_claim ip : takes 0 0 0 (claimDiagnostic env ip).
Proof.
  apply (takes_bind 0 0 0 0 0 0); [apply takes_crit; simpl; lia|]. intros t.
  apply (takes_bind 0 0 0 0 0 0).
  - apply takes_crit. intros i. rewrite claim_crit_clock. lia.
  - intros []; [apply takes_crit; simpl; lia|apply takes_ret].
Qed.

Lemma takes_lookupViaAPI ip : takes 1 2 0 (lookupViaAPI c env api ip).
Proof.
  apply (takes_bind 0 0 0 1 2 0); [apply takes_crit; simpl; lia|]. intros t.
  apply (takes_bind 1 1 0 0 1 0); [apply takes_list|]. intros [[|pod pods]|e].
  - apply (takes_bind 0 0 0 0 1 0); [apply takes_claim|].
    intros []; [|eapply takes_weaken; [apply takes_ret|lia..]].
    eapply (takes_weaken 1 1 0); [|lia..].
    apply (takes_bind 1 1 0 0 0 0); [apply takes_list|]. intros [?|e]; [apply takes_ret|].
    apply (takes_bind 0 0 0 0 0 0); [apply takes_crit; simpl; lia|]. intros _. apply takes_ret.
  - case_decide; [|eapply takes_weaken; [apply takes_ret|lia..]].
    apply (takes_bind 0 0 0 0 1 0); [apply takes_claim|]. intros _.
    eapply takes_weaken; [apply takes_ret|lia..].
  - eapply takes_weaken; [apply takes_ret|lia..].
Qed.

(** The loop, when it gives up: [n] whole rounds. *)
Lemma poll_miss n ip w w' :
  poll c env api n ip w = (None, w') -> took n (2 * n) (Z.of_nat n * (100 * millisecond)) w w'.
Proof.
  revert w w'. induction n as [|n IH]; intros w w'; cbn [poll].
  - intros H.
    pose proof (takes_bind 0 0 0 0 0 0 (count env (Metrics.Lookup LookupMiss))
      (fun _ => io_ret (@None string)) ltac:(apply takes_crit; simpl; lia)
      ltac:(intros; apply takes_ret) w) as Ht. rewrite H in Ht. exact Ht.
  - rewrite io_bind_run.
    pose proof (takes_crit 0 (fun i => (byPodIP i !! ip, i)) ltac:(simpl; lia) w) as T1.
    unfold lookupCache. destruct (crit env _ w) as [[id|] w1]; cbn [fst snd] in *.
    { by rewrite io_bind_run. }
    rewrite io_bind_run. pose proof (takes_lookupViaAPI ip w1) as T2.
    destruct (lookupViaAPI c env api ip w1) as [[id|] w2]; cbn [fst snd] in *.
    { by rewrite !io_bind_run. }
    rewrite io_bind_run.
    pose proof (takes_crit (100 * millisecond) (fun i => (tt, pass (100 * millisecond) i))
      ltac:(simpl; lia) w2) as T3.
    intros H%IH. unfold Sleep in *. unfold took in *. lia.
Qed.

(** C39. A lookup of an unknown address gives up after 100 rounds: between 100 and 200 List
    calls and at least ten seconds. *)
Theorem lookup_miss_cost (ip : string) (w w' : world) :
  client c = true -> namespace c <> EmptyString ->
  Lookup c env api ip w = (None, w') ->
  (lists w + 100 <= lists w' <= lists w + 200)%nat /\
  clock (idx w) + 10 * second <= clock (idx w').
Proof.
  intros Hc Hn. unfold Lookup. rewrite io_bind_run.
  pose proof (takes_crit 0 (fun i => (byPodIP i !! ip, i)) ltac:(simpl; lia) w) as T1.
  unfold lookupCache. destruct (crit env _ w) as [[id|] w1]; cbn [fst snd] in *.
  { by rewrite io_bind_run. }
  rewrite Hc, bool_decide_false by done. simpl negb. cbn [orb].
  intros H%poll_miss. unfold took, second in *. lia.
Qed.
End interference.

(** *** Without interference *)

Section alone.
Context (c : config).
Context (api : nat -> ListOptions -> Ctx -> Index -> result error (list Pod)).
Notation nobody := (fun (_ : nat) (i : Index) => i).

Lemma poll_caches n ip w id w' :
  poll c nobody api n ip w = (Some id, w') -> byPodIP (idx w') !! ip = Some id.
Proof.
  revert w. induction n as [|n IH]; intros w; cbn [poll].
  - by rewrite io_bind_run.
  - rewrite io_bind_run. destruct (lookupCache _ ip w) as [[id'|] w1] eqn:H1; cbn [fst snd].
    + unfold lookupCache, crit in H1. injection H1 as H1 <-.
      rewrite io_bind_run. intros [= <- <-]. exact H1.
    + rewrite io_bind_run. destruct (lookupViaAPI _ _ _ _ w1) as [[id'|] w2]; cbn [fst snd].
      * rewrite !io_bind_run. intros [= <- <-]. simpl. by rewrite lookup_insert_eq.
      * rewrite io_bind_run. apply IH.
Qed.

(** Only the first lookup of an address pays: once an address resolved, the next lookup
    of it answers the same id from the index, calls no API and changes nothing but the
    hit counter. *)
Theorem second_lookup_cached (ip : string) (w w' : world) (id : string) :
  Lookup c nobody api ip w = (Some id, w') ->
  exists w'', Lookup c nobody api ip w' = (Some id, w'') /\ lists w'' = lists w' /\
    idx w'' = set_imx (Metrics.Lookup LookupCacheHit) (idx w').
Proof.
  intros H. assert (byPodIP (idx w') !! ip = Some id) as Hid.
  { revert H. unfold Lookup. rewrite io_bind_run.
    destruct (lookupCache _ ip w) as [[id'|] w1] eqn:H1; cbn [fst snd].
    - unfold lookupCache, crit in H1. injection H1 as H1 <-.
      rewrite io_bind_run. intros [= <- <-]. exact H1.
    - case_match; [by rewrite io_bind_run|]. apply poll_caches. }
  unfold Lookup. rewrite io_bind_run. unfold lookupCache, crit. cbn [fst snd]. rewrite Hid.
  cbn [fst snd]. rewrite io_bind_run. eexists. split; [reflexivity|]. split; reflexivity.
Qed.
End alone.

(** ** The theorems at concrete worlds *)

Definition nobody (n : nat) (i : Index) : Index := i.
(** A cluster whose only pod is [w-1]. *)
Definition one_pod (n : nat) (opts : ListOptions) (ctx : Ctx) (i : Index)
  : result error (list Pod) :=
  Ok (if decide (FieldSelector opts = by_ip "10.0.0.1") then [demo_pod "w-1" "10.0.0.1" "a"] else []).
Definition fresh : world := mkWorld (New 0 None) 0 0.

Lemma one_pod_selects n key ip ctx i pods :
  one_pod n (mkListOptions key (by_ip ip)) ctx i = Ok pods ->
  Forall (fun p => True /\ PodIP p = ip) pods.
Proof.
  unfold one_pod. cbn [FieldSelector]. case_decide as H; intros [= <-]; [|done].
  repeat constructor. cbn [PodIP demo_pod]. unfold by_ip in H. by apply (inj (String.append _)) in H.
Qed.

Lemma lookup_sound_witness :
  exists w', Lookup demo_config nobody one_pod "10.0.0.1" fresh = (Some "a", w') /\
    "a" <> EmptyString /\ (exists p, True /\ PodIP p = "10.0.0.1" /\ label demo_config p = "a").
Proof.
  assert (exists w', Lookup demo_config nobody one_pod "10.0.0.1" fresh = (Some "a", w'))
    as [w' H] by (eexists; reflexivity).
  exists w'. split; [exact H|].
  destruct (lookup_sound demo_config (fun _ => True) (fun _ => True) nobody
    (fun n i => rtc_refl _ i) one_pod one_pod_selects _ _ _ _
    (fun ip id Hid => False_ind _ (eq_ind None (fun o => match o with None => True | Some _ => False end)
       I _ (eq_trans (eq_sym (lookup_empty ip)) Hid))) H) as (H1 & H2 & _).
  split; [exact H1|exact H2].
Defined.

Lemma lookup_miss_cost_witness :
  exists w', Lookup demo_config nobody one_pod "10.0.0.9" fresh = (None, w') /\
    (0 + 100 <= lists w' <= 0 + 200)%nat /\ 0 + 10 * second <= clock (idx w').
Proof.
  assert (exists w', Lookup demo_config nobody one_pod "10.0.0.9" fresh = (None, w'))
    as [w' H] by (eexists; vm_compute; reflexivity).
  exists w'. split; [exact H|].
  exact (lookup_miss_cost demo_config (fun _ => True) (fun _ => True) nobody
    (fun n i => rtc_refl _ i) one_pod "10.0.0.9" fresh w' eq_refl ltac:(discriminate) H).
Defined.

Lemma diagnosed_once_witness :
  exists i1, claim_crit "10.0.0.9" 0 (New 0 None) = (true, i1) /\
    claim_crit "10.0.0.9" (5 * minute) (pass (5 * minute) i1) = (false, pass (5 * minute) i1).
Proof.
  eexists. split; [reflexivity|].
  apply (diagnosed_once demo_config (fun _ => True) (fun _ => False) "10.0.0.9" 0 (New 0 None)
    (claim_crit "10.0.0.9" 0 (New 0 None)).2).
  - apply Forall_nil_2.
  - reflexivity.
  - exact (fun H => H).
  - apply rtc_once, i_pass. discriminate.
  - reflexivity.
  - discriminate.
Defined.

Lemma second_lookup_cached_witness :
  exists w' w'', Lookup demo_config nobody one_pod "10.0.0.1" fresh = (Some "a", w') /\
    Lookup demo_config nobody one_pod "10.0.0.1" w' = (Some "a", w'') /\ lists w'' = lists w'.
Proof.
  assert (exists w', Lookup demo_config nobody one_pod "10.0.0.1" fresh = (Some "a", w'))
    as [w' H] by (eexists; reflexivity).
  destruct (second_lookup_cached demo_config one_pod "10.0.0.1" fresh w' "a" H) as (w'' & H' & Hl & _).
  exists w', w''. split; [exact H|]. split; [exact H'|exact Hl].
Defined.
