(* ===== verification/IdentifyRelist.v ===== *)
(** * The index does not depend on how it was told

    The informer's list can be delivered in any order, again after a reconnection, or be
    replaced by the changes themselves: for an address whose pods keep to the rules of
    [IdentifyFacts.orderly], the index is the same. *)

From S2P Require Import Prelude GoStd Metrics Identify IdentifyFacts.
Local Open Scope Z_scope.

Section relist.
Context (c : config).
Notation cluster := (gmap string Pod).

(** The notifications of an initial list. *)
Definition adds_of (ps : list Pod) : list event := map (fun p => EAdd (OPod p)) ps.

Lemma tracks_unique ip pods i1 i2 :
  tracks c ip pods i1 -> tracks c ip pods i2 -> byPodIP i1 !! ip = byPodIP i2 !! ip.
Proof. intros H1 H2. apply option_eq. intros id. by rewrite (H1 id), (H2 id). Qed.

(** Listing pods of which at most one has [ip] is orderly for [ip]. *)
Lemma adds_change ip (pods pods0 : cluster) (l : list (string * Pod)) :
  single ip pods -> pods0 ⊆ pods -> NoDup l.*1 ->
  Forall (fun e => pods !! e.1 = Some e.2 /\ pods0 !! e.1 = None) l ->
  changes c ip pods0 (adds_of l.*2) (list_to_map l ∪ pods0).
Proof.
  intros Hd. revert pods0. induction l as [|[n p] l IH]; intros pods0 Hsub Hnd Hl; simpl.
  { rewrite (left_id_L ∅ (∪)). apply chs_nil. }
  apply NoDup_cons in Hnd as [Hn Hnd]. apply Forall_cons in Hl as [[Hp Hn0] Hl]. simpl in *.
  eapply chs_cons.
  - by apply (ch_add pods0 n p).
  - intros Hpip n' p' Hp' Hip. pose proof (lookup_weaken _ _ _ _ Hp' Hsub) as Hp2.
    assert (n' = n) as -> by by apply (Hd _ _ _ _ Hp2 Hp). congruence.
  - replace (<[n:=p]> (list_to_map l : cluster) ∪ pods0) with (list_to_map l ∪ <[n:=p]> pods0).
    + apply IH; [by apply insert_subseteq_l|done|].
      apply Forall_forall. intros [n' p'] Hin. rewrite Forall_forall in Hl.
      destruct (Hl _ Hin) as [? ?]. split; [done|]. simpl in *. rewrite lookup_insert_ne; [done|].
      intros ->. apply Hn. apply list_elem_of_fmap. by exists (n', p').
    + rewrite <- insert_union_l, <- insert_union_r; [done|]. by apply not_elem_of_list_to_map_1.
Qed.

(** A pod told again is told as an update to itself. *)
Lemma again_tracks ip (pods : cluster) (l : list (string * Pod)) i :
  ip <> EmptyString -> single ip pods -> tracks c ip pods i ->
  Forall (fun e => pods !! e.1 = Some e.2) l ->
  tracks c ip pods (fold_left (handle c) (adds_of l.*2) i).
Proof.
  intros Hne Hd. revert i. induction l as [|[n p] l IH]; intros i Ht Hl; [done|].
  apply Forall_cons in Hl as [Hp Hl]. simpl in Hp. cbn [adds_of map fmap list_fmap fold_left].
  apply IH; [|done].
  pose proof (ch_update pods n p p Hp) as Hch. rewrite (insert_id pods n p Hp) in Hch.
  by refine (proj2 (change_tracks c ip _ _ _ i Hne Hch _ Hd Ht)).
Qed.

(** C26. Equivalence with the reference, address by address: whatever changes, orderly for the
    address [ip] as in [index_tracks_pods], led from no pods to [pods], and in whatever
    order the present pods are listed, the index built from the changes and the one built
    from the list agree on [ip], and listing the pods again does not change its entry. *)
Theorem relist_equivalent (ip : string) (pods : cluster) (es : list event) (ps : list (string * Pod))
    (t t' : Z) (mx mx' : option Metrics) :
  ip <> EmptyString -> changes c ip ∅ es pods -> ps ≡ₚ map_to_list pods ->
  byPodIP (fold_left (handle c) es (New t mx)) !! ip =
    byPodIP (fold_left (handle c) (adds_of ps.*2) (New t' mx')) !! ip /\
  byPodIP (fold_left (handle c) (adds_of ps.*2) (fold_left (handle c) es (New t mx))) !! ip =
    byPodIP (fold_left (handle c) es (New t mx)) !! ip.
Proof.
  intros Hne Hc Hps.
  destruct (changes_track c ip ∅ pods es (New t mx) Hne Hc (single_empty ip) (tracks_new c ip t mx)) as [Hd Ht].
  assert (Forall (fun e => pods !! e.1 = Some e.2) ps) as Hin.
  { rewrite Hps. apply Forall_forall. intros [n p] H%elem_of_map_to_list. exact H. }
  assert (NoDup ps.*1) as Hnd by (rewrite Hps; apply NoDup_fst_map_to_list).
  split; [|eapply tracks_unique; [by apply again_tracks|done]].
  eapply tracks_unique; [exact Ht|].
  eapply (changes_track c ip ∅ pods); [done| |apply single_empty|apply tracks_new].
  assert (pods = list_to_map ps ∪ ∅) as Heq.
  { rewrite (right_id_L ∅ (∪)). rewrite (list_to_map_proper ps _ Hnd Hps). by rewrite list_to_map_to_list. }
  rewrite Heq. apply (adds_change ip pods); [done|apply map_empty_subseteq|done|].
  apply (Forall_impl _ _ _ Hin). intros e He. split; [exact He|apply lookup_empty].
Qed.
End relist.

Lemma relist_equivalent_witness :
  exists pods : gmap string Pod, pods !! "w-1" = Some (demo_pod "w-1" "10.0.0.1" "a") /\
    byPodIP (fold_left (handle demo_config) demo_events (New 0 None)) !! "10.0.0.1" =
      byPodIP (fold_left (handle demo_config) (adds_of (map_to_list pods).*2) (New 0 None)) !! "10.0.0.1".
Proof.
  destruct demo_changes as (pods & Hc & Hp). exists pods. split; [exact Hp|].
  apply (relist_equivalent demo_config "10.0.0.1" pods demo_events (map_to_list pods) 0 0 None None
    ltac:(discriminate) Hc).
  reflexivity.
Defined.
