(* ===== verification/Proxy.v ===== *)
(** * The reverse proxy ([internal/proxy/proxy.go])

    The handlers are programs over the calls they make: of the index, the session
    manager, the network and the client's response writer.  [net/http] and
    [net/http/httputil] are modelled as far as the handlers rely on them. *)

From S2P Require Import Prelude GoStd Effects Backend Metrics.
Local Open Scope Z_scope.

(** ** Data *)

(** A [*session.Session], and a network connection. *)
Notation session := nat (only parsing).
Notation conn := nat (only parsing).
Notation bytes := (list ascii) (only parsing).

(** A request body: nil, [http.NoBody], or a reader of what is left of it, which ends or
    fails. *)
Inductive body :=
| NilBody
| NoBody
| Reader (data : bytes) (fail : option error).

Record Request := mkRequest {
  Method : string;
  URL_Scheme : string;
  URL_Host : string;
  URL_Path : string;
  RHost : string;
  RequestURI : string;
  Hdr : Header;
  Body : body;
  ContentLength : Z;
  GetBody : option bytes; (* not nil: what the reader it returns yields *)
  RemoteAddr : string;
  rctx : Ctx;
  sessCtxKey : option session; (* the context's value *)
}.

Record Response := mkResponse {
  StatusCode : Z;
  StatusLine : string; (* Proto and Status *)
  RespHeader : Header;
}.

(** What a tunnel copies from: a connection, or what a reader had already buffered. *)
Inductive source := SrcConn (c : conn) | SrcBuffered (n : Z).

(** What the handlers call. *)
Inductive call : Type -> Type :=
| Identify_Lookup (ip : string) : call (option string)
| Sessions_Get (ctx : Ctx) (id : string) : call (result error session)
| Sessions_Refresh (ctx : Ctx) (s : session) : call (result error session)
| Sess_Endpoint (s : session) : call Endpoint
| Sess_MarkActive (s : session) : call unit
| Sess_ConnOpened (s : session) : call unit
| Sess_ConnClosed (s : session) : call unit
| Count (c : Metrics.call) : call unit
| Now : call Z
(* http.DefaultTransport: the interim responses and the outcome, and how much of the
   request's body it has read by then *)
| Transport (r : Request) : call ((list Z * result error Response) * nat)
| Dial (ctx : Ctx) (addr : string) : call (result error conn)
| Conn_WriteRequest (c : conn) (r : Request) : call (option error)
| Conn_ReadResponse (c : conn) : call (result error Response)
| Conn_Write (c : conn) (status : string) (h : Header) : call (option error)
| Conn_Close (c : conn) : call unit
| Copy (dst : conn) (src : source) : call (Z * option error)
(* the client's response writer *)
| W_Error (msg : error) (code : Z) : call unit
| W_WriteHeader (code : Z) : call unit
| W_Headers (h : Header) : call unit
| W_CopyBody : call bool          (* false: the copy failed *)
| W_CanHijack : call bool
| W_Hijack : call (result error (conn * Z)). (* with the bytes already buffered *)

Definition maxReplayBodyBytes : Z := Z.shiftl 1 20.

(** ** Requests *)

Definition with_url_host h r :=
  mkRequest (Method r) (URL_Scheme r) h (URL_Path r) (RHost r) (RequestURI r) (Hdr r) (Body r)
    (ContentLength r) (GetBody r) (RemoteAddr r) (rctx r) (sessCtxKey r).
Definition with_scheme s r :=
  mkRequest (Method r) s (URL_Host r) (URL_Path r) (RHost r) (RequestURI r) (Hdr r) (Body r)
    (ContentLength r) (GetBody r) (RemoteAddr r) (rctx r) (sessCtxKey r).
Definition with_host h r :=
  mkRequest (Method r) (URL_Scheme r) (URL_Host r) (URL_Path r) h (RequestURI r) (Hdr r) (Body r)
    (ContentLength r) (GetBody r) (RemoteAddr r) (rctx r) (sessCtxKey r).
Definition with_uri u r :=
  mkRequest (Method r) (URL_Scheme r) (URL_Host r) (URL_Path r) (RHost r) u (Hdr r) (Body r)
    (ContentLength r) (GetBody r) (RemoteAddr r) (rctx r) (sessCtxKey r).
Definition with_header h r :=
  mkRequest (Method r) (URL_Scheme r) (URL_Host r) (URL_Path r) (RHost r) (RequestURI r) h (Body r)
    (ContentLength r) (GetBody r) (RemoteAddr r) (rctx r) (sessCtxKey r).
Definition with_body b g r :=
  mkRequest (Method r) (URL_Scheme r) (URL_Host r) (URL_Path r) (RHost r) (RequestURI r) (Hdr r) b
    (ContentLength r) g (RemoteAddr r) (rctx r) (sessCtxKey r).
Definition with_session s r :=
  mkRequest (Method r) (URL_Scheme r) (URL_Host r) (URL_Path r) (RHost r) (RequestURI r) (Hdr r)
    (Body r) (ContentLength r) (GetBody r) (RemoteAddr r) (rctx r) (Some s).

(** [r.Body != nil && r.Body != http.NoBody] *)
Definition has_body (b : body) : bool :=
  match b with Reader _ _ => true | _ => false end.

(** [io.ReadAll(io.LimitReader(b, n))]: what it returns and what is left to read. *)
Definition read_limited (n : nat) (b : body) : result error bytes * body :=
  match b with
  | Reader data fail =>
      if (n <=? length data)%nat then (Ok (take n data), Reader (drop n data) fail)
      else match fail with
           | Some e => (Err e, Reader [] fail)
           | None => (Ok data, Reader [] None)
           end
  | _ => (Ok [], b)
  end.

(** [io.MultiReader(bytes.NewReader(buf), b)] *)
Definition multi_reader (buf : bytes) (b : body) : body :=
  match b with Reader data fail => Reader (buf ++ data) fail | _ => Reader buf None end.

(** A body of which [n] more bytes have been read, by whoever shares it: a transport that was
    handed the request, even when it then fails. *)
Definition read_past (n : nat) (b : body) : body :=
  match b with Reader data fail => Reader (drop n data) fail | _ => b end.

(** The request after it: the body is read in place. *)
Definition spent (n : nat) (r : Request) : Request := with_body (read_past n (Body r)) (GetBody r) r.

(** [routeRequest] *)
Definition routeRequest (endpoint : Endpoint) (r : Request) : Request :=
  let r := with_host (URL_Host r) r in
  let r := with_header (Header_Del (Hdr r) "ate-target-actor") r in
  if decide (TargetActor endpoint = EmptyString) then r
  else with_header (Header_Set (Hdr r) "ate-target-actor" (TargetActor endpoint)) r.

Definition isWebsocketUpgrade (r : Request) : bool :=
  strings_Contains (strings_ToLower (Header_Get (Hdr r) "Connection")) "upgrade"
  && strings_EqualFold (Header_Get (Hdr r) "Upgrade") "websocket".

Definition clientIPFromReq (r : Request) : result error string :=
  match net_SplitHostPort (RemoteAddr r) with
  | Err e => Err e
  | Ok (host, _) => Ok host
  end.

Definition clientIPMust (r : Request) : string :=
  match clientIPFromReq r with Ok ip => ip | Err _ => EmptyString end.

(** [isDialFailure]: the first [*net.OpError] of the chain is a dial. *)
Definition isDialFailure (err : error) : bool :=
  match errors_As (fun e => match e with OpError op _ => Some op | _ => None end) err with
  | Some op => bool_decide (op = "dial")
  | None => false
  end.

(** The buffering of [handleHTTP]: an error, or the request with its body buffered and
    replayable, or streamed through when it is larger than the cap. *)
Definition buffer_body (r : Request) : result error Request :=
  if has_body (Body r) then
    match read_limited (Z.to_nat (maxReplayBodyBytes + 1)) (Body r) with
    | (Err e, _) => Err e
    | (Ok buf, rest) =>
        if maxReplayBodyBytes <? Z.of_nat (length buf)
        then Ok (with_body (multi_reader buf rest) (GetBody r) r)
        else Ok (with_body (Reader buf None) (Some buf) r)
    end
  else Ok r.

(** ** [httputil.ReverseProxy], up to the request it sends *)

Definition trim_ows (s : string) : string :=
  let sp c := bool_decide (c = " "%char) || bool_decide (c = "009"%char) in
  let fix skip l := match l with c :: l' => if sp c then skip l' else l | [] => [] end in
  of_chars (rev (skip (rev (skip (to_chars s))))).

Definition connection_tokens (h : Header) : list string :=
  filter (fun t => t <> EmptyString)
    (map trim_ows (default [] (h !! "Connection") ≫= fun v => strings_Split v ","%char)).

Definition hopHeaders : list string :=
  ["Connection"; "Proxy-Connection"; "Keep-Alive"; "Proxy-Authenticate"; "Proxy-Authorization";
   "Te"; "Trailer"; "Transfer-Encoding"; "Upgrade"].

Definition removeHopByHopHeaders (h : Header) : Header :=
  foldl Header_Del (foldl Header_Del h (connection_tokens h)) hopHeaders.

Definition upgradeType (h : Header) : string :=
  if existsb (fun t => strings_EqualFold t "upgrade") (connection_tokens h)
  then Header_Get h "Upgrade" else EmptyString.

Definition printable (s : string) : bool :=
  forallb (fun c => (32 <=? byte_of c) && (byte_of c <=? 126)) (to_chars s).

Definition forwarded_for (r : Request) (h : Header) : Header :=
  match net_SplitHostPort (RemoteAddr r) with
  | Err _ => h
  | Ok (ip, _) =>
      match h !! "X-Forwarded-For" with
      | Some ((_ :: _) as prior) =>
          Header_Set h "X-Forwarded-For" (String.concat ", " (prior ++ [ip]))
      | _ => Header_Set h "X-Forwarded-For" ip
      end
  end.

Definition accepts_trailers (h : Header) : bool :=
  existsb (fun v => existsb (fun t => strings_EqualFold (trim_ows t) "trailers")
                      (strings_Split v ","%char)) (default [] (h !! "Te")).

Definition reverse_headers (r : Request) : Header :=
  let h := Hdr r in
  let up := upgradeType h in
  let te := accepts_trailers h in
  let h := removeHopByHopHeaders h in
  let h := if te then Header_Set h "Te" "trailers" else h in
  let h := if decide (up = EmptyString) then h
           else Header_Set (Header_Set h "Connection" "Upgrade") "Upgrade" up in
  let h := forwarded_for r h in
  match h !! "User-Agent" with Some _ => h | None => Header_Set h "User-Agent" EmptyString end.

Definition outgoing (r : Request) : Request :=
  let r := if ContentLength r =? 0 then with_body NilBody (GetBody r) r else r in
  with_header (reverse_headers r) r.

(** [statusRecorder] *)
Record statusRecorder := mkRecorder { status : Z; wroteHeader : bool }.

Definition record (s : statusRecorder) (code : Z) : statusRecorder :=
  if wroteHeader s then s else mkRecorder code true.

(** ** Handlers *)

Section handlers.
Context (env : environment call).

Definition do {A} (e : call A) : IO (history call) A := perform env e.

(** [retryingTransport.RoundTrip], with the interim responses of its attempts. *)
Definition RoundTrip (req : Request) : IO (history call) (list Z * result error Response) :=
  let* attempted := do (Transport req) in
  let '(first, n) := attempted in
  let req := spent n req in
  match first with
  | (_, Ok _) => io_ret first
  | (interim, Err err) =>
      if negb (isDialFailure err) then io_ret first else
      match sessCtxKey req with
      | None => io_ret first
      | Some sess =>
          if has_body (Body req) && bool_decide (GetBody req = None) then io_ret first else
          let* refreshed := do (Sessions_Refresh (rctx req) sess) in
          match refreshed with
          | Err _ => io_ret first
          | Ok fresh =>
              let req2 := match GetBody req with
                          | Some b => with_body (Reader b None) (Some b) req
                          | None => req
                          end in
              let* endpoint := do (Sess_Endpoint fresh) in
              let req2 := routeRequest endpoint (with_url_host (MCPAddr endpoint) req2) in
              let* second := do (Transport req2) in
              io_ret (interim ++ second.1.1, second.1.2)
          end
      end
  end.

Definition WriteHeader (s : statusRecorder) (code : Z) : IO (history call) statusRecorder :=
  do (W_WriteHeader code) ;; io_ret (record s code).

(** [http.Error] on the recorder. *)
Definition recorder_error (s : statusRecorder) (msg : error) (code : Z)
  : IO (history call) statusRecorder :=
  do (W_Error msg code) ;; io_ret (record s code).

Definition proxyError (s : statusRecorder) (err : error) : IO (history call) statusRecorder :=
  if is_context_canceled err then io_ret s else
  do (Count (CProxyError "upstream")) ;;
  recorder_error s (Errorf_w "upstream error: %v" [] err) 502.

Fixpoint interims (s : statusRecorder) (codes : list Z) : IO (history call) statusRecorder :=
  match codes with
  | [] => io_ret s
  | code :: codes => let* s := WriteHeader s code in interims s codes
  end.

(** [ReverseProxy.ServeHTTP] of the standard library, with its [Transport] and its
    [ErrorHandler]: the recorder after it, or None when it panics with
    [http.ErrAbortHandler]. *)
Definition ReverseProxy_ServeHTTP
    (transport : Request -> IO (history call) (list Z * result error Response))
    (errorHandler : statusRecorder -> error -> IO (history call) statusRecorder)
    (s : statusRecorder) (r : Request) : IO (history call) (option statusRecorder) :=
  if negb (printable (upgradeType (Hdr r))) then
    let* s := errorHandler s (Errorf "client tried to switch to invalid protocol %q" []) in
    io_ret (Some s)
  else
  let* res := transport (outgoing r) in
  let* s := interims s res.1 in
  match res.2 with
  | Err err => let* s := errorHandler s err in io_ret (Some s)
  | Ok resp =>
      if StatusCode resp =? 101 then
        let* s := errorHandler s (Errorf "can't switch protocols" []) in io_ret (Some s)
      else
        do (W_Headers (removeHopByHopHeaders (RespHeader resp))) ;;
        let* s := WriteHeader s (StatusCode resp) in
        let* copied := do W_CopyBody in
        io_ret (if copied then Some s else None)
  end.

(** The handler's [httpProxy], as [New] makes it: the director does nothing. *)
Definition httpProxy (s : statusRecorder) (r : Request)
  : IO (history call) (option statusRecorder) :=
  ReverseProxy_ServeHTTP RoundTrip proxyError s r.

(** The request [handleHTTP] hands to the reverse proxy, but for its body. *)
Definition rewrite (endpoint : Endpoint) (r : Request) : Request :=
  let r2 := with_url_host (MCPAddr endpoint) (with_scheme "http" r) in
  with_uri EmptyString (routeRequest endpoint r2).

Definition handleHTTP (r : Request) (sess : session) : IO (history call) unit :=
  let* endpoint := do (Sess_Endpoint sess) in
  match buffer_body (rewrite endpoint r) with
  | Err e => do (W_Error (Errorf_w "reading request body: %v" [] e) 502)
  | Ok r2 =>
      let* start := do Now in
      let* res := httpProxy (mkRecorder 200 false) (with_session sess r2) in
      match res with
      | None => io_ret tt
      | Some sr =>
          let* fin := do Now in
          do (Count (CRecordRequest "http" (fmt_d (status sr)) (sat64 (fin - start)))) ;;
          do (Sess_MarkActive sess)
      end
  end.

(** The tunnel's two copying goroutines, one after the other: the handler waits for both
    before it reads their totals. *)
Definition pump (client backend : conn) (buffered : Z) : IO (history call) (Z * Z) :=
  let* head := (if 0 <? buffered then do (Copy backend (SrcBuffered buffered))
                else io_ret (0, None)) in
  let c2b := wrap64 (0 + head.1) in
  let* c2b := (match head.2 with
               | Some _ => io_ret c2b
               | None => let* rest := do (Copy backend (SrcConn client)) in
                         io_ret (wrap64 (c2b + rest.1))
               end) in
  let* back := do (Copy client (SrcConn backend)) in
  io_ret (c2b, wrap64 (0 + back.1)).

(** [handleWS] once the backend is connected; the deferred calls are at the end of each
    branch. *)
Definition tunnel (sess : session) (client backend : conn) (buffered : Z)
  : IO (history call) unit :=
  do (Sess_ConnOpened sess) ;;
  do (Count CConnOpened) ;;
  let* start := do Now in
  let* totals := pump client backend buffered in
  do (Conn_Close client) ;;
  do (Conn_Close backend) ;;
  do (Sess_ConnClosed sess) ;;
  let* fin := do Now in
  do (Count (CConnClosed "ws" (sat64 (fin - start)))) ;;
  do (Count (CAddBytes DirClientToBackend totals.1)) ;;
  do (Count (CAddBytes DirBackendToClient totals.2)).

Definition upgrade (r : Request) (sess : session) (backend : conn) : IO (history call) unit :=
  let* endpoint := do (Sess_Endpoint sess) in
  let outReq := routeRequest endpoint (with_url_host (Addr endpoint) (with_scheme "http" r)) in
  let outReq := with_header (Header_Set (Hdr outReq) "X-Forwarded-For" (clientIPMust r)) outReq in
  let* werr := do (Conn_WriteRequest backend outReq) in
  match werr with
  | Some e => do (W_Error (Errorf_w "backend write failed: %v" [] e) 502)
  | None =>
      let* resp := do (Conn_ReadResponse backend) in
      match resp with
      | Err e =>
          do (Count (CProxyError "ws_upstream")) ;;
          do (W_Error (Errorf_w "backend response failed: %v" [] e) 502)
      | Ok resp =>
          do (Count (CCountRequest "ws" (fmt_d (StatusCode resp)))) ;;
          if negb (StatusCode resp =? 101) then
            do (W_Headers (RespHeader resp)) ;;
            do (W_WriteHeader (StatusCode resp)) ;;
            do W_CopyBody ;;
            io_ret tt
          else
            let* hijacked := do W_Hijack in
            match hijacked with
            | Err _ => io_ret tt
            | Ok (client, buffered) =>
                let* err := do (Conn_Write client (StatusLine resp) (RespHeader resp)) in
                (match err with
                 | Some _ => io_ret tt
                 | None => tunnel sess client backend buffered
                 end) ;;
                do (Conn_Close client)
            end
      end
  end.

(** The connection to the backend, refreshing the session once when it cannot be
    dialled, and the session it belongs to. *)
Definition ws_dial (r : Request) (sess : session)
  : IO (history call) (result error conn * session) :=
  let* endpoint := do (Sess_Endpoint sess) in
  let* first := do (Dial (rctx r) (Addr endpoint)) in
  match first with
  | Ok _ => io_ret (first, sess)
  | Err _ =>
      do (Count CBackendDialFailure) ;;
      let* refreshed := do (Sessions_Refresh (rctx r) sess) in
      match refreshed with
      | Err _ => io_ret (first, sess)
      | Ok fresh =>
          let* endpoint := do (Sess_Endpoint fresh) in
          let* second := do (Dial (rctx r) (Addr endpoint)) in
          (match second with
           | Err _ => do (Count CBackendDialFailure)
           | Ok _ => io_ret tt
           end) ;;
          io_ret (second, fresh)
      end
  end.

Definition handleWS (r : Request) (sess : session) : IO (history call) unit :=
  let* hijacker := do W_CanHijack in
  if negb hijacker then do (W_Error (Errorf "server does not support hijacking" []) 500) else
  let* dialled := ws_dial r sess in
  match dialled.1 with
  | Err e => do (W_Error (Errorf_w "backend dial failed: %v" [] e) 502)
  | Ok backend => upgrade r dialled.2 backend ;; do (Conn_Close backend)
  end.

Definition ServeHTTP (r : Request) : IO (history call) unit :=
  match clientIPFromReq r with
  | Err _ => do (W_Error (Errorf "cannot determine client IP" []) 400)
  | Ok clientIP =>
      let* id := do (Identify_Lookup clientIP) in
      match id with
      | None =>
          do (Count CUnknownClient) ;;
          do (W_Error (Errorf "client pod %s not labelled with playwright-id" [FStr clientIP]) 403)
      | Some id =>
          let* now := do Now in
          let* got := do (Sessions_Get (WithTimeout (rctx r) now (60 * second)) id) in
          match got with
          | Err e => do (W_Error (Errorf_w "session unavailable: %v" [] e) 502)
          | Ok sess =>
              do (Sess_MarkActive sess) ;;
              if isWebsocketUpgrade r then handleWS r sess else handleHTTP r sess
          end
      end
  end.
End handlers.
