(* ===== verification/ProxyFacts.v ===== *)
(** * What the proxy guarantees

    Every request that leaves the proxy goes to the endpoint of the caller's own session;
    a round trip is retried at most once, only when nothing was sent; bodies survive
    buffering; connections are counted and closed. *)

From S2P Require Import Prelude GoStd Effects Backend Metrics Proxy.
Local Open Scope Z_scope.

(** ** Header names *)

Lemma lower_lower c : lower_byte (lower_byte c) = lower_byte c.
Proof. by destruct c as [[] [] [] [] [] [] [] []]. Qed.
Lemma upper_lower c : upper_byte (lower_byte c) = upper_byte c.
Proof. by destruct c as [[] [] [] [] [] [] [] []]. Qed.
Lemma lower_dash c : bool_decide (lower_byte c = "-"%char) = bool_decide (c = "-"%char).
Proof. by destruct c as [[] [] [] [] [] [] [] []]. Qed.
Lemma lower_token c : is_token_byte (lower_byte c) = is_token_byte c.
Proof. by destruct c as [[] [] [] [] [] [] [] []]. Qed.

Lemma canonical_lower u l : canonical_chars u (map lower_byte l) = canonical_chars u l.
Proof.
  revert u. induction l as [|c l IH]; intros u; simpl; [done|].
  rewrite IH, lower_dash, lower_lower, upper_lower. done.
Qed.

Lemma forallb_lower l : forallb is_token_byte (map lower_byte l) = forallb is_token_byte l.
Proof. induction l as [|c l IH]; simpl; [done|]. by rewrite IH, lower_token. Qed.

(** Canonicalization forgets the case of a name, in whatever case it was sent. *)
Lemma CanonicalHeaderKey_lower k :
  forallb is_token_byte (to_chars k) = true ->
  CanonicalHeaderKey (strings_ToLower k) = CanonicalHeaderKey k.
Proof.
  intros Ht. unfold CanonicalHeaderKey, strings_ToLower.
  by rewrite to_of_chars, forallb_lower, Ht, canonical_lower.
Qed.

(** A header map as the server's parser builds it: its keys are canonical. *)
Definition parsed (h : Header) : Prop := forall k, is_Some (h !! k) -> CanonicalHeaderKey k = k.

(** The actor header a router may act on, in any case, is the endpoint's. *)
Definition actor_only (endpoint : Endpoint) (h : Header) : Prop :=
  forall k v, h !! k = Some v -> strings_ToLower k = "ate-target-actor" ->
    v = [TargetActor endpoint] /\ TargetActor endpoint <> EmptyString.

Lemma actor_key k :
  CanonicalHeaderKey k = k -> strings_ToLower k = "ate-target-actor" -> k = "Ate-Target-Actor".
Proof.
  intros Hc Hl. rewrite <- Hc, <- CanonicalHeaderKey_lower, Hl; [done|].
  rewrite <- forallb_lower. unfold strings_ToLower in Hl.
  apply (f_equal to_chars) in Hl. rewrite to_of_chars in Hl. by rewrite Hl.
Qed.

Lemma canonical_token u l :
  forallb is_token_byte l = true -> forallb is_token_byte (canonical_chars u l) = true.
Proof.
  revert u. induction l as [|c l IH]; intros u; [done|]. cbn [forallb canonical_chars].
  intros [Hc Hl]%andb_true_iff. apply andb_true_iff. split; [|by apply IH].
  revert Hc. destruct u; by destruct c as [[] [] [] [] [] [] [] []].
Qed.

Lemma lower_canonical u l : map lower_byte (canonical_chars u l) = map lower_byte l.
Proof.
  revert u. induction l as [|c l IH]; intros u; simpl; [done|].
  rewrite IH. f_equal. destruct u; [|apply lower_lower].
  by destruct c as [[] [] [] [] [] [] [] []].
Qed.

Lemma CanonicalHeaderKey_idem k : CanonicalHeaderKey (CanonicalHeaderKey k) = CanonicalHeaderKey k.
Proof.
  destruct (forallb is_token_byte (to_chars k)) eqn:Ht.
  - unfold CanonicalHeaderKey at 2 3. rewrite Ht.
    unfold CanonicalHeaderKey. rewrite to_of_chars, canonical_token by done.
    by rewrite <- (canonical_lower true (canonical_chars _ _)), lower_canonical, canonical_lower.
  - unfold CanonicalHeaderKey. by rewrite !Ht.
Qed.

Lemma Header_Del_Some h k k' v :
  Header_Del h k !! k' = Some v <-> CanonicalHeaderKey k <> k' /\ h !! k' = Some v.
Proof. apply lookup_delete_Some. Qed.

Lemma parsed_set h k v : parsed h -> parsed (Header_Set h k v).
Proof.
  intros Hp k' [x Hx]. unfold Header_Set in Hx.
  apply lookup_insert_Some in Hx as [[<- _]|[_ Hx]]; [apply CanonicalHeaderKey_idem|by apply Hp; exists x].
Qed.

Lemma parsed_del h k : parsed h -> parsed (Header_Del h k).
Proof. intros Hp k' [x Hx]. apply Header_Del_Some in Hx as [_ Hx]. apply Hp. by exists x. Qed.

#[export] Hint Resolve parsed_set parsed_del : go.

(** Deleting headers, or setting another one, keeps the actor header the endpoint's. *)
Lemma actor_only_del endpoint h k : actor_only endpoint h -> actor_only endpoint (Header_Del h k).
Proof. intros Ha k' v [_ Hv]%Header_Del_Some. by apply Ha. Qed.

Lemma actor_only_set endpoint h k v :
  strings_ToLower (CanonicalHeaderKey k) <> "ate-target-actor" ->
  actor_only endpoint h -> actor_only endpoint (Header_Set h k v).
Proof.
  intros Hk Ha k' v' Hv. unfold Header_Set in Hv.
  apply lookup_insert_Some in Hv as [[<- _]|[_ Hv]]; [done|by apply Ha].
Qed.

Lemma foldl_del_ind (P : Header -> Prop) ks h :
  (forall h k, P h -> P (Header_Del h k)) -> P h -> P (foldl Header_Del h ks).
Proof. intros HP. revert h. induction ks as [|k ks IH]; simpl; auto. Qed.

#[export] Hint Resolve actor_only_del : go.

Lemma routeRequest_actor endpoint r :
  parsed (Hdr r) -> actor_only endpoint (Hdr (routeRequest endpoint r)).
Proof.
  intros Hp.
  assert (actor_only endpoint (Header_Del (Hdr r) "ate-target-actor")) as Hd.
  { intros k v [Hne Hv]%Header_Del_Some Hl. destruct Hne. symmetry.
    apply actor_key; [|done]. apply Hp. by exists v. }
  unfold routeRequest. case_decide as Ht; [exact Hd|].
  intros k v Hv Hl. simpl in Hv. unfold Header_Set in Hv.
  apply lookup_insert_Some in Hv as [[_ <-]|[_ Hv]]; [done|by apply (Hd k v)].
Qed.

Lemma routeRequest_parsed endpoint r : parsed (Hdr r) -> parsed (Hdr (routeRequest endpoint r)).
Proof. intros Hp. unfold routeRequest. case_decide; simpl; auto with go. Qed.

Lemma reverse_headers_keeps (P : Header -> Prop) r :
  (forall h k, P h -> P (Header_Del h k)) ->
  (forall h k v, k ∈ ["Te"; "Connection"; "Upgrade"; "X-Forwarded-For"; "User-Agent"] ->
     P h -> P (Header_Set h k v)) ->
  P (Hdr r) -> P (reverse_headers r).
Proof.
  intros Hdel Hset HP. unfold reverse_headers. cbv zeta.
  assert (P (removeHopByHopHeaders (Hdr r))) as H0.
  { unfold removeHopByHopHeaders. apply foldl_del_ind; [done|]. by apply foldl_del_ind. }
  revert H0. generalize (removeHopByHopHeaders (Hdr r)) as h. intros h H0.
  assert (forall (b : bool) h k v, k ∈ ["Te"; "Connection"; "Upgrade"; "X-Forwarded-For"; "User-Agent"] ->
    P h -> P (if b then Header_Set h k v else h)) as Hif by (intros []; auto).
  apply (Hif (accepts_trailers (Hdr r)) h "Te" "trailers") in H0; [|set_solver].
  revert H0. generalize (if accepts_trailers (Hdr r) then Header_Set h "Te" "trailers" else h) as h1. intros h1 H1.
  assert (P (if decide (upgradeType (Hdr r) = EmptyString) then h1
    else Header_Set (Header_Set h1 "Connection" "Upgrade") "Upgrade" (upgradeType (Hdr r)))) as H2.
  { case_decide; [done|]. apply Hset; [set_solver|]. apply Hset; [set_solver|done]. }
  revert H2. generalize (if decide (upgradeType (Hdr r) = EmptyString) then h1
    else Header_Set (Header_Set h1 "Connection" "Upgrade") "Upgrade" (upgradeType (Hdr r))) as h2.
  intros h2 H2.
  assert (P (forwarded_for r h2)) as H3.
  { unfold forwarded_for. destruct (net_SplitHostPort (RemoteAddr r)) as [[ip port]|e]; [|done].
    destruct (h2 !! "X-Forwarded-For") as [[|v vs]|]; apply Hset; try set_solver; done. }
  destruct (forwarded_for r h2 !! "User-Agent"); [done|]. apply Hset; [set_solver|done].
Qed.

Lemma outgoing_actor endpoint r :
  actor_only endpoint (Hdr r) -> actor_only endpoint (Hdr (outgoing r)).
Proof.
  intros Ha. unfold outgoing. simpl.
  assert (forall r, actor_only endpoint (Hdr r) -> actor_only endpoint (reverse_headers r)) as H.
  { intros r' Hr. apply reverse_headers_keeps; [auto with go| |done].
    intros h k v Hk. apply actor_only_set. revert k Hk. by apply Forall_forall; repeat constructor. }
  apply H. by case_match.
Qed.

Lemma outgoing_parsed r : parsed (Hdr r) -> parsed (Hdr (outgoing r)).
Proof.
  intros Hp. unfold outgoing. simpl.
  assert (forall r, parsed (Hdr r) -> parsed (reverse_headers r)) as H
    by (intros; apply reverse_headers_keeps; auto with go).
  apply H. by case_match.
Qed.

(** ** Traces *)

Definition sent (e : event call) : option Request :=
  match ev_call e with
  | Transport r => Some r
  | Conn_WriteRequest _ r => Some r
  | _ => None
  end.

Definition endpoint_read (e : event call) : option (session * Endpoint) :=
  match ev_call e in call A return A -> option (session * Endpoint) with
  | Sess_Endpoint s => fun ep => Some (s, ep)
  | _ => fun _ => None
  end (ev_answer e).

(** The session a Refresh of another returned. *)
Definition refreshed (e : event call) : option (session * session) :=
  match ev_call e in call A return A -> option (session * session) with
  | Sessions_Refresh _ s => fun r => match r with Ok s' => Some (s, s') | Err _ => None end
  | _ => fun _ => None
  end (ev_answer e).

Definition session_got (e : event call) : option (string * session) :=
  match ev_call e in call A return A -> option (string * session) with
  | Sessions_Get _ id => fun r => match r with Ok s => Some (id, s) | Err _ => None end
  | _ => fun _ => None
  end (ev_answer e).

Definition looked_up (e : event call) : option (string * string) :=
  match ev_call e in call A return A -> option (string * string) with
  | Identify_Lookup ip => fun r => (fun id => (ip, id)) <$> r
  | _ => fun _ => None
  end (ev_answer e).

(** The attempts of a round trip, with their answers. *)
Definition attempt (e : event call) : option (Request * (list Z * result error Response)) :=
  match ev_call e in call A return A -> option (Request * (list Z * result error Response)) with
  | Transport r => fun a => Some (r, a.1)
  | _ => fun _ => None
  end (ev_answer e).

(** The address of a dial. *)
Definition dial_address (e : event call) : option string :=
  match ev_call e with Dial _ addr => Some addr | _ => None end.

(** The request of the second attempt. *)
Definition replayed (req : Request) : Request :=
  match GetBody req with Some b => with_body (Reader b None) (Some b) req | None => req end.
Definition retried (endpoint : Endpoint) (req : Request) : Request :=
  routeRequest endpoint (with_url_host (MCPAddr endpoint) (replayed req)).

Definition replayable (req : Request) : Prop := has_body (Body req) = true -> is_Some (GetBody req).

Lemma spent_fields n req :
  Hdr (spent n req) = Hdr req /\ Method (spent n req) = Method req /\
  URL_Path (spent n req) = URL_Path req /\ GetBody (spent n req) = GetBody req /\
  has_body (Body (spent n req)) = has_body (Body req) /\ sessCtxKey (spent n req) = sessCtxKey req /\
  rctx (spent n req) = rctx req.
Proof. unfold spent. simpl. by destruct (Body req). Qed.

(** The body of the second attempt, whatever the first has read of its own: the one GetBody
    returns, or none. *)
Lemma replayed_body n req :
  replayable req ->
  Body (replayed (spent n req)) = match GetBody req with Some b => Reader b None | None => Body req end.
Proof.
  unfold replayable, replayed, spent. simpl. destruct (GetBody req) as [b|]; [done|]. simpl.
  destruct (Body req); simpl; try done. intros H. destruct (H eq_refl) as [b Hb]. discriminate Hb.
Qed.

(** The runs of [RoundTrip]. *)
Inductive roundtrip (req : Request) : list Z * result error Response -> history call -> Prop :=
| rt_final a n :
    (forall e, a.2 = Err e -> isDialFailure e = false \/ sessCtxKey req = None \/ ~ replayable req) ->
    roundtrip req a [Ev (Transport req) (a, n)]
| rt_not_refreshed a n e s e' :
    a.2 = Err e -> isDialFailure e = true -> sessCtxKey req = Some s -> replayable req ->
    roundtrip req a [Ev (Transport req) (a, n); Ev (Sessions_Refresh (rctx req) s) (Err e')]
| rt_retried a n e s s' endpoint b k :
    a.2 = Err e -> isDialFailure e = true -> sessCtxKey req = Some s -> replayable req ->
    roundtrip req (a.1 ++ b.1, b.2)
      [Ev (Transport req) (a, n); Ev (Sessions_Refresh (rctx req) s) (Ok s');
       Ev (Sess_Endpoint s') endpoint; Ev (Transport (retried endpoint (spent n req))) (b, k)].

(** The response writer and the metrics: nothing that leaves the proxy. *)
Definition is_writer (e : event call) : Prop :=
  match ev_call e with
  | W_Error _ _ | W_WriteHeader _ | W_Headers _ | W_CopyBody | Count _ => True
  | _ => False
  end.

(** A status code written to the client's response. *)
Definition written (e : event call) : option Z :=
  match ev_call e with W_Error _ code => Some code | W_WriteHeader code => Some code | _ => None end.

Definition copy_failed (l : history call) : Prop := Ev W_CopyBody false ∈ l.

(** A call of the response writer or the metrics that is not a failed copy. *)
Definition copies_well (e : event call) : Prop :=
  match ev_call e in call A return A -> Prop with
  | W_CopyBody => fun copied => copied = true
  | _ => fun _ => True
  end (ev_answer e).

Lemma copies_well_all l : Forall copies_well l -> ~ copy_failed l.
Proof. intros Hl Hin. rewrite Forall_forall in Hl. by specialize (Hl _ Hin). Qed.

Section traces.
Context (env : environment call).

Lemma RoundTrip_adds req : adds (RoundTrip env req) (roundtrip req).
Proof.
  unfold RoundTrip, do. apply adds_call. intros [[interim [resp|err]] n].
  { apply adds_ret. by apply rt_final. }
  destruct (spent_fields n req) as (_ & _ & _ & -> & -> & -> & ->).
  destruct (isDialFailure err) eqn:Hd; simpl.
  2:{ apply adds_ret, rt_final. intros e [= ->]. by left. }
  destruct (sessCtxKey req) as [s|] eqn:Hs.
  2:{ apply adds_ret, rt_final. auto. }
  destruct (has_body (Body req) && bool_decide (GetBody req = None)) eqn:Hb.
  { apply adds_ret, rt_final. intros e _. right; right. unfold replayable.
    apply andb_true_iff in Hb as [Hb Hg%bool_decide_eq_true]. rewrite Hg. intros H.
    by destruct (H Hb). }
  assert (replayable req) as Hr.
  { intros Hbody. rewrite Hbody in Hb. simpl in Hb. apply bool_decide_eq_false in Hb.
    by destruct (GetBody req). }
  apply adds_call. intros [fresh|e']; [|by apply adds_ret; eapply rt_not_refreshed].
  apply adds_call. intros endpoint. apply adds_call. intros [b k]. apply adds_ret.
  by apply (rt_retried req (interim, Err err) n err s fresh endpoint b k).
Qed.

Lemma adds_writer {A} (e : call A) :
  (forall a, is_writer (Ev e a)) -> adds (do env e) (fun _ l => Forall is_writer l).
Proof. intros H. apply adds_perform. intros a. by constructor. Qed.

(** A recorder that has seen the codes written in [l]. *)
Definition follows (s : statusRecorder) (s' : statusRecorder) (l : history call) : Prop :=
  Forall is_writer l /\ Forall copies_well l /\ s' = foldl record s (omap written l).

Lemma follows_nil s : follows s s [].
Proof. by repeat constructor. Qed.

Lemma follows_app s s1 s2 l1 l2 : follows s s1 l1 -> follows s1 s2 l2 -> follows s s2 (l1 ++ l2).
Proof.
  intros (H1 & G1 & ->) (H2 & G2 & ->). split_and!; [by apply Forall_app..|].
  by rewrite omap_app, foldl_app.
Qed.

Lemma WriteHeader_adds s code :
  adds (WriteHeader env s code) (fun s' l => s' = record s code /\ l = [Ev (W_WriteHeader code) tt]).
Proof. unfold WriteHeader, do. apply adds_call. intros []. by apply adds_ret. Qed.

(** The error handler answers 502, unless the client has gone. *)
Definition error_writes (e : error) (l : history call) : Prop :=
  if is_context_canceled e then l = []
  else exists msg, l = [Ev (Count (CProxyError "upstream")) tt; Ev (W_Error msg 502) tt].

Lemma proxyError_adds s e : adds (proxyError env s e) (fun s' l => follows s s' l /\ error_writes e l).
Proof.
  unfold proxyError, recorder_error, error_writes, do. case_match.
  { apply adds_ret. split; [apply follows_nil|done]. }
  apply adds_call. intros []. apply adds_call. intros []. apply adds_ret.
  split; [by repeat constructor|by eexists].
Qed.

(** The codes of interim responses, written one by one. *)
Definition interim_writes (codes : list Z) : history call :=
  map (fun code => Ev (W_WriteHeader code) tt) codes.

Lemma interims_adds s codes :
  adds (interims env s codes) (fun s' l => follows s s' l /\ l = interim_writes codes).
Proof.
  revert s. induction codes as [|code codes IH]; intros s; cbn [interims interim_writes map].
  { apply adds_ret. split; [apply follows_nil|done]. }
  eapply adds_bind; [apply WriteHeader_adds|]. intros s' l [-> ->].
  eapply adds_mono; [apply IH|]. intros s' l [Hl ->]. split; [|done].
  eapply (follows_app _ _ _ [_]); [|exact Hl]. by repeat constructor.
Qed.

(** What the client is written once the round trip has given [res]. *)
Definition relays (res : result error Response) (copied : bool) (l : history call) : Prop :=
  match res with
  | Err e => error_writes e l
  | Ok resp =>
      if StatusCode resp =? 101 then exists e, is_context_canceled e = false /\ error_writes e l
      else l = [Ev (W_Headers (removeHopByHopHeaders (RespHeader resp))) tt;
                Ev (W_WriteHeader (StatusCode resp)) tt; Ev W_CopyBody copied]
  end.

(** A run of the reverse proxy: an error and no round trip, or a round trip, its interim
    responses and its answer.  It panics exactly when the copy of the body fails. *)
Definition proxied (s : statusRecorder) (r : Request) (o : option statusRecorder)
    (l : history call) : Prop :=
  exists l1 l2, l = l1 ++ l2 /\
    (l1 = [] /\ (exists e, is_context_canceled e = false /\ error_writes e l2) \/
     exists res l3, roundtrip (outgoing r) res l1 /\ l2 = interim_writes res.1 ++ l3 /\
       relays res.2 (bool_decide (is_Some o)) l3) /\
    Forall is_writer l2 /\
    match o with
    | Some s' => Forall copies_well l2 /\ s' = foldl record s (omap written l2)
    | None => copy_failed l2
    end.

Lemma httpProxy_adds s r : adds (httpProxy env s r) (proxied s r).
Proof.
  unfold httpProxy, ReverseProxy_ServeHTTP. case_match.
  { eapply adds_bind; [apply proxyError_adds|]. intros s' l [(H1 & H2 & H3) Hl]. apply adds_ret.
    exists [], l. rewrite app_nil_r. split_and!; [done| |done..]. left. split; [done|]. eexists. split; [|exact Hl]. done. }
  eapply adds_bind; [apply RoundTrip_adds|]. intros res l1 Hl1.
  eapply adds_bind; [apply interims_adds|]. intros s1 li [Hi ->].
  assert (forall e, (forall l, error_writes e l -> relays res.2 true l) ->
    adds (io_bind (proxyError env s1 e) (fun s => io_ret (Some s)))
      (fun o l' => proxied s r o (l1 ++ interim_writes res.1 ++ l'))) as Herr.
  { intros e He. eapply adds_bind; [apply proxyError_adds|]. intros s2 l2 [H2 Hl2]. apply adds_ret.
    exists l1, (interim_writes res.1 ++ l2). rewrite app_nil_r.
    destruct (follows_app _ _ _ _ _ Hi H2) as (G1 & G2 & G3).
    split_and!; [done| |done..]. right. exists res, l2. auto. }
  destruct (res.2) as [resp|e] eqn:Hres; [|by apply Herr].
  case_match eqn:H101; [apply Herr; intros l Hl; simpl; rewrite H101; eexists; split; [|exact Hl]; done|].
  apply adds_call. intros []. eapply adds_bind; [apply WriteHeader_adds|].
  intros s' l [-> ->]. apply adds_call. intros copied. apply adds_ret.
  exists l1, (interim_writes res.1 ++ [Ev (W_Headers (removeHopByHopHeaders (RespHeader resp))) tt;
    Ev (W_WriteHeader (StatusCode resp)) tt; Ev W_CopyBody copied]).
  split; [done|]. split.
  { right. exists res. eexists. split; [exact Hl1|]. split; [done|]. rewrite Hres. simpl.
    rewrite H101. by destruct copied. }
  destruct Hi as (G1 & G2 & G3). split; [apply Forall_app; split; [done|by repeat constructor]|].
  destruct copied.
  - split; [apply Forall_app; split; [done|by repeat constructor]|].
    by rewrite omap_app, foldl_app, <- G3.
  - unfold copy_failed. set_solver.
Qed.
End traces.
