(* ===== verification/ProxyProps.v ===== *)
(** * The proxy's theorems

    Isolation of the callers, retries, body replay, accounting, and three behaviours the
    code does not intend. *)

From S2P Require Import Prelude GoStd Effects Backend Metrics Proxy ProxyFacts.
Local Open Scope Z_scope.

#[local] Opaque maxReplayBodyBytes.

(** Addressed to an endpoint, and claiming no actor but that endpoint's. *)
Definition routed (endpoint : Endpoint) (r : Request) : Prop :=
  RHost r = URL_Host r /\ (URL_Host r = Addr endpoint \/ URL_Host r = MCPAddr endpoint) /\
  actor_only endpoint (Hdr r).

(** The same, with the one of its addresses. *)
Definition routed_at (addr : string) (endpoint : Endpoint) (r : Request) : Prop :=
  RHost r = addr /\ URL_Host r = addr /\ actor_only endpoint (Hdr r).

Lemma routed_mcp endpoint r : routed_at (MCPAddr endpoint) endpoint r -> routed endpoint r.
Proof. intros (H1 & H2 & H3). split; [congruence|]. split; [by right|done]. Qed.
Lemma routed_ws endpoint r : routed_at (Addr endpoint) endpoint r -> routed endpoint r.
Proof. intros (H1 & H2 & H3). split; [congruence|]. split; [by left|done]. Qed.

(** A request as [net/http]'s server hands it to a handler. *)
Definition from_server (r : Request) : Prop :=
  parsed (Hdr r) /\ GetBody r = None /\ (ContentLength r = 0 -> has_body (Body r) = false).

(** Project a trace. *)
Ltac trace :=
  repeat (rewrite ?omap_cons_eq, ?omap_app;
          cbn [sent endpoint_read refreshed session_got looked_up attempt dial_address ev_call
               ev_answer]).

Lemma writers_send_nothing l : Forall is_writer l -> omap sent l = [].
Proof. apply omap_none. by intros [A [] a]. Qed.
Lemma writers_attempt_nothing l : Forall is_writer l -> omap attempt l = [].
Proof. apply omap_none. by intros [A [] a]. Qed.
Lemma writers_refresh_nothing l : Forall is_writer l -> omap refreshed l = [].
Proof. apply omap_none. by intros [A [] a]. Qed.

(** ** The requests of the HTTP path *)

Lemma rewrite_fields endpoint r :
  Hdr (rewrite endpoint r) = Hdr (routeRequest endpoint r) /\
  URL_Host (rewrite endpoint r) = MCPAddr endpoint /\
  RHost (rewrite endpoint r) = MCPAddr endpoint /\
  Method (rewrite endpoint r) = Method r /\ URL_Path (rewrite endpoint r) = URL_Path r /\
  Body (rewrite endpoint r) = Body r /\ GetBody (rewrite endpoint r) = GetBody r /\
  ContentLength (rewrite endpoint r) = ContentLength r.
Proof. unfold rewrite, routeRequest. by case_decide. Qed.

Lemma buffer_body_fields r r' :
  buffer_body r = Ok r' ->
  Hdr r' = Hdr r /\ URL_Host r' = URL_Host r /\ RHost r' = RHost r /\ Method r' = Method r /\
  URL_Path r' = URL_Path r /\ ContentLength r' = ContentLength r.
Proof.
  unfold buffer_body. destruct (has_body (Body r)); [|by intros [= <-]].
  destruct (read_limited _ _) as [[buf|e] rest]; [|done].
  destruct (maxReplayBodyBytes <? Z.of_nat (length buf)); intros H; by injection H as <-.
Qed.

(** Buffering gives a replayable body exactly when it is at most the cap; a larger one
    is streamed with nothing lost; a read error before the cap is reported. *)
Theorem buffer_body_preserves (r : Request) (data : list ascii) (fail : option error) :
  Body r = Reader data fail -> GetBody r = None ->
  match buffer_body r with
  | Err e => fail = Some e /\ Z.of_nat (length data) <= maxReplayBodyBytes
  | Ok r' =>
      if decide (Z.of_nat (length data) <= maxReplayBodyBytes)
      then fail = None /\ Body r' = Reader data None /\ GetBody r' = Some data
      else Body r' = Reader data fail /\ GetBody r' = None
  end.
Proof.
  intros Hb Hg. unfold buffer_body. rewrite Hb. unfold has_body, read_limited.
  assert (0 < maxReplayBodyBytes) as Hcap by reflexivity. revert Hcap.
  generalize maxReplayBodyBytes as cap. intros cap Hcap.
  destruct (Nat.leb_spec (Z.to_nat (cap + 1)) (length data)) as [Hle|Hlt].
  - rewrite length_take_le by done. destruct (Z.ltb_spec cap (Z.of_nat (Z.to_nat (cap + 1)))); [|lia].
    rewrite decide_False by lia. unfold multi_reader. simpl. by rewrite take_drop.
  - destruct fail as [e|]; [split; [done|lia]|].
    destruct (Z.ltb_spec cap (Z.of_nat (length data))); [lia|].
    rewrite decide_True by lia. done.
Qed.

(** Reading a body to its end: what a receiver of the request gets of it. *)
Lemma buffer_body_replayable r r' :
  buffer_body r = Ok r' -> GetBody r = None ->
  match GetBody r' with
  | Some b => Body r' = Reader b None /\ has_body (Body r) = true
  | None => True
  end.
Proof.
  unfold buffer_body. destruct (has_body (Body r)); [|by intros [= <-] ->].
  destruct (read_limited _ _) as [[buf|e] rest]; [|done].
  destruct (maxReplayBodyBytes <? Z.of_nat (length buf)); intros H Hg; injection H as <-; simpl;
    [by rewrite Hg|done].
Qed.

Lemma retried_fields n endpoint req :
  parsed (Hdr req) -> replayable req ->
  let req2 := retried endpoint (spent n req) in
  routed_at (MCPAddr endpoint) endpoint req2 /\ Method req2 = Method req /\
  URL_Path req2 = URL_Path req /\
  Body req2 = match GetBody req with Some b => Reader b None | None => Body req end.
Proof.
  intros Hp Hr. cbv zeta. unfold retried. rewrite <- (replayed_body n req Hr).
  set (r := replayed (spent n req)).
  assert (Hdr r = Hdr req /\ Method r = Method req /\ URL_Path r = URL_Path req)
    as (Hh & Hm & Hpa) by (subst r; unfold replayed; by destruct (GetBody (spent n req))).
  split.
  - split_and!; [| |apply routeRequest_actor; simpl; by rewrite Hh];
      unfold routeRequest; case_decide; simpl; auto.
  - unfold routeRequest. case_decide; simpl; rewrite Hm, Hpa; auto.
Qed.

(** The request the HTTP path sends first. *)
Definition http_request (r : Request) (s : session) (endpoint : Endpoint) (req : Request) : Prop :=
  exists r2, buffer_body (rewrite endpoint r) = Ok r2 /\ req = outgoing (with_session s r2).

(** [q] has the method, the path and the whole body of [r]. *)
Definition same_request (r q : Request) : Prop :=
  Method q = Method r /\ URL_Path q = URL_Path r /\
  if has_body (Body r) then Body q = Body r else has_body (Body q) = false.

Lemma buffer_body_body r r' :
  buffer_body r = Ok r' -> GetBody r = None -> Body r' = Body r.
Proof.
  intros Hb Hg. destruct (Body r) as [| |data fail] eqn:Hr.
  1,2: by unfold buffer_body in Hb; rewrite Hr in Hb; injection Hb as <-.
  pose proof (buffer_body_preserves r data fail Hr Hg) as H. rewrite Hb in H.
  case_decide; [destruct H as (-> & H & _)|destruct H as [H _]]; by rewrite H.
Qed.

Lemma http_request_routed r s endpoint req :
  from_server r -> http_request r s endpoint req ->
  routed_at (MCPAddr endpoint) endpoint req /\ parsed (Hdr req) /\
  sessCtxKey req = Some s /\ same_request r req /\
  match GetBody req with Some b => Body req = Reader b None | None => True end.
Proof.
  intros (Hp & Hg & Hc) (r2 & Hb & ->).
  destruct (buffer_body_fields _ _ Hb) as (Hh & Hu & Ho & Hm & Hpa & Hl).
  destruct (rewrite_fields endpoint r) as (Rh & Ru & Ro & Rm & Rp & Rb & Rg & Rl).
  pose proof (buffer_body_body _ _ Hb ltac:(congruence)) as Hbody.
  pose proof (routeRequest_actor endpoint r Hp) as Ha.
  pose proof (routeRequest_parsed endpoint r Hp) as Hp'. rewrite <- Rh, <- Hh in Ha, Hp'.
  assert (URL_Host (outgoing (with_session s r2)) = MCPAddr endpoint /\
          RHost (outgoing (with_session s r2)) = MCPAddr endpoint /\
          Method (outgoing (with_session s r2)) = Method r /\
          URL_Path (outgoing (with_session s r2)) = URL_Path r /\
          sessCtxKey (outgoing (with_session s r2)) = Some s) as (Eu & Eo & Em & Ep & Es).
  { unfold outgoing. case_match; simpl; split_and!; congruence. }
  split; [split; [done|split; [done|by apply outgoing_actor]]|].
  split; [by apply outgoing_parsed|]. split; [done|]. split.
  - split; [done|]. split; [done|]. unfold outgoing. simpl. destruct (Z.eqb_spec (ContentLength r2) 0) as [Hz|_]; simpl.
    + by rewrite Hc by congruence.
    + rewrite Hbody, Rb. by destruct (has_body (Body r)) eqn:E.
  - pose proof (buffer_body_replayable _ _ Hb ltac:(congruence)) as Hr.
    unfold outgoing. simpl. destruct (Z.eqb_spec (ContentLength r2) 0) as [Hz|_]; simpl.
    + destruct (GetBody r2) as [b|]; [|done]. destruct Hr as [_ Hr].
      rewrite Rb, Hc in Hr; [done|]. congruence.
    + destruct (GetBody r2); [apply Hr|done].
Qed.

Section proxy.
Context (env : environment call).

(** A run of [handleHTTP]. *)
Inductive http_run (r : Request) (s : session) (l : history call) : Prop :=
| http_unread endpoint e :
    buffer_body (rewrite endpoint r) = Err e ->
    l = [Ev (Sess_Endpoint s) endpoint;
         Ev (W_Error (Errorf_w "reading request body: %v" [] e) 502) tt] ->
    http_run r s l
| http_proxied endpoint r2 t o lp lf :
    buffer_body (rewrite endpoint r) = Ok r2 ->
    proxied (mkRecorder 200 false) (with_session s r2) o lp ->
    match o with
    | None => lf = []
    | Some sr => exists t',
        lf = [Ev Now t';
              Ev (Count (CRecordRequest "http" (fmt_d (status sr)) (sat64 (t' - t)))) tt;
              Ev (Sess_MarkActive s) tt]
    end ->
    l = Ev (Sess_Endpoint s) endpoint :: Ev Now t :: lp ++ lf ->
    http_run r s l.

Lemma handleHTTP_adds r s : adds (handleHTTP env r s) (fun _ l => http_run r s l).
Proof.
  unfold handleHTTP, do. apply adds_call. intros endpoint.
  destruct (buffer_body (rewrite endpoint r)) as [r2|e] eqn:Hb.
  2:{ apply adds_perform. intros []. by eapply http_unread. }
  apply adds_call. intros t. eapply adds_bind; [apply httpProxy_adds|]. intros o lp Hlp.
  destruct o as [sr|].
  - apply adds_call. intros t'. apply adds_call. intros []. apply adds_perform. intros [].
    eapply http_proxied; [exact Hb|exact Hlp|by exists t'|done].
  - apply adds_ret. rewrite app_nil_r.
    eapply http_proxied with (lf := []); [exact Hb|exact Hlp|done|by rewrite app_nil_r].
Qed.

Lemma final_sends_nothing (o : option statusRecorder) s t (lf : history call) :
  match o with
  | None => lf = []
  | Some sr => exists t',
      lf = [Ev Now t';
            Ev (Count (CRecordRequest "http" (fmt_d (status sr)) (sat64 (t' - t)))) tt;
            Ev (Sess_MarkActive s) tt]
  end -> omap sent lf = [] /\ omap attempt lf = [].
Proof. destruct o; [intros [t' ->]|intros ->]; done. Qed.

(** A run of the reverse proxy is a round trip, or none, and then writes to the client. *)
Lemma proxied_parts sr r o l :
  proxied sr r o l ->
  exists l1 l2, l = l1 ++ l2 /\ (l1 = [] \/ exists res, roundtrip (outgoing r) res l1) /\
    Forall is_writer l2.
Proof.
  intros (l1 & l2 & -> & Hl1 & Hw & _). exists l1, l2. split_and!; [done| |done].
  destruct Hl1 as [[-> _]|(res & l3 & Hres & _)]; eauto.
Qed.

(** What [proxied] sends: the attempts of its round trip. *)
Lemma proxied_attempts sr r o l :
  proxied sr r o l -> omap sent l = fst <$> omap attempt l.
Proof.
  intros (l1 & l2 & -> & Hl1 & Hw)%proxied_parts. rewrite !omap_app.
  rewrite (writers_send_nothing _ Hw), (writers_attempt_nothing _ Hw), !app_nil_r.
  destruct Hl1 as [->|[res Hres]]; [done|]. by destruct Hres.
Qed.

(** What is sent again is the same request. *)
Lemma retried_same r n endpoint req :
  parsed (Hdr req) -> replayable req -> same_request r req ->
  match GetBody req with Some b => Body req = Reader b None | None => True end ->
  let req2 := retried endpoint (spent n req) in
  same_request r req2 /\ Method req2 = Method req /\ URL_Path req2 = URL_Path req /\
  Body req2 = Body req.
Proof.
  intros Hp Hrep (Hm & Hpa & Hb) Hg. cbv zeta.
  destruct (retried_fields n endpoint req Hp Hrep) as (_ & Hmeth & Hpath & Hbody).
  assert (Body (retried endpoint (spent n req)) = Body req) as Heq
    by (rewrite Hbody; by destruct (GetBody req)).
  unfold same_request. rewrite Hmeth, Hpath, Heq. auto.
Qed.

(** C27. The HTTP path sends a request at most twice, each time with the client's method, path
    and whole body: again only after the first attempt failed to connect, through one
    Refresh, to the refreshed session's endpoint -- and the body is whole however much of
    it the failed attempt had read. *)
Theorem http_retries_once (r : Request) (s : session) (h : history call) :
  from_server r ->
  exists l, (handleHTTP env r s h).2 = h ++ l /\
    omap sent l = fst <$> omap attempt l /\
    Forall (same_request r) (omap sent l) /\
    match omap attempt l with
    | [] | [_] => True
    | [(r1, a); (r2, _)] =>
        (exists e, a.2 = Err e /\ isDialFailure e = true) /\
        (exists s' endpoint, omap refreshed l = [(s, s')] /\
           (s', endpoint) ∈ omap endpoint_read l /\ routed_at (MCPAddr endpoint) endpoint r2) /\
        Method r2 = Method r1 /\ URL_Path r2 = URL_Path r1 /\ Body r2 = Body r1
    | _ => False
    end.
Proof.
  intros Hr. destruct (handleHTTP_adds r s h) as (l & Hl & Hrun). exists l. split; [exact Hl|].
  clear Hl. destruct Hrun as [endpoint e Hb ->|endpoint r2 t o lp lf Hb Hlp Hf ->].
  { by repeat constructor. }
  trace. destruct (final_sends_nothing _ _ _ _ Hf) as [-> ->]. rewrite !app_nil_r.
  rewrite (proxied_attempts _ _ _ _ Hlp). split; [done|].
  apply proxied_parts in Hlp as (l1 & l2 & -> & Hl1 & Hw).
  rewrite omap_app, (writers_attempt_nothing _ Hw), app_nil_r.
  destruct Hl1 as [->|[res Hres]]; [by repeat constructor|].
  destruct (http_request_routed r s endpoint (outgoing (with_session s r2)) Hr) as
    (_ & Hp & Hs' & Hsame & Hbody); [by exists r2|].
  destruct Hres as [a n _|a n e s1 e' _ _ _ _|a n e s1 s' ep b k Ha Hd Hs Hrep];
    [by split; [apply Forall_singleton|]..|].
  rewrite Hs' in Hs. injection Hs as <-.
  destruct (retried_same r n ep _ Hp Hrep Hsame Hbody) as (Hsame2 & Heq).
  destruct (retried_fields n ep _ Hp Hrep) as (Hrt & _).
  split; [by apply Forall_cons; split; [|apply Forall_singleton]|].
  change (omap attempt _) with [(outgoing (with_session s r2), a);
    (retried ep (spent n (outgoing (with_session s r2))), b)].
  split; [by exists e|]. split; [|exact Heq].
  exists s', ep. split; [|split; [|exact Hrt]].
  - pose proof (writers_refresh_nothing _ Hw) as H2.
    assert (omap refreshed lf = []) as H3 by (destruct o; [destruct Hf as [t' ->]|rewrite Hf]; done).
    trace. rewrite H2, H3. done.
  - trace. set_solver.
Qed.

(** *** Accounting of the HTTP path *)

(** What a run counts, with the seconds if it says them, and the activity it marks. *)
Definition recorded (e : event call) : option (string * string * option Z) :=
  match ev_call e with
  | Count (CRecordRequest kind code sec) => Some (kind, code, Some sec)
  | Count (CCountRequest kind code) => Some (kind, code, None)
  | _ => None
  end.
Definition marked (e : event call) : option session :=
  match ev_call e with Sess_MarkActive s => Some s | _ => None end.
Definition clock (e : event call) : option Z :=
  match ev_call e in call A return A -> option Z with Now => Some | _ => fun _ => None end
    (ev_answer e).

Lemma record_first l s :
  status (foldl record s l) = if wroteHeader s then status s else default (status s) (head l).
Proof.
  revert s. induction l as [|c l IH]; intros s; simpl; [by case_match|].
  rewrite IH. unfold record. destruct (wroteHeader s) eqn:Hw; [by rewrite Hw|done].
Qed.

(** Nothing is counted, marked or timed. *)
Definition uncounted (l : history call) : Prop :=
  omap recorded l = [] /\ omap marked l = [] /\ omap clock l = [].

Lemma uncounted_app l1 l2 : uncounted l1 -> uncounted l2 -> uncounted (l1 ++ l2).
Proof. intros (H1 & H2 & H3) (G1 & G2 & G3). unfold uncounted. by rewrite !omap_app, H1, H2, H3. Qed.

Lemma roundtrip_writes_nothing req res l :
  roundtrip req res l -> omap written l = [] /\ uncounted l /\ ~ copy_failed l.
Proof.
  assert (forall l, Forall copies_well l -> ~ copy_failed l) as Hc by apply copies_well_all.
  destruct 1; split_and!; try done; apply Hc; by repeat constructor.
Qed.

(** The reverse proxy's own writes count nothing. *)
Lemma relays_uncounted res copied l : relays res copied l -> uncounted l.
Proof.
  assert (forall e l, error_writes e l -> uncounted l) as He.
  { intros e l'. unfold error_writes. case_match; [by intros ->|by intros [msg ->]]. }
  destruct res as [resp|e]; simpl; [|apply He]. case_match; [intros (e & _ & Hl); by eapply He|].
  by intros ->.
Qed.

Lemma interim_writes_facts codes :
  uncounted (interim_writes codes) /\ omap attempt (interim_writes codes) = [].
Proof.
  induction codes as [|code codes [(H1 & H2 & H3) H4]]; [done|].
  by repeat split.
Qed.

Lemma proxied_recorded sr r o l :
  proxied sr r o l ->
  uncounted l /\
  match o with
  | Some sr' => ~ copy_failed l /\
      status sr' = if wroteHeader sr then status sr else default (status sr) (head (omap written l))
  | None => copy_failed l
  end.
Proof.
  intros (l1 & l2 & -> & Hl1 & _ & Ho).
  assert (omap written l1 = [] /\ ~ copy_failed l1 /\ uncounted (l1 ++ l2)) as (Hw1 & Hc1 & Hu).
  { destruct Hl1 as [(-> & e & _ & He)|(res & l3 & Hres & -> & Hrel)].
    - split_and!; [done|by intros ?%elem_of_nil|]. by apply (relays_uncounted (Err e) true).
    - destruct (roundtrip_writes_nothing _ _ _ Hres) as (? & ? & ?). split_and!; [done..|].
      apply uncounted_app; [done|]. apply uncounted_app; [apply interim_writes_facts|].
      by eapply relays_uncounted. }
  split; [exact Hu|]. destruct o as [sr'|].
  - destruct Ho as [Hcw ->]. split.
    + intros [Hin|Hin]%elem_of_app; [done|]. by apply (copies_well_all l2).
    + by rewrite record_first, omap_app, Hw1.
  - apply elem_of_app. by right.
Qed.


(** *** What the client is answered on the HTTP path *)

(** What the client is sent: headers, a status, an error page, a body. *)
Inductive client_write := WHeaders (h : Header) | WCode (code : Z) | WError (code : Z) | WBody.
Definition to_client (e : event call) : option client_write :=
  match ev_call e with
  | W_Headers h => Some (WHeaders h)
  | W_WriteHeader code => Some (WCode code)
  | W_Error _ code => Some (WError code)
  | W_CopyBody => Some WBody
  | _ => None
  end.

(** What it should be sent, given the attempts of the round trip. *)
Definition client_gets (attempts : list (Request * (list Z * result error Response)))
  : list client_write :=
  map WCode (concat (map (fun a => a.2.1) attempts)) ++
  match snd <$> (snd <$> last attempts) with
  | Some (Ok resp) =>
      if StatusCode resp =? 101 then [WError 502]
      else [WHeaders (removeHopByHopHeaders (RespHeader resp)); WCode (StatusCode resp); WBody]
  | Some (Err e) => if is_context_canceled e then [] else [WError 502]
  | None => [WError 502]
  end.

Lemma roundtrip_attempts req res l :
  roundtrip req res l ->
  snd <$> (snd <$> last (omap attempt l)) = Some res.2 /\
  concat (map (fun a => a.2.1) (omap attempt l)) = res.1 /\ omap to_client l = [].
Proof. destruct 1; simpl; rewrite ?app_nil_r; done. Qed.

Lemma interim_to_client codes : omap to_client (interim_writes codes) = map WCode codes.
Proof. induction codes as [|code codes IH]; [done|]. simpl. by f_equal. Qed.

Lemma error_to_client e l :
  error_writes e l -> omap to_client l = if is_context_canceled e then [] else [WError 502].
Proof. unfold error_writes. case_match; [by intros ->|by intros [msg ->]]. Qed.

Lemma proxied_relays sr r o l : proxied sr r o l -> omap to_client l = client_gets (omap attempt l).
Proof.
  intros Hl. pose proof Hl as (l1 & l2 & -> & Hl1 & Hw & _).
  rewrite !omap_app, (writers_attempt_nothing _ Hw), app_nil_r.
  destruct Hl1 as [(-> & e & He & Hl2%error_to_client)|(res & l3 & Hres & -> & Hrel)].
  { by rewrite Hl2, He. }
  destruct (roundtrip_attempts _ _ _ Hres) as (Hlast & Hcodes & ->). unfold client_gets.
  rewrite Hcodes, Hlast, omap_app, interim_to_client. cbn [app]. f_equal.
  destruct (res.2) as [resp|e]; simpl in Hrel |- *; [|by apply error_to_client].
  case_match; [|by subst l3]. destruct Hrel as (e & He & ->%error_to_client). by rewrite He.
Qed.

(** C28. The client gets the backend's answer and nothing made up: on the HTTP path it is sent
    the interim statuses of the attempts, then the headers of the last attempt's response
    less the hop-by-hop ones, its status and its body, in that order; or a 502 when the
    last attempt failed, when the backend switches protocols unasked or when nothing could
    be sent; or nothing more when the client itself has gone. *)
Theorem http_relays (r : Request) (s : session) (h : history call) :
  exists l, (handleHTTP env r s h).2 = h ++ l /\
    omap to_client l = client_gets (omap attempt l).
Proof.
  destruct (handleHTTP_adds r s h) as (l & Hl & Hrun). exists l. split; [exact Hl|]. clear Hl.
  destruct Hrun as [endpoint e Hb ->|endpoint r2 t o lp lf Hb Hlp Hf ->]; [done|].
  rewrite !omap_cons_eq, !omap_app. cbn [to_client attempt ev_call ev_answer].
  destruct (final_sends_nothing _ _ _ _ Hf) as [_ ->].
  assert (omap to_client lf = []) as -> by (destruct o; [by destruct Hf as [t' ->]|by rewrite Hf]).
  rewrite !app_nil_r. by eapply proxied_relays.
Qed.

(** *** The WebSocket path *)

(** The life of a tunnel: the client is sent the 101, the connection is counted opened, bytes
    are copied, the connection is counted closed. *)
Inductive move := Switched | Opened (s : session) | MOpened | Copying | Closed (s : session) | MClosed.

Definition conn_move (e : event call) : option move :=
  match ev_call e in call A return A -> option move with
  | Conn_Write _ _ _ => fun err => match err with None => Some Switched | Some _ => None end
  | Sess_ConnOpened s => fun _ => Some (Opened s)
  | Sess_ConnClosed s => fun _ => Some (Closed s)
  | Count CConnOpened => fun _ => Some MOpened
  | Count (CConnClosed _ _) => fun _ => Some MClosed
  | Copy _ _ => fun _ => Some Copying
  | _ => fun _ => None
  end (ev_answer e).

(** The moves of a tunnel of [s] with [n] copies. *)
Definition tunnel_moves (s : session) (n : nat) : list move :=
  [Switched; Opened s; MOpened] ++ repeat Copying n ++ [Closed s; MClosed].

(** A connection the handler has become responsible for; one it has closed. *)
Definition acquired (e : event call) : option conn :=
  match ev_call e in call A return A -> option conn with
  | Dial _ _ => fun r => match r with Ok c => Some c | Err _ => None end
  | W_Hijack => fun r => match r with Ok (c, _) => Some c | Err _ => None end
  | _ => fun _ => None
  end (ev_answer e).
Definition closed (e : event call) : option conn :=
  match ev_call e with Conn_Close c => Some c | _ => None end.

(** The calls that connect to or send to a backend. *)
Definition outbound (e : event call) : bool :=
  match ev_call e with Transport _ | Dial _ _ | Conn_WriteRequest _ _ => true | _ => false end.
Definition inward (l : history call) : Prop := Forall (fun e => outbound e = false) l.

Definition is_copy (e : event call) : Prop :=
  match ev_call e with Copy _ _ => True | _ => False end.

Lemma pump_adds cl bk n : adds (pump env cl bk n) (fun _ l => Forall is_copy l /\ l <> []).
Proof.
  unfold pump, do. eapply adds_bind with (P := fun _ l => Forall is_copy l).
  { case_match; [|by apply adds_ret]. apply adds_perform. intros a. by repeat constructor. }
  intros hd l Hl. eapply adds_bind with (P := fun _ l => Forall is_copy l).
  { destruct (hd.2); [by apply adds_ret|]. apply adds_call. intros a. apply adds_ret.
    by repeat constructor. }
  intros c l2 Hl2. apply adds_call. intros a. apply adds_ret. rewrite !Forall_app.
  split; [split; [done|]; split; [done|]; by repeat constructor|].
  intros [_ [_ H]%app_nil]%app_nil. done.
Qed.

Lemma copies_project {B} (f : event call -> option B) l :
  (forall dst src a, f (Ev (Copy dst src) a) = None) -> Forall is_copy l -> omap f l = [].
Proof. intros Hf. apply omap_none. intros [A [] a] H; first [done|apply Hf]. Qed.

Lemma copies_are_moves l : Forall is_copy l -> omap conn_move l = repeat Copying (length l).
Proof.
  induction 1 as [|[A e a] l He Hl IH]; [done|].
  rewrite omap_cons_eq, IH. by destruct e.
Qed.

Lemma tunnel_adds s cl bk n :
  adds (tunnel env s cl bk n) (fun _ l =>
    (exists k, (0 < k)%nat /\ Switched :: omap conn_move l = tunnel_moves s k) /\
    omap acquired l = [] /\ omap refreshed l = [] /\ inward l).
Proof.
  unfold tunnel, do. do 3 (apply adds_call; intros ?).
  eapply adds_bind; [apply pump_adds|]. intros tot l [Hl Hne].
  do 6 (apply adds_call; intros ?). apply adds_perform. intros ?.
  repeat (rewrite ?omap_cons_eq, ?omap_app; cbn [conn_move acquired refreshed ev_call ev_answer]).
  rewrite (copies_are_moves _ Hl), !(copies_project _ l) by done. split_and!; [|done..|].
  - exists (length l). split; [by destruct l; [|simpl; lia]|done].
  - unfold inward. repeat (apply Forall_cons; split; [done|]). apply Forall_app. split.
    + eapply Forall_impl; [exact Hl|]. by intros [? [] ?].
    + by repeat constructor.
Qed.
Ltac ws_trace :=
  repeat (rewrite ?omap_cons_eq, ?omap_app;
          cbn [endpoint_read refreshed conn_move acquired closed ev_call ev_answer app fst snd]).

(** A run of [upgrade] for the session [s], over the connection [bk]. *)
Definition upgraded (s : session) (bk : conn) (l : history call) : Prop :=
  (omap conn_move l = [] \/ exists n, (0 < n)%nat /\ omap conn_move l = tunnel_moves s n) /\
  (forall c, c ∈ omap acquired l -> c ∈ omap closed l) /\
  omap refreshed l = [] /\
  exists endpoint r' a l',
    l = Ev (Sess_Endpoint s) endpoint :: Ev (Conn_WriteRequest bk r') a :: l' /\
    routed_at (Addr endpoint) endpoint r' /\ inward l'.

Lemma upgrade_request_routed r endpoint :
  parsed (Hdr r) ->
  let r' := routeRequest endpoint (with_url_host (Addr endpoint) (with_scheme "http" r)) in
  routed_at (Addr endpoint) endpoint
    (with_header (Header_Set (Hdr r') "X-Forwarded-For" (clientIPMust r)) r').
Proof.
  intros Hp. cbv zeta.
  pose proof (routeRequest_actor endpoint (with_url_host (Addr endpoint) (with_scheme "http" r)) Hp) as Ha.
  assert (URL_Host (routeRequest endpoint (with_url_host (Addr endpoint) (with_scheme "http" r)))
    = Addr endpoint /\ RHost (routeRequest endpoint (with_url_host (Addr endpoint) (with_scheme "http" r)))
    = Addr endpoint) as [Hu Hh] by (unfold routeRequest; by case_decide).
  split; [simpl; congruence|]. split; [done|]. apply actor_only_set; [done|exact Ha].
Qed.

(** A run that ends before anything is tunnelled, closing what it took over. *)
Lemma upgraded_early s bk endpoint r' a l :
  routed_at (Addr endpoint) endpoint r' -> omap conn_move l = [] -> omap refreshed l = [] ->
  (forall c, c ∈ omap acquired l -> c ∈ omap closed l) -> inward l ->
  upgraded s bk (Ev (Sess_Endpoint s) endpoint :: Ev (Conn_WriteRequest bk r') a :: l).
Proof. intros Hr Hm Hre Hc Hi. split_and!; [by left|done..|]. exists endpoint, r', a, l. auto. Qed.

Lemma upgrade_adds r s bk :
  parsed (Hdr r) -> adds (upgrade env r s bk) (fun _ l => upgraded s bk l).
Proof.
  intros Hp. unfold upgrade, do. apply adds_call. intros endpoint.
  pose proof (upgrade_request_routed r endpoint Hp) as Hr. cbv zeta in Hr.
  revert Hr. generalize (with_header
    (Header_Set (Hdr (routeRequest endpoint (with_url_host (Addr endpoint) (with_scheme "http" r))))
       "X-Forwarded-For" (clientIPMust r))
    (routeRequest endpoint (with_url_host (Addr endpoint) (with_scheme "http" r)))) as out. intros out Hr.
  assert (forall c, c ∈ ([] : list conn) -> c ∈ ([] : list conn)) as Hnone by done.
  apply adds_call. intros [e|].
  { apply adds_perform. intros []. apply upgraded_early; [done..|]. by repeat constructor. }
  apply adds_call. intros [resp|e].
  2:{ apply adds_call. intros []. apply adds_perform. intros [].
      apply upgraded_early; [done..|]. by repeat constructor. }
  apply adds_call. intros []. destruct (negb (StatusCode resp =? 101)).
  { do 3 (apply adds_call; intros ?). apply adds_ret. apply upgraded_early; [done..|]. by repeat constructor. }
  apply adds_call. intros [[client buffered]|e].
  2:{ apply adds_ret. apply upgraded_early; [done..|]. by repeat constructor. }
  apply adds_call. intros [e|].
  { apply (adds_bind _ _ (fun _ l => l = [])); [by apply adds_ret|]. intros [] l ->.
    apply adds_perform. intros []. apply upgraded_early; [done..| |by repeat constructor].
    ws_trace. auto. }
  eapply adds_bind; [apply tunnel_adds|]. intros [] l ((k & Hk & Hm) & Ha & Hre & Hi).
  apply adds_perform. intros []. unfold upgraded. ws_trace. rewrite Ha, Hre, !app_nil_r.
  split_and!; [right; by exists k|set_solver|done|].
  eexists endpoint, out, None, _. split; [done|]. split; [done|]. unfold inward in *.
  repeat (apply Forall_cons; split; [done|]). apply Forall_app. split; [done|by repeat constructor].
Qed.

(** An outbound call of [l] that is for the session [s']: it goes to an address of an endpoint
    read of [s'] -- the MCP one for a request, the browser's for a connection -- with no
    actor but that endpoint's; and a request is written to a connection of [s'] only. *)
Definition destined (s' : session) (l : history call) (e : event call) : Prop :=
  match ev_call e with
  | Transport r' => exists ep, (s', ep) ∈ omap endpoint_read l /\ routed_at (MCPAddr ep) ep r'
  | Dial _ addr => exists ep, (s', ep) ∈ omap endpoint_read l /\ addr = Addr ep
  | Conn_WriteRequest c r' =>
      (exists ep, (s', ep) ∈ omap endpoint_read l /\ routed_at (Addr ep) ep r') /\
      exists ctx ep, (s', ep) ∈ omap endpoint_read l /\ Ev (Dial ctx (Addr ep)) (Ok c) ∈ l
  | _ => False
  end.

(** Every outbound call of [l] is for [s], or for the session a Refresh of [s] returned. *)
Definition leaves_for (s : session) (l : history call) : Prop :=
  forall e, e ∈ l -> outbound e = true ->
    exists s', (s' = s \/ (s, s') ∈ omap refreshed l) /\ destined s' l e.

Lemma destined_mono s' l l' e :
  (forall x, x ∈ omap endpoint_read l -> x ∈ omap endpoint_read l') -> (forall x, x ∈ l -> x ∈ l') ->
  destined s' l e -> destined s' l' e.
Proof.
  intros Hr Hl. unfold destined. destruct (ev_call e); try done.
  - intros (ep & Hep & H). eauto.
  - intros (ep & Hep & H). eauto.
  - intros [(ep & Hep & H) (ctx & ep' & Hep' & H')]. eauto 10.
Qed.

Lemma leaves_for_app s l l1 l2 e :
  leaves_for s l -> e ∈ l -> outbound e = true ->
  exists s', (s' = s \/ (s, s') ∈ omap refreshed (l1 ++ l ++ l2)) /\ destined s' (l1 ++ l ++ l2) e.
Proof.
  intros Hl He Hout. destruct (Hl e He Hout) as (s' & Hs' & Hd). exists s'. split.
  - rewrite !omap_app. destruct Hs'; [by left|right; set_solver].
  - eapply destined_mono; [..|exact Hd]; [rewrite !omap_app|]; set_solver.
Qed.

(** Calls that go nowhere around a trace that is for [s]. *)
Lemma leaves_for_around s l l1 l2 : leaves_for s l -> inward l1 -> inward l2 -> leaves_for s (l1 ++ l ++ l2).
Proof.
  unfold inward. rewrite !Forall_forall. intros Hl H1 H2 e He Hout.
  apply elem_of_app in He as [He|[He|He]%elem_of_app].
  - by rewrite H1 in Hout.
  - by apply leaves_for_app.
  - by rewrite H2 in Hout.
Qed.

Lemma inward_leaves s l : inward l -> leaves_for s l.
Proof. unfold inward. rewrite Forall_forall. intros Hl e He Hout. by rewrite Hl in Hout. Qed.

Lemma ws_dial_adds r s :
  adds (ws_dial env r s) (fun res l =>
    omap conn_move l = [] /\ (res.2 = s \/ (s, res.2) ∈ omap refreshed l) /\ leaves_for s l /\
    match res.1 with
    | Ok c => omap acquired l = [c] /\
        exists ctx ep, (res.2, ep) ∈ omap endpoint_read l /\ Ev (Dial ctx (Addr ep)) (Ok c) ∈ l
    | Err _ => omap acquired l = []
    end).
Proof.
  assert (forall ctx (endpoint : Endpoint) (a : result error conn) l,
    inward l -> leaves_for s (Ev (Sess_Endpoint s) endpoint :: Ev (Dial ctx (Addr endpoint)) a :: l)) as Hone.
  { intros ctx endpoint a l Hl. apply (leaves_for_around s [_; _] [] l); [|constructor|done].
    intros e [->|[->|[]%elem_of_nil]%elem_of_cons]%elem_of_cons; [done|]. intros _. exists s.
    split; [by left|]. exists endpoint. split; [by left|done]. }
  unfold ws_dial, do. apply adds_call. intros endpoint. apply adds_call. intros [c|e].
  { apply adds_ret. ws_trace. split_and!; [done|by left|apply Hone; by constructor|done|].
    eexists _, endpoint. split; [by left|]. right. by left. }
  apply adds_call. intros []. apply adds_call. intros [fresh|e'].
  2:{ apply adds_ret. ws_trace. split_and!; [done|by left| |done]. apply Hone. by repeat constructor. }
  apply adds_call. intros ep. apply adds_call. intros second.
  eapply (adds_bind _ _ (fun _ l => match second with
    | Ok _ => l = [] | Err _ => l = [Ev (Count CBackendDialFailure) tt] end)).
  { destruct second; [by apply adds_ret|]. apply adds_perform. by intros []. }
  intros [] lc Hlc. apply adds_ret.
  set (l := Ev (Sess_Endpoint s) endpoint :: _).
  assert ((s, fresh) ∈ omap refreshed l /\ (fresh, ep) ∈ omap endpoint_read l) as [Hf Hep].
  { subst l. ws_trace. split; set_solver. }
  split_and!; [by subst l; ws_trace; destruct second; subst lc|by right| |].
  - intros x Hx Hout. assert (x = Ev (Dial (rctx r) (Addr endpoint)) (Err e) \/
      x = Ev (Dial (rctx r) (Addr ep)) second) as [->| ->].
    { subst l. rewrite !elem_of_cons, elem_of_app in Hx.
      assert (inward lc) as Hin by (destruct second; subst lc; by repeat constructor).
      unfold inward in Hin. rewrite Forall_forall in Hin.
      destruct Hx as [->|[->|[->|[->|[->|[->|[Hx|Hx%elem_of_nil]]]]]]]; auto; try done.
      by rewrite (Hin x Hx) in Hout. }
    + exists s. split; [by left|]. exists endpoint. split; [|done]. subst l. ws_trace. by left.
    + exists fresh. split; [by right|]. by exists ep.
  - destruct second as [c|e2]; subst lc l; ws_trace; [|done]. split; [done|].
    exists (rctx r), ep. split; [set_solver|]. set_solver.
Qed.


(** *** Isolation *)

Lemma handleWS_leaves r s :
  parsed (Hdr r) -> adds (handleWS env r s) (fun _ l => leaves_for s l).
Proof.
  intros Hp. unfold handleWS, do. apply adds_call. intros []; simpl.
  2:{ apply adds_perform. intros []. apply inward_leaves. by repeat constructor. }
  eapply adds_bind; [apply ws_dial_adds|]. intros [[bk|e] s'] l (_ & Hs' & Hl & Hc); simpl in *.
  - destruct Hc as (_ & ctx & ep & Hep & Hdial).
    eapply adds_bind; [by apply upgrade_adds|]. intros [] l2 (_ & _ & _ & ep' & r' & a & l' & -> & Hr' & Hi).
    apply adds_perform. intros []. unfold inward in Hi. rewrite Forall_forall in Hi.
    intros e He Hout. rewrite !elem_of_cons, !elem_of_app, !elem_of_cons in He.
    destruct He as [->|[He|[[->|[->|He]]|[->|He%elem_of_nil]]]]; try done.
    + by apply (leaves_for_app s l [_]).
    + exists s'. ws_trace. split; [destruct Hs'; [by left|right; set_solver]|].
      split; [exists ep'; ws_trace; split; [set_solver|done]|].
      exists ctx, ep. ws_trace. split; [set_solver|]. set_solver.
    + by rewrite (Hi e He) in Hout.
  - apply adds_perform. intros []. apply (leaves_for_around s l [_]); [done|by repeat constructor..].
Qed.

Lemma writers_inward l : Forall is_writer l -> inward l.
Proof. intros Hl. eapply Forall_impl; [exact Hl|]. by intros [? [] ?]. Qed.

Lemma handleHTTP_leaves r s :
  from_server r -> adds (handleHTTP env r s) (fun _ l => leaves_for s l).
Proof.
  intros Hr. eapply adds_mono; [apply handleHTTP_adds|]. intros [] l Hrun.
  destruct Hrun as [endpoint e Hb ->|endpoint r2 t o lp lf Hb Hlp Hf ->].
  { apply inward_leaves. by repeat constructor. }
  apply proxied_parts in Hlp as (l1 & l2 & -> & Hl1 & Hw%writers_inward).
  assert (inward lf) as Hlf by (destruct o; [destruct Hf as [t' ->]|rewrite Hf]; by repeat constructor).
  destruct Hl1 as [->|[res Hres]].
  { apply inward_leaves. repeat (apply Forall_cons; split; [done|]). by apply Forall_app. }
  destruct (http_request_routed r s endpoint (outgoing (with_session s r2)) Hr) as
    (Hrt & Hp & Hs & _ & _); [by exists r2|].
  enough (leaves_for s (Ev (Sess_Endpoint s) endpoint :: l1)) as H1.
  { pose proof (leaves_for_around s _ [] (Ev Now t :: l2 ++ lf) H1 ltac:(constructor)) as H2.
    intros e He Hout. destruct (H2 ltac:(constructor; [done|by apply Forall_app]) e) as (s' & Hs' & Hd);
      [set_solver|done|]. exists s'. split.
    - revert Hs'. trace. simpl. rewrite ?omap_app. set_solver.
    - eapply destined_mono; [..|exact Hd]; [trace; rewrite ?omap_app; simpl|]; set_solver. }
  assert (forall n a l, inward l -> leaves_for s (Ev (Sess_Endpoint s) endpoint ::
    Ev (Transport (outgoing (with_session s r2))) (a, n) :: l)) as Hone.
  { intros n a l Hl. apply (leaves_for_around s [_; _] [] l); [|constructor|done].
    intros e [->|[->|[]%elem_of_nil]%elem_of_cons]%elem_of_cons; [done|]. intros _. exists s.
    split; [by left|]. exists endpoint. split; [by left|done]. }
  destruct Hres as [a n _|a n e s1 e' _ _ _ _|a n e s1 s' ep b k _ _ Hs1 Hrep];
    [apply Hone; by repeat constructor..|].
  rewrite Hs in Hs1. injection Hs1 as <-.
  destruct (retried_fields n ep _ Hp Hrep) as (Hrt2 & _).
  intros x Hx Hout. rewrite !elem_of_cons in Hx.
  destruct Hx as [->|[->|[->|[->|[->|Hx%elem_of_nil]]]]]; try done.
  - exists s. split; [by left|]. exists endpoint. split; [by left|done].
  - exists s'. split; [right; trace; set_solver|]. exists ep. split; [trace; set_solver|done].
Qed.

(** Every outbound call of [l] is for the session got for the id that the client's address
    resolved to, or for one a refresh of that returned. *)
Definition attributed (r : Request) (l : history call) : Prop :=
  forall e, e ∈ l -> outbound e = true ->
    exists ip id s s',
      clientIPFromReq r = Ok ip /\ (ip, id) ∈ omap looked_up l /\ (id, s) ∈ omap session_got l /\
      (s' = s \/ (s, s') ∈ omap refreshed l) /\ destined s' l e.

Lemma inward_attributed r l : inward l -> attributed r l.
Proof. unfold inward. rewrite Forall_forall. intros Hl e He Hout. by rewrite Hl in Hout. Qed.

Lemma ServeHTTP_attributed r : from_server r -> adds (ServeHTTP env r) (fun _ l => attributed r l).
Proof.
  intros Hr. unfold ServeHTTP, do. destruct (clientIPFromReq r) as [ip|e] eqn:Hip.
  2:{ apply adds_perform. intros []. apply inward_attributed. by repeat constructor. }
  apply adds_call. intros [id|].
  2:{ apply adds_call. intros []. apply adds_perform. intros []. apply inward_attributed.
      by repeat constructor. }
  apply adds_call. intros t. apply adds_call. intros [s|e].
  2:{ apply adds_perform. intros []. apply inward_attributed. by repeat constructor. }
  apply adds_call. intros [].
  assert (adds (if isWebsocketUpgrade r then handleWS env r s else handleHTTP env r s)
    (fun _ l => leaves_for s l)) as Hl.
  { destruct (isWebsocketUpgrade r); [apply handleWS_leaves, Hr|by apply handleHTTP_leaves]. }
  eapply adds_mono; [exact Hl|]. intros [] l Hleaves e He Hout.
  rewrite !elem_of_cons in He. destruct He as [->|[->|[->|[->|He]]]]; try done.
  destruct (leaves_for_app s l [Ev (Identify_Lookup ip) (Some id); Ev Now t; Ev (Sessions_Get
    (WithTimeout (rctx r) t (60 * second)) id) (Ok s); Ev (Sess_MarkActive s) tt] [] e Hleaves He Hout)
    as (s' & Hs' & Hd). rewrite app_nil_r in Hs', Hd.
  exists ip, id, s, s'. split_and!; try done; trace; set_solver.
Qed.

(** C14. Isolation: whatever the client sends, every connection the proxy dials and every
    request that leaves it on the client's behalf goes to an address of an endpoint of the
    session got for the id its own IP address resolved to (or of the session a refresh of
    that one returned), carries no actor header but that endpoint's own, and is written to
    no connection but one dialled for that same session. *)
Theorem isolation (r : Request) (h : history call) :
  from_server r ->
  exists l, (ServeHTTP env r h).2 = h ++ l /\
    forall e, e ∈ l -> outbound e = true ->
      exists ip id s s',
        clientIPFromReq r = Ok ip /\ (ip, id) ∈ omap looked_up l /\ (id, s) ∈ omap session_got l /\
        (s' = s \/ (s, s') ∈ omap refreshed l) /\ destined s' l e.
Proof. intros Hr. exact (ServeHTTP_attributed r Hr h). Qed.

(** A request that cannot be attributed to a session is answered and nothing else
    happens: 400 without a client address, 403 when its pod is unknown, 502 when the
    session cannot be got. *)
Theorem rejections (r : Request) (h : history call) :
  match clientIPFromReq r with
  | Err _ =>
      ServeHTTP env r h = (tt, h ++ [Ev (W_Error (Errorf "cannot determine client IP" []) 400) tt])
  | Ok ip =>
      match env _ (Identify_Lookup ip) h with
      | None => exists h', ServeHTTP env r h = (tt, h') /\
          omap written (drop (length h) h') = [403] /\ length h' = (length h + 3)%nat
      | Some id =>
          forall t e, env _ Now (h ++ [Ev (Identify_Lookup ip) (Some id)]) = t ->
            env _ (Sessions_Get (WithTimeout (rctx r) t (60 * second)) id)
              ((h ++ [Ev (Identify_Lookup ip) (Some id)]) ++ [Ev Now t]) = Err e ->
            exists h', ServeHTTP env r h = (tt, h') /\
              omap written (drop (length h) h') = [502] /\ length h' = (length h + 4)%nat
      end
  end.
Proof.
  unfold ServeHTTP, do. destruct (clientIPFromReq r) as [ip|e]; [|apply perform_unit].
  destruct (env _ (Identify_Lookup ip) h) as [id|] eqn:Hl.
  - intros t e Ht Hg. rewrite (perform_then _ _ _ _ _ Hl), (perform_then _ _ _ _ _ Ht),
      (perform_then _ _ _ _ _ Hg), perform_unit.
    eexists. split; [reflexivity|].
    rewrite <- !app_assoc, drop_app_length, !length_app. split; [done|]. simpl. lia.
  - rewrite (perform_then _ _ _ _ _ Hl), io_bind_run, !perform_unit. cbn [fst snd]. eexists.
    split; [reflexivity|].
    rewrite <- !app_assoc, drop_app_length, !length_app. split; [done|]. simpl. lia.
Qed.
End proxy.

(** ** The theorems at concrete environments *)

(** The default answers of an outside world in which every call succeeds: the client is
    known as [a], its session is 0 until a refresh gives 1, dials connect, and a transport
    reads a byte of the body it is given before it fails or not. *)
Definition ok_response : Response := mkResponse 200 "HTTP/1.1 200 OK" ∅.
Definition answers (ep : Endpoint) (transport : Request -> list Z * result error Response)
    (copied : bool) : environment call :=
  fun A e h =>
    match e in call A return A with
    | Identify_Lookup _ => Some "a"
    | Sessions_Get _ _ => Ok 0%nat
    | Sessions_Refresh _ _ => Ok 1%nat
    | Sess_Endpoint _ => ep
    | Sess_MarkActive _ | Sess_ConnOpened _ | Sess_ConnClosed _ | Count _ => tt
    | Now => 0
    | Transport r => (transport r, 1%nat)
    | Dial _ _ => Ok 7%nat
    | Conn_WriteRequest _ _ => None
    | Conn_ReadResponse _ => Ok (mkResponse 101 "HTTP/1.1 101 Switching Protocols" ∅)
    | Conn_Write _ _ _ => None
    | Conn_Close _ => tt
    | Copy _ _ => (10, None)
    | W_Error _ _ | W_WriteHeader _ | W_Headers _ => tt
    | W_CopyBody => copied
    | W_CanHijack => true
    | W_Hijack => Ok (8%nat, 0)
    end.

Definition dial_failed : error := OpError "dial" (NewError "connection refused").
Definition pod_ep : Endpoint := mkEndpoint "10.0.0.7" "default/a" 9222 8931.
Definition post (h : Header) : Request :=
  mkRequest "POST" "" "" "/mcp" "proxy" "/mcp" h (Reader (to_chars "{}") None) 2 None
    "10.0.0.1:5000" Background None.

Lemma post_from_server h : parsed h -> from_server (post h).
Proof. intros Hp. split; [exact Hp|]. split; [done|]. discriminate. Qed.

Lemma parsed_empty : parsed ∅.
Proof. intros k [v Hv]. discriminate Hv. Qed.

Definition refused (r : Request) : list Z * result error Response := ([], Err dial_failed).

Lemma isolation_witness :
  exists l, (ServeHTTP (answers pod_ep refused true) (post ∅) []).2 = l /\
    length (List.filter outbound l) = 2%nat /\
    forall e, e ∈ l -> outbound e = true -> exists ip id s s',
      clientIPFromReq (post ∅) = Ok ip /\ (ip, id) ∈ omap looked_up l /\
      (id, s) ∈ omap session_got l /\ (s' = s \/ (s, s') ∈ omap refreshed l) /\ destined s' l e.
Proof.
  destruct (isolation (answers pod_ep refused true) (post ∅) [] (post_from_server ∅ parsed_empty))
    as (l & Hl & H).
  exists l. split; [exact Hl|]. split; [|exact H].
  change ([] ++ l) with l in Hl. rewrite <- Hl. vm_compute. reflexivity.
Defined.

(** The first attempt reads a byte of the body, and the second still sends it whole. *)
Lemma http_retries_once_witness :
  exists l, (handleHTTP (answers pod_ep refused true) (post ∅) 0%nat []).2 = l /\
    length (omap attempt l) = 2%nat /\ Forall (same_request (post ∅)) (omap sent l).
Proof.
  destruct (http_retries_once (answers pod_ep refused true) (post ∅) 0%nat []
    (post_from_server ∅ parsed_empty)) as (l & Hl & _ & H & _).
  exists l. split; [exact Hl|]. split; [|exact H].
  change ([] ++ l) with l in Hl. rewrite <- Hl. vm_compute. reflexivity.
Defined.


Lemma buffer_body_preserves_witness :
  exists e, buffer_body (with_body (Reader (to_chars "abc") (Some (NewError "reset"))) None (post ∅)) = Err e.
Proof.
  pose proof (buffer_body_preserves
    (with_body (Reader (to_chars "abc") (Some (NewError "reset"))) None (post ∅)) (to_chars "abc")
    (Some (NewError "reset")) eq_refl eq_refl) as H.
  destruct (buffer_body (with_body (Reader (to_chars "abc") (Some (NewError "reset"))) None (post ∅)))
    as [r'|e].
  - exfalso. destruct (decide _) as [Hd|Hd] in H.
    + destruct H as [H _]. discriminate H.
    + apply Hd. discriminate.
  - exists e. reflexivity.
Defined.

(** ** Behaviours the code does not intend *)

(** A response preceded by an interim one is recorded under the interim status: some
    round trip is answered 200 to the client and counted as 103. *)
Theorem interim_status_recorded :
  exists (env : environment call) (r : Request) (s : session),
    let l := (handleHTTP env r s []).2 in
    last (omap written l) = Some 200 /\ omap recorded l = [("http", "103", Some 0)].
Proof.
  exists (answers pod_ep (fun _ => ([103], Ok ok_response)) true), (post ∅), 0%nat.
  vm_compute. done.
Qed.

(** A client that names the actor header in its Connection header makes the request
    leave without the actor of its session's endpoint. *)
Theorem connection_header_drops_actor :
  exists (env : environment call) (r : Request) (s : session) (endpoint : Endpoint),
    from_server r /\ TargetActor endpoint <> EmptyString /\
    let l := (handleHTTP env r s []).2 in
    (s, endpoint) ∈ omap endpoint_read l /\
    exists r', omap sent l = [r'] /\ Hdr r' !! "Ate-Target-Actor" = None.
Proof.
  set (h := Header_Set ∅ "Connection" "ate-target-actor").
  exists (answers pod_ep (fun _ => ([], Ok ok_response)) true), (post h), 0%nat, pod_ep.
  split; [apply post_from_server, parsed_set, parsed_empty|]. split; [done|]. cbv zeta.
  split; [vm_compute; by left|]. eexists. split; vm_compute; reflexivity.
Qed.
