(* ===== verification/Tunnel.v ===== *)
(** * The WebSocket tunnel ([internal/proxy/proxy.go], the end of [handleWS])

    Two goroutines copy in opposite directions over two connections while the handler waits
    for the first of them, closes both connections and waits for the other.  Here they run
    concurrently, at the granularity of one Read, Write, atomic add, channel operation or
    Close, and the bytes they move are tracked.  [Proxy.pump], which the handlers of [Proxy]
    are written with, is the same code with one goroutine after the other;
    [tunnel_counts_bytes] relates the two. *)

From S2P Require Import Prelude GoStd Effects Backend Metrics Proxy.
Local Open Scope Z_scope.

(** ** Data *)

(** Client to backend, backend to client. *)
Inductive dir := C2B | B2C.

#[export] Instance dir_eq_dec : EqDecision dir.
Proof. solve_decision. Defined.

Definition rev_dir (d : dir) : dir := match d with C2B => B2C | B2C => C2B end.

(** How a Read can end a copy. *)
Inductive read_end := EOF | Failed (e : error).

Definition ErrClosed : error := NewError "use of closed network connection".
Definition ErrShortWrite : error := NewError "short write".
Definition errEOF : error := NewError "EOF".

(** The copy a goroutine is in: [io.CopyN] of the [n] bytes the hijacked reader holds, or
    [io.Copy]. *)
Inductive stage := Drain (n : Z) | Stream.

(** Where a goroutine is: before the Read or the Write of the loop of [io.Copy], after the
    copy has returned, before the send, returned. *)
Inductive pc :=
| AtRead
| AtWrite (chunk : bytes) (er : option read_end)
| AtAdd (err : option error)
| AtSend (err : option error)
| Exited (err : option error).

(** A copying goroutine and its atomic counter.  [c_wire] is what its destination has
    accepted and [c_calls] what its copies have returned. *)
Record copier := mkCopier {
  c_stage : stage;
  c_pc : pc;
  c_ahead : bytes; (* what the reader holds that the connection is read through *)
  c_copied : Z; (* io.Copy's written *)
  c_total : Z; (* the variable c2b or b2c *)
  c_wire : bytes;
  c_calls : list (Z * option error);
}.

(** Where the handler is. *)
Inductive mpc :=
| AwaitFirst
| CloseClient
| CloseBackend
| AwaitSecond
| Report (* the deferred function *)
| Finished (c2b b2c : Z).

Record splice := mkSplice {
  client_closed : bool;
  backend_closed : bool;
  t_c2b : copier;
  t_b2c : copier;
  errc : list (option error);
  handler : mpc;
}.

Definition copier_of (d : dir) (t : splice) : copier :=
  match d with C2B => t_c2b t | B2C => t_b2c t end.

Definition with_copier (d : dir) (c : copier) (ch : list (option error)) (t : splice) : splice :=
  match d with
  | C2B => mkSplice (client_closed t) (backend_closed t) c (t_b2c t) ch (handler t)
  | B2C => mkSplice (client_closed t) (backend_closed t) (t_c2b t) c ch (handler t)
  end.

Definition src_closed (d : dir) (t : splice) : bool :=
  match d with C2B => client_closed t | B2C => backend_closed t end.
Definition dst_closed (d : dir) (t : splice) : bool := src_closed (rev_dir d) t.

(** ** The copying goroutines *)

(** What the outside decides in a step: how much of what a reader holds one Read takes, what
    an open connection's Read or Write returns, or nothing. *)
Inductive answer :=
| Tau
| Buffered (k : nat)
| Received (chunk : bytes) (er : option read_end)
| Sent (nw : nat) (ew : option error).

Definition at_pc (p : pc) (c : copier) : copier :=
  mkCopier (c_stage c) p (c_ahead c) (c_copied c) (c_total c) (c_wire c) (c_calls c).

(** Read on a connection; a closed one fails. *)
Definition conn_read (closed : bool) (a : answer) : option (bytes * option read_end) :=
  match a with
  | Received chunk er => if closed then None else Some (chunk, er)
  | Tau => if closed then Some ([], Some (Failed ErrClosed)) else None
  | _ => None
  end.

(** Read on what a [bufio.Reader] holds. *)
Definition buf_read (ahead : bytes) (a : answer) : option (bytes * bytes) :=
  match a with
  | Buffered k => if bool_decide (0 < k <= length ahead)%nat
                  then Some (take k ahead, drop k ahead) else None
  | _ => None
  end.

(** The source of each copy: [CopyN]'s limited reader, which is at its end when the bytes
    that were buffered are read; the client's connection; [backendBr], which holds bytes
    read past the response headers. *)
Definition source_read (d : dir) (closed : bool) (c : copier) (a : answer)
  : option (bytes * option read_end * bytes) :=
  let through r := '(chunk, ahead) ← r; Some (chunk, None, ahead) in
  let direct r := '(chunk, er) ← r; Some (chunk, er, c_ahead c) in
  match c_stage c, d with
  | Drain _, _ =>
      match c_ahead c, a with
      | [], Tau => Some ([], Some EOF, [])
      | [], _ => None
      | ahead, _ => through (buf_read ahead a)
      end
  | Stream, C2B => direct (conn_read closed a)
  | Stream, B2C =>
      match c_ahead c with
      | [] => direct (conn_read closed a)
      | ahead => through (buf_read ahead a)
      end
  end.

(** Write: on a closed connection it fails, perhaps after a part. *)
Definition conn_write (closed : bool) (chunk : bytes) (a : answer) : option (nat * option error) :=
  match a with
  | Sent nw ew =>
      if bool_decide (nw <= length chunk)%nat && (negb closed || bool_decide (is_Some ew))
      then Some (nw, ew) else None
  | _ => None
  end.

(** The end of a round of [io.Copy]. *)
Definition after_read (er : option read_end) : pc :=
  match er with
  | None => AtRead
  | Some EOF => AtAdd None
  | Some (Failed e) => AtAdd (Some e)
  end.

Definition on_read (chunk : bytes) (er : option read_end) : pc :=
  match chunk with [] => after_read er | _ => AtWrite chunk er end.

Definition after_write (chunk : bytes) (er : option read_end) (nw : nat) (ew : option error) : pc :=
  match ew with
  | Some e => AtAdd (Some e)
  | None => if bool_decide (nw = length chunk) then after_read er else AtAdd (Some ErrShortWrite)
  end.

(** [io.CopyN]'s error, from [io.Copy]'s. *)
Definition copyN_err (n written : Z) (err : option error) : option error :=
  if written =? n then None
  else match err with
       | None => if written <? n then Some errEOF else None
       | Some e => Some e
       end.

(** One step of a goroutine: it and what it sends on [errc]. *)
Definition copier_step (d : dir) (src dst room : bool) (c : copier) (a : answer)
  : option (copier * list (option error)) :=
  match c_pc c with
  | AtRead =>
      '(chunk, er, ahead) ← source_read d src c a;
      Some (mkCopier (c_stage c) (on_read chunk er) ahead (c_copied c) (c_total c) (c_wire c) (c_calls c), [])
  | AtWrite chunk er =>
      '(nw, ew) ← conn_write dst chunk a;
      Some (mkCopier (c_stage c) (after_write chunk er nw ew) (c_ahead c)
              (wrap64 (c_copied c + Z.of_nat nw)) (c_total c) (c_wire c ++ take nw chunk)
              (c_calls c), [])
  | AtAdd err =>
      match a with
      | Tau =>
          let total := wrap64 (c_total c + c_copied c) in
          match c_stage c with
          | Drain n =>
              let err := copyN_err n (c_copied c) err in
              let calls := c_calls c ++ [(c_copied c, err)] in
              match err with
              | Some e => Some (mkCopier (Drain n) (AtSend (Some e)) (c_ahead c) (c_copied c) total
                                  (c_wire c) calls, [])
              | None => Some (mkCopier Stream AtRead (c_ahead c) 0 total (c_wire c) calls, [])
              end
          | Stream =>
              Some (mkCopier Stream (AtSend err) (c_ahead c) (c_copied c) total (c_wire c)
                      (c_calls c ++ [(c_copied c, err)]), [])
          end
      | _ => None
      end
  | AtSend err =>
      match a with
      | Tau => if room then Some (at_pc (Exited err) c, [err]) else None
      | _ => None
      end
  | Exited _ => None
  end.

(** ** The handler *)

Definition with_handler (m : mpc) (ch : list (option error)) (t : splice) : splice :=
  mkSplice (client_closed t) (backend_closed t) (t_c2b t) (t_b2c t) ch m.

Definition handler_step (t : splice) : option splice :=
  match handler t with
  | AwaitFirst =>
      match errc t with _ :: ch => Some (with_handler CloseClient ch t) | [] => None end
  | CloseClient => Some (mkSplice true (backend_closed t) (t_c2b t) (t_b2c t) (errc t) CloseBackend)
  | CloseBackend => Some (mkSplice (client_closed t) true (t_c2b t) (t_b2c t) (errc t) AwaitSecond)
  | AwaitSecond =>
      match errc t with _ :: ch => Some (with_handler Report ch t) | [] => None end
  | Report => Some (with_handler (Finished (c_total (t_c2b t)) (c_total (t_b2c t))) (errc t) t)
  | Finished _ _ => None
  end.

(** ** The three together *)

Inductive label :=
| Copying (d : dir) (a : answer)
| Handling.

Definition tstep (l : label) (t : splice) : option splice :=
  match l with
  | Copying d a =>
      '(c, sent) ← copier_step d (src_closed d t) (dst_closed d t)
                     (bool_decide (length (errc t) < 2)%nat) (copier_of d t) a;
      Some (with_copier d c (errc t ++ sent) t)
  | Handling => handler_step t
  end.

Fixpoint trun (ls : list label) (t : splice) : option splice :=
  match ls with [] => Some t | l :: ls => t' ← tstep l t; trun ls t' end.

(** The two goroutines are started: [head] is what the hijacked reader holds, [rest] what
    [backendBr] holds past the response headers. *)
Definition start_copier (s : stage) (ahead : bytes) : copier := mkCopier s AtRead ahead 0 0 [] [].

Definition start (head rest : bytes) : splice :=
  mkSplice false false
    (start_copier (match head with [] => Stream | _ => Drain (Z.of_nat (length head)) end) head)
    (start_copier Stream rest) [] AwaitFirst.

(** What the reads of a direction's connection returned in a run. *)
Definition received (d : dir) (ls : list label) : bytes :=
  mjoin (omap (fun l => match l with
                        | Copying d' (Received chunk _) => if decide (d' = d) then Some chunk else None
                        | _ => None
                        end) ls).

(** The bytes a direction has to carry. *)
Definition to_carry (head rest : bytes) (d : dir) (ls : list label) : bytes :=
  match d with C2B => head | B2C => rest end ++ received d ls.

(** The goroutine has added its last count; how it has returned. *)
Definition counted (p : pc) : bool :=
  match p with AtSend _ | Exited _ => true | _ => false end.
Definition exited (p : pc) : option (option error) :=
  match p with Exited e => Some e | _ => None end.
