(* ===== verification/TunnelFacts.v ===== *)
(** * Facts about the tunnel

    The steps of a copying goroutine one by one, the invariants of a run (what each direction
    has carried, what the counters hold, who has exited), and the runs once the connections
    are closed. *)

From S2P Require Import Prelude GoStd Effects Backend Metrics Proxy Tunnel.
Local Open Scope Z_scope.

(** ** Counters *)

Lemma wrap64_add x y : wrap64 (wrap64 x + y) = wrap64 (x + y).
Proof.
  unfold wrap64, wrap. f_equal.
  replace ((x + 2 ^ (64 - 1)) mod 2 ^ 64 - 2 ^ (64 - 1) + y + 2 ^ (64 - 1))
    with ((x + 2 ^ (64 - 1)) mod 2 ^ 64 + y) by lia.
  rewrite Z.add_mod_idemp_l by lia. f_equal. lia.
Qed.

Lemma wrap64_add_r x y : wrap64 (x + wrap64 y) = wrap64 (x + y).
Proof. by rewrite Z.add_comm, wrap64_add, Z.add_comm. Qed.

(** ** The steps of a goroutine *)

Section moves.
Context (d : dir) (src dst room : bool).

Definition reading (p : pc) (ahead : bytes) (c : copier) : copier :=
  mkCopier (c_stage c) p ahead (c_copied c) (c_total c) (c_wire c) (c_calls c).

Definition adding (s : stage) (p : pc) (copied : Z) (err : option error) (c : copier) : copier :=
  mkCopier s p (c_ahead c) copied (wrap64 (c_total c + c_copied c)) (c_wire c)
    (c_calls c ++ [(c_copied c, err)]).

Inductive move (c : copier) : answer -> copier -> list (option error) -> Prop :=
| m_limit n :
    c_pc c = AtRead -> c_stage c = Drain n -> c_ahead c = [] ->
    move c Tau (reading (AtAdd None) [] c) []
| m_buffered k :
    c_pc c = AtRead -> (c_stage c = Stream -> d = B2C) -> (0 < k <= length (c_ahead c))%nat ->
    move c (Buffered k) (reading (on_read (take k (c_ahead c)) None) (drop k (c_ahead c)) c) []
| m_received chunk er :
    c_pc c = AtRead -> c_stage c = Stream -> (d = B2C -> c_ahead c = []) -> src = false ->
    move c (Received chunk er) (reading (on_read chunk er) (c_ahead c) c) []
| m_closed :
    c_pc c = AtRead -> c_stage c = Stream -> (d = B2C -> c_ahead c = []) -> src = true ->
    move c Tau (reading (AtAdd (Some ErrClosed)) (c_ahead c) c) []
| m_write chunk er nw ew :
    c_pc c = AtWrite chunk er -> (nw <= length chunk)%nat -> (dst = true -> is_Some ew) ->
    move c (Sent nw ew)
      (mkCopier (c_stage c) (after_write chunk er nw ew) (c_ahead c)
         (wrap64 (c_copied c + Z.of_nat nw)) (c_total c) (c_wire c ++ take nw chunk) (c_calls c)) []
| m_drained n err :
    c_pc c = AtAdd err -> c_stage c = Drain n -> copyN_err n (c_copied c) err = None ->
    move c Tau (adding Stream AtRead 0 None c) []
| m_drain_failed n err e :
    c_pc c = AtAdd err -> c_stage c = Drain n -> copyN_err n (c_copied c) err = Some e ->
    move c Tau (adding (Drain n) (AtSend (Some e)) (c_copied c) (Some e) c) []
| m_copied err :
    c_pc c = AtAdd err -> c_stage c = Stream ->
    move c Tau (adding Stream (AtSend err) (c_copied c) err c) []
| m_send err :
    c_pc c = AtSend err -> room = true ->
    move c Tau (at_pc (Exited err) c) [err].

Lemma conn_read_move closed a chunk er :
  conn_read closed a = Some (chunk, er) ->
  (closed = false /\ a = Received chunk er) \/
  (closed = true /\ a = Tau /\ chunk = [] /\ er = Some (Failed ErrClosed)).
Proof. destruct a, closed; naive_solver. Qed.

Lemma buf_read_move ahead a chunk ahead' :
  buf_read ahead a = Some (chunk, ahead') ->
  exists k, a = Buffered k /\ (0 < k <= length ahead)%nat /\ chunk = take k ahead /\ ahead' = drop k ahead.
Proof. destruct a; simpl; try done. case_bool_decide; naive_solver. Qed.

Lemma source_read_move c a chunk er ahead :
  c_pc c = AtRead -> source_read d src c a = Some (chunk, er, ahead) ->
  move c a (reading (on_read chunk er) ahead c) [].
Proof.
  intros Hpc H.
  assert (forall r, (forall chunk er, conn_read src a = Some (chunk, er) -> r = Some (chunk, er, c_ahead c)) ->
    (conn_read src a = None -> r = None) -> r = Some (chunk, er, ahead) -> c_stage c = Stream ->
    (d = B2C -> c_ahead c = []) -> move c a (reading (on_read chunk er) ahead c) []) as Hdirect.
  { intros r Hr Hn Hsome Hst Hah. destruct (conn_read src a) as [[chunk' er']|] eqn:Hc;
      [|by rewrite Hn in Hsome]. rewrite (Hr _ _ eq_refl) in Hsome. simplify_eq.
    destruct (conn_read_move _ _ _ _ Hc) as [[? ->]|(? & -> & -> & ->)];
      [by apply m_received|by apply m_closed]. }
  assert (forall k, (0 < k <= length (c_ahead c))%nat -> a = Buffered k ->
    (c_stage c = Stream -> d = B2C) -> chunk = take k (c_ahead c) -> er = None ->
    ahead = drop k (c_ahead c) -> move c a (reading (on_read chunk er) ahead c) []) as Hbuf.
  { intros k Hk -> Hst -> -> ->. by apply m_buffered. }
  unfold source_read in H. destruct (c_stage c) as [n|] eqn:Hst; [|destruct d eqn:Hd].
  - destruct (c_ahead c) as [|b l] eqn:Ha.
    { destruct a; simplify_eq/=. by eapply m_limit. }
    destruct (buf_read (b :: l) a) as [[chunk' ahead']|] eqn:Hb; simplify_eq/=.
    apply buf_read_move in Hb as (k & -> & Hk & -> & ->). by eapply Hbuf.
  - eapply (Hdirect _ _ _ H); [done|discriminate].
    Unshelve.
    + intros chunk' er' ->. reflexivity.
    + intros ->. reflexivity.
  - destruct (c_ahead c) as [|b l] eqn:Ha.
    + eapply (Hdirect _ _ _ H); done.
      Unshelve.
      * intros chunk' er' ->. reflexivity.
      * intros ->. reflexivity.
    + destruct (buf_read (b :: l) a) as [[chunk' ahead']|] eqn:Hb; simplify_eq/=.
      apply buf_read_move in Hb as (k & -> & Hk & -> & ->). by eapply Hbuf.
Qed.

Lemma copier_step_move c a c' sent :
  copier_step d src dst room c a = Some (c', sent) -> move c a c' sent.
Proof.
  unfold copier_step. intros H. destruct (c_pc c) as [|chunk er|err|err|err] eqn:Hpc; [..|done].
  - destruct (source_read d src c a) as [[[chunk er] ahead]|] eqn:Hr; simplify_eq/=.
    by apply source_read_move.
  - destruct (conn_write dst chunk a) as [[nw ew]|] eqn:Hw; simplify_eq/=.
    destruct a as [| | |nw' ew']; simplify_eq/=. case_match eqn:Hb; simplify_eq.
    apply andb_true_iff in Hb as [Hle%bool_decide_eq_true Hc]. apply m_write; [done..|].
    intros Hd. rewrite Hd in Hc. by apply bool_decide_eq_true in Hc.
  - destruct a; simplify_eq/=. destruct (c_stage c) as [n|] eqn:Hst.
    + destruct (copyN_err n (c_copied c) err) eqn:He; simplify_eq;
        [by eapply m_drain_failed|by eapply m_drained].
    + simplify_eq. by apply m_copied.
  - destruct a; simplify_eq/=. destruct room eqn:Hroom; simplify_eq. by apply m_send.
Qed.
End moves.

(** ** What a goroutine has carried *)

(** What it has read and not written. *)
Definition in_hand (c : copier) (lost : bytes) : Prop :=
  match c_pc c with
  | AtRead => lost = []
  | AtWrite chunk er => lost = chunk /\ (er <> None -> c_ahead c = [])
  | AtAdd err | AtSend err | Exited err => err = None -> lost = [] /\ c_ahead c = []
  end.

(** [stream] is what there was to read. *)
Definition carries (stream : bytes) (c : copier) : Prop :=
  exists lost, stream = c_wire c ++ lost ++ c_ahead c /\ in_hand c lost.

Definition added (c : copier) : Prop :=
  in_int64 (c_copied c) /\
  wrap64 (c_total c + if counted (c_pc c) then 0 else c_copied c)
  = wrap64 (Z.of_nat (length (c_wire c))).

(** The results of the copies: with [n] bytes to drain first, or none. *)
Definition first_copy (n : Z) (calls : list (Z * option error)) : Prop :=
  if n =? 0 then calls = [] else exists k, calls = [(k, None)].

Definition copies (n : Z) (c : copier) : Prop :=
  c_total c = foldl (fun t r => wrap64 (t + r.1)) 0 (c_calls c) /\
  match c_stage c with
  | Drain m => n <> 0 /\ exists k e,
      c_calls c = if counted (c_pc c) then [(k, Some e)] else []
  | Stream => exists pre k,
      first_copy n pre /\ c_calls c = pre ++ if counted (c_pc c) then [k] else []
  end.

(** [d] drains the [head] it was started with, then streams. *)
Definition staged (d : dir) (head recv : bytes) (c : copier) : Prop :=
  match c_stage c with
  | Drain n => d = C2B /\ n = Z.of_nat (length head) /\ recv = []
  | Stream => (d = C2B -> c_ahead c = []) /\ (c_ahead c <> [] -> recv = [])
  end.

Definition to_drain (d : dir) (head : bytes) : Z :=
  match d with C2B => Z.of_nat (length head) | B2C => 0 end.

Record copier_ok (d : dir) (head recv : bytes) (c : copier) : Prop := {
  ok_carries : carries (head ++ recv) c;
  ok_added : added c;
  ok_copies : copies (to_drain d head) c;
  ok_staged : staged d head recv c;
}.

Definition got (a : answer) : bytes := match a with Received chunk _ => chunk | _ => [] end.

Section preserved.
Context (d : dir) (src dst room : bool) (head : bytes).

Definition start_of : copier :=
  start_copier (match d, head with C2B, _ :: _ => Drain (Z.of_nat (length head)) | _, _ => Stream end) head.

Lemma start_copier_ok : copier_ok d head [] start_of.
Proof.
  unfold start_of. split.
  - exists []. by rewrite app_nil_r.
  - split; [done|]. by destruct d, head.
  - split; [done|]. unfold first_copy. destruct d, head; simpl; try by exists [], (0, None).
    split; [done|]. by exists 0, ErrClosed.
  - unfold staged. destruct d, head; simpl; done.
Qed.

Context (Hhead : Z.of_nat (length head) <= int64_max).

(** A drain ends well only when everything buffered has been written. *)
Lemma drained_all c n err recv :
  copier_ok d head recv c -> c_pc c = AtAdd err -> c_stage c = Drain n ->
  copyN_err n (c_copied c) err = None -> recv = [] /\ c_wire c = head /\ c_ahead c = [].
Proof.
  intros [(lost & Hs & Hl) [Hin Ha] [Ht Hc] Hst] Hpc Hstage He.
  unfold staged in *. rewrite Hpc, ?Hstage in *. destruct Hst as (_ & -> & ->), Hc as (_ & k & e1 & Hc).
  simpl in *.
  rewrite Hc in Ht. simpl in Ht. rewrite Ht, Z.add_0_l, wrap64_id in Ha by done.
  rewrite app_nil_r in Hs. pose proof (f_equal length Hs) as Hlen. rewrite !length_app in Hlen.
  rewrite wrap64_id in Ha by (unfold in_int64, int64_min; lia).
  assert (lost = [] /\ c_ahead c = []) as [-> Hah].
  { unfold copyN_err in He. destruct (Z.eqb_spec (c_copied c) (Z.of_nat (length head))) as [Heq|Hne].
    - assert (length lost = 0 /\ length (c_ahead c) = 0)%nat as [?%nil_length_inv ?%nil_length_inv] by lia.
      done.
    - destruct err as [e|]; [done|]. destruct (Z.ltb_spec (c_copied c) (Z.of_nat (length head))); [done|lia]. }
  rewrite Hah in *. by rewrite !app_nil_r in Hs.
Qed.

Lemma carries_read c chunk er ahead recv recv' :
  c_pc c = AtRead -> head ++ recv = c_wire c ++ c_ahead c ->
  head ++ recv' = c_wire c ++ chunk ++ ahead -> (er <> None -> ahead = []) ->
  carries (head ++ recv') (reading (on_read chunk er) ahead c).
Proof.
  intros Hpc Hs Hs' Her. exists chunk. split; [done|]. unfold in_hand, on_read. simpl.
  destruct chunk; [|done]. destruct er as [[]|]; simpl; [|done..]. intros _. split; [done|by apply Her].
Qed.

Lemma carries_move c a c' sent recv :
  move d src dst room c a c' sent -> copier_ok d head recv c ->
  carries (head ++ recv ++ got a) c'.
Proof.
  intros Hm Hok. pose proof (ok_carries _ _ _ _ Hok) as (lost & Hs & Hl).
  pose proof (ok_staged _ _ _ _ Hok) as Hst. unfold in_hand, staged in *.
  destruct Hm as [n Hpc Hstage Hah|k Hpc Hstage Hk|chunk er Hpc Hstage Hah Hsrc|Hpc Hstage Hah Hsrc
    |chunk er nw ew Hpc Hnw Hdst|n err Hpc Hstage He|n err e Hpc Hstage He|err Hpc Hstage|err Hpc Hroom];
    rewrite Hpc in *; try match type of Hstage with _ = _ => rewrite Hstage in * end;
    simpl; rewrite ?app_nil_r in *.
  - exists []. subst lost. split; [by rewrite Hs, Hah|done].
  - subst lost. eapply carries_read; [done|done| |done]. by rewrite take_drop.
  - subst lost. assert (c_ahead c = []) as Hah' by (destruct d; [by apply Hst|by apply Hah]).
    eapply carries_read; [done|exact Hs| |done].
    rewrite Hah', app_nil_r in *. rewrite (assoc app), Hs. done.
  - subst lost. exists []. split; [done|]. intros [=].
  - destruct Hl as [-> Her]. exists (drop nw chunk). simpl. split.
    { rewrite Hs, <- !(assoc app). f_equal. rewrite (assoc app), take_drop. done. }
    unfold in_hand, after_write. simpl. destruct ew as [e|]; [done|].
    case_bool_decide; [|done]. subst nw. rewrite drop_all.
    destruct er as [[]|]; simpl; [|done..]. intros _. split; [done|by apply Her].
  - destruct (drained_all c n err recv Hok Hpc Hstage He) as (-> & Hw & Hah).
    exists []. simpl. by rewrite Hw, Hah, !app_nil_r.
  - exists lost. by split.
  - exists lost. by split.
  - exists lost. by split.
Qed.

Lemma on_read_counted chunk er : counted (on_read chunk er) = false.
Proof. by destruct chunk, er as [[]|]. Qed.
Lemma after_write_counted chunk er nw ew : counted (after_write chunk er nw ew) = false.
Proof. unfold after_write. destruct ew; [done|]. case_bool_decide; [|done]. by destruct er as [[]|]. Qed.

Lemma added_move c a c' sent recv :
  move d src dst room c a c' sent -> copier_ok d head recv c -> added c'.
Proof.
  intros Hm Hok. pose proof (ok_added _ _ _ _ Hok) as [Hin Ha]. unfold added.
  destruct Hm; simpl; rewrite ?on_read_counted, ?after_write_counted;
    match goal with H : c_pc c = _ |- _ => rewrite H in Ha; simpl in Ha end; try by split.
  { split; [apply wrap64_range|].
    rewrite length_app, length_take, Nat.min_l, Nat2Z.inj_add by done.
    rewrite wrap64_add_r, Z.add_assoc, <- wrap64_add, Ha, wrap64_add. done. }
  all: split; [done|]; by rewrite wrap64_add, Z.add_0_r.
Qed.

Lemma copies_move c a c' sent recv :
  move d src dst room c a c' sent -> copier_ok d head recv c -> copies (to_drain d head) c'.
Proof.
  intros Hm Hok. pose proof (ok_copies _ _ _ _ Hok) as [Ht Hc]. unfold copies in *.
  assert (forall x, wrap64 (c_total c + x.1)
    = foldl (fun t r => wrap64 (t + r.1)) 0 (c_calls c ++ [x : Z * option error])) as Hadd
    by (intros x; by rewrite Ht, foldl_app).
  destruct Hm as [? Hpc|? Hpc|? ? Hpc|Hpc|? ? ? ? Hpc|n err Hpc Hstage He|n err e Hpc Hstage He|err Hpc Hstage|err Hpc];
    simpl; rewrite ?on_read_counted, ?after_write_counted;
    rewrite Hpc, ?Hstage in Hc; simpl in Hc; try by split.
  - destruct Hc as (Hn & _ & _ & Hc). split; [apply (Hadd (_, _))|].
    exists [(c_copied c, None)], (0, None). rewrite Hc. split; [|done]. unfold first_copy.
    destruct (Z.eqb_spec (to_drain d head) 0); [done|]. by eexists.
  - destruct Hc as (Hn & _ & _ & Hc). split; [apply (Hadd (_, _))|].
    split; [done|]. exists (c_copied c), e. by rewrite Hc.
  - destruct Hc as (pre & k & Hpre & Hc). split; [apply (Hadd (_, _))|].
    exists pre, (c_copied c, err). by rewrite Hc, app_nil_r.
Qed.

Lemma staged_move c a c' sent recv :
  move d src dst room c a c' sent -> copier_ok d head recv c -> staged d head (recv ++ got a) c'.
Proof.
  intros Hm Hok. pose proof (ok_staged _ _ _ _ Hok) as Hst. unfold staged in *.
  destruct Hm as [n Hpc Hstage Hah|k Hpc Hstage Hk|chunk er Hpc Hstage Hah|Hpc Hstage|chunk er nw ew Hpc
    |n err Hpc Hstage He|n err e Hpc Hstage He|err Hpc Hstage|err Hpc];
    simpl; rewrite ?app_nil_r;
    try match type of Hstage with _ = _ => rewrite Hstage in Hst; try rewrite Hstage end;
    try done.
  - destruct (c_stage c) in *; [done|]. rewrite (Hstage eq_refl) in *. split; [done|]. intros _.
    destruct Hst as [_ Hst]. apply Hst. intros Hnil. rewrite Hnil in Hk. simpl in Hk. lia.
  - split; [apply Hst|]. intros Hne. exfalso. apply Hne.
    destruct d; [by apply Hst|by apply Hah].
  - destruct (drained_all c n err recv Hok Hpc Hstage He) as (-> & _ & Hah). done.
Qed.

Lemma copier_ok_step c a c' sent recv :
  copier_step d src dst room c a = Some (c', sent) -> copier_ok d head recv c ->
  copier_ok d head (recv ++ got a) c'.
Proof.
  intros Hm%copier_step_move Hok. split.
  - by eapply carries_move.
  - by eapply added_move.
  - by eapply copies_move.
  - by eapply staged_move.
Qed.
End preserved.

(** ** Runs *)

Lemma trun_app ls ls' t : trun (ls ++ ls') t = (t' ← trun ls t; trun ls' t').
Proof.
  revert t. induction ls as [|l ls IH]; intros t; simpl; [done|].
  destruct (tstep l t) as [t'|]; simpl; [apply IH|done].
Qed.

Lemma received_app d ls ls' : received d (ls ++ ls') = received d ls ++ received d ls'.
Proof. unfold received. by rewrite omap_app, join_app. Qed.

Lemma received_own d a : received d [Copying d a] = got a.
Proof. unfold received. destruct a; simpl; rewrite ?decide_True by done; simpl; by rewrite ?app_nil_r. Qed.

Lemma received_other d d' a : d' <> d -> received d [Copying d' a] = [].
Proof. intros H. unfold received. destruct a; simpl; by rewrite ?decide_False. Qed.

Definition gone (d : dir) (t : splice) : nat :=
  match c_pc (copier_of d t) with Exited _ => 1 | _ => 0 end%nat.

(** The results of [errc] the handler has taken, and the connections it has closed. *)
Definition taken (m : mpc) : nat :=
  match m with AwaitFirst => 0 | CloseClient | CloseBackend | AwaitSecond => 1 | _ => 2 end%nat.
Definition has_closed (m : mpc) : bool * bool :=
  match m with
  | AwaitFirst | CloseClient => (false, false)
  | CloseBackend => (true, false)
  | _ => (true, true)
  end.

Record splice_ok (head rest : bytes) (ls : list label) (t : splice) : Prop := {
  so_c2b : copier_ok C2B head (received C2B ls) (t_c2b t);
  so_b2c : copier_ok B2C rest (received B2C ls) (t_b2c t);
  so_errc : (length (errc t) + taken (handler t) = gone C2B t + gone B2C t)%nat;
  so_closed : (client_closed t, backend_closed t) = has_closed (handler t);
  so_totals : forall x y, handler t = Finished x y -> x = c_total (t_c2b t) /\ y = c_total (t_b2c t);
}.

Section runs.
Context (head rest : bytes).
Context (Hhead : Z.of_nat (length head) <= int64_max) (Hrest : Z.of_nat (length rest) <= int64_max).

Lemma splice_start_ok : splice_ok head rest [] (start head rest).
Proof.
  split; [|apply (start_copier_ok B2C)|done|done|done].
  pose proof (start_copier_ok C2B head) as H. unfold start_of in H. by destruct head.
Qed.

(** A goroutine sends its result as it exits. *)
Lemma copier_step_gone d src dst room c a c' sent :
  copier_step d src dst room c a = Some (c', sent) ->
  exited (c_pc c) = None /\ sent = option_list (exited (c_pc c')).
Proof.
  intros Hm%copier_step_move. destruct Hm; simpl;
    match goal with H : c_pc c = _ |- _ => rewrite H end; simpl; (split; [done|]); try done.
  - destruct (take k (c_ahead c)) eqn:?; done.
  - by destruct chunk, er as [[]|].
  - unfold after_write. destruct ew; [done|]. case_bool_decide; [|done]. by destruct er as [[]|].
Qed.
Lemma gone_exited c : match c_pc c with Exited _ => 1 | _ => 0 end%nat = length (option_list (exited (c_pc c))).
Proof. by destruct (c_pc c). Qed.

Lemma exited_once c : (length (option_list (exited (c_pc c))) <= 1)%nat.
Proof. destruct (exited (c_pc c)); simpl; lia. Qed.

Lemma copying_ok ls t d a t' :
  splice_ok head rest ls t -> tstep (Copying d a) t = Some t' -> splice_ok head rest (ls ++ [Copying d a]) t'.
Proof.
  intros [H1 H2 He Hc Ht] H. simpl in H.
  destruct (copier_step _ _ _ _ _ a) as [[c sent]|] eqn:Hs; simplify_eq/=.
  pose proof (copier_step_gone _ _ _ _ _ _ _ _ Hs) as [Hg ->]. unfold gone in *.
  rewrite !gone_exited in He.
  destruct d; simpl in *; split; simpl; unfold gone; simpl;
    rewrite ?received_app, ?received_own, ?received_other, ?app_nil_r, ?gone_exited by done;
    try done; try (by eapply copier_ok_step).
  - rewrite Hg in He. rewrite length_app. simpl in He. lia.
  - intros x y Hxy. exfalso. rewrite Hg, Hxy in He. simpl in He.
    pose proof (exited_once (t_b2c t)). lia.
  - rewrite Hg in He. rewrite length_app. simpl in He. lia.
  - intros x y Hxy. exfalso. rewrite Hg, Hxy in He. simpl in He.
    pose proof (exited_once (t_c2b t)). lia.
Qed.

Lemma handling_ok ls t t' :
  splice_ok head rest ls t -> tstep Handling t = Some t' -> splice_ok head rest (ls ++ [Handling]) t'.
Proof.
  intros [H1 H2 He Hc Ht] H. simpl in H. unfold handler_step in H.
  assert (forall d, received d (ls ++ [Handling]) = received d ls) as Hr
    by (intros d; by rewrite received_app, app_nil_r).
  unfold has_closed, gone in *. simpl in *.
  destruct (handler t) eqn:Hh; try destruct (errc t) as [|o ch] eqn:Hch; simplify_eq/=;
    split; unfold gone; simpl in *; rewrite ?Hr, ?Hch; simpl; try done; try lia; try congruence; by intros ? ? [= <- <-].
Qed.

Lemma trun_ok ls t : trun ls (start head rest) = Some t -> splice_ok head rest ls t.
Proof.
  revert t. induction ls as [|l ls IH] using rev_ind; intros t; simpl.
  { intros [= <-]. apply splice_start_ok. }
  rewrite trun_app. destruct (trun ls (start head rest)) as [t1|]; [|done]. simpl.
  intros H. destruct (tstep l t1) as [t2|] eqn:Hs; simplify_eq/=. specialize (IH t1 eq_refl).
  destruct l as [d a|]; [by eapply copying_ok|by eapply handling_ok].
Qed.

(** *** Progress *)

(** A goroutine in a Read or a Write of an open connection: it waits for a peer. *)
Definition on_peer (d : dir) (t : splice) : Prop :=
  let c := copier_of d t in
  match c_pc c with
  | AtRead => c_stage c = Stream /\ (d = B2C -> c_ahead c = []) /\ src_closed d t = false
  | AtWrite _ _ => dst_closed d t = false
  | _ => False
  end.

(** The steps that wait for no peer. *)
Definition own (t : splice) (l : label) : Prop :=
  match l with
  | Handling | Copying _ Tau | Copying _ (Buffered _) => True
  | Copying _ (Received _ _) => False
  | Copying d (Sent _ _) => dst_closed d t = true
  end.

Lemma source_read_own d (t : splice) :
  let c := copier_of d t in
  c_pc c = AtRead -> on_peer d t \/
  exists a, own t (Copying d a) /\ is_Some (source_read d (src_closed d t) c a).
Proof.
  intros c Hpc. unfold on_peer. fold c. rewrite Hpc. unfold source_read.
  assert (forall b l, c_ahead c = b :: l -> is_Some (buf_read (b :: l) (Buffered 1))) as Hbuf.
  { intros b l _. unfold buf_read. rewrite bool_decide_eq_true_2 by (simpl; lia). by eexists. }
  destruct (c_stage c) as [n|]; [|destruct d].
  - right. destruct (c_ahead c) as [|b l] eqn:Ha; [by exists Tau|].
    destruct (Hbuf b l eq_refl) as [[? ?] Hb]. exists (Buffered 1). rewrite Hb. by split.
  - destruct (src_closed C2B t) eqn:Hc; [right; by exists Tau|by left].
  - destruct (c_ahead c) as [|b l] eqn:Ha.
    { destruct (src_closed B2C t) eqn:Hc; [right; by exists Tau|by left]. }
    right. destruct (Hbuf b l eq_refl) as [[? ?] Hb]. exists (Buffered 1). rewrite Hb. by split.
Qed.

Lemma copier_progress ls t d :
  splice_ok head rest ls t -> exited (c_pc (copier_of d t)) = None ->
  on_peer d t \/ exists a, own t (Copying d a) /\ is_Some (tstep (Copying d a) t).
Proof.
  intros [_ _ He _ _] Hx.
  assert (length (errc t) < 2)%nat as Hroom.
  { unfold gone in He. rewrite !gone_exited in He.
    destruct d; simpl in *; rewrite Hx in He; simpl in He;
      [pose proof (exited_once (t_b2c t))|pose proof (exited_once (t_c2b t))]; lia. }
  assert (forall a, is_Some (copier_step d (src_closed d t) (dst_closed d t) true (copier_of d t) a) ->
    is_Some (tstep (Copying d a) t)) as Hstep.
  { intros a [[c sent] Hc]. unfold tstep. rewrite bool_decide_eq_true_2 by done. rewrite Hc. by eexists. }
  destruct (c_pc (copier_of d t)) as [|chunk er|err|err|err] eqn:Hpc; [..|done].
  - destruct (source_read_own d t Hpc) as [Hp|(a & Ha & [[[chunk er] ahead] Hr])]; [by left|right].
    exists a. split; [done|]. apply Hstep. unfold copier_step. rewrite Hpc, Hr. by eexists.
  - destruct (dst_closed d t) eqn:Hd.
    + right. exists (Sent 0 (Some ErrClosed)). split; [done|]. apply Hstep.
      unfold copier_step. rewrite Hpc. by eexists.
    + left. unfold on_peer. by rewrite Hpc.
  - right. exists Tau. split; [done|]. apply Hstep. unfold copier_step. rewrite Hpc.
    destruct (c_stage _); [case_match|]; by eexists.
  - right. exists Tau. split; [done|]. apply Hstep. unfold copier_step. rewrite Hpc. by eexists.
Qed.

Lemma handler_progress ls t :
  splice_ok head rest ls t -> (exists d, exited (c_pc (copier_of d t)) <> None) ->
  (handler t = AwaitSecond -> forall d, exited (c_pc (copier_of d t)) <> None) ->
  (exists x y, handler t = Finished x y) \/ is_Some (tstep Handling t).
Proof.
  intros [_ _ He _ _] [d Hd] Hall. unfold gone in He. rewrite !gone_exited in He. simpl.
  unfold handler_step. destruct (handler t) eqn:Hh; try (right; by eexists); simpl in He.
  - right. destruct (errc t); [|by eexists]. exfalso. simpl in He.
    assert (forall o : option (option error), o <> None -> length (option_list o) = 1%nat) as Hone by (by intros []).
    destruct d; simpl in Hd; rewrite (Hone _ Hd) in He; lia.
  - right. destruct (errc t); [|by eexists]. exfalso. simpl in He.
    pose proof (Hall eq_refl C2B) as H1. pose proof (Hall eq_refl B2C) as H2. simpl in *.
    destruct (exited (c_pc (t_c2b t))); [|done]. destruct (exited (c_pc (t_b2c t))); [|done]. simpl in He. lia.
  - left. eauto.
Qed.

Lemma never_stuck ls t :
  splice_ok head rest ls t ->
  (exists x y, handler t = Finished x y) \/ (exists l, own t l /\ is_Some (tstep l t)) \/
  (handler t = AwaitFirst /\ forall d, on_peer d t).
Proof.
  intros Hok. pose proof Hok as [_ _ He Hc _].
  assert (forall d, exited (c_pc (copier_of d t)) = None \/ exited (c_pc (copier_of d t)) <> None) as Hdec
    by (intros d; destruct (exited _); [by right|by left]).
  assert ((forall d, exited (c_pc (copier_of d t)) <> None) ->
    (exists x y, handler t = Finished x y) \/ (exists l, own t l /\ is_Some (tstep l t))) as Hboth.
  { intros Hall. destruct (handler_progress ls t Hok (ex_intro _ C2B (Hall C2B)) (fun _ => Hall));
      [by left|right; by exists Handling]. }
  assert (forall d, exited (c_pc (copier_of d t)) = None ->
    (exists l, own t l /\ is_Some (tstep l t)) \/ (on_peer d t /\ client_closed t && backend_closed t = false))
    as Hnone.
  { intros d Hd. destruct (copier_progress ls t d Hok Hd) as [Hp|(a & ? & ?)]; [right|left; by eexists].
    split; [done|]. unfold on_peer in Hp. apply andb_false_iff.
    destruct (c_pc _), d; simpl in Hp; naive_solver. }
  assert (forall e, tstep Handling t = Some e -> exists l, own t l /\ is_Some (tstep l t)) as Hstep
    by (intros e He'; exists Handling; by rewrite He').
  destruct (handler t) eqn:Hh; try (right; left; eapply Hstep; simpl; unfold handler_step; by rewrite Hh).
  - destruct (Hdec C2B) as [H1|H1], (Hdec B2C) as [H2|H2].
    { destruct (Hnone C2B H1) as [?|[? _]]; [by right; left|]. destruct (Hnone B2C H2) as [?|[? _]]; [by right; left|].
      right. right. split; [done|]. by intros []. }
    all: destruct (handler_progress ls t Hok) as [(x & y & Hf)|Hp]; try (rewrite Hh in *; done); eauto.
    all: right; left; by exists Handling.
  - simpl in Hc. simplify_eq. destruct (Hdec C2B) as [H1|H1], (Hdec B2C) as [H2|H2].
    1-2: destruct (Hnone C2B H1) as [?|[_ Hf]]; [by right; left|]; by rewrite H, H0 in Hf.
    1: destruct (Hnone B2C H2) as [?|[_ Hf]]; [by right; left|]; by rewrite H, H0 in Hf.
    destruct Hboth as [(x & y & Hf)|?]; [by intros []|done|by right; left].
  - left. eauto.
Qed.
End runs.

(** ** The end *)

(** The steps a goroutine has left once the connections are closed. *)
Definition weight (c : copier) : nat :=
  match c_stage c with Stream => 0 | Drain _ => 3 end +
  match c_pc c with AtRead => 4 | AtWrite _ _ => 3 | AtAdd _ => 2 | AtSend _ => 1 | Exited _ => 0 end.

Definition handler_weight (m : mpc) : nat :=
  match m with
  | AwaitFirst => 5 | CloseClient => 4 | CloseBackend => 3 | AwaitSecond => 2 | Report => 1
  | Finished _ _ => 0
  end.

Definition steps_left (t : splice) : nat :=
  weight (t_c2b t) + weight (t_b2c t) + handler_weight (handler t).

Lemma copier_step_weight d room c a c' sent :
  copier_step d true true room c a = Some (c', sent) -> (weight c' < weight c)%nat.
Proof.
  intros Hm%copier_step_move. unfold weight.
  destruct Hm; simpl; repeat match goal with H : c_pc c = _ |- _ => rewrite H; clear H
    | H : c_stage c = _ |- _ => rewrite H; clear H end; simpl; try done; try lia.
  - destruct (take k (c_ahead c)) eqn:Ht; simpl; [|lia].
    apply (f_equal length) in Ht. rewrite length_take in Ht. simpl in Ht. lia.
  - destruct (H1 eq_refl) as [e ->]. simpl. lia.
Qed.

Lemma closed_steps_bounded ls t t' :
  has_closed (handler t) = (true, true) -> (client_closed t, backend_closed t) = (true, true) ->
  trun ls t = Some t' -> (length ls + steps_left t' <= steps_left t)%nat.
Proof.
  revert t. induction ls as [|l ls IH]; intros t Hm Hc Hr; simpl in Hr; [simplify_eq; simpl; lia|].
  destruct (tstep l t) as [t1|] eqn:Hs; simplify_eq/=.
  assert (has_closed (handler t1) = (true, true) /\ (client_closed t1, backend_closed t1) = (true, true)
    /\ (steps_left t1 < steps_left t)%nat) as (Hm1 & Hc1 & Hlt).
  { destruct l as [d a|]; simpl in Hs.
    - destruct (copier_step _ _ _ _ _ _) as [[c sent]|] eqn:Hcs; simplify_eq/=.
      assert (src_closed d t = true /\ dst_closed d t = true) as [Hsrc Hdst] by (destruct d; simpl in *; simplify_eq; done).
      rewrite Hsrc, Hdst in Hcs. apply copier_step_weight in Hcs.
      unfold steps_left. destruct d; simpl in *; split_and!; try done; try congruence; lia.
    - unfold handler_step in Hs. unfold steps_left.
      destruct (handler t) eqn:Hh; simpl in Hm; try done; repeat case_match; simplify_eq/=;
        split_and!; try done; try congruence; lia. }
  specialize (IH t1 Hm1 Hc1 Hr). lia.
Qed.
