(* ===== verification/TunnelProps.v ===== *)
(** * Properties of the tunnel

    What it carries ([tunnel_carries]), what the handler reports of it
    ([tunnel_counts_bytes], which also justifies the sequential [Proxy.pump]) and that it
    ends without leaving a goroutine behind ([tunnel_ends]). *)

From S2P Require Import Prelude GoStd Effects Backend Metrics Proxy ProxyFacts ProxyProps.
From S2P Require Import Tunnel TunnelFacts.
Local Open Scope Z_scope.

(** ** The results of a run, given to the sequential handler *)

(** [env], but the copies between the two connections return what those of [t] returned. *)
Definition replay (env : environment call) (client backend : conn) (t : splice) : environment call :=
  fun A e h =>
    match e in call A return A with
    | Copy dst src =>
        let calls := c_calls (copier_of (if decide (dst = backend) then C2B else B2C) t) in
        default (0, None) (match src with SrcBuffered _ => head calls | SrcConn _ => last calls end)
    | e => env _ e h
    end.

(** What the handler counts of the bytes. *)
Definition counted_bytes (e : event call) : option (string * Z) :=
  match ev_call e with Count (CAddBytes d n) => Some (d, n) | _ => None end.

Definition exited_ok (c : copier) : Prop := exists err, c_pc c = Exited err.

Lemma finished_exited head rest ls t x y :
  splice_ok head rest ls t -> handler t = Finished x y ->
  exited_ok (t_c2b t) /\ exited_ok (t_b2c t) /\ client_closed t = true /\ backend_closed t = true.
Proof.
  intros [_ _ He Hc _] Hh. rewrite Hh in *. simpl in *. simplify_eq. unfold gone, exited_ok in *. simpl in *.
  destruct (c_pc (t_c2b t)), (c_pc (t_b2c t)); simpl in He; try lia.
  split_and!; eauto.
Qed.

Lemma exited_total d hd recv c :
  copier_ok d hd recv c -> exited_ok c -> c_total c = wrap64 (Z.of_nat (length (c_wire c))).
Proof.
  intros [_ [_ Ha] [Ht _] _] [err Hpc]. rewrite Hpc, Z.add_0_r in Ha. rewrite <- Ha. symmetry. apply wrap64_id.
  rewrite Ht. induction (c_calls c) as [|r l _] using rev_ind; [done|]. rewrite foldl_app. apply wrap64_range.
Qed.

(** The goroutine's copies, as the sequential code adds them up. *)
Definition summed (n : Z) (calls : list (Z * option error)) (total : Z) : Prop :=
  let first := if 0 <? n then default (0, None) (head calls) else (0, None) in
  total = match first.2 with
          | Some _ => wrap64 (0 + first.1)
          | None => wrap64 (wrap64 (0 + first.1) + (default (0, None) (last calls)).1)
          end.

Lemma exited_summed d hd recv c :
  copier_ok d hd recv c -> exited_ok c -> summed (to_drain d hd) (c_calls c) (c_total c).
Proof.
  intros [_ _ [Ht Hc] Hst] [err Hpc]. rewrite Hpc in Hc. simpl in Hc. unfold summed.
  assert (0 <= to_drain d hd) by (destruct d; simpl; lia).
  destruct (c_stage c) as [n|].
  - destruct Hc as (Hn & k & e & Hc). rewrite Ht, Hc. simpl.
    destruct (Z.ltb_spec 0 (to_drain d hd)); [done|lia].
  - destruct Hc as (pre & k & Hpre & Hc). rewrite Ht, Hc, last_snoc. unfold first_copy in Hpre.
    destruct (Z.eqb_spec (to_drain d hd) 0) as [H0|H0].
    + subst pre. rewrite H0. reflexivity.
    + destruct Hpre as [k0 ->]. simpl. destruct (Z.ltb_spec 0 (to_drain d hd)); [done|lia].
Qed.

(** [pump] when the answers do not depend on what was called before. *)
Lemma pump_steady (env : environment call) client backend n h first rest back :
  (forall h, env _ (Copy backend (SrcBuffered n)) h = first) ->
  (forall h, env _ (Copy backend (SrcConn client)) h = rest) ->
  (forall h, env _ (Copy client (SrcConn backend)) h = back) ->
  let hd := if 0 <? n then first else (0, None) in
  (pump env client backend n h).1 =
    (match hd.2 with
     | Some _ => wrap64 (0 + hd.1)
     | None => wrap64 (wrap64 (0 + hd.1) + rest.1)
     end, wrap64 (0 + back.1)).
Proof.
  intros H1 H2 H3 hd. unfold pump, do.
  assert (exists h1, (if 0 <? n then perform env (Copy backend (SrcBuffered n)) else io_ret (0, None)) h
    = (hd, h1)) as [h1 Hh1].
  { subst hd. destruct (0 <? n); eexists; [|reflexivity]. by apply perform_eq. }
  rewrite (io_bind_eq _ _ _ _ _ Hh1). destruct (hd.2).
  - rewrite !io_bind_run. cbn [io_ret fst snd]. by rewrite (perform_eq _ _ _ _ (H3 _)).
  - rewrite !io_bind_run, (perform_eq _ _ _ _ (H2 _)). cbn [io_ret fst snd].
    by rewrite (perform_eq _ _ _ _ (H3 _)).
Qed.

Lemma pump_replay env client backend t n x y h :
  client <> backend -> summed n (c_calls (t_c2b t)) x -> summed 0 (c_calls (t_b2c t)) y ->
  (pump (replay env client backend t) client backend n h).1 = (x, y).
Proof.
  intros Hne Hx Hy. unfold summed in *. simpl in Hy.
  rewrite (pump_steady _ _ _ _ _ (default (0, None) (head (c_calls (t_c2b t))))
    (default (0, None) (last (c_calls (t_c2b t)))) (default (0, None) (last (c_calls (t_b2c t)))));
    intros; unfold replay; rewrite ?decide_True, ?decide_False by done; try done.
  by rewrite Hx, Hy.
Qed.

Lemma tunnel_counts (env : environment call) sess client backend n x y :
  (forall h, (pump env client backend n h).1 = (x, y)) ->
  adds (tunnel env sess client backend n) (fun _ l =>
    omap counted_bytes l = [(DirClientToBackend, x); (DirBackendToClient, y)]).
Proof.
  intros Hp. unfold tunnel, do. do 3 (apply adds_call; intros ?).
  apply (adds_bind _ _ (fun v l => v = (x, y) /\ Forall is_copy l)).
  { intros h. destruct (pump_adds env client backend n h) as (l & Hl & Hc & _). exists l. auto. }
  intros tot l [-> Hl]. do 6 (apply adds_call; intros ?). apply adds_perform. intros ?.
  repeat (rewrite ?omap_cons_eq, ?omap_app; cbn [counted_bytes ev_call fst snd]).
  by rewrite (copies_project _ l).
Qed.

(** ** The properties *)

Definition fits (l : bytes) : Prop := Z.of_nat (length l) <= int64_max.

(** C29. In each direction the destination has accepted a prefix of what there was to carry: what
    the reader held when the tunnel was spliced, then what the connection delivered, in
    order; a goroutine that returned without an error has carried all of it. *)
Theorem tunnel_carries (head rest : bytes) (ls : list label) (t : splice) (d : dir) :
  fits head -> fits rest -> trun ls (start head rest) = Some t ->
  c_wire (copier_of d t) `prefix_of` to_carry head rest d ls /\
  (c_pc (copier_of d t) = Exited None -> c_wire (copier_of d t) = to_carry head rest d ls).
Proof.
  intros Hh Hr Hrun. pose proof (trun_ok head rest Hh Hr ls t Hrun) as [H1 H2 _ _ _].
  assert (carries (to_carry head rest d ls) (copier_of d t)) as (lost & -> & Hl)
    by (destruct d; [apply (ok_carries _ _ _ _ H1)|apply (ok_carries _ _ _ _ H2)]).
  split; [by apply prefix_app_r|]. intros Hpc. unfold in_hand in Hl. rewrite Hpc in Hl.
  destruct (Hl eq_refl) as [-> ->]. by rewrite app_nil_r.
Qed.

(** C30. However the goroutines interleave, the totals of a finished tunnel are those the handler
    reports when it runs the copies one after the other with the results they had, and the
    byte counters are incremented by exactly what each destination accepted. *)
Theorem tunnel_counts_bytes (env : environment call) (sess : session) (client backend : conn)
    (hd rest : bytes) (ls : list label) (t : splice) (x y : Z) (h : history call) :
  fits hd -> fits rest -> client <> backend ->
  trun ls (start hd rest) = Some t -> handler t = Finished x y ->
  let env' := replay env client backend t in
  let n := Z.of_nat (length hd) in
  (pump env' client backend n h).1 = (x, y) /\
  exists l, (tunnel env' sess client backend n h).2 = h ++ l /\
    omap counted_bytes l =
      [(DirClientToBackend, wrap64 (Z.of_nat (length (c_wire (t_c2b t)))));
       (DirBackendToClient, wrap64 (Z.of_nat (length (c_wire (t_b2c t)))))].
Proof.
  intros Hh Hr Hne Hrun Hf env' n. pose proof (trun_ok hd rest Hh Hr ls t Hrun) as Hok.
  destruct (finished_exited _ _ _ _ _ _ Hok Hf) as (E1 & E2 & _).
  destruct Hok as [H1 H2 _ _ Ht]. destruct (Ht x y Hf) as [-> ->].
  assert (forall h, (pump env' client backend n h).1 = (c_total (t_c2b t), c_total (t_b2c t))) as Hp.
  { intros h'. apply pump_replay; [done| |].
    - exact (exited_summed C2B _ _ _ H1 E1).
    - exact (exited_summed B2C _ _ _ H2 E2). }
  split; [apply Hp|]. destruct (tunnel_counts env' sess client backend n _ _ Hp h) as (l & Hl & Hc).
  exists l. split; [exact Hl|]. rewrite Hc.
  by rewrite (exited_total _ _ _ _ H1 E1), (exited_total _ _ _ _ H2 E2).
Qed.

(** C31. The tunnel ends and leaks no goroutine.  It is never stuck: as long as the handler has
    not returned, a step is possible that waits for no peer, or both goroutines are in a Read
    or Write of an open connection and none has returned.  Once one has returned the handler
    can close the connections, whatever the other does; and once it has closed them every
    schedule ends within 16 steps.  When the handler returns both
    goroutines have returned and both connections are closed. *)
Theorem tunnel_ends (head rest : bytes) (ls : list label) (t : splice) :
  fits head -> fits rest -> trun ls (start head rest) = Some t ->
  ((exists x y, handler t = Finished x y) \/ (exists l, own t l /\ is_Some (tstep l t)) \/
   (handler t = AwaitFirst /\ forall d, on_peer d t)) /\
  ((exists d err, c_pc (copier_of d t) = Exited err) -> handler t <> AwaitSecond ->
   (exists x y, handler t = Finished x y) \/ is_Some (tstep Handling t)) /\
  (has_closed (handler t) = (true, true) ->
   forall ls' t', trun ls' t = Some t' -> (length ls' <= 16)%nat) /\
  (forall x y, handler t = Finished x y ->
    exited_ok (t_c2b t) /\ exited_ok (t_b2c t) /\ client_closed t = true /\ backend_closed t = true).
Proof.
  intros Hh Hr Hrun. pose proof (trun_ok head rest Hh Hr ls t Hrun) as Hok.
  split; [by eapply never_stuck|]. split; [|split; [|by intros x y; eapply finished_exited]].
  { intros (d & err & Hd) Hm. eapply handler_progress; [done| |done]. exists d. by rewrite Hd. }
  intros Hm ls' t' Hrun'. pose proof (so_closed _ _ _ _ Hok) as Hc. rewrite Hm in Hc.
  assert (steps_left t <= 16)%nat as Hle.
  { unfold steps_left, weight. destruct (handler t); simpl in *; try done;
      destruct (c_stage _), (c_stage _), (c_pc _), (c_pc _); lia. }
  enough (length ls' + steps_left t' <= steps_left t)%nat by lia.
  apply closed_steps_bounded; [done|exact Hc|exact Hrun'].
Qed.

(** ** Runs *)

(** The client sends [cd] after the [ab] the server had buffered, and closes its side; the
    backend had sent [xy] with its response headers, of which only one byte reaches the
    client: its Write fails as the connections are closed. *)
Definition half_closed_run : list label :=
  [Copying C2B (Buffered 1); Copying B2C (Buffered 2); Copying C2B (Sent 1 None);
   Copying C2B (Buffered 1); Copying C2B (Sent 1 None); Copying C2B Tau; Copying C2B Tau;
   Copying C2B (Received (to_chars "cd") (Some EOF)); Copying C2B (Sent 2 None);
   Copying C2B Tau; Copying C2B Tau; Handling; Handling;
   Copying B2C (Sent 1 (Some ErrClosed)); Handling; Copying B2C Tau; Copying B2C Tau;
   Handling; Handling].

Definition half_closed : splice :=
  default (start [] []) (trun half_closed_run (start (to_chars "ab") (to_chars "xy"))).

Lemma half_closed_runs :
  trun half_closed_run (start (to_chars "ab") (to_chars "xy")) = Some half_closed.
Proof. vm_compute. reflexivity. Qed.

Lemma fits_short (l : bytes) : (length l <= 2)%nat -> fits l.
Proof. unfold fits, int64_max. lia. Qed.

Lemma tunnel_carries_witness :
  c_wire (copier_of C2B half_closed) = to_chars "abcd" /\
  c_wire (copier_of B2C half_closed) `prefix_of` to_chars "xy" /\
  c_wire (copier_of B2C half_closed) <> to_chars "xy".
Proof.
  assert (to_carry (to_chars "ab") (to_chars "xy") C2B half_closed_run = to_chars "abcd" /\
          to_carry (to_chars "ab") (to_chars "xy") B2C half_closed_run = to_chars "xy") as [HC HB]
    by (vm_compute; split; reflexivity).
  rewrite <- HC. rewrite <- HB at 1. split; [|split; [|vm_compute; discriminate]].
  - apply (tunnel_carries (to_chars "ab") (to_chars "xy") half_closed_run half_closed C2B);
      [by apply fits_short|by apply fits_short|exact half_closed_runs|]. vm_compute. reflexivity.
  - apply (tunnel_carries (to_chars "ab") (to_chars "xy") half_closed_run half_closed B2C);
      [by apply fits_short|by apply fits_short|exact half_closed_runs].
Defined.

Lemma tunnel_counts_bytes_witness :
  exists l, (tunnel (replay (answers pod_ep refused true) 8%nat 7%nat half_closed) 0%nat 8%nat 7%nat 2 []).2
    = [] ++ l /\ omap counted_bytes l = [(DirClientToBackend, 4); (DirBackendToClient, 1)].
Proof.
  exact (proj2 (tunnel_counts_bytes (answers pod_ep refused true) 0%nat 8%nat 7%nat (to_chars "ab")
    (to_chars "xy") half_closed_run half_closed 4 1 [] (fits_short (to_chars "ab") ltac:(simpl; lia))
    (fits_short (to_chars "xy") ltac:(simpl; lia)) ltac:(discriminate) half_closed_runs
    ltac:(vm_compute; reflexivity))).
Defined.

Lemma tunnel_ends_witness :
  handler half_closed = Finished 4 1 /\ c_pc (t_c2b half_closed) = Exited None /\
  exited_ok (t_b2c half_closed).
Proof.
  split; [vm_compute; reflexivity|]. split; [vm_compute; reflexivity|].
  destruct (tunnel_ends (to_chars "ab") (to_chars "xy") half_closed_run half_closed) as (_ & _ & _ & H);
    [by apply fits_short|by apply fits_short|exact half_closed_runs|].
  apply (H 4 1). vm_compute. reflexivity.
Defined.
