(* ===== verification/Compose.v ===== *)
(** * The proxy, the index and the session manager together

    One request handler runs against the concurrent session manager: its calls are answered
    by goroutines of [SessionSys] that have finished, its lookups by [Identify.Lookup].  The
    handler keeps the manager's assumptions about its clients, and the manager's guarantees
    carry over to the requests that leave the proxy. *)

From S2P Require Import Prelude GoStd Effects Backend Metrics Session SessionFacts SessionSys SessionSched SessionInv SessionClient Proxy ProxyFacts ProxyProps.
From S2P Require Identify IdentifyFacts.
Local Open Scope Z_scope.

#[local] Opaque maxReplayBodyBytes.

(** ** The handler's side: what it calls on which session *)

(** A session an earlier Get of this request returned; or a Get or a Refresh. *)
Definition given (h : history Proxy.call) (s : session) : Prop :=
  exists id, (id, s) ∈ omap session_got h.
Definition handed (h : history Proxy.call) (s : session) : Prop :=
  given h s \/ exists s0, (s0, s) ∈ omap refreshed h.

(** A connection an earlier Dial of this request gave. *)
Definition dialled (h : history Proxy.call) (c : conn) : Prop :=
  exists ctx addr, Ev (Dial ctx addr) (Ok c) ∈ h.

(** The rules a handler of the request [r] keeps: the session it gets is of the id its
    client's address resolved to; sessions are only used after they were handed out, and
    only those of a Get refreshed; it dials endpoints it has read, and writes requests on
    connections it has dialled. *)
Definition licensed (r : Request) (h : history Proxy.call) (e : event Proxy.call) : Prop :=
  match ev_call e with
  | Sessions_Get _ id => exists ip, clientIPFromReq r = Ok ip /\ (ip, id) ∈ omap looked_up h
  | Dial _ addr => exists s ep, (s, ep) ∈ omap endpoint_read h /\ addr = Addr ep
  | Conn_WriteRequest c _ => dialled h c
  | Sessions_Refresh _ s => given h s
  | Sess_Endpoint s | Sess_MarkActive s | Sess_ConnOpened s | Sess_ConnClosed s => handed h s
  | _ => True
  end.

Lemma given_app h l s : given h s -> given (h ++ l) s.
Proof. intros [id H]. exists id. rewrite omap_app. set_solver. Qed.

Lemma handed_app h l s : handed h s -> handed (h ++ l) s.
Proof.
  intros [H|[s0 H]]; [left; by apply given_app|]. right. exists s0. rewrite omap_app. set_solver.
Qed.

Lemma handed_refreshed h s0 s ctx : handed (h ++ [Ev (Sessions_Refresh ctx s0) (Ok s)]) s.
Proof. right. exists s0. rewrite omap_app. set_solver. Qed.

Lemma given_prefix h h' s : h `prefix_of` h' -> given h s -> given h' s.
Proof. intros [l ->]. apply given_app. Qed.
Lemma handed_prefix h h' s : h `prefix_of` h' -> handed h s -> handed h' s.
Proof. intros [l ->]. apply handed_app. Qed.

Lemma dialled_app h l c : dialled h c -> dialled (h ++ l) c.
Proof. intros (ctx & addr & H). exists ctx, addr. set_solver. Qed.
Lemma dialled_now h ctx addr c : dialled (h ++ [Ev (Dial ctx addr) (Ok c)]) c.
Proof. exists ctx, addr. set_solver. Qed.

Lemma dial_licensed h s ep :
  exists s' ep', (s', ep') ∈ omap endpoint_read (h ++ [Ev (Sess_Endpoint s) ep]) /\ Addr ep = Addr ep'.
Proof. exists s, ep. rewrite omap_app. set_solver. Qed.

Lemma given_handed h s : given h s -> handed h s.
Proof. by left. Qed.

(** The events the projections of a trace come from. *)
Lemma session_got_event e id s :
  session_got e = Some (id, s) -> exists ctx, e = Ev (Sessions_Get ctx id) (Ok s).
Proof. destruct e as [A [] a]; try done. destruct a; [|done]. intros [= -> ->]. by eexists. Qed.
Lemma refreshed_event e s s' :
  refreshed e = Some (s, s') -> exists ctx, e = Ev (Sessions_Refresh ctx s) (Ok s').
Proof. destruct e as [A [] a]; try done. destruct a; [|done]. intros [= -> ->]. by eexists. Qed.
Lemma endpoint_read_event e s ep : endpoint_read e = Some (s, ep) -> e = Ev (Sess_Endpoint s) ep.
Proof. destruct e as [A [] a]; try done. by intros [= -> ->]. Qed.
Lemma looked_up_event e ip id :
  looked_up e = Some (ip, id) -> e = Ev (Identify_Lookup ip) (Some id).
Proof. destruct e as [A [] a]; try done. destruct a; [|done]. by intros [= -> ->]. Qed.

#[local] Hint Resolve given_app handed_app handed_refreshed given_handed dialled_app dialled_now dial_licensed : licence.
#[local] Hint Extern 1 (licensed _ _ _) => unfold licensed; cbn [ev_call] : licence.

Section discipline.
Context (env : environment Proxy.call) (r0 : Request).
Notation obeys h m Q := (lawful (licensed r0) h m Q).

(** One call of the handler. *)
Ltac step := apply lawful_call; [intros ?; by eauto 8 with licence|intros ?].
Ltac stop := apply lawful_perform; [intros ?; by eauto 8 with licence|intros ?; auto with licence].

(** A part of the handler that only writes to the client and the metrics. *)
Lemma obeys_writers {A} h (m : IO (history Proxy.call) A) (P : A -> history Proxy.call -> Prop) :
  adds m P -> (forall a l, P a l -> Forall is_writer l) -> obeys h m (fun _ h' => h `prefix_of` h').
Proof.
  intros Hm HP. eapply adds_mono; [exact Hm|]. intros a l Hl%HP. split; [|by exists l].
  clear a. revert h. induction Hl as [|e l He Hl IH]; intros h; [done|]. split; [|apply IH].
  by destruct e as [X [] a].
Qed.

Lemma obeys_proxyError h s e : obeys h (proxyError env s e) (fun _ h' => h `prefix_of` h').
Proof. eapply obeys_writers; [apply proxyError_adds|by intros ? ? [[? _] _]]. Qed.

Lemma obeys_RoundTrip h req s :
  given h s -> sessCtxKey req = Some s -> obeys h (RoundTrip env req) (fun _ h' => h `prefix_of` h').
Proof.
  intros Hg Hs. unfold RoundTrip, do. step. destruct a as [[interim [resp|err]] n];
    [by apply lawful_ret, prefix_app_r|].
  destruct (spent_fields n req) as (_ & _ & _ & _ & _ & -> & _). rewrite Hs.
  destruct (negb (isDialFailure err)); [by apply lawful_ret, prefix_app_r|].
  destruct (has_body (Body (spent n req)) && bool_decide (GetBody (spent n req) = None)); [by apply lawful_ret, prefix_app_r|]. step.
  destruct a as [fresh|e]; [|by apply lawful_ret; do 2 apply prefix_app_r].
  step. step. apply lawful_ret. by do 4 apply prefix_app_r.
Qed.

Lemma obeys_httpProxy h s r sess :
  given h sess -> sessCtxKey r = Some sess ->
  obeys h (httpProxy env s r) (fun _ h' => h `prefix_of` h').
Proof.
  intros Hg Hs. unfold httpProxy, ReverseProxy_ServeHTTP.
  assert (forall s h' e, h `prefix_of` h' ->
    obeys h' (io_bind (proxyError env s e) (fun s => io_ret (Some s))) (fun _ h' => h `prefix_of` h')) as Herr.
  { intros s0 h0 e H0. eapply lawful_bind; [apply obeys_proxyError|]. intros s' h' H'.
    apply lawful_ret. by etrans. }
  case_match; [by apply Herr|].
  eapply lawful_bind; [eapply obeys_RoundTrip; [done|]|].
  { unfold outgoing. by case_match. }
  intros res h1 H1. eapply lawful_bind.
  { eapply obeys_writers; [apply interims_adds|by intros ? ? [[? _] _]]. }
  intros s1 h2 H2. assert (h `prefix_of` h2) as H02 by (etrans; [exact H1|exact H2]).
  destruct (res.2) as [resp|e]; [|by apply Herr]. case_match; [by apply Herr|].
  unfold WriteHeader, do. step. eapply (lawful_bind _ _ _ _ (fun _ h3 => h `prefix_of` h3)).
  { step. apply lawful_ret. by do 2 apply prefix_app_r. }
  intros s2 h3 H3. step. apply lawful_ret. by apply prefix_app_r.
Qed.

Lemma obeys_handleHTTP h r sess :
  given h sess -> obeys h (handleHTTP env r sess) (fun _ _ => True).
Proof.
  intros Hg. unfold handleHTTP, do. step. destruct (buffer_body _) as [r2|e]; [|by stop].
  step. eapply lawful_bind; [apply (obeys_httpProxy _ _ _ sess); [by auto with licence|done]|].
  intros [sr|] h' H'; [|by apply lawful_ret].
  assert (handed h' sess) by (eapply handed_prefix; [exact H'|]; auto with licence).
  step. step. by stop.
Qed.

Lemma obeys_pump h cl bk n : obeys h (pump env cl bk n) (fun _ h' => h `prefix_of` h').
Proof.
  eapply adds_mono; [apply pump_adds|]. intros a l [Hl _]. split; [|by exists l].
  revert h. induction Hl as [|e l He Hl IH]; intros h; [done|]. split; [|apply IH].
  by destruct e as [X [] ans].
Qed.

Lemma obeys_tunnel h s cl bk n : handed h s -> obeys h (tunnel env s cl bk n) (fun _ _ => True).
Proof.
  intros Hh. unfold tunnel, do. do 3 step. eapply lawful_bind; [apply obeys_pump|].
  intros tot h' H'. assert (handed h' s) by (eapply handed_prefix; [exact H'|]; auto 8 with licence).
  do 6 step. by stop.
Qed.

Lemma obeys_upgrade h r s bk :
  handed h s -> dialled h bk -> obeys h (upgrade env r s bk) (fun _ _ => True).
Proof.
  intros Hh Hbk. unfold upgrade, do. step. step. destruct a0 as [e|]; [by stop|].
  step. destruct a0 as [resp|e]; [|step; by stop]. step.
  destruct (negb _); [do 3 step; by apply lawful_ret|].
  step. destruct a1 as [[client buffered]|e]; [|by apply lawful_ret]. step.
  eapply (lawful_bind _ _ _ _ (fun _ _ => True)); [|by intros; stop].
  destruct a1 as [e|]; [by apply lawful_ret|]. apply obeys_tunnel. auto 10 with licence.
Qed.

Lemma obeys_ws_dial h r s :
  given h s -> obeys h (ws_dial env r s)
    (fun res h' => handed h' res.2 /\ forall c, res.1 = Ok c -> dialled h' c).
Proof.
  intros Hg. unfold ws_dial, do. step. step.
  destruct a0 as [c|e].
  { apply lawful_ret. split; [auto with licence|]. intros c' [= <-]. auto with licence. }
  step. step.
  destruct a1 as [fresh|e']; [|apply lawful_ret; split; [auto 8 with licence|done]].
  step. step. eapply (lawful_bind _ _ _ _
    (fun _ h' => handed h' fresh /\ forall c, a2 = Ok c -> dialled h' c)).
  - destruct a2 as [c|e2].
    + apply lawful_ret. split; [auto 8 with licence|]. intros c' [= <-]. auto with licence.
    + apply lawful_perform; intros ?; [done|]. split; [auto 8 with licence|done].
  - intros [] h' H'. by apply lawful_ret.
Qed.

Lemma obeys_handleWS h r s : given h s -> obeys h (handleWS env r s) (fun _ _ => True).
Proof.
  intros Hg. unfold handleWS, do. step. destruct (negb a); [by stop|].
  eapply lawful_bind; [apply obeys_ws_dial; auto with licence|]. intros [[bk|e] s'] h' [H' Hbk]; simpl; [|by stop].
  eapply lawful_bind; [apply obeys_upgrade; auto|]. intros [] h2 _. by stop.
Qed.

Lemma ServeHTTP_licensed h : obeys h (ServeHTTP env r0) (fun _ _ => True).
Proof.
  unfold ServeHTTP, do. destruct (clientIPFromReq r0) as [ip|e] eqn:Hip; [|by stop]. step.
  destruct a as [id|]; [|step; by stop]. step.
  apply lawful_call; [|intros a0].
  { intros ?. unfold licensed. simpl. exists ip. split; [done|]. rewrite !omap_app. set_solver. }
  destruct a0 as [s|e]; [|by stop].
  assert (given ((((h ++ [Ev (Identify_Lookup ip) (Some id)]) ++ [Ev Proxy.Now a])) ++
    [Ev (Sessions_Get (WithTimeout (rctx r0) a (60 * second)) id) (Ok s)]) s) as Hg.
  { exists id. rewrite omap_app. set_solver. }
  step. destruct (isWebsocketUpgrade r0); [apply obeys_handleWS|apply obeys_handleHTTP]; auto with licence.
Qed.
End discipline.

(** ** Calls answered by the manager and the index *)

(** The goroutine a call of the handler starts in the manager. *)
Definition request_of (m : Manager) (e : event Proxy.call) : option goroutine :=
  match ev_call e with
  | Sessions_Get ctx id => Some (get_goroutine ctx id)
  | Sessions_Refresh ctx s => Some (refresh_goroutine m ctx s)
  | Sess_MarkActive s => Some (touch_goroutine TMark s)
  | Sess_ConnOpened s => Some (touch_goroutine TOpen s)
  | Sess_ConnClosed s => Some (touch_goroutine TClose s)
  | _ => None
  end.

Section composition.
Context (m : Manager).
(** The index: its configuration, the pods there are or have been, and the interleavings
    and API answers a lookup may meet, as in [IdentifyFacts]. *)
Context (c : Identify.config) (real : Identify.Pod -> Prop) (releasable : string -> Prop).
Context (ienv : nat -> Identify.Index -> Identify.Index).
Context (ienv_ok : forall n i, rtc (IdentifyFacts.istep c real releasable) i (ienv n i)).
Context (api : nat -> Identify.ListOptions -> Ctx -> Identify.Index -> result error (list Identify.Pod)).
Context (api_selects : forall n key ip ctx i pods,
  api n (Identify.mkListOptions key (Identify.by_ip ip)) ctx i = Ok pods ->
  Forall (fun p => real p /\ Identify.PodIP p = ip) pods).

(** The answer of a call, in a state of the manager: the result of a goroutine that has
    finished, a field read through the pointer, or a lookup's result. *)
Definition answered (s : system) (e : event Proxy.call) : Prop :=
  match ev_call e in Proxy.call A return A -> Prop with
  | Identify_Lookup ip => fun o => exists w w',
      IdentifyFacts.sound c real (Identify.idx w) /\ Identify.Lookup c ienv api ip w = (o, w')
  | Sessions_Get _ id => fun r => Ret (OGet id r) ∈ pool s
  | Sessions_Refresh _ p => fun r => Ret (ORefresh p r) ∈ pool s
  | Sess_Endpoint p => fun ep => endpoint_at (sst s) p = Some ep
  | _ => fun _ => True
  end (ev_answer e).

(** One handler's calls so far, answered while the manager runs. *)
Inductive realises : history Proxy.call -> system -> Prop :=
| re_start s : reachable m s -> realises [] s
| re_run h s s' : realises h s -> gstep m s s' -> realises h s'
| re_call h s e : realises h s -> answered s e -> realises (h ++ [e]) s.

Lemma realises_reachable h s : realises h s -> reachable m s.
Proof.
  induction 1 as [| |]; [done| |done]. eapply reachable_rtc; [done|by apply rtc_once].
Qed.

(** Every call of the history was answered in an earlier state, after the calls before it. *)
Lemma realises_split h s l1 e l2 :
  realises h s -> h = l1 ++ e :: l2 ->
  exists s0, realises l1 s0 /\ answered s0 e /\ later_than s0 s.
Proof.
  intros Hr. revert l2. induction Hr as [s Hs|h s s' Hr IH Hstep|h s e' Hr IH Hans]; intros l2 Heq.
  - by destruct l1.
  - destruct (IH _ Heq) as (s0 & H0 & He & Hl). exists s0. split_and!; try done.
    etrans; [done|]. eapply gstep_later; [by eapply realises_reachable|done].
  - destruct l2 as [|e2 l2 _] using rev_ind.
    + apply app_inj_2 in Heq as [-> [= ->]]; [|done]. by exists s.
    + rewrite app_comm_cons, (assoc app) in Heq. apply app_inj_2 in Heq as [-> _]; [|done].
      by apply (IH l2).
Qed.

Lemma realises_in h s e :
  realises h s -> e ∈ h -> exists s0, reachable m s0 /\ answered s0 e /\ later_than s0 s.
Proof.
  intros Hr (l1 & l2 & ->)%list_elem_of_split.
  destruct (realises_split _ _ _ _ _ Hr eq_refl) as (s0 & H0 & ? & ?).
  exists s0. split_and!; try done. by eapply realises_reachable.
Qed.

(** Calls that one state answers. *)
Lemma realises_all s l : reachable m s -> Forall (answered s) l -> realises l s.
Proof.
  intros Hr. induction l as [|e l IH] using rev_ind; [by constructor|].
  intros [Hl He]%Forall_app. constructor; [by apply IH|by inversion He].
Qed.

(** What the projections of a trace say of the manager. *)
Lemma realises_got h s id p :
  realises h s -> (id, p) ∈ omap session_got h -> Ret (OGet id (Ok p)) ∈ pool s.
Proof.
  intros Hr (e & He & [ctx ->]%session_got_event)%list_elem_of_omap.
  destruct (realises_in _ _ _ Hr He) as (s0 & _ & Ha & Hl). exact (lt_pool _ _ Hl _ Ha).
Qed.

Lemma realises_refreshed h s p q :
  realises h s -> (p, q) ∈ omap refreshed h -> Ret (ORefresh p (Ok q)) ∈ pool s.
Proof.
  intros Hr (e & He & [ctx ->]%refreshed_event)%list_elem_of_omap.
  destruct (realises_in _ _ _ Hr He) as (s0 & _ & Ha & Hl). exact (lt_pool _ _ Hl _ Ha).
Qed.

Lemma realises_looked_up h s ip id :
  realises h s -> (ip, id) ∈ omap looked_up h -> IdentifyFacts.carried c real ip (Some id).
Proof.
  intros Hr (e & He & ->%looked_up_event)%list_elem_of_omap.
  destruct (realises_in _ _ _ Hr He) as (s0 & _ & (w & w' & Hw & Hl) & _).
  apply (wp_run _ _ _ _ _ (IdentifyFacts.good_lookup c real releasable ienv ienv_ok api api_selects
    ip w Hw) Hl).
Qed.

Lemma realises_given h s p : realises h s -> given h p -> got s p.
Proof. intros Hr [id H]. exists id. by eapply realises_got. Qed.

Lemma realises_handed h s p : realises h s -> handed h p -> held s p.
Proof.
  intros Hr [H|[p0 H]]; [left; by eapply realises_given|].
  right. exists p0. by eapply realises_refreshed.
Qed.

Lemma held_endpoint s p : reachable m s -> held s p -> is_Some (endpoint_at (sst s) p).
Proof.
  intros Hr Hh. destruct (reachable_good m s Hr) as (pcs & Hp & HI & _).
  destruct (held_session m s pcs p Hp HI Hh) as (x & Hx & _). unfold endpoint_at. rewrite Hx. by eexists.
Qed.

(** The pointer a call reads the endpoint of. *)
Definition reads_endpoint (e : event Proxy.call) : option session :=
  match ev_call e with Sess_Endpoint p => Some p | _ => None end.

(** The handler keeps the rules of the manager: whatever answers it has had, each call it
    makes is one the manager's system can start, and no pointer it reads is nil. *)
Theorem handler_obeys_manager (env : environment Proxy.call) (r : Request) (h l : history Proxy.call) :
  (ServeHTTP env r h).2 = h ++ l ->
  forall l1 e l2 s, l = l1 ++ e :: l2 -> realises l1 s ->
    (forall g, request_of m e = Some g -> gstep m s (spawn [g] s)) /\
    (forall p, reads_endpoint e = Some p -> is_Some (endpoint_at (sst s) p)).
Proof.
  intros Hrun l1 e l2 s -> Hr.
  destruct (ServeHTTP_licensed env r [] h) as (l' & Hl' & Hperm & _).
  rewrite Hrun in Hl'. apply (inj (app h)) in Hl' as <-. apply permitted_at in Hperm. simpl in Hperm.
  pose proof (realises_reachable _ _ Hr) as Hreach. split.
  - unfold request_of. intros g Hg. destruct e as [A e a]. destruct e; simpl in Hg; simplify_eq;
      constructor;
      [exact (realises_given _ _ _ Hr Hperm)|exact (realises_handed _ _ _ Hr Hperm)..].
  - unfold reads_endpoint. intros p Hp. destruct e as [A e a]. destruct e; simpl in Hp; simplify_eq.
    exact (held_endpoint _ _ Hreach (realises_handed _ _ _ Hr Hperm)).
Qed.

(** The session a handler reads an endpoint of, and where that endpoint comes from. *)
Lemma endpoint_source h s p ep l1 l2 :
  realises h s -> h = l1 ++ Ev (Sess_Endpoint p) ep :: l2 -> handed l1 p ->
  exists x, heap (sst s) !! p = Some x /\
    (BEnsure (ID x) (Ok ep) ∈ calls (sst s) \/
     ep = Endpoint_zero /\ exists p0, (p0, p) ∈ omap refreshed l1).
Proof.
  intros Hr Heq Hh. destruct (realises_split _ _ _ _ _ Hr Heq) as (s0 & H0 & Ha & Hl).
  pose proof (realises_reachable _ _ H0) as Hs0. simpl in Ha. unfold answered in Ha. simpl in Ha.
  apply fmap_Some in Ha as (x0 & Hx0 & ->).
  destruct (lt_heap _ _ Hl _ _ Hx0) as (x & Hx & Hid & _). exists x. split; [done|]. rewrite Hid.
  assert (BEnsure (ID x0) (Ok (SEndpoint x0)) ∈ calls (sst s0) \/
    SEndpoint x0 = Endpoint_zero /\ exists p0, (p0, p) ∈ omap refreshed l1) as [Hc|Hz];
    [|left; by apply (lt_calls _ _ Hl)|by right].
  destruct Hh as [[id Hg]|[p0 Hf]].
  - left. apply (realises_got _ _ _ _ H0) in Hg.
    destruct (get_returns m s0 id p Hs0 Hg) as (x1 & Hx1 & <- & _ & Hc). by simplify_eq.
  - destruct (reachable_endpoints m s0 Hs0 _ _ Hx0) as [Hz|Hc]; [right; eauto|by left].
Qed.

(** [id] is the label of a pod that has or had the address of the request's client. *)
Definition client_id (r : Request) (id : string) : Prop :=
  id <> EmptyString /\ exists ip pod, clientIPFromReq r = Ok ip /\ real pod /\
    Identify.PodIP pod = ip /\ Identify.label c pod = id.

(** The sessions a handler uses are its client's. *)
Definition clients_session (r : Request) (s : system) (p : loc) : Prop :=
  exists id x, client_id r id /\ heap (sst s) !! p = Some x /\ ID x = id.

Lemma permitted_in r (l : history Proxy.call) e :
  permitted (licensed r) [] l -> e ∈ l -> exists l1 l2, l = l1 ++ e :: l2 /\ licensed r l1 e.
Proof.
  intros Hp (l1 & l2 & ->)%list_elem_of_split. exists l1, l2. by apply permitted_at in Hp.
Qed.

Lemma given_client r l s p :
  realises l s -> permitted (licensed r) [] l -> given l p -> clients_session r s p.
Proof.
  intros Hr Hperm [id Hin]. pose proof Hin as (e & He & [ctx ->]%session_got_event)%list_elem_of_omap.
  destruct (permitted_in _ _ _ Hperm He) as (l1 & l2 & -> & ip & Hip & Hlook).
  assert ((ip, id) ∈ omap looked_up (l1 ++ Ev (Sessions_Get ctx id) (Ok p) :: l2)) as Hlook'
    by (rewrite omap_app; set_solver).
  destruct (realises_looked_up _ _ _ _ Hr Hlook' id eq_refl) as (Hne & pod & Hreal & Hpip & Hlab).
  destruct (get_returns m s id p (realises_reachable _ _ Hr) (realises_got _ _ _ _ Hr Hin))
    as (x & Hx & Hid & _).
  exists id, x. split; [|done]. split; [done|]. by exists ip, pod.
Qed.

Lemma handed_client r l s p :
  realises l s -> permitted (licensed r) [] l -> handed l p -> clients_session r s p.
Proof.
  intros Hr Hperm [Hg|[p0 Hf]]; [by eapply given_client|].
  pose proof Hf as (e & He & [ctx ->]%refreshed_event)%list_elem_of_omap.
  destruct (permitted_in _ _ _ Hperm He) as (l1 & l2 & -> & Hg).
  destruct (given_client _ _ _ p0 Hr Hperm (given_app _ _ _ Hg)) as (id & x & Hid & Hx & <-).
  destruct (refresh_returns m s p0 p (realises_reachable _ _ Hr) (realises_refreshed _ _ _ _ Hr Hf))
    as (y & y' & Hy & Hy' & He'). simplify_eq. exists (ID x), y'. split_and!; [done..|congruence].
Qed.

(** The endpoint an outbound call is for. *)
Definition bound_for (l : history Proxy.call) (ep : Endpoint) (e : event Proxy.call) : Prop :=
  match ev_call e with
  | Transport r' => routed ep r'
  | Dial _ addr => addr = Addr ep
  | Conn_WriteRequest bk r' => routed ep r' /\ dialled l bk
  | _ => False
  end.

(** An outbound call is for an endpoint the handler has read. *)
Lemma outbound_read r l e :
  permitted (licensed r) [] l -> attributed r l -> e ∈ l -> outbound e = true ->
  exists p ep, (p, ep) ∈ omap endpoint_read l /\ bound_for l ep e.
Proof.
  intros Hperm Hattr He Hout.
  destruct (Hattr e He Hout) as (ip & id & p & p' & _ & _ & _ & _ & Hd).
  destruct (permitted_in _ _ _ Hperm He) as (l1 & l2 & -> & Hlic).
  destruct e as [A e a]. destruct e; try done.
  - destruct Hd as (ep & Hep & Hrt). exists p', ep. split; [done|]. by apply routed_mcp.
  - destruct Hlic as (p0 & ep & Hep & ->). exists p0, ep. split; [rewrite omap_app; set_solver|done].
  - destruct Hd as [(ep & Hep & Hrt) _]. exists p', ep.
    split; [done|]. split; [by apply routed_ws|]. by apply dialled_app.
Qed.

(** Everything the proxy dials or sends for a client is for an endpoint an Ensure of the id of
    a pod with the client's address has returned -- or, after a Refresh of its session, for
    the zero endpoint of a session that is still being brought up. *)
Lemma outbound_ensured (env : environment Proxy.call) (r : Request) (h l : history Proxy.call) (s : system) :
  from_server r -> (ServeHTTP env r h).2 = h ++ l -> realises l s ->
  forall e, e ∈ l -> outbound e = true ->
    exists id endpoint, client_id r id /\ bound_for l endpoint e /\
      (BEnsure id (Ok endpoint) ∈ calls (sst s) \/ endpoint = Endpoint_zero /\ omap refreshed l <> []).
Proof.
  intros Hsrv Hrun Hr e He Hout.
  destruct (ServeHTTP_attributed env r Hsrv h) as (l' & Hl' & Hattr).
  rewrite Hrun in Hl'. apply (inj (app h)) in Hl' as <-.
  destruct (ServeHTTP_licensed env r [] h) as (l' & Hl' & Hperm & _).
  rewrite Hrun in Hl'. apply (inj (app h)) in Hl' as <-.
  destruct (outbound_read _ _ _ Hperm Hattr He Hout) as (p & ep & Hep & Hbound).
  apply list_elem_of_omap in Hep as (e' & He' & ->%endpoint_read_event).
  destruct (permitted_in _ _ _ Hperm He') as (l1 & l2 & Heq & Hh).
  destruct (endpoint_source l s p ep l1 l2 Hr Heq Hh) as (x & Hx & Hsrc).
  destruct (handed_client r l s p Hr Hperm) as (id & x' & Hid & Hx' & <-).
  { rewrite Heq. by apply handed_app. }
  rewrite Hx in Hx'. injection Hx' as <-. exists (ID x), ep. split_and!; [done..|].
  destruct Hsrc as [Hc|(-> & p0 & Hp0)]; [by left|right]. split; [done|].
  rewrite Heq, omap_app. intros [H1 _]%app_nil. rewrite H1 in Hp0. by apply elem_of_nil in Hp0.
Qed.
End composition.
