(* ===== verification/Config.v ===== *)
(** * Configuration ([internal/config/config.go])

    [FromEnv] as a function of the environment, its errors as values; the invariant of
    the configurations it accepts. *)

From S2P Require Import Prelude GoStd GoTime.
Local Open Scope Z_scope.

Record Config := mkConfig {
  ListenAddr : string;
  MetricsAddr : string;
  Namespace : string;
  LabelKey : string;
  Backend : string;
  WarmPoolName : string;
  TemplateName : string;
  SandboxPort : Z;
  SandboxMCPPort : Z;
  SubstrateAPIEndpoint : string;
  SubstrateRouterAddr : string;
  SubstrateActorTemplate : string;
  SubstrateForceBoot : bool;
  SubstrateAllowedHTTPHosts : list string;
  KarsInferenceRef : string;
  KarsSandboxImage : string;
  IsolaNamespace : string;
  IsolaSandboxImage : string;
  IsolaAllowedEgressCIDRs : list string;
  IdleTTL : Z;
  IdleCheckInterval : Z;
  EnsureTimeout : Z;
}.

(** The process environment; an unset variable reads as empty. *)
Definition environ : Type := string -> string.

Definition parsePort (name raw : string) (allowZero : bool) : result error Z :=
  let? p := map_err (Errorf_w "%s: %w" [FStr name]) (strconv_Atoi raw) in
  if allowZero && (p =? 0) then Ok 0
  else if (p <? 1) || (65535 <? p)
  then Err (Errorf "%s: %d out of range 1..65535" [FStr name; FInt p])
  else Ok p.

Definition bad_host_chars : list ascii :=
  ["/"; ":"; " "; "009"; "013"; "010"]%char.

(** The loop over [SUBSTRATE_ALLOWED_HTTP_HOSTS]. *)
Fixpoint parse_hosts (parts : list string) : result error (list string) :=
  match parts with
  | [] => Ok []
  | part :: parts =>
      let host := strings_TrimSpace part in
      if bool_decide (host = EmptyString) || strings_ContainsAny host bad_host_chars
      then Err (Errorf "SUBSTRATE_ALLOWED_HTTP_HOSTS: invalid hostname %q" [FStr host])
      else let? hosts := parse_hosts parts in Ok (host :: hosts)
  end.

Definition parse_cidrs (parts : list string) : list string :=
  filter (fun s => s <> EmptyString) (map strings_TrimSpace parts).

Section from_env.
Context (getenv : environ).

Definition envOr (k dflt : string) : string :=
  if decide (getenv k = EmptyString) then dflt else getenv k.

Definition duration (k dflt : string) : result error Z :=
  map_err (Errorf_w (k +:+ ": %w") []) (ParseDuration (envOr k dflt)).

(** The checks of the [switch] on the backend; the template name it leaves. *)
Definition check_backend (backend : string) : result error string :=
  let template := getenv "SANDBOX_TEMPLATE_NAME" in
  if decide (backend = "sandboxclaim") then
    let? _ := require (negb (bool_decide (getenv "WARMPOOL_NAME" = EmptyString)))
                (Errorf "WARMPOOL_NAME is required for sandboxclaim backend" []) in
    Ok (if decide (template = EmptyString) then getenv "WARMPOOL_NAME" else template)
  else if decide (backend = "substrate") then
    let t := getenv "SUBSTRATE_ACTOR_TEMPLATE" in
    let? _ := require (negb (bool_decide (t = EmptyString)))
                (Errorf "SUBSTRATE_ACTOR_TEMPLATE (atespace/name) is required for substrate backend" []) in
    let? _ := require (strings_Contains t "/")
                (Errorf "SUBSTRATE_ACTOR_TEMPLATE must be 'atespace/name', got %q" [FStr t]) in
    Ok template
  else if decide (backend = "karssandbox") then
    let? _ := require (negb (bool_decide (getenv "KARS_INFERENCE_REF" = EmptyString)))
                (Errorf "KARS_INFERENCE_REF is required for karssandbox backend" []) in
    let? _ := require (negb (bool_decide (getenv "KARS_SANDBOX_IMAGE" = EmptyString)))
                (Errorf "KARS_SANDBOX_IMAGE is required for karssandbox backend" []) in
    Ok template
  else if decide (backend = "isola") then
    let? _ := require (negb (bool_decide (getenv "ISOLA_SANDBOX_IMAGE" = EmptyString)))
                (Errorf "ISOLA_SANDBOX_IMAGE is required for isola backend" []) in
    Ok template
  else
    Err (Errorf "unknown BACKEND %q (want sandboxclaim, substrate, karssandbox, or isola)"
           [FStr backend]).

Definition FromEnv : result error Config :=
  let? hosts :=
    (let v := getenv "SUBSTRATE_ALLOWED_HTTP_HOSTS" in
     if decide (v = EmptyString) then Ok [] else parse_hosts (strings_Split v ","%char)) in
  let cidrs :=
    (let v := getenv "ISOLA_ALLOWED_EGRESS_CIDRS" in
     if decide (v = EmptyString) then [] else parse_cidrs (strings_Split v ","%char)) in
  let? port := parsePort "SANDBOX_PORT" (envOr "SANDBOX_PORT" "9222") false in
  let? mcp_port :=
    (let v := getenv "SANDBOX_MCP_PORT" in
     if decide (v = EmptyString) then Ok 0 else parsePort "SANDBOX_MCP_PORT" v true) in
  let? idle_ttl := duration "IDLE_TTL" "10m" in
  let? idle_check := duration "IDLE_CHECK_INTERVAL" "30s" in
  let? ensure := duration "ENSURE_TIMEOUT" "30s" in
  let? _ := require (negb (bool_decide (getenv "POD_NAMESPACE" = EmptyString)))
              (Errorf "POD_NAMESPACE is required (set via downward API)" []) in
  let? template := check_backend (envOr "BACKEND" "sandboxclaim") in
  Ok {|
    ListenAddr := envOr "LISTEN_ADDR" ":9000";
    MetricsAddr := envOr "METRICS_ADDR" ":9090";
    Namespace := getenv "POD_NAMESPACE";
    LabelKey := envOr "PLAYWRIGHT_LABEL_KEY" "playwright-id";
    Backend := envOr "BACKEND" "sandboxclaim";
    WarmPoolName := getenv "WARMPOOL_NAME";
    TemplateName := template;
    SandboxPort := port;
    SandboxMCPPort := mcp_port;
    SubstrateAPIEndpoint := envOr "SUBSTRATE_API_ENDPOINT" "api.ate-system.svc.cluster.local:443";
    SubstrateRouterAddr := envOr "SUBSTRATE_ROUTER_ADDR" "atenet-router.ate-system.svc.cluster.local:80";
    SubstrateActorTemplate := getenv "SUBSTRATE_ACTOR_TEMPLATE";
    SubstrateForceBoot := bool_decide (envOr "SUBSTRATE_FORCE_BOOT" EmptyString = "true");
    SubstrateAllowedHTTPHosts := hosts;
    KarsInferenceRef := getenv "KARS_INFERENCE_REF";
    KarsSandboxImage := getenv "KARS_SANDBOX_IMAGE";
    IsolaNamespace := envOr "ISOLA_NAMESPACE" "isola-sandboxes";
    IsolaSandboxImage := getenv "ISOLA_SANDBOX_IMAGE";
    IsolaAllowedEgressCIDRs := cidrs;
    IdleTTL := idle_ttl;
    IdleCheckInterval := idle_check;
    EnsureTimeout := ensure;
  |}.
End from_env.

(** ** Valid configurations *)

(** What each backend's constructor relies on. *)
Definition backend_ok (c : Config) : Prop :=
  (Backend c = "sandboxclaim" /\ WarmPoolName c <> EmptyString /\ TemplateName c <> EmptyString) \/
  (Backend c = "substrate" /\ strings_Contains (SubstrateActorTemplate c) "/" = true) \/
  (Backend c = "karssandbox" /\ KarsInferenceRef c <> EmptyString /\ KarsSandboxImage c <> EmptyString) \/
  (Backend c = "isola" /\ IsolaSandboxImage c <> EmptyString /\ IsolaNamespace c <> EmptyString).

Definition host_ok (h : string) : Prop :=
  h <> EmptyString /\ strings_ContainsAny h bad_host_chars = false.

Record valid (c : Config) : Prop := {
  valid_listen : ListenAddr c <> EmptyString /\ MetricsAddr c <> EmptyString;
  valid_namespace : Namespace c <> EmptyString /\ LabelKey c <> EmptyString;
  valid_port : 1 <= SandboxPort c <= 65535;
  valid_mcp : 0 <= SandboxMCPPort c <= 65535;
  valid_backend : backend_ok c;
  valid_hosts : Forall host_ok (SubstrateAllowedHTTPHosts c);
  valid_cidrs : Forall (fun s => s <> EmptyString) (IsolaAllowedEgressCIDRs c);
  valid_durations : in_int64 (IdleTTL c) /\ in_int64 (IdleCheckInterval c) /\ in_int64 (EnsureTimeout c);
}.

Lemma envOr_nonempty getenv k dflt : dflt <> EmptyString -> envOr getenv k dflt <> EmptyString.
Proof. unfold envOr. by case_decide. Qed.

Lemma parsePort_range name raw z p :
  parsePort name raw z = Ok p -> (if z then 0 else 1) <= p <= 65535.
Proof.
  unfold parsePort. rewrite result_bind_Ok. intros (q & _ & H). revert H.
  destruct z; simpl.
  - destruct (Z.eqb_spec q 0); [by intros [= <-]|].
    destruct (Z.ltb_spec q 1), (Z.ltb_spec 65535 q); simpl; try done. intros [= <-]. lia.
  - destruct (Z.ltb_spec q 1), (Z.ltb_spec 65535 q); simpl; try done. intros [= <-]. lia.
Qed.

Lemma parse_hosts_ok parts hosts : parse_hosts parts = Ok hosts -> Forall host_ok hosts.
Proof.
  revert hosts. induction parts as [|p parts IH]; cbn [parse_hosts]; intros hosts; [by intros [= <-]|].
  set (h := strings_TrimSpace p). destruct (_ || _) eqn:Hb; [done|].
  apply orb_false_iff in Hb as [Hne%bool_decide_eq_false Hc].
  rewrite result_bind_Ok. intros (hs & Hhs & [= <-]). constructor; [by split|by apply IH].
Qed.

Lemma check_backend_ok getenv b template :
  check_backend getenv b = Ok template ->
  (b = "sandboxclaim" /\ getenv "WARMPOOL_NAME" <> EmptyString /\ template <> EmptyString) \/
  (b = "substrate" /\ strings_Contains (getenv "SUBSTRATE_ACTOR_TEMPLATE") "/" = true) \/
  (b = "karssandbox" /\ getenv "KARS_INFERENCE_REF" <> EmptyString /\
     getenv "KARS_SANDBOX_IMAGE" <> EmptyString) \/
  (b = "isola" /\ getenv "ISOLA_SANDBOX_IMAGE" <> EmptyString).
Proof.
  assert (forall v (e : error) A (f : unit -> result error A) r,
    (let? x := require (negb (bool_decide (v = EmptyString))) e in f x) = Ok r ->
    v <> EmptyString /\ f tt = Ok r) as Hreq.
  { intros v e A f r. rewrite result_bind_Ok. intros ([] & Hu & Hr).
    by apply require_Ok, negb_true_iff, bool_decide_eq_false in Hu. }
  unfold check_backend. intros H.
  destruct (decide (b = "sandboxclaim")) as [->|_].
  { apply Hreq in H as [Hw [= <-]]. left. split_and!; [done|done|]. by case_decide. }
  destruct (decide (b = "substrate")) as [->|_].
  { apply Hreq in H as [_ H]. apply result_bind_Ok in H as (u & Hu%require_Ok & _). right; left. done. }
  destruct (decide (b = "karssandbox")) as [->|_].
  { apply Hreq in H as [Hr H]. apply Hreq in H as [Hi _]. right; right; left. done. }
  destruct (decide (b = "isola")) as [->|_]; [|done].
  apply Hreq in H as [Hi _]. right; right; right. done.
Qed.

(** C38. Every configuration [FromEnv] accepts is valid: the addresses, namespace and label
    are set, the ports fit a TCP port (0 only for the optional MCP one), the chosen
    backend is one of the four and has what it requires, allowed hosts are bare host
    names, durations are in range. *)
Theorem FromEnv_valid (getenv : environ) (c : Config) : FromEnv getenv = Ok c -> valid c.
Proof.
  unfold FromEnv. rewrite result_bind_Ok. intros (hosts & Hhosts & H). cbv zeta in H.
  apply result_bind_Ok in H as (port & Hport%parsePort_range & H).
  apply result_bind_Ok in H as (mcp & Hmcp & H).
  apply result_bind_Ok in H as (ttl & Httl & H).
  apply result_bind_Ok in H as (check & Hcheck & H).
  apply result_bind_Ok in H as (ens & Hens & H).
  apply result_bind_Ok in H as (u & Hns%require_Ok%negb_true_iff%bool_decide_eq_false & H).
  apply result_bind_Ok in H as (template & Hb%check_backend_ok & H).
  injection H as <-. unfold duration in *.
  apply map_err_Ok, ParseDuration_range in Httl, Hcheck, Hens.
  split; simpl; try done.
  - split; by apply envOr_nonempty.
  - split; [done|by apply envOr_nonempty].
  - destruct (decide (getenv "SANDBOX_MCP_PORT" = EmptyString)); [by injection Hmcp as <-|].
    by apply parsePort_range in Hmcp.
  - unfold backend_ok. simpl. destruct Hb as [?|[?|[?|[? ?]]]]; auto.
    right; right; right. split_and!; [done|done|by apply envOr_nonempty].
  - destruct (decide (getenv "SUBSTRATE_ALLOWED_HTTP_HOSTS" = EmptyString));
      [injection Hhosts as <-; constructor|]. by apply parse_hosts_ok in Hhosts.
  - destruct (decide (getenv "ISOLA_ALLOWED_EGRESS_CIDRS" = EmptyString)); [constructor|]. apply Forall_forall. unfold parse_cidrs.
    by intros x [? _]%list_elem_of_filter.
Qed.

(** ** Sample environments *)

Definition setenv (l : list (string * string)) : environ := fun k =>
  match list_find (fun e : string * string => e.1 = k) l with
  | Some (_, (_, v)) => v
  | None => EmptyString
  end.

Definition minimal_env : environ := setenv [("POD_NAMESPACE", "ci"); ("WARMPOOL_NAME", "pw")].

Lemma FromEnv_valid_witness :
  exists c, FromEnv minimal_env = Ok c /\ valid c /\ SandboxPort c = 9222 /\ TemplateName c = "pw".
Proof.
  assert (exists c, FromEnv minimal_env = Ok c /\ SandboxPort c = 9222 /\ TemplateName c = "pw")
    as (c & H & Hp & Ht) by (eexists; split; [vm_compute; reflexivity|split; reflexivity]).
  exists c. split; [exact H|]. split; [|split; [exact Hp|exact Ht]].
  exact (FromEnv_valid minimal_env c H).
Defined.

(** A port written in decimal is read back, and one outside 1..65535 is refused. *)
Theorem parsePort_decimal (name : string) (p : Z) (allowZero : bool) :
  in_int64 p ->
  parsePort name (fmt_d p) allowZero =
  if decide ((if allowZero then 0 else 1) <= p <= 65535) then Ok p
  else Err (Errorf "%s: %d out of range 1..65535" [FStr name; FInt p]).
Proof.
  intros Hp. unfold parsePort. rewrite (Atoi_fmt_d p Hp). simpl.
  destruct allowZero; simpl.
  - destruct (Z.eqb_spec p 0) as [->|]; [by rewrite decide_True by lia|].
    destruct (Z.ltb_spec p 1), (Z.ltb_spec 65535 p); simpl;
      [rewrite decide_False by lia; done..|by rewrite decide_True by lia].
  - destruct (Z.ltb_spec p 1), (Z.ltb_spec 65535 p); simpl;
      [rewrite decide_False by lia; done..|by rewrite decide_True by lia].
Qed.

Lemma parsePort_decimal_witness :
  parsePort "SANDBOX_PORT" (fmt_d 8080) false = Ok 8080 /\
  is_ok (parsePort "SANDBOX_PORT" (fmt_d 65536) false) = false.
Proof.
  split.
  - refine (eq_trans (parsePort_decimal "SANDBOX_PORT" 8080 false _) _); [by_decision|reflexivity].
  - rewrite (parsePort_decimal "SANDBOX_PORT" 65536 false); [reflexivity|by_decision].
Defined.

(** [FromEnv] accepts a zero or negative reaping interval, with which [time.NewTicker]
    panics when [ReapLoop] starts. *)
Theorem FromEnv_accepts_no_interval :
  exists getenv1 getenv2 c1 c2,
    FromEnv getenv1 = Ok c1 /\ IdleCheckInterval c1 = 0 /\
    FromEnv getenv2 = Ok c2 /\ IdleCheckInterval c2 < 0.
Proof.
  exists (setenv [("POD_NAMESPACE", "ci"); ("WARMPOOL_NAME", "pw"); ("IDLE_CHECK_INTERVAL", "0s")]).
  exists (setenv [("POD_NAMESPACE", "ci"); ("WARMPOOL_NAME", "pw"); ("IDLE_CHECK_INTERVAL", "-30s")]).
  eexists _, _. split; [vm_compute; reflexivity|]. split; [reflexivity|].
  split; [vm_compute; reflexivity|]. reflexivity.
Qed.
