(* ===== verification/Kube.v ===== *)
(** * The Kubernetes client, as the backends use it

    Custom resources are dynamic objects; the API server answers arbitrarily.  The
    helpers of [apimachinery] (access to nested fields, polling) are parameters with the
    behaviour their documentation states. *)

From S2P Require Import Prelude GoStd Effects Backend.
Local Open Scope Z_scope.

(** ** Dynamic values ([any]) and objects *)

Inductive json : Type :=
| JNull
| JBool (b : bool)
| JInt (z : Z)
| JFloat (text : string) (* by what [%v] prints for it *)
| JString (s : string)
| JArray (l : list json)
| JObject (m : gmap string json).

(** [map[string]any] *)
Notation object := (gmap string json) (only parsing).

(** A map literal; a later key overwrites an earlier one. *)
Definition literal (l : list (string * json)) : object :=
  foldl (fun m (e : string * json) => <[e.1 := e.2]> m) ∅ l.
Definition jmap (l : list (string * json)) : json := JObject (literal l).

(** The value at a path of map keys. *)
Fixpoint at_path (o : object) (fields : list string) : option json :=
  match fields with
  | [] => Some (JObject o)
  | [f] => o !! f
  | f :: fs =>
      match o !! f with
      | Some (JObject o') => at_path o' fs
      | _ => None
      end
  end.

(** [cm[key] == "value"], between an [any] and a string. *)
Definition is_string (v : option json) (s : string) : bool :=
  match v with Some (JString t) => bool_decide (t = s) | _ => false end.

(** [s, _ := v.(string)] *)
Definition as_string (v : option json) : string :=
  match v with Some (JString t) => t | _ => EmptyString end.

(** What [%v] prints: a map with its keys in order. *)
Fixpoint insert_key {A} (k : string) (v : A) (l : list (string * A)) : list (string * A) :=
  match l with
  | [] => [(k, v)]
  | (k', v') :: l => if String.leb k k' then (k, v) :: (k', v') :: l else (k', v') :: insert_key k v l
  end.

Definition spaced (l : list string) : string := String.concat " " l.

Fixpoint fmt_v (v : json) : string :=
  match v with
  | JNull => "<nil>"
  | JBool b => if b then "true" else "false"
  | JInt z => fmt_d z
  | JFloat text => text
  | JString s => s
  | JArray l => "[" +:+ spaced (map fmt_v l) +:+ "]"
  | JObject m =>
      let entries := map_fold (fun k v acc => insert_key k (fmt_v v) acc) [] m in
      "map[" +:+ spaced (map (fun e : string * string => e.1 +:+ ":" +:+ e.2) entries) +:+ "]"
  end.

(** [fmt.Sprintf("%v", cm[key])]: a missing key is the nil interface. *)
Definition fmt_value (v : option json) : string := fmt_v (default JNull v).

Example fmt_v_map : fmt_v (jmap [("b", JInt 2); ("a", JArray [JString "x"; JNull])]) = "map[a:[x <nil>] b:2]".
Proof. vm_compute. reflexivity. Qed.

(** [unstructured.NestedMap], [NestedSlice], [NestedString] and [GetLabels]: the value,
    whether it was found, and the error of a value of another type. *)
Class Unstructured : Type := {
  NestedMap : object -> list string -> object * bool * option error;
  NestedSlice : object -> list string -> list json * bool * option error;
  NestedString : object -> list string -> string * bool * option error;
  GetLabels : object -> gmap string string;
  NestedMap_found o fs m : at_path o fs = Some (JObject m) -> NestedMap o fs = (m, true, None);
  NestedMap_other o fs :
    (forall m, at_path o fs <> Some (JObject m)) ->
    (NestedMap o fs).1.2 = false;
  NestedSlice_found o fs l : at_path o fs = Some (JArray l) -> NestedSlice o fs = (l, true, None);
  NestedSlice_other o fs :
    (forall l, at_path o fs <> Some (JArray l)) -> (NestedSlice o fs).1.1 = [];
  NestedString_found o fs s : at_path o fs = Some (JString s) -> NestedString o fs = (s, true, None);
  NestedString_other o fs :
    (forall s, at_path o fs <> Some (JString s)) -> (NestedString o fs).1.1 = EmptyString;
  GetLabels_spec o ls k v :
    at_path o ["metadata"; "labels"] = Some (JObject ls) ->
    (forall k' v', ls !! k' = Some v' -> exists s, v' = JString s) ->
    GetLabels o !! k = Some v <-> ls !! k = Some (JString v);
}.

(** ** The calls *)

(** The resources of the three custom-resource backends. *)
Record GVR := mkGVR { Group : string; Version : string; Resource : string }.

#[export] Instance GVR_eq_dec : EqDecision GVR.
Proof. solve_decision. Defined.

(** What the code reads of a pod. *)
Record KPod := mkKPod {
  DeletionTimestamp : option Z;
  Phase : string;
  PodIP : string;
  Conditions : list (string * string); (* type, status *)
}.

(** The specification of a network policy ([networking/v1]).  Nil and empty lists and maps
    are the same, as the comparison [Semantic.DeepEqual] has it. *)
Record LabelSelector := mkLabelSelector {
  MatchLabels : gmap string string;
  MatchExpressions : list (string * string * list string); (* key, operator, values *)
}.

Inductive IntOrString := IntVal (z : Z) | StrVal (s : string).

Record NetworkPolicyPort := mkPolicyPort {
  Protocol : option string;
  PolicyPort : option IntOrString;
  EndPort : option Z;
}.

Record NetworkPolicyPeer := mkPeer {
  PeerPods : option LabelSelector;
  PeerNamespaces : option LabelSelector;
  IPBlock : option (string * list string); (* CIDR, exceptions *)
}.

(** A rule of one direction: its peers and its ports. *)
Record NetworkPolicyRule := mkRule {
  Peers : list NetworkPolicyPeer;
  Ports : list NetworkPolicyPort;
}.

Record NetworkPolicySpec := mkPolicySpec {
  PodSelector : LabelSelector;
  Ingress : list NetworkPolicyRule;
  Egress : list NetworkPolicyRule;
  PolicyTypes : list string;
}.

#[export] Instance LabelSelector_eq_dec : EqDecision LabelSelector.
Proof. solve_decision. Defined.
#[export] Instance IntOrString_eq_dec : EqDecision IntOrString.
Proof. solve_decision. Defined.
#[export] Instance NetworkPolicyPort_eq_dec : EqDecision NetworkPolicyPort.
Proof. solve_decision. Defined.
#[export] Instance NetworkPolicyPeer_eq_dec : EqDecision NetworkPolicyPeer.
Proof. solve_decision. Defined.
#[export] Instance NetworkPolicyRule_eq_dec : EqDecision NetworkPolicyRule.
Proof. solve_decision. Defined.
#[export] Instance NetworkPolicySpec_eq_dec : EqDecision NetworkPolicySpec.
Proof. solve_decision. Defined.

Record NetworkPolicy := mkNetworkPolicy {
  policyName : string;
  policyNamespace : string;
  policyLabels : gmap string string;
  policySpec : NetworkPolicySpec;
}.

Inductive call : Type -> Type :=
| KGet (r : GVR) (ctx : Ctx) (ns name : string) : call (result error object)
| KCreate (r : GVR) (ctx : Ctx) (ns : string) (obj : object) : call (result error object)
| KDelete (r : GVR) (ctx : Ctx) (ns name : string) : call (option error)
| KList (r : GVR) (ctx : Ctx) (ns selector : string) : call (result error (list object))
| KPods (ctx : Ctx) (ns selector : string) : call (result error (list KPod))
| KPolicyCreate (ctx : Ctx) (ns : string) (p : NetworkPolicy) : call (result error NetworkPolicySpec)
| KPolicyGet (ctx : Ctx) (ns name : string) : call (result error NetworkPolicySpec).

(** What a call is and what it answers. *)
Definition is_get (r : GVR) (ns name : string) (e : event call) : Prop :=
  match ev_call e with KGet r' _ ns' n => r' = r /\ ns' = ns /\ n = name | _ => False end.

Definition got_object (e : event call) : option object :=
  match ev_call e in call A return A -> option object with
  | KGet _ _ _ _ => fun r => match r with Ok o => Some o | Err _ => None end
  | _ => fun _ => None
  end (ev_answer e).

Definition created (e : event call) : option object :=
  match ev_call e with KCreate _ _ _ obj => Some obj | _ => None end.

(** A call that changes nothing. *)
Definition reads (e : event call) : Prop :=
  match ev_call e with
  | KGet _ _ _ _ | KList _ _ _ _ | KPods _ _ _ | KPolicyGet _ _ _ => True
  | KCreate _ _ _ _ | KDelete _ _ _ _ | KPolicyCreate _ _ _ => False
  end.

Lemma created_reads l : Forall reads l -> omap created l = [].
Proof. apply omap_none. by intros [? [] ?]. Qed.

(** A call that creates and deletes no custom resource. *)
Definition leaves (e : event call) : Prop :=
  match ev_call e with KCreate _ _ _ _ | KDelete _ _ _ _ => False | _ => True end.

(** ** Errors *)

(** The code of the first error of the chain that has a [Status]. *)
Definition status_code (err : error) : option Z :=
  errors_As (fun e => match e with StatusError code _ => Some code | _ => None end) err.

Definition isNotFound (err : error) : bool := bool_decide (status_code err = Some 404).
Definition isAlreadyExists (err : error) : bool := bool_decide (status_code err = Some 409).

Definition managedByLabel : string := "playwright-proxy/managed".

(** ** Polling *)

(** The runs of [wait.PollUntilContextCancel]: the condition is called again and again
    until it is done or fails, or the context is cancelled. *)
Inductive polls {H A} (cond : IO H (result error (option A))) : H -> result error A -> H -> Prop :=
| polls_done h a h' : cond h = (Ok (Some a), h') -> polls cond h (Ok a) h'
| polls_fail h e h' : cond h = (Err e, h') -> polls cond h (Err e) h'
| polls_again h h' r h'' : cond h = (Ok None, h') -> polls cond h' r h'' -> polls cond h r h''
| polls_cancelled h e :
    e = ContextCanceled \/ e = ContextDeadlineExceeded -> polls cond h (Err e) h.

Class Poller (H : Type) : Type := {
  PollUntilContextCancel : forall A, Ctx -> Z -> IO H (result error (option A)) -> IO H (result error A);
  Poll_spec A ctx interval (cond : IO H (result error (option A))) h :
    polls cond h (PollUntilContextCancel A ctx interval cond h).1
      (PollUntilContextCancel A ctx interval cond h).2;
}.
Arguments PollUntilContextCancel {H Poller A} ctx interval cond.

(** A run of polling as a triple over the calls it adds: [done] holds of the calls of the
    round that succeeded, [waiting] of those of the rounds before. *)
Lemma poll_adds {E : Type -> Type} `{Poller (history E)} {A} ctx interval
    (cond : IO (history E) (result error (option A)))
    (waiting : history E -> Prop) (done : A -> history E -> Prop)
    (failed : error -> history E -> Prop) (Q : result error A -> history E -> Prop) :
  adds cond (fun r l => match r with
                        | Ok None => waiting l | Ok (Some a) => done a l | Err e => failed e l end) ->
  (forall a ls l, Forall waiting ls -> done a l -> Q (Ok a) (concat ls ++ l)) ->
  (forall e ls l, Forall waiting ls -> failed e l -> Q (Err e) (concat ls ++ l)) ->
  (forall e ls, e = ContextCanceled \/ e = ContextDeadlineExceeded -> Forall waiting ls ->
     Q (Err e) (concat ls)) ->
  adds (PollUntilContextCancel ctx interval cond) Q.
Proof.
  intros Hc Hd Hf Hx h.
  pose proof (Poll_spec A ctx interval cond h) as Hp.
  destruct (PollUntilContextCancel ctx interval cond h) as [r h']. simpl in *.
  enough (exists l, h' = h ++ l /\ (forall ls, Forall waiting ls -> Q r (concat ls ++ l)))
    as (l & ? & HQ) by (exists l; split; [done|exact (HQ [] (Forall_nil_2 _))]).
  induction Hp as [h a h' Hr|h e h' Hr|h h' r h'' Hr Hp IH|h e He].
  - destruct (Hc h) as (l & Hl & HP). rewrite Hr in *. simpl in *. exists l. split; [done|]. auto.
  - destruct (Hc h) as (l & Hl & HP). rewrite Hr in *. simpl in *. exists l. split; [done|]. auto.
  - destruct (Hc h) as (l & Hl & HP). rewrite Hr in *. simpl in *. subst h'.
    destruct IH as (l' & -> & HQ). exists (l ++ l'). split; [by rewrite (assoc app)|].
    intros ls Hls. specialize (HQ (ls ++ [l])).
    rewrite concat_app in HQ. simpl in HQ. rewrite app_nil_r, <- (assoc app) in HQ.
    apply HQ, Forall_app. auto.
  - exists []. split; [by rewrite app_nil_r|]. intros ls Hls. rewrite app_nil_r. auto.
Qed.

Lemma performs_poll {E : Type -> Type} (env : environment E) `{Poller (history E)} {A} ctx interval
    (cond : IO (history E) (result error (option A))) :
  performs env cond -> performs env (PollUntilContextCancel ctx interval cond).
Proof.
  intros Hc h. pose proof (Poll_spec A ctx interval cond h) as Hp.
  destruct (PollUntilContextCancel ctx interval cond h) as [r h']. simpl in *.
  induction Hp as [h a h' Hr|h e h' Hr|h h' r h'' Hr Hp IH|h e He].
  - specialize (Hc h). by rewrite Hr in Hc.
  - specialize (Hc h). by rewrite Hr in Hc.
  - destruct (Hc h) as (l & Hl & Ha). rewrite Hr in Hl. simpl in Hl. subst h'.
    destruct IH as (l' & -> & Ha'). exists (l ++ l').
    by rewrite answered_by_app, (assoc app).
  - exists []. by rewrite app_nil_r.
Qed.
#[export] Hint Extern 1 (performs _ (PollUntilContextCancel _ _ _)) =>
  apply performs_poll; solve_performs : performs.

(** Polling with rounds of calls that satisfy [P] and end, when the condition holds of
    [a], with a call that [R] relates to [a]. *)
Lemma poll_last {E : Type -> Type} `{Poller (history E)} {A} ctx interval
    (cond : IO (history E) (result error (option A))) (P : event E -> Prop)
    (R : A -> event E -> Prop) :
  adds cond (fun r l => Forall P l /\
    forall a, r = Ok (Some a) -> exists e, last l = Some e /\ R a e) ->
  adds (PollUntilContextCancel ctx interval cond) (fun r l => Forall P l /\
    forall a, r = Ok a -> exists e, last l = Some e /\ R a e).
Proof.
  intros Hc.
  eapply (poll_adds ctx interval cond (Forall P)
    (fun a l => Forall P l /\ exists e, last l = Some e /\ R a e) (fun _ => Forall P)).
  - eapply adds_mono; [exact Hc|]. intros [[a|]|e] l [HP HR]; [|done..]. split; [done|]. by apply HR.
  - intros a ls l Hls [HP (e & Hl & HR)]. split.
    + apply Forall_app. split; [by apply Forall_concat|done].
    + intros a' [= <-]. exists e. split; [|done]. rewrite last_app, Hl. done.
  - intros e ls l Hls HP. split; [|done]. apply Forall_app. split; [by apply Forall_concat|done].
  - intros e ls _ Hls. split; [by apply Forall_concat|done].
Qed.

Lemma calls_only_poll {E : Type -> Type} `{Poller (history E)} {A} (P : event E -> Prop) ctx interval
    (cond : IO (history E) (result error (option A))) :
  calls_only P cond -> calls_only P (PollUntilContextCancel ctx interval cond).
Proof.
  intros Hc. apply (poll_adds ctx interval cond (Forall P) (fun _ => Forall P) (fun _ => Forall P)).
  - eapply adds_mono; [exact Hc|]. by intros [[]|] l Hl.
  - intros a ls l Hls Hl. apply Forall_app. split; [by apply Forall_concat|done].
  - intros e ls l Hls Hl. apply Forall_app. split; [by apply Forall_concat|done].
  - intros e ls _ Hls. by apply Forall_concat.
Qed.
#[export] Hint Extern 1 (calls_only _ (PollUntilContextCancel _ _ _)) =>
  apply calls_only_poll; solve_calls_only : calls_only.

(** ** Fields and labels *)

Section labels.
Context `{!Unstructured}.

(** What the accessors find, whatever the object holds. *)
Lemma nested_slice_cases (o : object) path :
  (NestedSlice o path).1.1 = [] \/
  exists conds, at_path o path = Some (JArray conds) /\ (NestedSlice o path).1.1 = conds.
Proof.
  destruct (at_path o path) as [[]|] eqn:E;
    try (left; apply NestedSlice_other; rewrite E; by intros).
  right. eexists. split; [done|]. by rewrite (NestedSlice_found _ _ _ E).
Qed.

Lemma nested_string_some (o : object) path s :
  s <> EmptyString -> (NestedString o path).1.1 = s <-> at_path o path = Some (JString s).
Proof.
  intros Hs. split.
  - intros Hx. destruct (at_path o path) as [[]|] eqn:E;
      try (rewrite NestedString_other in Hx; [congruence|rewrite E; by intros]).
    rewrite (NestedString_found _ _ _ E) in Hx. by simplify_eq/=.
  - intros Hx. by rewrite (NestedString_found _ _ _ Hx).
Qed.

(** The ids of listed objects, by their label. *)
Definition ids_of (labelKey : string) (items : list object) : list string :=
  filter (fun id => id <> EmptyString)
    (map (fun it => default EmptyString (GetLabels it !! labelKey)) items).

(** A label map of two keys, as the backends build it. *)
Lemma GetLabels_built (o : object) key id :
  at_path o ["metadata"; "labels"] = Some (jmap [(managedByLabel, JString "true"); (key, JString id)]) ->
  GetLabels o !! key = Some id.
Proof.
  intros Hlabels. apply (GetLabels_spec o _ _ _ Hlabels).
  - intros k v. unfold literal. simpl.
    intros [[_ <-]|[_ [[_ <-]|[_ Hv]]%lookup_insert_Some]]%lookup_insert_Some; [by eexists..|].
    by rewrite lookup_empty in Hv.
  - unfold literal. simpl. by rewrite lookup_insert_eq.
Qed.

Lemma ids_of_built (key : string) (build : string -> object) ids :
  (forall id, at_path (build id) ["metadata"; "labels"] =
     Some (jmap [(managedByLabel, JString "true"); (key, JString id)])) ->
  ids_of key (map build ids) = filter (fun id => id <> EmptyString) ids.
Proof.
  intros Hb. unfold ids_of. rewrite map_map. f_equal.
  induction ids as [|id ids IH]; simpl; [done|]. rewrite IH. f_equal.
  by rewrite (GetLabels_built _ _ id (Hb id)).
Qed.
End labels.

(** ** Instances to evaluate with *)

Definition nested_map (o : object) (fs : list string) : object * bool * option error :=
  match at_path o fs with
  | Some (JObject m) => (m, true, None)
  | Some _ => (∅, false, Some (NewError "not a map"))
  | None => (∅, false, None)
  end.
Definition nested_slice (o : object) (fs : list string) : list json * bool * option error :=
  match at_path o fs with
  | Some (JArray l) => (l, true, None)
  | Some _ => ([], false, Some (NewError "not a slice"))
  | None => ([], false, None)
  end.
Definition nested_string (o : object) (fs : list string) : string * bool * option error :=
  match at_path o fs with
  | Some (JString s) => (s, true, None)
  | Some _ => (EmptyString, false, Some (NewError "not a string"))
  | None => (EmptyString, false, None)
  end.
Definition get_labels (o : object) : gmap string string :=
  match at_path o ["metadata"; "labels"] with
  | Some (JObject ls) => omap (fun v => match v with JString s => Some s | _ => None end) ls
  | _ => ∅
  end.

Program Definition sample_unstructured : Unstructured := {|
  NestedMap := nested_map; NestedSlice := nested_slice; NestedString := nested_string;
  GetLabels := get_labels;
|}.
Next Obligation. intros o fs m H. unfold nested_map. by rewrite H. Qed.
Next Obligation. intros o fs H. unfold nested_map. repeat case_match; naive_solver. Qed.
Next Obligation. intros o fs l H. unfold nested_slice. by rewrite H. Qed.
Next Obligation. intros o fs H. unfold nested_slice. repeat case_match; naive_solver. Qed.
Next Obligation. intros o fs s H. unfold nested_string. by rewrite H. Qed.
Next Obligation. intros o fs H. unfold nested_string. repeat case_match; naive_solver. Qed.
Next Obligation.
  intros o ls k v H Hs. unfold get_labels. rewrite H, lookup_omap_Some. split.
  - intros (j & Hj & Hk). destruct j; by simplify_eq.
  - intros Hk. by exists (JString v).
Qed.

(** A poller that gives up after [n] rounds. *)
Fixpoint poll_n {H A} (n : nat) (cond : IO H (result error (option A))) : IO H (result error A) :=
  match n with
  | O => io_ret (Err ContextDeadlineExceeded)
  | S n => let* r := cond in
           match r with
           | Ok (Some a) => io_ret (Ok a)
           | Ok None => poll_n n cond
           | Err e => io_ret (Err e)
           end
  end.

Lemma poll_n_polls {H A} n (cond : IO H (result error (option A))) h :
  polls cond h (poll_n n cond h).1 (poll_n n cond h).2.
Proof.
  revert h. induction n as [|n IH]; intros h; cbn [poll_n].
  - by apply polls_cancelled; right.
  - rewrite io_bind_run. destruct (cond h) as [[[a|]|e] h'] eqn:Hc; simpl.
    + by apply polls_done.
    + by eapply polls_again.
    + by apply polls_fail.
Qed.

Definition sample_poller H : Poller H :=
  {| PollUntilContextCancel A ctx interval cond := poll_n 3 cond;
     Poll_spec A ctx interval cond h := poll_n_polls 3 cond h |}.
