(* ===== verification/SandboxClaim.v ===== *)
(** * The SandboxClaim backend ([internal/backend/sandboxclaim.go])

    One SandboxClaim per playwright-id: got or created, polled until its Ready condition
    and pod address are set. *)

From S2P Require Import Prelude GoStd Effects Backend Kube.
Local Open Scope Z_scope.

Definition podUserLabelDomain : string := "sandbox.users.io/".

Definition sandboxClaimGVR : GVR := mkGVR "extensions.agents.x-k8s.io" "v1beta1" "sandboxclaims".
Definition sandboxClaimAPIVersion : string := "extensions.agents.x-k8s.io/v1beta1".

Record SandboxClaim := mkSandboxClaim {
  namespace : string;
  templateName : string;
  warmPoolName : string;
  port : Z;
  mcpPort : Z;
  playwrightIDLabelKey : string;
}.

Definition NewSandboxClaim (namespace templateName warmPoolName : string) (port mcpPort : Z)
    (labelKey : string) : SandboxClaim :=
  mkSandboxClaim namespace templateName warmPoolName port mcpPort labelKey.

Definition claimName (playwrightID : string) : string := "pw-" +:+ playwrightID.

Definition podMetadataLabelKey (s : SandboxClaim) : string :=
  if strings_Contains (playwrightIDLabelKey s) "/" then playwrightIDLabelKey s
  else podUserLabelDomain +:+ playwrightIDLabelKey s.

Definition buildClaim (s : SandboxClaim) (name playwrightID : string) : object :=
  literal [
    ("apiVersion", JString sandboxClaimAPIVersion);
    ("kind", JString "SandboxClaim");
    ("metadata", jmap [
      ("name", JString name);
      ("namespace", JString (namespace s));
      ("labels", jmap [
        (managedByLabel, JString "true");
        (playwrightIDLabelKey s, JString playwrightID)])]);
    ("spec", jmap [
      ("warmPoolRef", jmap [("name", JString (warmPoolName s))]);
      ("additionalPodMetadata", jmap [
        ("labels", jmap [(podMetadataLabelKey s, JString playwrightID)])])])].

(** The Ready condition, as the scan of [extractClaimEndpoint] looks for it. *)
Definition ready_condition (c : json) : bool :=
  match c with
  | JObject cm => is_string (cm !! "type") "Ready" && is_string (cm !! "status") "True"
  | _ => false
  end.

Definition pod_ip (v : json) : option string :=
  match v with
  | JString ip => if decide (ip = EmptyString) then None else Some ip
  | _ => None
  end.

Section backend.
Context `{!Unstructured}.

(** [extractClaimEndpoint]: the address when it is ready. *)
Definition extractClaimEndpoint (claim : object) : option string :=
  match NestedMap claim ["status"] with
  | (st, true, None) =>
      if existsb ready_condition (NestedSlice st ["conditions"]).1.1
      then find_first pod_ip (NestedSlice st ["sandbox"; "podIPs"]).1.1
      else None
  | _ => None
  end.

Context `{!Poller (history call)}.
Context (env : environment call) (s : SandboxClaim).
Notation do e := (perform env e).

(** The claim, got or created. *)
Definition get_or_create (ctx : Ctx) (name playwrightID : string)
  : IO (history call) (result error unit) :=
  let* got := do (KGet sandboxClaimGVR ctx (namespace s) name) in
  match got with
  | Ok _ => io_ret (Ok tt)
  | Err e =>
      if negb (isNotFound e) then io_ret (Err (Errorf_w "get SandboxClaim %s: %w" [FStr name] e)) else
      let* made := do (KCreate sandboxClaimGVR ctx (namespace s) (buildClaim s name playwrightID)) in
      match made with
      | Ok _ => io_ret (Ok tt)
      | Err e =>
          if negb (isAlreadyExists e)
          then io_ret (Err (Errorf_w "create SandboxClaim %s: %w" [FStr name] e)) else
          let* again := do (KGet sandboxClaimGVR ctx (namespace s) name) in
          match again with
          | Ok _ => io_ret (Ok tt)
          | Err e => io_ret (Err (Errorf_w "re-get SandboxClaim %s: %w" [FStr name] e))
          end
      end
  end.

(** The condition of the poll. *)
Definition ready_poll (ctx : Ctx) (name : string)
  : IO (history call) (result error (option Endpoint)) :=
  let* cur := do (KGet sandboxClaimGVR ctx (namespace s) name) in
  io_ret (match cur with
          | Err e => Err e
          | Ok claim =>
              Ok ((fun ip => mkEndpoint ip EmptyString (port s) (mcpPort s))
                    <$> extractClaimEndpoint claim)
          end).

Definition Ensure (ctx : Ctx) (playwrightID : string) : IO (history call) (result error Endpoint) :=
  let name := claimName playwrightID in
  let* claimed := get_or_create ctx name playwrightID in
  match claimed with
  | Err e => io_ret (Err e)
  | Ok _ =>
      let* polled := PollUntilContextCancel ctx (500 * millisecond) (ready_poll ctx name) in
      io_ret (match polled with
              | Err e => Err (Errorf_w "SandboxClaim %s not ready: %w" [FStr name] e)
              | Ok ep => Ok ep
              end)
  end.

Definition Delete (ctx : Ctx) (playwrightID : string) : IO (history call) (option error) :=
  let name := claimName playwrightID in
  let* deleted := do (KDelete sandboxClaimGVR ctx (namespace s) name) in
  io_ret (match deleted with
          | Some e => if isNotFound e then None
                      else Some (Errorf_w "delete SandboxClaim %s: %w" [FStr name] e)
          | None => None
          end).

Definition List (ctx : Ctx) : IO (history call) (result error (list string)) :=
  let* listed := do (KList sandboxClaimGVR ctx (namespace s) (managedByLabel +:+ "=true")) in
  io_ret (match listed with
          | Err e => Err (Errorf_w "list SandboxClaims: %w" [] e)
          | Ok items => Ok (ids_of (playwrightIDLabelKey s) items)
          end).
End backend.

(** The backend as the manager sees it. *)
#[export] Instance SandboxClaim_backend `{!Unstructured, !Poller (history call)}
    (env : environment call) (s : SandboxClaim) : Backend.Backend (history call) := {
  Ensure := Ensure env s;
  Delete := Delete env s;
  List := List env s;
}.

(** ** What the claims say *)

(** The claim is ready at an address: a condition Ready is True and the address is the
    first non-empty one of the sandbox's. *)
Definition ready_at (claim : object) (ip : string) : Prop :=
  exists st conds ips before after,
    claim !! "status" = Some (JObject st) /\
    st !! "conditions" = Some (JArray conds) /\ Exists (fun c => ready_condition c = true) conds /\
    at_path st ["sandbox"; "podIPs"] = Some (JArray ips) /\
    ips = before ++ JString ip :: after /\ ip <> EmptyString /\
    Forall (fun v => pod_ip v = None) before.

Section facts.
Context `{!Unstructured}.

Lemma extractClaimEndpoint_ready claim ip :
  extractClaimEndpoint claim = Some ip <-> ready_at claim ip.
Proof.
  unfold extractClaimEndpoint, ready_at. split.
  - destruct (NestedMap claim ["status"]) as [[st found] merr] eqn:Hm.
    assert ((exists m, at_path claim ["status"] = Some (JObject m)) \/
            (forall m, at_path claim ["status"] <> Some (JObject m))) as [[m Hst]|Hno].
    { destruct (at_path claim ["status"]) as [[]|]; eauto; right; by intros. }
    2:{ apply NestedMap_other in Hno. rewrite Hm in Hno. simpl in Hno. by subst. }
    rewrite (NestedMap_found _ _ _ Hst) in Hm. injection Hm as -> <- <-.
    destruct (existsb ready_condition _) eqn:Hr; [|done]. intros Hip.
    assert (exists conds, st !! "conditions" = Some (JArray conds) /\
      (NestedSlice st ["conditions"]).1.1 = conds) as (conds & Hc & Hconds).
    { destruct (st !! "conditions") as [[]|] eqn:Hc; try
        (rewrite (NestedSlice_other st ["conditions"]) in Hr; [done|]; simpl; rewrite Hc; by intros).
      eexists. split; [done|]. by rewrite (NestedSlice_found st ["conditions"] l). }
    assert (exists ips, at_path st ["sandbox"; "podIPs"] = Some (JArray ips) /\
      (NestedSlice st ["sandbox"; "podIPs"]).1.1 = ips) as (ips & Hi & Hips).
    { destruct (at_path st ["sandbox"; "podIPs"]) as [[]|] eqn:Hi; try
        (rewrite (NestedSlice_other st ["sandbox"; "podIPs"]) in Hip; [done|]; rewrite Hi; by intros).
      eexists. split; [done|]. by rewrite (NestedSlice_found st ["sandbox"; "podIPs"] l). }
    rewrite Hconds in Hr. rewrite Hips in Hip.
    apply find_first_Some in Hip as (l1 & v & l2 & -> & Hv & Hl1).
    destruct v as [| | | |v| |]; try done. simpl in Hv. case_decide; [done|]. injection Hv as ->.
    exists st, conds, (l1 ++ JString ip :: l2), l1, l2. split_and!; try done.
    apply existsb_exists in Hr as (c & Hin & Hc2). apply Exists_exists.
    exists c. split; [by apply list_elem_of_In|done].
  - intros (st & conds & ips & l1 & l2 & Hst & Hc & Hex & Hi & -> & Hne & Hl1).
    rewrite (NestedMap_found claim ["status"] st Hst), (NestedSlice_found st ["conditions"] conds Hc),
      (NestedSlice_found _ _ _ Hi). simpl.
    assert (existsb ready_condition conds = true) as ->.
    { apply existsb_exists. apply Exists_exists in Hex as (c & Hin & ?).
      exists c. split; [by apply list_elem_of_In|done]. }
    apply find_first_Some. exists l1, (JString ip), l2. split; [done|]. split; [|done].
    simpl. by case_decide.
Qed.

Context `{!Poller (history call)}.
Context (env : environment call) (s : SandboxClaim).

(** What getting or creating the claim calls. *)
Lemma claim_get_or_create_adds ctx name id :
  adds (get_or_create env s ctx name id) (fun r l =>
    omap created l = [] \/ omap created l = [buildClaim s name id]).
Proof.
  unfold get_or_create. apply adds_call. intros [o|e]; [apply adds_ret; by left|].
  case_match; [apply adds_ret; by left|]. apply adds_call. intros [o|e']; [apply adds_ret; by right|].
  case_match; [apply adds_ret; by right|]. apply adds_call. intros [o|e'']; apply adds_ret; by right.
Qed.

Lemma claim_ready_poll_adds ctx name :
  adds (ready_poll env s ctx name) (fun r l => Forall reads l /\
    forall ep, r = Ok (Some ep) -> exists e, last l = Some e /\
      is_get sandboxClaimGVR (namespace s) name e /\ exists claim ip,
      got_object e = Some claim /\ ready_at claim ip /\
      ep = mkEndpoint ip EmptyString (port s) (mcpPort s)).
Proof.
  unfold ready_poll. apply adds_call. intros [claim|e]; apply adds_ret;
    (split; [by repeat constructor|]); [|done].
  intros ep. destruct (extractClaimEndpoint claim) as [ip|] eqn:Hip; simpl; [|done].
  intros [= <-]. apply extractClaimEndpoint_ready in Hip.
  eexists. split; [done|]. split; [done|]. by exists claim, ip.
Qed.

(** What a claim's endpoint is, after the calls [l] that ensured it. *)
Definition claim_provided (id : string) (ep : Endpoint) (l : history call) : Prop :=
  TargetActor ep = EmptyString /\ Port ep = port s /\ MCPPort ep = mcpPort s /\
  exists e claim, last l = Some e /\
    is_get sandboxClaimGVR (namespace s) (claimName id) e /\
    got_object e = Some claim /\ ready_at claim (Host ep).

Lemma claim_ensure_adds ctx id :
  adds (Ensure env s ctx id) (fun r l =>
    (omap created l = [] \/ omap created l = [buildClaim s (claimName id) id]) /\
    forall ep, r = Ok ep -> claim_provided id ep l).
Proof.
  unfold Ensure. eapply adds_bind; [apply claim_get_or_create_adds|]. intros [[]|e] l Hl.
  2:{ apply adds_ret. by rewrite app_nil_r. }
  eapply adds_bind; [apply poll_last, claim_ready_poll_adds|].
  intros polled l' [Hreads Hep]. apply adds_ret.
  rewrite app_nil_r, omap_app, (created_reads _ Hreads), app_nil_r.
  split; [done|]. intros ep Hr. destruct polled as [ep'|e]; [|done]. injection Hr as ->.
  destruct (Hep ep eq_refl) as (e & Hlast & Hget & claim & ip & Hobj & Hready & ->).
  split_and!; try done. exists e, claim. by rewrite last_app, Hlast.
Qed.

(** C34. Ensure creates at most one claim, the one of its id, and an endpoint it returns is
    the address of a claim of that name the API server reported ready, with the
    configured ports. *)
Theorem ensure_sound (ctx : Ctx) (id : string) (h : history call) :
  exists l, (Ensure env s ctx id h).2 = h ++ l /\
    (omap created l = [] \/ omap created l = [buildClaim s (claimName id) id]) /\
    forall ep, (Ensure env s ctx id h).1 = Ok ep ->
      TargetActor ep = EmptyString /\ Port ep = port s /\ MCPPort ep = mcpPort s /\
      exists e claim, last l = Some e /\
        is_get sandboxClaimGVR (namespace s) (claimName id) e /\
        got_object e = Some claim /\ ready_at claim (Host ep).
Proof.
  destruct (claim_ensure_adds ctx id h) as (l & Hl & Hc & Hep). by exists l.
Qed.
End facts.
