(* ===== verification/Isola.v ===== *)
(** * The Isola backend ([internal/backend/isola.go])

    One Sandbox per playwright-id in a shared namespace, under a name that fits isola's
    limits; the hash of the long names is a parameter. *)

From S2P Require Import Prelude GoStd Effects Backend Kube.
Local Open Scope Z_scope.

Definition isolaSandboxGVR : GVR := mkGVR "sandbox.isola.run" "v1alpha1" "sandboxes".
Definition isolaSandboxAPIVersion : string := "sandbox.isola.run/v1alpha1".
Definition isolaMaxNameLen : nat := 47.

Definition isolaTerminalReasons : list string :=
  ["PodFailed"; "PodSucceeded"; "PodCreationFailed"; "StartupTimeoutExceeded"; "InvalidRuntime"].

Record IsolaBackend := mkIsola {
  namespace : string;
  image : string;
  port : Z;
  allowedEgressCIDRs : list string;
  playwrightIDLabelKey : string;
}.

Definition NewIsolaBackend (namespace image : string) (port : Z) (cidrs : list string)
    (labelKey : string) : IsolaBackend :=
  mkIsola namespace image port cidrs labelKey.

(** A byte [isDNS1123] accepts; the bytes of a rune that is not ASCII are not. *)
Definition dns_byte (c : ascii) : bool :=
  is_lower c || is_digit c || bool_decide (c = "-"%char) || bool_decide (c = "."%char).
Definition isDNS1123 (s : string) : bool := forallb dns_byte (to_chars s).

(** A string cut to its first [n] bytes. *)
Definition cut (n : nat) (s : string) : string := of_chars (take n (to_chars s)).

Section naming.
Context (sha256 : string -> list Z).

Definition isolaName (playwrightID : string) : string :=
  let name := "pw-" +:+ playwrightID in
  if (len name <=? isolaMaxNameLen)%nat && isDNS1123 playwrightID then name
  else cut isolaMaxNameLen ("pw-" +:+ fmt_x (sha256 playwrightID)).
End naming.

Definition buildNetwork (b : IsolaBackend) : json :=
  jmap ([("allowInternetEgress", JBool true); ("allowClusterDNS", JBool true)] ++
    match allowedEgressCIDRs b with
    | [] => []
    | cidrs => [("allowedEgressCIDRs", JArray (map JString cidrs))]
    end).

Definition chromium_args : string :=
  "--no-sandbox,--disable-setuid-sandbox,--disable-dev-shm-usage,--disable-gpu".

Definition env_var (name value : string) : json :=
  jmap [("name", JString name); ("value", JString value)].

Definition buildCR (b : IsolaBackend) (name playwrightID : string) : object :=
  literal [
    ("apiVersion", JString isolaSandboxAPIVersion);
    ("kind", JString "Sandbox");
    ("metadata", jmap [
      ("name", JString name);
      ("namespace", JString (namespace b));
      ("labels", jmap [
        (managedByLabel, JString "true");
        (playwrightIDLabelKey b, JString playwrightID)])]);
    ("spec", jmap [
      ("podTemplate", jmap [
        ("spec", jmap [
          ("containers", JArray [jmap [
            ("name", JString "playwright");
            ("command", JArray [JString "node"; JString "/server.js"]);
            ("image", JString (image b));
            ("ports", JArray [jmap [("containerPort", JInt (port b))]]);
            ("env", JArray [
              env_var "PORT" (fmt_d (port b));
              env_var "PLAYWRIGHT_BROWSERS_PATH" "/ms-playwright";
              env_var "CHROMIUM_ARGS" chromium_args])]])])]);
      ("network", buildNetwork b)])].

(** What the first Ready condition of a list says. *)
Inductive readiness :=
| NoCondition
| Terminal (reason message : string)
| NotReady
| IsReady.

Definition is_ready_type (c : json) : option object :=
  match c with
  | JObject cm => if is_string (cm !! "type") "Ready" then Some cm else None
  | _ => None
  end.

Definition scan_conditions (conds : list json) : readiness :=
  match find_first is_ready_type conds with
  | None => NoCondition
  | Some cm =>
      let reason := as_string (cm !! "reason") in
      if bool_decide (reason ∈ isolaTerminalReasons) then Terminal reason (fmt_value (cm !! "message"))
      else if is_string (cm !! "status") "True" then IsReady
      else NotReady
  end.

Section backend.
Context (sha256 : string -> list Z).
Context `{!Unstructured, !Poller (history call)}.
Context (env : environment call) (b : IsolaBackend).
Notation do e := (perform env e).

(** The condition of [waitForReady] on one object. *)
Definition ready_check (name : string) (cur : object) : result error (option string) :=
  match scan_conditions (NestedSlice cur ["status"; "conditions"]).1.1 with
  | Terminal reason message =>
      Err (Errorf "Sandbox %s reached terminal condition %s: %v"
             [FStr name; FStr reason; FStr message])
  | IsReady =>
      let ip := (NestedString cur ["status"; "podIP"]).1.1 in
      Ok (if decide (ip = EmptyString) then None else Some ip)
  | NoCondition | NotReady => Ok None
  end.

Definition ready_poll (ctx : Ctx) (name : string)
  : IO (history call) (result error (option string)) :=
  let* cur := do (KGet isolaSandboxGVR ctx (namespace b) name) in
  io_ret (match cur with Err e => Err e | Ok cur => ready_check name cur end).

Definition waitForReady (ctx : Ctx) (name : string) : IO (history call) (result error string) :=
  let* polled := PollUntilContextCancel ctx (500 * millisecond) (ready_poll ctx name) in
  io_ret (map_err (Errorf_w "Sandbox %s did not become Ready: %w" [FStr name]) polled).

Definition get_or_create (ctx : Ctx) (name playwrightID : string)
  : IO (history call) (result error unit) :=
  let* got := do (KGet isolaSandboxGVR ctx (namespace b) name) in
  match got with
  | Ok _ => io_ret (Ok tt)
  | Err e =>
      if negb (isNotFound e) then io_ret (Err (Errorf_w "get Sandbox %s: %w" [FStr name] e)) else
      let* made := do (KCreate isolaSandboxGVR ctx (namespace b) (buildCR b name playwrightID)) in
      io_ret (match made with
              | Ok _ => Ok tt
              | Err e => if isAlreadyExists e then Ok tt
                         else Err (Errorf_w "create Sandbox %s: %w" [FStr name] e)
              end)
  end.

Definition Ensure (ctx : Ctx) (playwrightID : string) : IO (history call) (result error Endpoint) :=
  let name := isolaName sha256 playwrightID in
  let* made := get_or_create ctx name playwrightID in
  match made with
  | Err e => io_ret (Err e)
  | Ok _ =>
      let* ip := waitForReady ctx name in
      io_ret (let? ip := ip in Ok (mkEndpoint ip EmptyString (port b) 0))
  end.

Definition Delete (ctx : Ctx) (playwrightID : string) : IO (history call) (option error) :=
  let name := isolaName sha256 playwrightID in
  let* deleted := do (KDelete isolaSandboxGVR ctx (namespace b) name) in
  io_ret (match deleted with
          | Some e => if isNotFound e then None
                      else Some (Errorf_w "delete Sandbox %s: %w" [FStr name] e)
          | None => None
          end).

Definition List (ctx : Ctx) : IO (history call) (result error (list string)) :=
  let* listed := do (KList isolaSandboxGVR ctx (namespace b) (managedByLabel +:+ "=true")) in
  io_ret (match listed with
          | Err e => Err (Errorf_w "list Sandboxes: %w" [] e)
          | Ok items => Ok (ids_of (playwrightIDLabelKey b) items)
          end).
End backend.

#[export] Instance Isola_backend (sha256 : string -> list Z) `{!Unstructured, !Poller (history call)}
    (env : environment call) (b : IsolaBackend) : Backend.Backend (history call) := {
  Ensure := Ensure sha256 env b;
  Delete := Delete sha256 env b;
  List := List env b;
}.

(** ** Names *)

Lemma to_chars_cut n s : to_chars (cut n s) = take n (to_chars s).
Proof. unfold cut. by rewrite to_of_chars. Qed.

Lemma len_chars s : len s = length (to_chars s).
Proof. unfold len. by rewrite length_to_chars. Qed.

Lemma hex_digit_dns n : 0 <= n < 16 -> dns_byte (hex_digit n) = true.
Proof.
  intros H. assert (n ∈ seqZ 0 16) as Hin by (apply elem_of_seqZ; lia).
  clear H. revert n Hin. apply Forall_forall. by repeat constructor.
Qed.

Definition byte_list (l : list Z) : Prop := Forall (fun b => 0 <= b < 256) l.

Lemma fmt_x_dns l : byte_list l -> forallb dns_byte (to_chars (fmt_x l)) = true.
Proof.
  intros Hl. unfold fmt_x. rewrite to_of_chars.
  induction Hl as [|x l Hx _ IH]; [done|].
  rewrite bind_cons. unfold hex_byte at 1. rewrite forallb_app, IH, andb_true_r. simpl.
  rewrite !hex_digit_dns; [done|apply Z.mod_pos_bound; lia|].
  split; [apply Z.div_pos; lia|apply Z.div_lt_upper_bound; lia].
Qed.

Lemma fmt_x_length l : length (to_chars (fmt_x l)) = (2 * length l)%nat.
Proof.
  unfold fmt_x. rewrite to_of_chars. induction l as [|x l IH]; [done|].
  rewrite bind_cons, length_app, IH. simpl. lia.
Qed.

Lemma forallb_take {A} (f : A -> bool) n l : forallb f l = true -> forallb f (take n l) = true.
Proof.
  revert n. induction l as [|x l IH]; intros [|n]; simpl; try done.
  rewrite !andb_true_iff. intros [? ?]. auto.
Qed.

Section names.
Context (sha256 : string -> list Z).
(** A digest has 32 bytes. *)
Context (sha256_bytes : forall s, byte_list (sha256 s) /\ length (sha256 s) = 32%nat).

Lemma hashed_name_length id :
  len (cut isolaMaxNameLen ("pw-" +:+ fmt_x (sha256 id))) = isolaMaxNameLen.
Proof.
  rewrite len_chars, to_chars_cut, to_chars_app, length_take, length_app, fmt_x_length.
  destruct (sha256_bytes id) as [_ ->]. reflexivity.
Qed.

Lemma len_prefixed id : len ("pw-" +:+ id) = (3 + len id)%nat.
Proof. rewrite !len_chars, to_chars_app, length_app. reflexivity. Qed.

Lemma isolaName_verbatim id :
  (len id <= 44)%nat -> isDNS1123 id = true -> isolaName sha256 id = "pw-" +:+ id.
Proof.
  intros Hl Hd. unfold isolaName. rewrite len_prefixed, Hd.
  destruct (Nat.leb_spec (3 + len id) isolaMaxNameLen) as [|Hgt]; [done|].
  unfold isolaMaxNameLen in Hgt. lia.
Qed.

Lemma hashed_name_ok id :
  let name := cut isolaMaxNameLen ("pw-" +:+ fmt_x (sha256 id)) in
  isDNS1123 name = true /\ take 3 (to_chars name) = to_chars "pw-".
Proof.
  split.
  - unfold isDNS1123. rewrite to_chars_cut. apply forallb_take.
    rewrite to_chars_app, forallb_app, fmt_x_dns by apply sha256_bytes. done.
  - by rewrite to_chars_cut, take_take, to_chars_app.
Qed.

(** The name of a sandbox is at most 47 bytes long, starts with [pw-], holds only lower
    case letters, digits, dashes and dots, and is the id itself whenever that fits. *)
Theorem isolaName_ok (id : string) :
  (len (isolaName sha256 id) <= isolaMaxNameLen)%nat /\
  isDNS1123 (isolaName sha256 id) = true /\
  take 3 (to_chars (isolaName sha256 id)) = to_chars "pw-" /\
  ((len id <= 44)%nat -> isDNS1123 id = true -> isolaName sha256 id = "pw-" +:+ id).
Proof.
  split_and!; [..|apply isolaName_verbatim]; unfold isolaName;
    destruct (Nat.leb_spec (len ("pw-" +:+ id)) isolaMaxNameLen) as [Hle|_]; simpl andb;
    try (destruct (isDNS1123 id) eqn:Hd); try apply hashed_name_ok; try done;
    try (by rewrite hashed_name_length).
Qed.

(** Hashed and verbatim names share one name space: for every id that is hashed there is
    another id, 44 lower-case hexadecimal digits long, with the same sandbox. *)
Theorem isolaName_collision (id : string) :
  isolaName sha256 id <> "pw-" +:+ id ->
  exists id', id' <> id /\ len id' = 44%nat /\ isDNS1123 id' = true /\
    isolaName sha256 id' = isolaName sha256 id.
Proof.
  intros Hhash. set (id' := cut 44 (fmt_x (sha256 id))).
  assert (len id' = 44%nat) as Hlen.
  { unfold id'. rewrite len_chars, to_chars_cut, length_take, fmt_x_length.
    destruct (sha256_bytes id) as [_ ->]. reflexivity. }
  assert (isDNS1123 id' = true) as Hd.
  { unfold isDNS1123, id'. rewrite to_chars_cut. apply forallb_take, fmt_x_dns, sha256_bytes. }
  assert (isolaName sha256 id' = "pw-" +:+ id') as Hname
    by (apply isolaName_verbatim; [by rewrite Hlen|done]).
  assert (isolaName sha256 id = "pw-" +:+ id') as Heq.
  { unfold isolaName in *. destruct (_ && _); [done|]. unfold id', cut.
    rewrite to_chars_app. reflexivity. }
  exists id'. split_and!; try done; congruence.
Qed.
End names.

(** A digest to evaluate with. *)
Definition sample_sha256 (s : string) : list Z := replicate 32 7.

Lemma sample_sha256_bytes s : byte_list (sample_sha256 s) /\ length (sample_sha256 s) = 32%nat.
Proof. split; [|done]. apply Forall_replicate. lia. Qed.

Lemma isolaName_ok_witness :
  isDNS1123 (isolaName sample_sha256 "Fetch_Session") = true.
Proof. apply (isolaName_ok sample_sha256 sample_sha256_bytes "Fetch_Session"). Defined.

Lemma isolaName_collision_witness :
  exists id', id' <> "Fetch_Session" /\ len id' = 44%nat /\ isDNS1123 id' = true /\
    isolaName sample_sha256 id' = isolaName sample_sha256 "Fetch_Session".
Proof.
  apply (isolaName_collision sample_sha256 sample_sha256_bytes "Fetch_Session").
  by_decision.
Defined.

(** ** Readiness *)

(** The sandbox is ready at an address: its first Ready condition has no terminal reason
    and is True, and the operator has written the pod's address. *)
Definition ready_at (cur : object) (ip : string) : Prop :=
  exists conds before cm after,
    at_path cur ["status"; "conditions"] = Some (JArray conds) /\
    conds = before ++ JObject cm :: after /\
    Forall (fun c => is_ready_type c = None) before /\
    is_string (cm !! "type") "Ready" = true /\
    as_string (cm !! "reason") ∉ isolaTerminalReasons /\
    is_string (cm !! "status") "True" = true /\
    at_path cur ["status"; "podIP"] = Some (JString ip) /\ ip <> EmptyString.

Lemma is_ready_type_Some c cm :
  is_ready_type c = Some cm <-> c = JObject cm /\ is_string (cm !! "type") "Ready" = true.
Proof.
  unfold is_ready_type. destruct c as [| | | | | |m]; try (split; [done|intros [? _]; done]).
  destruct (is_string (m !! "type") "Ready") eqn:E; split.
  - by intros [= <-].
  - by intros [[= <-] _].
  - done.
  - intros [[= <-] H]. congruence.
Qed.

Lemma scan_conditions_ready conds :
  scan_conditions conds = IsReady <->
  exists before cm after, conds = before ++ JObject cm :: after /\
    Forall (fun c => is_ready_type c = None) before /\
    is_string (cm !! "type") "Ready" = true /\
    as_string (cm !! "reason") ∉ isolaTerminalReasons /\
    is_string (cm !! "status") "True" = true.
Proof.
  unfold scan_conditions. split.
  - destruct (find_first _ _) as [cm|] eqn:Hf; [|done].
    case_bool_decide as Hr; [done|]. case_match eqn:Hs; [|done]. intros _.
    apply find_first_Some in Hf as (l1 & c & l2 & -> & [-> ?]%is_ready_type_Some & ?).
    by exists l1, cm, l2.
  - intros (l1 & cm & l2 & -> & Hl1 & Ht & Hr & Hs).
    assert (find_first is_ready_type (l1 ++ JObject cm :: l2) = Some cm) as ->.
    { apply find_first_Some. exists l1, (JObject cm), l2. split; [done|].
      split; [by apply is_ready_type_Some|done]. }
    by rewrite bool_decide_eq_false_2, Hs.
Qed.

Section facts.
Context `{!Unstructured}.

Lemma ready_check_ready name cur ip :
  ready_check name cur = Ok (Some ip) <-> ready_at cur ip.
Proof.
  unfold ready_check, ready_at. split.
  - intros Hx. destruct (scan_conditions _) eqn:Hs; try done.
    case_decide as Hne; [done|]. injection Hx as Hip.
    destruct (nested_slice_cases cur ["status"; "conditions"]) as [He|(conds & Hc & He)];
      rewrite He in Hs; [done|].
    apply scan_conditions_ready in Hs as (l1 & cm & l2 & -> & ? & ? & ? & ?).
    apply nested_string_some in Hip; [|congruence].
    exists (l1 ++ JObject cm :: l2), l1, cm, l2. split_and!; try done.
    intros ->. rewrite (NestedString_found _ _ _ Hip) in Hne. done.
  - intros (conds & l1 & cm & l2 & Hc & -> & ? & ? & ? & ? & Hip & Hne).
    rewrite (NestedSlice_found _ _ _ Hc), (NestedString_found _ _ _ Hip). simpl.
    rewrite (proj2 (scan_conditions_ready _)) by (by exists l1, cm, l2).
    by rewrite decide_False.
Qed.

Context `{!Poller (history call)}.
Context (sha256 : string -> list Z) (env : environment call) (b : IsolaBackend).

Lemma isola_get_or_create_adds ctx name id :
  adds (get_or_create env b ctx name id) (fun r l =>
    omap created l = [] \/ omap created l = [buildCR b name id]).
Proof.
  unfold get_or_create. apply adds_call. intros [o|e]; [apply adds_ret; by left|].
  case_match; [apply adds_ret; by left|]. apply adds_call. intros [o|e']; apply adds_ret; by right.
Qed.

Lemma isola_ready_poll_adds ctx name :
  adds (ready_poll env b ctx name) (fun r l => Forall reads l /\
    forall ip, r = Ok (Some ip) -> exists e, last l = Some e /\
      is_get isolaSandboxGVR (namespace b) name e /\
      exists cur, got_object e = Some cur /\ ready_at cur ip).
Proof.
  unfold ready_poll. apply adds_call. intros [cur|e]; apply adds_ret;
    (split; [by repeat constructor|]); [|done].
  intros ip Hip. apply ready_check_ready in Hip.
  eexists. split; [done|]. split; [done|]. by exists cur.
Qed.

Lemma waitForReady_adds ctx name :
  adds (waitForReady env b ctx name) (fun r l => Forall reads l /\
    forall ip, r = Ok ip -> exists e, last l = Some e /\
      is_get isolaSandboxGVR (namespace b) name e /\
      exists cur, got_object e = Some cur /\ ready_at cur ip).
Proof.
  unfold waitForReady. eapply adds_bind; [apply poll_last, isola_ready_poll_adds|].
  intros polled l [Hreads Hip]. apply adds_ret. rewrite app_nil_r. split; [done|].
  intros ip ?%map_err_Ok. auto.
Qed.

(** What a sandbox's endpoint is, after the calls [l] that ensured it. *)
Definition isola_provided (id : string) (ep : Endpoint) (l : history call) : Prop :=
  exists e cur, last l = Some e /\
    is_get isolaSandboxGVR (namespace b) (isolaName sha256 id) e /\
    got_object e = Some cur /\ ready_at cur (Host ep) /\
    ep = mkEndpoint (Host ep) EmptyString (port b) 0.

Lemma isola_ensure_adds ctx id :
  adds (Ensure sha256 env b ctx id) (fun r l =>
    (omap created l = [] \/ omap created l = [buildCR b (isolaName sha256 id) id]) /\
    forall ep, r = Ok ep -> isola_provided id ep l).
Proof.
  unfold Ensure. eapply adds_bind; [apply isola_get_or_create_adds|]. intros [[]|e] l Hl.
  2:{ apply adds_ret. by rewrite app_nil_r. }
  eapply adds_bind; [apply waitForReady_adds|]. intros ip l' [Hreads Hip]. apply adds_ret.
  rewrite app_nil_r, omap_app, (created_reads _ Hreads), app_nil_r. split; [done|].
  intros ep (ip' & -> & [= <-])%result_bind_Ok.
  destruct (Hip ip' eq_refl) as (e & Hlast & Hget & cur & Hobj & Hready).
  exists e, cur. by rewrite last_app, Hlast.
Qed.

(** Ensure creates at most one sandbox, the one of its id, and an endpoint it returns is
    the pod address of an object of that name the API server reported ready: the first
    Ready condition True, without a terminal reason. *)
Theorem isola_ensure_sound (ctx : Ctx) (id : string) (h : history call) :
  exists l, (Ensure sha256 env b ctx id h).2 = h ++ l /\
    (omap created l = [] \/ omap created l = [buildCR b (isolaName sha256 id) id]) /\
    forall ep, (Ensure sha256 env b ctx id h).1 = Ok ep ->
      exists e cur, last l = Some e /\
        is_get isolaSandboxGVR (namespace b) (isolaName sha256 id) e /\
        got_object e = Some cur /\ ready_at cur (Host ep) /\
        ep = mkEndpoint (Host ep) EmptyString (port b) 0.
Proof.
  destruct (isola_ensure_adds ctx id h) as (l & Hl & Hc & Hep). by exists l.
Qed.
End facts.
