(* ===== verification/KarsSandbox.v ===== *)
(** * The KarsSandbox backend ([internal/backend/karssandbox.go])

    One KarsSandbox per playwright-id; its controller runs the pod in a namespace of its
    own, where the proxy opens the browser port to itself before it dials the pod. *)

From S2P Require Import Prelude GoStd Effects Backend Kube.
Local Open Scope Z_scope.

Definition karsSandboxGVR : GVR := mkGVR "kars.azure.com" "v1alpha1" "karssandboxes".
Definition karsSandboxAPIVersion : string := "kars.azure.com/v1alpha1".
Definition karsSandboxComponentLabel : string := "kars.azure.com/component=sandbox".

Record KarsSandboxBackend := mkKars {
  namespace : string;
  inferenceRef : string;
  image : string;
  port : Z;
  playwrightIDLabelKey : string;
}.

Definition NewKarsSandbox (namespace inferenceRef image : string) (port : Z) (labelKey : string)
  : KarsSandboxBackend :=
  mkKars namespace inferenceRef image port labelKey.

Definition karsName (playwrightID : string) : string := "pw-" +:+ playwrightID.

Definition chromium_args : string :=
  "--no-sandbox,--disable-setuid-sandbox,--disable-dev-shm-usage,--disable-gpu".

Definition env_var (name value : string) : json :=
  jmap [("name", JString name); ("value", JString value)].

Definition buildCR (k : KarsSandboxBackend) (name playwrightID : string) : object :=
  literal [
    ("apiVersion", JString karsSandboxAPIVersion);
    ("kind", JString "KarsSandbox");
    ("metadata", jmap [
      ("name", JString name);
      ("namespace", JString (namespace k));
      ("labels", jmap [
        (managedByLabel, JString "true");
        (playwrightIDLabelKey k, JString playwrightID)])]);
    ("spec", jmap [
      ("runtime", jmap [
        ("kind", JString "BYO");
        ("byo", jmap [
          ("image", JString (image k));
          ("command", JArray [JString "node"; JString "/server.js"]);
          ("contractVersion", JString "v1");
          ("env", JArray [
            env_var "PORT" (fmt_d (port k));
            env_var "NODE_PATH" "/usr/local/lib/node_modules";
            env_var "PLAYWRIGHT_BROWSERS_PATH" "/ms-playwright";
            env_var "CHROMIUM_ARGS" chromium_args])])]);
      ("sandbox", jmap [
        ("isolation", JString "standard");
        ("runAsNonRoot", JBool true);
        ("allowPrivilegeEscalation", JBool false)]);
      ("inferenceRef", jmap [("name", JString (inferenceRef k))]);
      ("networkPolicy", jmap [
        ("defaultDeny", JBool false);
        ("egressMode", JString "Learn")])])].

(** ** The network policy of a sandbox *)

Definition matching (k v : string) : LabelSelector := mkLabelSelector {[ k := v ]} [].

(** The browser port, from the proxy's pods only; [int32(k.port)] wraps. *)
Definition ingress_spec (k : KarsSandboxBackend) (name : string) : NetworkPolicySpec := {|
  PodSelector := matching "kars.azure.com/sandbox" name;
  PolicyTypes := ["Ingress"];
  Ingress := [mkRule
    [mkPeer (Some (matching "app.kubernetes.io/name" "playwright-proxy"))
       (Some (matching "kubernetes.io/metadata.name" (namespace k))) None]
    [mkPolicyPort (Some "TCP") (Some (IntVal (wrap32 (port k)))) None]];
  Egress := [];
|}.

Definition ingress_policy (k : KarsSandboxBackend) (ns name : string) : NetworkPolicy := {|
  policyName := "playwright-proxy-ingress";
  policyNamespace := ns;
  policyLabels := {[ managedByLabel := "true" ]};
  policySpec := ingress_spec k name;
|}.

(** A pod the proxy may dial. *)
Definition ready_pod (p : KPod) : option string :=
  if bool_decide (DeletionTimestamp p = None) && bool_decide (Phase p = "Running")
     && bool_decide (PodIP p <> EmptyString)
     && bool_decide (("Ready", "True") ∈ Conditions p)
  then Some (PodIP p) else None.

Section backend.
Context `{!Unstructured, !Poller (history call)}.
Context (env : environment call) (k : KarsSandboxBackend).
Notation do e := (perform env e).

Definition ensureProxyIngress (ctx : Ctx) (ns name : string) : IO (history call) (option error) :=
  let desired := ingress_policy k ns name in
  let* made := do (KPolicyCreate ctx ns desired) in
  let* existing :=
    match made with
    | Err e => if isAlreadyExists e then do (KPolicyGet ctx ns (policyName desired))
               else io_ret (Err e)
    | Ok spec => io_ret (Ok spec)
    end in
  io_ret (match existing with
          | Err e => Some (Errorf_w "ensure KARS browser ingress in %s: %w" [FStr ns] e)
          | Ok spec =>
              if bool_decide (spec = policySpec desired) then None
              else Some (Errorf ("KARS browser ingress policy in %s differs from proxy configuration; "
                                 +:+ "reconcile it explicitly") [FStr ns])
          end).

(** The condition of [waitForRunning] on one object. *)
Definition running_check (name : string) (cur : object) : result error (option string) :=
  let phase := (NestedString cur ["status"; "phase"]).1.1 in
  if bool_decide (phase = "Running") then
    let ns := (NestedString cur ["status"; "namespace"]).1.1 in
    Ok (if decide (ns = EmptyString) then None else Some ns)
  else if bool_decide (phase = "Degraded") || bool_decide (phase = "Failed") then
    Err (Errorf "KarsSandbox %s reached terminal phase %q" [FStr name; FStr phase])
  else Ok None.

Definition running_poll (ctx : Ctx) (name : string)
  : IO (history call) (result error (option string)) :=
  let* cur := do (KGet karsSandboxGVR ctx (namespace k) name) in
  io_ret (let? cur := cur in running_check name cur).

Definition waitForRunning (ctx : Ctx) (name : string) : IO (history call) (result error string) :=
  let* polled := PollUntilContextCancel ctx (500 * millisecond) (running_poll ctx name) in
  io_ret (map_err (Errorf_w "KarsSandbox %s did not reach Running: %w" [FStr name]) polled).

Definition pod_poll (ctx : Ctx) (ns : string) : IO (history call) (result error (option string)) :=
  let* pods := do (KPods ctx ns karsSandboxComponentLabel) in
  io_ret (let? pods := pods in Ok (find_first ready_pod pods)).

Definition waitForPodIP (ctx : Ctx) (sandboxNs : string) : IO (history call) (result error string) :=
  let* polled := PollUntilContextCancel ctx (500 * millisecond) (pod_poll ctx sandboxNs) in
  io_ret (map_err (Errorf_w "no running pod found in %s: %w" [FStr sandboxNs]) polled).

Definition get_or_create (ctx : Ctx) (name playwrightID : string)
  : IO (history call) (result error unit) :=
  let* got := do (KGet karsSandboxGVR ctx (namespace k) name) in
  match got with
  | Ok _ => io_ret (Ok tt)
  | Err e =>
      if negb (isNotFound e) then io_ret (Err (Errorf_w "get KarsSandbox %s: %w" [FStr name] e)) else
      let* made := do (KCreate karsSandboxGVR ctx (namespace k) (buildCR k name playwrightID)) in
      io_ret (match made with
              | Ok _ => Ok tt
              | Err e => if isAlreadyExists e then Ok tt
                         else Err (Errorf_w "create KarsSandbox %s: %w" [FStr name] e)
              end)
  end.

Definition Ensure (ctx : Ctx) (playwrightID : string) : IO (history call) (result error Endpoint) :=
  let name := karsName playwrightID in
  let* made := get_or_create ctx name playwrightID in
  match made with
  | Err e => io_ret (Err e)
  | Ok _ =>
      let* running := waitForRunning ctx name in
      match running with
      | Err e => io_ret (Err e)
      | Ok sandboxNs =>
          let* refused := ensureProxyIngress ctx sandboxNs name in
          match refused with
          | Some e => io_ret (Err e)
          | None =>
              let* ip := waitForPodIP ctx sandboxNs in
              io_ret (let? ip := ip in Ok (mkEndpoint ip EmptyString (port k) 0))
          end
      end
  end.

Definition Delete (ctx : Ctx) (playwrightID : string) : IO (history call) (option error) :=
  let name := karsName playwrightID in
  let* deleted := do (KDelete karsSandboxGVR ctx (namespace k) name) in
  io_ret (match deleted with
          | Some e => if isNotFound e then None
                      else Some (Errorf_w "delete KarsSandbox %s: %w" [FStr name] e)
          | None => None
          end).

Definition List (ctx : Ctx) : IO (history call) (result error (list string)) :=
  let* listed := do (KList karsSandboxGVR ctx (namespace k) (managedByLabel +:+ "=true")) in
  io_ret (match listed with
          | Err e => Err (Errorf_w "list KarsSandboxes: %w" [] e)
          | Ok items => Ok (ids_of (playwrightIDLabelKey k) items)
          end).
End backend.

#[export] Instance Kars_backend `{!Unstructured, !Poller (history call)}
    (env : environment call) (k : KarsSandboxBackend) : Backend.Backend (history call) := {
  Ensure := Ensure env k;
  Delete := Delete env k;
  List := List env k;
}.

(** ** What the calls answered *)

(** The controller reports the sandbox running in a namespace. *)
Definition running_in (cur : object) (ns : string) : Prop :=
  at_path cur ["status"; "phase"] = Some (JString "Running") /\
  at_path cur ["status"; "namespace"] = Some (JString ns) /\ ns <> EmptyString.

(** The ingress policy of a namespace, as the API server answered it. *)
Definition policy_in (ns : string) (e : event call) : option NetworkPolicySpec :=
  match ev_call e in call A return A -> option NetworkPolicySpec with
  | KPolicyCreate _ ns' p => fun r =>
      match r with
      | Ok spec => if bool_decide (ns' = ns /\ policyName p = "playwright-proxy-ingress")
                   then Some spec else None
      | Err _ => None
      end
  | KPolicyGet _ ns' name => fun r =>
      match r with
      | Ok spec => if bool_decide (ns' = ns /\ name = "playwright-proxy-ingress")
                   then Some spec else None
      | Err _ => None
      end
  | _ => fun _ => None
  end (ev_answer e).

(** The sandbox pods of a namespace. *)
Definition pods_in (ns : string) (e : event call) : option (list KPod) :=
  match ev_call e in call A return A -> option (list KPod) with
  | KPods _ ns' selector => fun r =>
      match r with
      | Ok pods => if bool_decide (ns' = ns /\ selector = karsSandboxComponentLabel)
                   then Some pods else None
      | Err _ => None
      end
  | _ => fun _ => None
  end (ev_answer e).

(** The pod can be dialled at an address. *)
Definition dialable (p : KPod) (ip : string) : Prop :=
  DeletionTimestamp p = None /\ Phase p = "Running" /\ ("Ready", "True") ∈ Conditions p /\
  PodIP p = ip /\ ip <> EmptyString.

Lemma ready_pod_Some p ip : ready_pod p = Some ip <-> dialable p ip.
Proof.
  unfold ready_pod, dialable. split.
  - case_match eqn:Hb; [|done]. intros [= <-].
    repeat (apply andb_true_iff in Hb as [Hb ?%bool_decide_eq_true]).
    apply bool_decide_eq_true in Hb. done.
  - intros (? & ? & ? & <- & ?). by rewrite !bool_decide_eq_true_2.
Qed.

Section facts.
Context `{!Unstructured, !Poller (history call)}.
Context (env : environment call) (k : KarsSandboxBackend).

Lemma running_check_running name cur ns :
  running_check name cur = Ok (Some ns) -> running_in cur ns.
Proof.
  unfold running_check, running_in. intros Hx.
  case_bool_decide as Hp; [|by destruct (_ || _)].
  apply nested_string_some in Hp; [|done]. case_decide as Hn; [done|]. injection Hx as Hns.
  assert (ns <> EmptyString) as Hne by (intros ->; congruence).
  split; [done|]. split; [|done]. by apply nested_string_some.
Qed.

Lemma kars_waitForRunning_adds ctx name :
  adds (waitForRunning env k ctx name) (fun r l => Forall reads l /\
    forall ns, r = Ok ns -> exists e, last l = Some e /\
      is_get karsSandboxGVR (namespace k) name e /\
      exists cur, got_object e = Some cur /\ running_in cur ns).
Proof.
  unfold waitForRunning. eapply adds_bind; [apply poll_last with (P := reads) (R := fun ns e =>
      is_get karsSandboxGVR (namespace k) name e /\
      exists cur, got_object e = Some cur /\ running_in cur ns)|].
  - unfold running_poll. apply adds_call. intros [cur|e]; apply adds_ret;
      (split; [by repeat constructor|]); [|done].
    intros ns Hns. apply running_check_running in Hns.
    eexists. split; [done|]. split; [done|]. by exists cur.
  - intros polled l [Hreads Hip]. apply adds_ret. rewrite app_nil_r. split; [done|].
    intros ip ?%map_err_Ok. auto.
Qed.

Lemma waitForPodIP_adds ctx ns :
  adds (waitForPodIP env ctx ns) (fun r l => Forall reads l /\
    forall ip, r = Ok ip -> exists e, last l = Some e /\
      exists pods p, pods_in ns e = Some pods /\ p ∈ pods /\ dialable p ip).
Proof.
  unfold waitForPodIP. eapply adds_bind; [apply poll_last with (P := reads) (R := fun ip e =>
      exists pods p, pods_in ns e = Some pods /\ p ∈ pods /\ dialable p ip)|].
  - unfold pod_poll. apply adds_call. intros [pods|e]; apply adds_ret;
      (split; [by repeat constructor|]); [|done].
    intros ip. simpl. intros [= Hip].
    apply find_first_Some in Hip as (l1 & p & l2 & -> & Hp%ready_pod_Some & _).
    eexists. split; [done|]. exists (l1 ++ p :: l2), p. split; [|set_solver].
    unfold pods_in. simpl. by rewrite bool_decide_eq_true_2.
  - intros polled l [Hreads Hip]. apply adds_ret. rewrite app_nil_r. split; [done|].
    intros ip ?%map_err_Ok. auto.
Qed.

Lemma ensureProxyIngress_adds ctx ns name :
  adds (ensureProxyIngress env k ctx ns name) (fun r l => omap created l = [] /\
    (r = None -> exists e, last l = Some e /\ policy_in ns e = Some (ingress_spec k name))).
Proof.
  unfold ensureProxyIngress. apply adds_call. intros [spec|e].
  - cbn [io_bind]. eapply adds_bind; [apply adds_ret with (P := fun r l => r = Ok spec /\ l = []); done|].
    intros ? l [-> ->]. apply adds_ret. split; [done|]. case_bool_decide as Hs; [|done].
    subst spec. intros _. eexists. split; [done|]. unfold policy_in. simpl.
    by rewrite bool_decide_eq_true_2.
  - destruct (isAlreadyExists e).
    + apply adds_call. intros [spec|e']; apply adds_ret; (split; [done|]); [|done].
      case_bool_decide as Hs; [|done]. subst spec. intros _. eexists. split; [done|].
      unfold policy_in. simpl. by rewrite bool_decide_eq_true_2.
    + eapply adds_bind; [apply adds_ret with (P := fun r l => r = Err e /\ l = []); done|].
      intros ? l [-> ->]. by apply adds_ret.
Qed.

Lemma kars_get_or_create_adds ctx name id :
  adds (get_or_create env k ctx name id) (fun r l =>
    omap created l = [] \/ omap created l = [buildCR k name id]).
Proof.
  unfold get_or_create. apply adds_call. intros [o|e]; [apply adds_ret; by left|].
  case_match; [apply adds_ret; by left|]. apply adds_call. intros [o|e']; apply adds_ret; by right.
Qed.

(** What Ensure has seen when it returns an endpoint. *)
Definition admitted (id : string) (l : history call) (ep : Endpoint) : Prop :=
  exists l1 running cur ns l2 policy l3 listed pods p,
    l = l1 ++ running :: l2 ++ policy :: l3 ++ [listed] /\
    is_get karsSandboxGVR (namespace k) (karsName id) running /\
    got_object running = Some cur /\ running_in cur ns /\
    policy_in ns policy = Some (ingress_spec k (karsName id)) /\
    Forall reads l3 /\
    pods_in ns listed = Some pods /\ p ∈ pods /\ dialable p (Host ep) /\
    ep = mkEndpoint (Host ep) EmptyString (port k) 0.

Lemma last_split {A} (l : list A) a : last l = Some a -> exists l0, l = l0 ++ [a].
Proof. intros Hl. by apply last_Some in Hl. Qed.

Lemma kars_ensure_adds ctx id :
  adds (Ensure env k ctx id) (fun r l =>
    (omap created l = [] \/ omap created l = [buildCR k (karsName id) id]) /\
    forall ep, r = Ok ep -> admitted id l ep).
Proof.
  unfold Ensure. eapply adds_bind; [apply kars_get_or_create_adds|]. intros [[]|e] l Hl.
  2:{ apply adds_ret. by rewrite app_nil_r. }
  eapply adds_bind; [apply kars_waitForRunning_adds|]. intros [ns|e] l1 [Hr1 Hrun].
  2:{ apply adds_ret. by rewrite app_nil_r, omap_app, (created_reads _ Hr1), app_nil_r. }
  eapply adds_bind; [apply ensureProxyIngress_adds|]. intros [e|] l2 [Hc2 Hpol].
  { apply adds_ret. by rewrite app_nil_r, !omap_app, Hc2, (created_reads _ Hr1), !app_nil_r. }
  eapply adds_bind; [apply waitForPodIP_adds|]. intros ip l3 [Hr3 Hip]. apply adds_ret.
  rewrite app_nil_r, !omap_app, Hc2, (created_reads _ Hr1), (created_reads _ Hr3), !app_nil_r.
  split; [done|]. intros ep (ip' & -> & [= <-])%result_bind_Ok.
  destruct (Hrun ns eq_refl) as (e1 & [l1' ->]%last_split & Hget & cur & Hobj & Hns).
  destruct (Hpol eq_refl) as (e2 & [l2' ->]%last_split & Hspec).
  destruct (Hip ip' eq_refl) as (e3 & [l3' ->]%last_split & pods & p & Hpods & Hp & Hd).
  exists (l ++ l1'), e1, cur, ns, l2', e2, l3', e3, pods, p. split_and!; try done.
  - by rewrite <- !(assoc app).
  - by apply Forall_app in Hr3 as [? _].
Qed.

(** C16. An endpoint Ensure returns is the address of a pod that was listed running, ready and
    not terminating in the namespace the sandbox's own object named, after the API server
    answered that exactly the proxy's ingress policy is in force there; and Ensure creates
    at most one sandbox, the one of its id. *)
Theorem kars_ensure_sound (ctx : Ctx) (id : string) (h : history call) :
  exists l, (Ensure env k ctx id h).2 = h ++ l /\
    (omap created l = [] \/ omap created l = [buildCR k (karsName id) id]) /\
    forall ep, (Ensure env k ctx id h).1 = Ok ep -> admitted id l ep.
Proof.
  destruct (kars_ensure_adds ctx id h) as (l & Hl & Hc & Hep). by exists l.
Qed.
End facts.
