(* ===== verification/Delays.v ===== *)
(** * Backends as sets of ids on servers that take their time

    What is left of [Ids] when a deleted sandbox may stay for a while and a failed call may
    have taken effect: an id is live, or it is leaving.  [ServesIds] is what a backend
    guarantees call by call; from it follow what a caller who is alone sees ([IdServer])
    and what any number of callers of one server see ([accounts_ids]). *)

From S2P Require Import Prelude GoStd Effects Backend Ids.

(** ** What a backend promises to a caller who is alone *)

(** [live] ids are there to stay; those [leaving] are being deleted, and [met] are those of
    them that an Ensure takes for its sandbox.  [steady w w']: nothing went between. *)
Class IdServer {W} (B : Backend.Backend W) (inv : W -> Prop) (live leaving met : W -> string -> Prop)
    (steady : W -> W -> Prop) (dom : string -> Prop) : Prop := {
  ensure_serves ctx id w :
    dom id -> inv w ->
    let (r, w') := Backend.Ensure ctx id w in
    inv w' /\ (is_ok r = true -> live w' id \/ met w id) /\
    forall id', dom id' ->
      (live w id' -> live w' id') /\ (live w' id' -> id' = id \/ live w id') /\
      (leaving w' id' -> leaving w id');
  delete_serves ctx id w :
    dom id -> inv w ->
    let (r, w') := Backend.Delete ctx id w in
    inv w' /\ (r = None -> ~ live w' id) /\
    forall id', dom id' ->
      (live w' id' -> live w id') /\ (live w id' -> id' = id \/ live w' id') /\
      (leaving w' id' -> leaving w id' \/ id' = id /\ live w id);
  list_serves ctx w :
    inv w ->
    let (r, w') := Backend.List ctx w in
    inv w' /\
    (forall id, dom id -> (live w' id <-> live w id) /\ (leaving w' id -> leaving w id)) /\
    forall ids, r = Ok ids -> steady w w' ->
      forall id, id ∈ ids <-> id <> EmptyString /\ dom id /\ (live w' id \/ leaving w' id);
}.

Section server.
Context {E : Type -> Type} {Σ : Type} (S : Server E Σ).

(** ** The interface

    [touch o e]: a call of [o] that writes to its sandbox, or finds it; [point o e]: one whose
    answer lets [o] succeed. *)
Class ServesIds (B : environment E -> Backend.Backend (history E)) (inv : Σ -> Prop)
    (live leaving met : Σ -> string -> Prop) (steady : Σ -> Σ -> Prop) (dom : string -> Prop)
    (allowed : op -> history E -> event E -> Prop) (touch point : op -> event E -> bool) : Prop := {
  serve_ensure env ctx id :
    lawful (allowed (DoEnsure ctx id)) [] (@Backend.Ensure _ (B env) ctx id) (fun r h =>
      is_ok r = true -> existsb (point (DoEnsure ctx id)) h = true);
  serve_delete env ctx id :
    lawful (allowed (DoDelete ctx id)) [] (@Backend.Delete _ (B env) ctx id) (fun r h =>
      r = None -> existsb (point (DoDelete ctx id)) h = true);
  serve_list env ctx :
    adds (@Backend.List _ (B env) ctx) (fun r l => forall σ, inv σ -> honestly S σ l ->
      inv (after S σ l) /\
      (forall id, dom id ->
         (live (after S σ l) id <-> live σ id) /\ (leaving (after S σ l) id -> leaving σ id)) /\
      forall ids, r = Ok ids -> steady σ (after S σ l) ->
        forall id, id ∈ ids <->
          id <> EmptyString /\ dom id /\ (live (after S σ l) id \/ leaving (after S σ l) id));
  serve_performs env ctx id :
    performs env (@Backend.Ensure _ (B env) ctx id) /\
    performs env (@Backend.Delete _ (B env) ctx id) /\
    performs env (@Backend.List _ (B env) ctx);
  point_touch o e : point o e = true -> touch o e = true;
  leaving_not_live σ id : leaving σ id -> ~ live σ id;
  met_leaving σ id : met σ id -> leaving σ id;
  (* any call leaves the others alone *)
  serve_other o h e σ id :
    dom (op_id o) -> dom id -> id <> op_id o -> allowed o h e -> inv σ -> honest S σ e ->
    (live (apply S σ e) id <-> live σ id) /\ (leaving (apply S σ e) id -> leaving σ id);
  serve_own o h e σ :
    dom (op_id o) -> allowed o h e -> inv σ -> honest S σ e ->
    inv (apply S σ e) /\
    (touch o e = false \/ existsb (touch o) h = true ->
       (live (apply S σ e) (op_id o) <-> live σ (op_id o)) /\
       (leaving (apply S σ e) (op_id o) -> leaving σ (op_id o))) /\
    match o with
    | DoEnsure _ id =>
        (live σ id -> live (apply S σ e) id) /\ (leaving (apply S σ e) id -> leaving σ id) /\
        (met (apply S σ e) id -> met σ id) /\
        (point o e = true -> live (apply S σ e) id \/ met (apply S σ e) id)
    | DoDelete _ id =>
        (live (apply S σ e) id -> live σ id) /\
        (leaving (apply S σ e) id -> leaving σ id \/ live σ id) /\
        (point o e = true -> ~ live (apply S σ e) id)
    end;
}.

Context (B : environment E -> Backend.Backend (history E)) (inv : Σ -> Prop)
  (live leaving met : Σ -> string -> Prop) (steady : Σ -> Σ -> Prop) (dom : string -> Prop)
  (allowed : op -> history E -> event E -> Prop) (touch point : op -> event E -> bool).
Context `{!ServesIds B inv live leaving met steady dom allowed touch point}.
Notation after := (after S).

Lemma serve_runs env o h : exists l, (op_run (B env) o h).2 = h ++ l /\ answered_by env h l.
Proof.
  destruct o as [ctx id|ctx id]; destruct (serve_performs env ctx id) as (He & Hd & _);
    [apply (He h)|apply (Hd h)].
Qed.

Lemma serve_lawful env o h l :
  (op_run (B env) o h).2 = h ++ l ->
  permitted (allowed o) [] l /\ ((op_run (B env) o h).1 = true -> existsb (point o) l = true).
Proof.
  destruct o as [ctx id|ctx id]; simpl.
  - destruct (serve_ensure env ctx id h) as (l' & -> & Hl & HQ). by intros <-%app_inv_head.
  - destruct (serve_delete env ctx id h) as (l' & -> & Hl & HQ). intros <-%app_inv_head.
    split; [done|]. destruct (@Backend.Delete _ _ _ _ _).1; [done|]. intros _. by apply HQ.
Qed.

(** *** Alone *)

(** What a stretch of the calls of one operation does. *)
Lemma serve_effect o h l σ :
  dom (op_id o) -> permitted (allowed o) h l -> inv σ -> honestly S σ l ->
  inv (after σ l) /\
  (forall id, dom id -> id <> op_id o ->
     (live (after σ l) id <-> live σ id) /\ (leaving (after σ l) id -> leaving σ id)) /\
  match o with
  | DoEnsure _ id =>
      (live σ id -> live (after σ l) id) /\ (leaving (after σ l) id -> leaving σ id) /\
      (existsb (point o) l = true -> live (after σ l) id \/ met σ id)
  | DoDelete _ id =>
      (live (after σ l) id -> live σ id) /\
      (leaving (after σ l) id -> leaving σ id \/ live σ id) /\
      (existsb (point o) l = true -> ~ live (after σ l) id)
  end.
Proof.
  intros Ho. revert h σ. induction l as [|e l IH]; intros h σ.
  { intros _ Hσ _. split; [done|]. split; [done|]. by destruct o; simpl; split_and!; auto. }
  intros [He Hl] Hσ [Hhe Hhl]. destruct (serve_own o h e σ Ho He Hσ Hhe) as (Hσ' & _ & Hown).
  destruct (IH _ _ Hl Hσ' Hhl) as (Hinv & Hoth & Hrest). split; [exact Hinv|]. split.
  - intros id Hid Hne. destruct (Hoth id Hid Hne) as [H1 H2].
    destruct (serve_other o h e σ id Ho Hid Hne He Hσ Hhe) as [H3 H4].
    split; [etrans; [exact H1|exact H3]|auto].
  - destruct o as [ctx id|ctx id]; simpl in *.
    + destruct Hown as (H1 & H2 & Hm & H3), Hrest as (H4 & H5 & H6). split_and!; [by auto..|].
      intros [Hp|Hp]%orb_true_iff; [destruct (H3 Hp)|destruct (H6 Hp)]; auto.
    + destruct Hown as (H1 & H2 & H3), Hrest as (H4 & H5 & H6). split_and!; [by auto| |].
      * intros Hg. destruct (H5 Hg) as [Hg'|Hg']; auto.
      * intros [Hp|Hp]%orb_true_iff; [intros Hg; by apply (H3 Hp), H4|by apply H6].
Qed.

Lemma id_server_alone σ0 env :
  honest_env S σ0 env ->
  IdServer (B env) (fun h => inv (after σ0 h)) (fun h => live (after σ0 h))
    (fun h => leaving (after σ0 h)) (fun h => met (after σ0 h))
    (fun h h' => steady (after σ0 h) (after σ0 h')) dom.
Proof.
  intros Henv.
  assert (forall o h, dom (op_id o) -> inv (after σ0 h) -> exists l,
    (op_run (B env) o h).2 = h ++ l /\ permitted (allowed o) [] l /\ honestly S (after σ0 h) l /\
    ((op_run (B env) o h).1 = true -> existsb (point o) l = true)) as Hrun.
  { intros o h Ho Hh. destruct (serve_runs env o h) as (l & Hl & Ha).
    destruct (serve_lawful env o h l Hl) as [Hp Hok]. exists l. split_and!; try done.
    by eapply answered_honestly. }
  split.
  - intros ctx id h Hid Hh. destruct (Hrun (DoEnsure ctx id) h Hid Hh) as (l & Hl & Hp & Hhon & Hok).
    destruct (serve_effect (DoEnsure ctx id) [] l _ Hid Hp Hh Hhon) as (Hinv & Hoth & Hkeep & Hleave & Hpt).
    simpl in *. rewrite (surjective_pairing (@Backend.Ensure _ _ _ _ _)), Hl, after_app.
    split; [done|]. split; [auto|]. intros id' Hid'. destruct (decide (id' = id)) as [->|Hne]; [by auto|].
    destruct (Hoth id' Hid' Hne) as [-> ?]. auto.
  - intros ctx id h Hid Hh. destruct (Hrun (DoDelete ctx id) h Hid Hh) as (l & Hl & Hp & Hhon & Hok).
    destruct (serve_effect (DoDelete ctx id) [] l _ Hid Hp Hh Hhon) as (Hinv & Hoth & Hkeep & Hleave & Hpt).
    simpl in *. rewrite (surjective_pairing (@Backend.Delete _ _ _ _ _)), Hl, after_app.
    split; [done|]. split; [intros Hr; rewrite Hr in Hok; auto|].
    intros id' Hid'. destruct (decide (id' = id)) as [->|Hne].
    + split_and!; [done|by left|]. intros Hg. destruct (Hleave Hg); auto.
    + destruct (Hoth id' Hid' Hne) as [-> ?]. auto.
  - intros ctx h Hh. destruct (serve_list env ctx h) as (l & Hl & HQ).
    destruct (serve_performs env ctx EmptyString) as (_ & _ & Hf). destruct (Hf h) as (l' & Hl' & Ha).
    rewrite Hl in Hl'. apply app_inv_head in Hl' as <-.
    rewrite (surjective_pairing (@Backend.List _ _ _ _)), Hl, after_app.
    apply HQ; [done|]. by eapply answered_honestly.
Qed.

(** *** Sharing the server *)

Section shared.
Context {live_dec : forall σ id, Decision (live σ id)}.
Context (ops : nat -> op).
Implicit Types (H : list (nat * event E)) (t u : nat).
Notation executing := (executing B ops).
Notation returned := (returned B ops).
Notation in_order := (in_order ops).

(** What an operation is for holds. *)
Definition goal (o : op) (σ : Σ) : bool :=
  match o with
  | DoEnsure _ id => bool_decide (live σ id)
  | DoDelete _ id => bool_decide (~ live σ id)
  end.

(** The operations in the order in which each first touched its sandbox with the result it is
    for; [seen] are those that have. *)
Fixpoint effects (σ : Σ) (seen : list nat) H : list nat :=
  match H with
  | [] => []
  | (t, e) :: H =>
      let σ' := apply S σ e in
      if touch (ops t) e && goal (ops t) σ' && negb (bool_decide (t ∈ seen))
      then t :: effects σ' (t :: seen) H else effects σ' seen H
  end.

Lemma effects_app σ seen H1 H2 :
  exists seen', effects σ seen (H1 ++ H2) = effects σ seen H1 ++ effects (after σ H1.*2) seen' H2 /\
    forall t, t ∈ seen' <-> t ∈ seen \/ t ∈ effects σ seen H1.
Proof.
  revert σ seen. induction H1 as [|[t e] H1 IH]; intros σ seen; simpl.
  { exists seen. split; [done|]. set_solver. }
  case_match.
  - destruct (IH (apply S σ e) (t :: seen)) as (seen' & -> & Hs). exists seen'. split; [done|].
    intros u. rewrite Hs. set_solver.
  - destruct (IH (apply S σ e) seen) as (seen' & -> & Hs). by exists seen'.
Qed.

Lemma effects_NoDup σ seen H : NoDup (effects σ seen H) /\ forall t, t ∈ effects σ seen H -> t ∉ seen.
Proof.
  revert σ seen. induction H as [|[t e] H IH]; intros σ seen; simpl.
  { split; [constructor|]. set_solver. }
  case_match eqn:Ht; [|apply IH]. destruct (IH (apply S σ e) (t :: seen)) as [IH1 IH2].
  apply andb_prop in Ht as [_ Ht]. apply negb_true_iff, bool_decide_eq_false in Ht.
  split; [constructor; [|done]|]; set_solver.
Qed.

(** One of them has called. *)
Lemma effects_touched σ seen H t :
  t ∈ effects σ seen H -> existsb (touch (ops t)) (mine t H) = true.
Proof.
  revert σ seen. induction H as [|[u e] H IH]; intros σ seen; simpl; [set_solver|].
  rewrite mine_cons. simpl. intros Ht.
  assert (existsb (touch (ops t)) (mine t H) = true \/ t = u /\ touch (ops u) e = true) as [Hm|[-> Hm]].
  { case_match eqn:Hc; [|left; by eapply IH]. apply elem_of_cons in Ht as [->|Ht]; [|left; by eapply IH].
    right. split; [done|]. by apply andb_prop in Hc as [[? _]%andb_prop _]. }
  - rewrite existsb_app, Hm. apply orb_true_r.
  - rewrite decide_True by done. simpl. by rewrite Hm.
Qed.

(** A call that touches the sandbox, with the result it is for, puts its operation in. *)
Lemma effects_at σ seen H1 t e H2 :
  touch (ops t) e = true -> goal (ops t) (apply S (after σ H1.*2) e) = true -> t ∉ seen ->
  t ∈ effects σ seen (H1 ++ (t, e) :: H2).
Proof.
  intros Ht Hg Hn. destruct (effects_app σ seen H1 ((t, e) :: H2)) as (seen' & -> & Hs).
  simpl. rewrite Ht, Hg. simpl. case_bool_decide as Hin; simpl; [|set_solver].
  apply Hs in Hin as [?|?]; set_solver.
Qed.

Lemma executing_permitted H t e : executing (H ++ [(t, e)]) -> allowed (ops t) (mine t H) e.
Proof.
  intros Hx. unfold Ids.executing in Hx. specialize (Hx t).
  rewrite mine_app, mine_cons in Hx. simpl in Hx. rewrite decide_True in Hx by done.
  destruct Hx as (env & l & Hl); [by intros [_ ?]%app_nil|]. rewrite <- (assoc app) in Hl.
  destruct (serve_lawful env (ops t) [] (mine t H ++ [e] ++ l) Hl) as (Hp & _).
  by apply permitted_at in Hp.
Qed.

Lemma op_set_other o id P : id <> op_id o -> op_set o id P <-> P.
Proof. destruct o; simpl; tauto. Qed.

(** One more call. *)
Lemma effects_step σ0 H t e :
  dom (op_id (ops t)) -> inv (after σ0 H.*2) -> honest S (after σ0 H.*2) e -> executing (H ++ [(t, e)]) ->
  exists new, effects σ0 [] (H ++ [(t, e)]) = effects σ0 [] H ++ new /\
    inv (apply S (after σ0 H.*2) e) /\
    forall id, dom id ->
      (live (apply S (after σ0 H.*2) e) id <-> in_order id (live (after σ0 H.*2) id) new) /\
      (leaving (apply S (after σ0 H.*2) e) id ->
         leaving (after σ0 H.*2) id \/ exists ctx, t ∈ effects σ0 [] (H ++ [(t, e)]) /\ ops t = DoDelete ctx id).
Proof.
  intros Hdom Hinv He Hx. pose proof (executing_permitted _ _ _ Hx) as Hal.
  destruct (effects_app σ0 [] H [(t, e)]) as (seen & Heff & Hseen). rewrite Heff. simpl.
  eexists. split; [done|]. clear Heff. set (σ := after σ0 H.*2) in *.
  destruct (serve_own (ops t) (mine t H) e σ Hdom Hal Hinv He) as (Hinv' & Hsame & Hown).
  split; [exact Hinv'|]. intros id Hid.
  destruct (decide (id = op_id (ops t))) as [->|Hne].
  2:{ destruct (serve_other (ops t) _ e σ id Hdom Hid Hne Hal Hinv He) as [-> Hl].
      split; [|auto]. destruct (touch _ _ && _ && _); simpl; [|done]. by rewrite op_set_other. }
  destruct (touch (ops t) e) eqn:Ht; simpl; [|by destruct (Hsame (or_introl eq_refl)) as [-> ?]; auto].
  case_bool_decide as Hin; simpl.
  { rewrite andb_false_r. apply Hseen in Hin as [?%elem_of_nil|Hin]; [done|].
    apply effects_touched in Hin. destruct (Hsame (or_intror Hin)) as [-> ?]. auto. }
  rewrite andb_true_r. destruct (ops t) as [ctx i|ctx i] eqn:Ho; simpl in *.
  - destruct Hown as (Hk & Hl & _). split; [|auto]. unfold Ids.in_order.
    case_bool_decide as Hg; cbn [foldl]; [rewrite Ho; simpl; naive_solver|naive_solver].
  - destruct Hown as (Hk & Hl & _).
    assert (leaving (apply S σ e) i -> bool_decide (~ live (apply S σ e) i) = true) as Hgone.
    { intros Hlv. apply bool_decide_eq_true_2. by eapply leaving_not_live. }
    split.
    + unfold Ids.in_order. case_bool_decide as Hg; cbn [foldl]; [rewrite Ho; simpl; naive_solver|].
      split; [done|]. intros _. destruct (decide (live (apply S σ e) i)); tauto.
    + intros Hlv. right. exists ctx. split; [|done]. rewrite (Hgone Hlv). set_solver.
Qed.

(** The live ids at any moment are those of the order so far. *)
Lemma effects_track σ0 H :
  (forall t, dom (op_id (ops t))) -> inv σ0 -> honestly S σ0 H.*2 -> executing H ->
  inv (after σ0 H.*2) /\
  forall id, dom id ->
    (live (after σ0 H.*2) id <-> in_order id (live σ0 id) (effects σ0 [] H)) /\
    (leaving (after σ0 H.*2) id ->
       leaving σ0 id \/ exists u ctx, u ∈ effects σ0 [] H /\ ops u = DoDelete ctx id).
Proof.
  intros Hdom Hinv. induction H as [|[t e] H IH] using rev_ind.
  { intros _ _. split; [done|]. intros id _. simpl. split; [done|]. by left. }
  rewrite fmap_app, after_app, honestly_app. simpl. intros (Hhon & He & _) Hx.
  destruct (IH Hhon (executing_app _ _ _ _ Hx)) as [Hinv' Hm].
  destruct (effects_step σ0 H t e (Hdom t) Hinv' He Hx) as (new & Heff & Hinv'' & Hstep).
  split; [exact Hinv''|]. intros id Hid. destruct (Hm id Hid) as [Hl Hlv], (Hstep id Hid) as [Hl' Hlv'].
  split.
  - rewrite Heff, in_order_app. rewrite Hl'. clear -Hl. revert Hl. generalize (live (after σ0 H.*2) id).
    generalize (in_order id (live σ0 id) (effects σ0 [] H)). induction new as [|u new IH]; [done|].
    intros P Q HPQ. simpl. apply IH. by rewrite HPQ.
  - intros Hg. destruct (Hlv' Hg) as [Hold|(ctx & Ht & Ho)].
    + destruct (Hlv Hold) as [?|(u & ctx & Hu & Ho)]; [by left|right]. exists u, ctx. split; [|done].
      rewrite Heff. set_solver.
    + right. by exists t, ctx.
Qed.

(** The call that let an operation succeed. *)
Lemma succeeded_point t H :
  returned t true H -> exists H1 e H2, H = H1 ++ (t, e) :: H2 /\ point (ops t) e = true.
Proof.
  intros [env Hr]. destruct (serve_lawful env (ops t) [] (mine t H)) as [_ Hok]; [by rewrite Hr|].
  rewrite Hr in Hok. specialize (Hok eq_refl). apply existsb_exists in Hok as (e & Hin & Hp).
  apply list_elem_of_In in Hin. unfold mine in Hin.
  apply list_elem_of_fmap in Hin as ([u e'] & -> & [Hu Hin]%list_elem_of_filter). simpl in *. subst u.
  apply list_elem_of_split in Hin as (H1 & H2 & ->). by exists H1, e', H2.
Qed.

(** *** The promise to callers that share the server

    However the calls of any number of Ensures and Deletes interleave, and whatever the server
    delays or does behind a failure, they can be put in an order in which each acts on the
    live ids at once: the live ids are always those of the order so far and no operation is
    in it twice; a Delete that succeeded is, and so is an Ensure that succeeded, unless it
    met its sandbox while that was leaving; and an id is leaving only after a Delete of it
    in the order.  Of one that failed nothing is said: it may have taken effect. *)
Record accountable (σ0 : Σ) H (ord : list (nat * event E) -> list nat) : Prop := {
  acc_live id : dom id -> live (after σ0 H.*2) id <-> in_order id (live σ0 id) (ord H);
  acc_once : NoDup (ord H);
  acc_deleted t ctx id : ops t = DoDelete ctx id -> returned t true H -> t ∈ ord H;
  acc_ensured t ctx id : ops t = DoEnsure ctx id -> returned t true H ->
    t ∈ ord H \/ exists H1 e H2, H = H1 ++ (t, e) :: H2 /\ met (after σ0 (H1 ++ [(t, e)]).*2) id;
  acc_leaving id : dom id -> leaving (after σ0 H.*2) id ->
    leaving σ0 id \/ exists u ctx, u ∈ ord H /\ ops u = DoDelete ctx id;
  acc_prefix H1 H2 : H = H1 ++ H2 -> ord H1 `prefix_of` ord H;
  acc_begun t : t ∈ ord H -> mine t H <> [];
}.

Lemma effects_account σ0 H :
  (forall t, dom (op_id (ops t))) -> inv σ0 -> honestly S σ0 H.*2 -> executing H ->
  accountable σ0 H (effects σ0 []).
Proof.
  intros Hdom Hinv Hhon Hx.
  assert (forall t, returned t true H -> exists H1 e H2, H = H1 ++ (t, e) :: H2 /\
    point (ops t) e = true /\ allowed (ops t) (mine t H1) e /\ inv (after σ0 H1.*2) /\
    honest S (after σ0 H1.*2) e) as Hpoint.
  { intros t (H1 & e & H2 & -> & Hp)%succeeded_point. exists H1, e, H2.
    rewrite fmap_app, honestly_app in Hhon. destruct Hhon as [Hhon [He _]].
    replace (H1 ++ (t, e) :: H2) with ((H1 ++ [(t, e)]) ++ H2) in Hx by (by rewrite <- (assoc app)).
    pose proof (executing_app _ _ _ _ Hx) as Hx1. split_and!; try done.
    - by apply executing_permitted.
    - by apply (effects_track σ0 H1 Hdom Hinv Hhon), (executing_app _ _ _ _ Hx1). }
  split.
  - intros id Hid. by apply effects_track.
  - apply effects_NoDup.
  - intros t ctx id Ho (H1 & e & H2 & -> & Hp & Hal & Hi & He)%Hpoint.
    destruct (serve_own _ _ _ _ (Hdom t) Hal Hi He) as (_ & _ & Hown). rewrite Ho in *.
    destruct Hown as (_ & _ & Hno). apply effects_at; [rewrite Ho; by apply point_touch| |by apply not_elem_of_nil].
    rewrite Ho. simpl. apply bool_decide_eq_true_2. by apply Hno.
  - intros t ctx id Ho (H1 & e & H2 & -> & Hp & Hal & Hi & He)%Hpoint.
    destruct (serve_own _ _ _ _ (Hdom t) Hal Hi He) as (_ & _ & Hown). rewrite Ho in *.
    destruct Hown as (_ & _ & _ & Hyes). destruct (Hyes Hp) as [Hl|Hm].
    + left. apply effects_at; [rewrite Ho; by apply point_touch| |by apply not_elem_of_nil].
      rewrite Ho. simpl. by apply bool_decide_eq_true_2.
    + right. exists H1, e, H2. split; [done|]. by rewrite fmap_app, after_app.
  - intros id Hid. by apply effects_track.
  - intros H1 H2 ->. destruct (effects_app σ0 [] H1 H2) as (seen & -> & _). by eexists.
  - intros t Ht%effects_touched Hnil. by rewrite Hnil in Ht.
Qed.
End shared.

Definition accounts_ids : Prop :=
  forall ops σ0, exists ord, forall H,
    (forall t, dom (op_id (ops t))) -> inv σ0 -> honestly S σ0 H.*2 -> executing B ops H ->
    accountable ops σ0 H ord.

Lemma serves_ids_account {live_dec : forall σ id, Decision (live σ id)} : accounts_ids.
Proof. intros ops σ0. exists (effects ops σ0 []). apply effects_account. Qed.

(** The invariant, under any interleaving. *)
Lemma serves_ids_inv {live_dec : forall σ id, Decision (live σ id)} ops σ0 H :
  (forall t, dom (op_id (ops t))) -> inv σ0 -> honestly S σ0 H.*2 -> executing B ops H ->
  inv (after σ0 H.*2).
Proof. intros. by eapply effects_track. Qed.
End server.
