(* ===== verification/Store.v ===== *)
(** * Servers that take their time

    What an API server or a control plane does to what it keeps, beyond what its answers
    tell: a deletion may be answered at once and carried out later -- finalizers, an actor
    that is [DELETING] -- and a call that failed for its caller may have taken effect all
    the same.  Which of this happens when is the [fate] of a store, of which nothing is
    assumed. *)

From S2P Require Import Prelude.

Section store.
Context {K V : Type} `{Countable K}.

(** What happens around one call, besides its answer. *)
Record verdict := mkVerdict {
  goes : K -> bool;  (* whether an entry that was being deleted is gone before the call *)
  anyway : bool;     (* the call takes effect though it is answered with an error *)
  lingers : bool;    (* what the call deletes stays for some time *)
}.

(** Nothing stays, and no failed call takes effect. *)
Definition at_once : verdict := mkVerdict (fun _ => true) false false.

Record store := mkStore {
  objects : gmap K V;
  dying : gset K;        (* being deleted *)
  fate : list verdict;   (* for the calls to come; [at_once] after them *)
}.

Definition stored (m : gmap K V) : store := mkStore m ∅ [].
#[export] Instance store_empty : Empty store := stored ∅.

Definition verdict_now (σ : store) : verdict := default at_once (head (fate σ)).

(** What is there when the next call is answered. *)
Definition goes_now (σ : store) (k : K) : Prop := k ∈ dying σ /\ goes (verdict_now σ) k = true.
#[export] Instance goes_now_dec σ k : Decision (goes_now σ k) := _.
Definition objects_now (σ : store) : gmap K V := filter (fun x => ~ goes_now σ x.1) (objects σ).
Definition dying_now (σ : store) : gset K := filter (fun k => goes (verdict_now σ) k = false) (dying σ).

(** What a call is to change. *)
Inductive write := Put (k : K) (v : V) | Drop (k : K).

(** The store after a call that was to change [w], with whether it succeeded. *)
Definition carry_out (w : option (write * bool)) (σ : store) : store :=
  let m := objects_now σ in
  let d := dying_now σ in
  let unchanged := mkStore m d (tail (fate σ)) in
  match w with
  | None => unchanged
  | Some (w, ok) =>
      if ok || anyway (verdict_now σ) then
        match w with
        | Put k v =>
            if ok || bool_decide (m !! k = None)
            then mkStore (<[k := v]> m) (d ∖ {[k]}) (tail (fate σ)) else unchanged
        | Drop k =>
            if lingers (verdict_now σ) then mkStore m ({[k]} ∪ d) (tail (fate σ))
            else mkStore (delete k m) (d ∖ {[k]}) (tail (fate σ))
        end
      else unchanged
  end.

Definition write_key (w : write) : K := match w with Put k _ | Drop k => k end.

(** ** Entries that satisfy [P], for good or for the time being *)

Context (P : V -> Prop) `{!forall v, Decision (P v)}.

Definition there (m : gmap K V) (k : K) : Prop := exists v, m !! k = Some v /\ P v.
Definition staying (σ : store) (k : K) : Prop := there (objects σ) k /\ k ∉ dying σ.
Definition going (σ : store) (k : K) : Prop := there (objects σ) k /\ k ∈ dying σ.

#[export] Instance there_dec m k : Decision (there m k).
Proof.
  unfold there. destruct (m !! k) as [v|].
  - destruct (decide (P v)); [left; by exists v|right]. by intros (v' & [= <-] & ?).
  - right. by intros (v & ? & _).
Defined.
#[export] Instance staying_dec σ k : Decision (staying σ k) := _.

Lemma there_either σ k : there (objects σ) k <-> staying σ k \/ going σ k.
Proof. unfold staying, going. destruct (decide (k ∈ dying σ)); tauto. Qed.

Lemma staying_going σ k : staying σ k -> ~ going σ k.
Proof. unfold staying, going. tauto. Qed.

Lemma objects_now_Some σ k v : objects_now σ !! k = Some v <-> objects σ !! k = Some v /\ ~ goes_now σ k.
Proof. unfold objects_now. by rewrite map_lookup_filter_Some. Qed.

Lemma objects_now_sub σ : objects_now σ ⊆ objects σ.
Proof. apply map_filter_subseteq. Qed.

Lemma elem_dying_now σ k : k ∈ dying_now σ <-> k ∈ dying σ /\ ~ goes_now σ k.
Proof.
  unfold dying_now, goes_now. rewrite elem_of_filter. destruct (goes (verdict_now σ) k); naive_solver.
Qed.

(** Time passing takes nothing away but what was going. *)
Lemma there_now σ k : there (objects_now σ) k <-> there (objects σ) k /\ ~ goes_now σ k.
Proof. unfold there. setoid_rewrite objects_now_Some. naive_solver. Qed.

Lemma staying_now σ k : there (objects_now σ) k /\ k ∉ dying_now σ <-> staying σ k.
Proof.
  unfold staying. rewrite there_now, elem_dying_now. unfold goes_now. tauto.
Qed.

Lemma going_now σ k : there (objects_now σ) k /\ k ∈ dying_now σ -> going σ k.
Proof. unfold going. rewrite there_now, elem_dying_now. tauto. Qed.

Lemma carry_none σ :
  objects (carry_out None σ) = objects_now σ /\
  (forall k, staying (carry_out None σ) k <-> staying σ k) /\
  (forall k, going (carry_out None σ) k -> going σ k).
Proof. split; [done|]. split; intros k; [apply staying_now|apply going_now]. Qed.

(** A call changes no entry but its own. *)
Lemma carry_other w ok σ k :
  k <> write_key w ->
  objects (carry_out (Some (w, ok)) σ) !! k = objects_now σ !! k /\
  (staying (carry_out (Some (w, ok)) σ) k <-> staying σ k) /\
  (going (carry_out (Some (w, ok)) σ) k -> going σ k).
Proof.
  intros Hk. rewrite <- (staying_now σ k).
  assert (forall m d l, m !! k = objects_now σ !! k -> (k ∈ d <-> k ∈ dying_now σ) ->
    objects (mkStore m d l) !! k = objects_now σ !! k /\
    (staying (mkStore m d l) k <-> there (objects_now σ) k /\ k ∉ dying_now σ) /\
    (going (mkStore m d l) k -> going σ k)) as Hsame.
  { intros m d l Hm Hd. unfold staying, going at 1. cbn [objects dying].
    assert (there m k <-> there (objects_now σ) k) as Ht by (unfold there; by rewrite Hm).
    rewrite Ht, Hd. split_and!; [done..|apply going_now]. }
  unfold carry_out. destruct (ok || _); [|by apply Hsame].
  destruct w as [k' v|k']; simpl in Hk; case_match; apply Hsame; try done;
    rewrite ?lookup_insert_ne, ?lookup_delete_ne by done; set_solver.
Qed.

(** Making an entry takes no other away, and one that succeeded is there to stay. *)
Lemma carry_put k v ok σ :
  P v -> (staying σ k -> staying (carry_out (Some (Put k v, ok)) σ) k) /\
  (going (carry_out (Some (Put k v, ok)) σ) k -> going σ k) /\
  (ok = true -> staying (carry_out (Some (Put k v, ok)) σ) k).
Proof.
  intros Hv. assert (forall l, staying (mkStore (<[k:=v]> (objects_now σ)) (dying_now σ ∖ {[k]}) l) k) as Hnew.
  { intros l. split; [exists v; simpl; by rewrite lookup_insert_eq|simpl; set_solver]. }
  assert (forall l, (staying σ k -> staying (mkStore (objects_now σ) (dying_now σ) l) k) /\
    (going (mkStore (objects_now σ) (dying_now σ) l) k -> going σ k)) as Hold.
  { intros l. split; [by intros ?%staying_now|apply going_now]. }
  unfold carry_out. destruct ok; simpl.
  - split; [intros _; apply Hnew|]. split; [intros Hg; by destruct (staying_going _ _ (Hnew _) Hg)|].
    intros _. apply Hnew.
  - split_and!; [| |done]; (destruct (anyway _); [case_match|]); try apply Hold.
    + intros _. apply Hnew.
    + intros Hg. by destruct (staying_going _ _ (Hnew _) Hg).
Qed.

(** Deleting one brings nothing back, and when it succeeded the entry does not stay. *)
Lemma carry_drop k ok σ :
  (staying (carry_out (Some (Drop k, ok)) σ) k -> staying σ k) /\
  (ok = true -> ~ staying (carry_out (Some (Drop k, ok)) σ) k).
Proof.
  unfold carry_out. destruct ok; simpl.
  - match goal with |- (staying ?τ k -> _) /\ _ => assert (~ staying τ k) as Hno end; [|by split].
    case_match; intros [Ht Hd]; simpl in *; [set_solver|].
    destruct Ht as (v & Hv & _). by rewrite lookup_delete_eq in Hv.
  - split; [|done]. destruct (anyway _); [|apply staying_now].
    case_match; intros [Ht Hd]; simpl in *.
    + set_solver.
    + destruct Ht as (v & Hv & _). by rewrite lookup_delete_eq in Hv.
Qed.

(** What is there after a call was there before, or is what the call made. *)
Lemma carry_objects w σ k v :
  objects (carry_out w σ) !! k = Some v -> objects σ !! k = Some v \/ exists ok, w = Some (Put k v, ok).
Proof.
  assert (objects_now σ !! k = Some v -> objects σ !! k = Some v) as Hnow by by intros [? _]%objects_now_Some.
  unfold carry_out. destruct w as [[w ok]|]; [|by left; apply Hnow].
  destruct (ok || _); [|by left; apply Hnow]. destruct w as [k' v'|k']; case_match; simpl; auto.
  - intros [[-> ->]|[_ Hk]]%lookup_insert_Some; [right; by exists ok|by left; apply Hnow].
  - intros [_ Hk]%lookup_delete_Some. by left; apply Hnow.
Qed.

Lemma carry_put_there k v ok σ :
  P v -> there (objects_now σ) k -> there (objects (carry_out (Some (Put k v, ok)) σ)) k.
Proof.
  intros Hv Ht. unfold carry_out. destruct (ok || _); [|done]. case_match; [|done].
  exists v. simpl. by rewrite lookup_insert_eq.
Qed.

Lemma carry_drop_going k ok σ :
  going (carry_out (Some (Drop k, ok)) σ) k -> going σ k \/ staying σ k.
Proof.
  intros [(v & Hv & HP) _]. destruct (carry_objects _ _ _ _ Hv) as [Ho|(ok' & [=])].
  assert (there (objects σ) k) as Ht by by exists v. apply there_either in Ht. tauto.
Qed.

Lemma carry_drop_missing k ok σ :
  objects_now σ !! k = None -> ~ staying (carry_out (Some (Drop k, ok)) σ) k.
Proof.
  intros Hk [(v & Hv & _) _]. revert Hv. unfold carry_out.
  destruct (ok || _); [|simpl; by rewrite Hk]. case_match; simpl; [by rewrite Hk|by rewrite lookup_delete_eq].
Qed.

(** ** Stores without delays *)

Definition prompt (σ : store) : Prop := dying σ = ∅ /\ fate σ = [].

Lemma prompt_stored m : prompt (stored m).
Proof. done. Qed.

Lemma prompt_eq σ : prompt σ -> σ = stored (objects σ).
Proof. destruct σ as [m d f]. by intros [[= ->] [= ->]]. Qed.

Lemma objects_now_prompt σ : prompt σ -> objects_now σ = objects σ.
Proof.
  intros [Hd _]. unfold objects_now. apply map_filter_id. intros k v _ [Hk _]. simpl in Hk.
  rewrite Hd in Hk. set_solver.
Qed.

Lemma dying_now_prompt σ : prompt σ -> dying_now σ = ∅.
Proof. intros [Hd _]. unfold dying_now. rewrite Hd. set_solver. Qed.

(** What a prompt store makes of a call. *)
Definition carried_at_once (w : option (write * bool)) (m : gmap K V) : gmap K V :=
  match w with
  | Some (Put k v, true) => <[k := v]> m
  | Some (Drop k, true) => delete k m
  | _ => m
  end.

Lemma carry_prompt w σ : prompt σ -> carry_out w σ = stored (carried_at_once w (objects σ)).
Proof.
  intros Hp. pose proof Hp as [Hd Hf].
  assert (forall k, (∅ : gset K) ∖ {[k]} = ∅) as Hnone by set_solver.
  unfold carry_out, verdict_now. rewrite (objects_now_prompt σ Hp), (dying_now_prompt σ Hp), Hf. simpl.
  destruct w as [[[k v|k] [|]]|]; simpl; rewrite ?Hnone; done.
Qed.
End store.
Arguments verdict : clear implicits.
Arguments store K V {_ _}.
Arguments write : clear implicits.
#[global] Arguments carry_out : simpl never.
