(* ===== verification/Cluster.v ===== *)
(** * The custom-resource backends on an API server that keeps its objects

    The API server is a store of [Store]: a deleted object may stay until its finalizers are
    done, and a call that failed may have taken effect.  When its answers are true of the
    objects it has by then, whatever the controllers do to their status and whichever calls
    fail, each of the three backends serves its ids ([ServesIds]); on a server that deletes
    at once and whose failed calls take no effect it keeps exactly a set of ids
    ([KeepsIds]): Ensure adds one, Delete removes one, List returns the set. *)

From S2P Require Import Prelude GoStd Effects Backend Ids Delays Store Kube.
From S2P Require SandboxClaim Isola KarsSandbox.
Local Open Scope Z_scope.

#[export] Instance GVR_countable : Countable GVR.
Proof.
  refine (inj_countable' (fun r => (Group r, Version r, Resource r))
    (fun p => mkGVR p.1.1 p.1.2 p.2) _).
  by intros [].
Defined.

(** ** The objects *)

(** Resource, namespace, name. *)
Notation key := (GVR * string * string)%type (only parsing).
Notation objects_of := (gmap key object) (only parsing).
Notation cluster := (Store.store key object) (only parsing).

Definition name_of (obj : object) : string := as_string (at_path obj ["metadata"; "name"]).

(** What a call is to change, and whether it was answered with success. *)
Definition write_of (e : event call) : option (write key object * bool) :=
  match ev_call e in call A return A -> option (write key object * bool) with
  | KCreate r _ ns obj => fun a => Some (Put (r, ns, name_of obj) obj, is_ok a)
  | KDelete r _ ns name => fun a =>
      Some (Drop (r, ns, name), match a with None => true | Some _ => false end)
  | _ => fun _ => None
  end (ev_answer e).

Definition apply_event (σ : cluster) (e : event call) : cluster := carry_out (write_of e) σ.

Section server.
Context `{!Unstructured}.

(** The objects of a resource and namespace with the managed label. *)
Definition labelled (m : objects_of) (r : GVR) (ns : string) : list object :=
  omap (fun e : GVR * string * string * object =>
          if bool_decide (e.1.1 = (r, ns) /\ GetLabels e.2 !! managedByLabel = Some "true")
          then Some e.2 else None)
    (map_to_list m).

(** Answers that are true of the objects; a call may also fail otherwise. *)
Definition true_answer (m : objects_of) (e : event call) : Prop :=
  match ev_call e in call A return A -> Prop with
  | KGet r _ ns name => fun a =>
      match a with
      | Ok _ => is_Some (m !! (r, ns, name))
      | Err e => isNotFound e = true -> m !! (r, ns, name) = None
      end
  | KCreate r _ ns obj => fun a =>
      match a with
      | Ok _ => m !! (r, ns, name_of obj) = None
      | Err e => isAlreadyExists e = true -> is_Some (m !! (r, ns, name_of obj))
      end
  | KDelete r _ ns name => fun a =>
      match a with
      | None => True
      | Some e => isNotFound e = true -> m !! (r, ns, name) = None
      end
  | KList r _ ns selector => fun a =>
      selector = managedByLabel +:+ "=true" -> forall items, a = Ok items ->
      map GetLabels items ≡ₚ map GetLabels (labelled m r ns)
  | _ => fun _ => True
  end (ev_answer e).

(** The API server: it answers from the objects it has when the call comes. *)
Definition api_server : Server call cluster :=
  mkServer apply_event (fun σ e => true_answer (objects_now σ) e).
End server.

(** ** One kind of custom resource *)

Record CR := mkCR {
  cr_gvr : GVR;
  cr_namespace : string;
  cr_label : string;
  cr_name : string -> string;
  cr_build : string -> object;
}.

Section kind.
Context `{!Unstructured} (c : CR) (dom : string -> Prop).

Definition cr_key (id : string) : GVR * string * string := (cr_gvr c, cr_namespace c, cr_name c id).

(** The object of an id is there, as the backend builds it. *)
Definition cr_managed (σ : cluster) (id : string) : Prop :=
  objects σ !! cr_key id = Some (cr_build c id).

(** Among some objects, the backend alone has made those with its names or with the managed
    label. *)
Definition cr_owns (m : objects_of) : Prop :=
  (forall id o, dom id -> m !! cr_key id = Some o -> o = cr_build c id) /\
  (forall n o, m !! (cr_gvr c, cr_namespace c, n) = Some o ->
     GetLabels o !! managedByLabel = Some "true" -> exists id, dom id /\ n = cr_name c id).
Definition cr_owned (σ : cluster) : Prop := cr_owns (objects σ).

(** The same on a server that deletes at once and whose failed calls take no effect. *)
Definition cr_prompt (σ : cluster) : Prop := prompt σ /\ cr_owned σ.

(** The object of an id is there to stay; it is there and being deleted. *)
Notation any := (fun _ : object => True).
Definition cr_live (σ : cluster) (id : string) : Prop := staying any σ (cr_key id).
Definition cr_leaving (σ : cluster) (id : string) : Prop := going any σ (cr_key id).

Class CRLaws : Prop := {
  build_name id : name_of (cr_build c id) = cr_name c id;
  build_labels id : at_path (cr_build c id) ["metadata"; "labels"] =
    Some (jmap [(managedByLabel, JString "true"); (cr_label c, JString id)]);
  label_key : cr_label c <> managedByLabel;
  name_inj id id' : dom id -> dom id' -> cr_name c id = cr_name c id' -> id = id';
}.

Context `{!CRLaws}.

Lemma cr_key_inj id id' : dom id -> dom id' -> cr_key id = cr_key id' -> id = id'.
Proof. intros ?? [= Hn]. by apply name_inj. Qed.

Lemma build_managed id : GetLabels (cr_build c id) !! managedByLabel = Some "true".
Proof.
  apply (GetLabels_spec _ _ _ _ (build_labels id)); unfold literal; simpl.
  - intros k v [[_ <-]|[_ [[_ <-]|[_ Hv]]%lookup_insert_Some]]%lookup_insert_Some; [by eexists..|].
    by rewrite lookup_empty in Hv.
  - rewrite lookup_insert_ne by apply label_key. by rewrite lookup_insert_eq.
Qed.

Lemma nothing_owned : cr_owned ∅.
Proof. unfold cr_owned. change (objects ∅) with (∅ : objects_of). split; intros *; by rewrite lookup_empty. Qed.

Lemma nothing_prompt : cr_prompt ∅.
Proof. split; [done|exact nothing_owned]. Qed.

Lemma owned_managed σ id :
  dom id -> cr_owned σ -> cr_managed σ id <-> cr_live σ id \/ cr_leaving σ id.
Proof.
  intros Hd [Hown _]. unfold cr_live, cr_leaving. rewrite <- there_either. split.
  - intros Hm. by exists (cr_build c id).
  - intros (o & Ho & _). unfold cr_managed. by rewrite Ho, (Hown id o Hd Ho).
Qed.

Lemma owns_sub m m' : m' ⊆ m -> cr_owns m -> cr_owns m'.
Proof.
  intros Hsub [Hown Hlab]. split; intros *; [intros Hd Ho; apply Hown|intros Ho; apply Hlab];
    try done; by eapply lookup_weaken.
Qed.

Lemma create_ids id m :
  dom id -> cr_owns m -> cr_owns (<[cr_key id := cr_build c id]> m) /\
  forall id', dom id' ->
    <[cr_key id := cr_build c id]> m !! cr_key id' = Some (cr_build c id') <->
    m !! cr_key id' = Some (cr_build c id') \/ id' = id.
Proof.
  intros Hd [Hown Hlab]. split; [split|].
  - intros id' o Hd' [[Hk <-]|[_ Ho]]%lookup_insert_Some; [|by apply Hown].
    apply cr_key_inj in Hk; [by subst|done..].
  - intros n o [[[= <-] <-]|[_ Ho]]%lookup_insert_Some; [by exists id|by apply Hlab].
  - intros id' Hd'. destruct (decide (id' = id)) as [->|Hne].
    + rewrite lookup_insert_eq. naive_solver.
    + rewrite lookup_insert_ne; [naive_solver|]. intros Hk. by apply cr_key_inj in Hk.
Qed.

Lemma present_managed id σ :
  dom id -> cr_owned σ -> is_Some (objects σ !! cr_key id) -> cr_managed σ id.
Proof. intros Hd [Hown _] [o Ho]. unfold cr_managed. by rewrite Ho, (Hown id o Hd Ho). Qed.

Lemma delete_ids id m :
  dom id -> cr_owns m -> cr_owns (delete (cr_key id) m) /\
  forall id', dom id' -> delete (cr_key id) m !! cr_key id' = Some (cr_build c id') <->
    m !! cr_key id' = Some (cr_build c id') /\ id' <> id.
Proof.
  intros Hd Hm. split; [by eapply owns_sub; [apply delete_subseteq|]|].
  intros id' Hd'. rewrite lookup_delete_Some. split.
  - intros [Hk Ho]. split; [done|]. by intros ->.
  - intros [Ho Hne]. split; [|done]. intros Hk. apply Hne. symmetry. by apply cr_key_inj.
Qed.

(** The objects stay the backend's, whatever becomes of a call of its own. *)
Lemma carry_owned w σ :
  cr_owned σ -> (forall k o ok, w = Some (Put k o, ok) -> exists id, dom id /\ k = cr_key id /\ o = cr_build c id) ->
  cr_owned (carry_out w σ).
Proof.
  intros [Hown Hlab] Hw.
  assert (forall k o, objects (carry_out w σ) !! k = Some o -> objects σ !! k = Some o \/
    exists id, dom id /\ k = cr_key id /\ o = cr_build c id) as Hcase.
  { intros k o [Ho|[ok Ho]]%carry_objects; [by left|right; by eapply Hw]. }
  split.
  - intros id o Hd [Ho|(id' & Hd' & Hk & ->)]%Hcase; [by apply Hown|].
    apply cr_key_inj in Hk; [by subst|done..].
  - intros n o [Ho|(id' & Hd' & [= ->] & ->)]%Hcase Hl; [by eapply Hlab|by exists id'].
Qed.

Lemma elem_labelled (m : objects_of) r ns o :
  o ∈ labelled m r ns <->
  exists n, m !! (r, ns, n) = Some o /\ GetLabels o !! managedByLabel = Some "true".
Proof.
  unfold labelled. rewrite list_elem_of_omap. split.
  - intros ([[[r' ns'] n] o'] & Hin%elem_of_map_to_list & Hx). simpl in Hx.
    case_bool_decide as Hb; [|done]. destruct Hb as [[= -> ->] ?]. injection Hx as ->. by exists n.
  - intros (n & Ho & Hl). exists ((r, ns, n), o). split; [by apply elem_of_map_to_list|].
    simpl. by rewrite bool_decide_eq_true_2.
Qed.

Lemma ids_of_spec key items id :
  id ∈ ids_of key items <-> id <> EmptyString /\
    exists ls, ls ∈ map GetLabels items /\ ls !! key = Some id.
Proof.
  unfold ids_of. rewrite list_elem_of_filter. split; intros [Hne Hin]; (split; [done|]).
  - apply list_elem_of_fmap in Hin as (o & -> & Ho). exists (GetLabels o).
    split; [by apply list_elem_of_fmap_2|]. by destruct (GetLabels o !! key).
  - destruct Hin as (ls & (o & -> & Ho)%list_elem_of_fmap & Hk).
    apply list_elem_of_fmap. exists o. by rewrite Hk.
Qed.

Lemma list_ids (m : objects_of) items id :
  cr_owns m ->
  map GetLabels items ≡ₚ map GetLabels (labelled m (cr_gvr c) (cr_namespace c)) ->
  id ∈ ids_of (cr_label c) items <-> id <> EmptyString /\ dom id /\ is_Some (m !! cr_key id).
Proof.
  intros [Hown Hlab] Hitems. rewrite ids_of_spec.
  apply and_iff_compat_l. setoid_rewrite Hitems. split.
  - intros (ls & (o & -> & (n & Ho & Hl)%elem_labelled)%list_elem_of_fmap & Hk).
    destruct (Hlab n o Ho Hl) as (id' & Hd & ->).
    assert (o = cr_build c id') as -> by by apply Hown.
    rewrite (GetLabels_built _ _ _ (build_labels id')) in Hk. injection Hk as ->.
    split; [done|by eexists].
  - intros [Hd [o Ho]]. pose proof (Hown id o Hd Ho) as ->.
    exists (GetLabels (cr_build c id)). split; [|apply GetLabels_built, build_labels].
    apply list_elem_of_fmap. exists (cr_build c id). split; [done|].
    apply elem_labelled. exists (cr_name c id). split; [done|apply build_managed].
Qed.
End kind.

(** ** Executions on the API server *)

Section executions.
Context `{!Unstructured} (c : CR) (dom : string -> Prop) `{!CRLaws c dom}.

(** Ensure takes effect when it finds its object or creates it, Delete when its object is
    deleted or missing. *)
Definition cr_point (o : op) (e : event call) : bool :=
  match o with
  | DoEnsure _ id =>
      match ev_call e in call A return A -> bool with
      | KGet r _ ns name => fun a => bool_decide ((r, ns, name) = cr_key c id) && is_ok a
      | KCreate r _ ns obj => fun a =>
          bool_decide ((r, ns, name_of obj) = cr_key c id) &&
          match a with Ok _ => true | Err e => isAlreadyExists e end
      | _ => fun _ => false
      end (ev_answer e)
  | DoDelete _ id =>
      match ev_call e in call A return A -> bool with
      | KDelete r _ ns name => fun a =>
          bool_decide ((r, ns, name) = cr_key c id) &&
          match a with None => true | Some e => isNotFound e end
      | _ => fun _ => false
      end (ev_answer e)
  end.

(** A call that writes to the object of an operation, or finds it there. *)
Definition cr_touch (o : op) (e : event call) : bool :=
  match o with
  | DoEnsure _ id =>
      match ev_call e in call A return A -> bool with
      | KGet r _ ns name => fun a => bool_decide ((r, ns, name) = cr_key c id) && is_ok a
      | KCreate r _ ns obj => fun _ => bool_decide ((r, ns, name_of obj) = cr_key c id)
      | _ => fun _ => false
      end (ev_answer e)
  | DoDelete _ id =>
      match ev_call e with
      | KDelete r _ ns name => bool_decide ((r, ns, name) = cr_key c id)
      | _ => false
      end
  end.

(** It changes no object but its own, and that once. *)
Definition cr_allowed (o : op) (h : history call) (e : event call) : Prop :=
  leaves e \/ existsb (cr_touch o) h = false /\
  match o, ev_call e with
  | DoEnsure _ id, KCreate r _ ns obj =>
      (r, ns, name_of obj) = cr_key c id /\ obj = cr_build c id
  | DoDelete _ id, KDelete r _ ns name => (r, ns, name) = cr_key c id
  | _, _ => False
  end.

Lemma cr_point_touch o e : cr_point o e = true -> cr_touch o e = true.
Proof.
  destruct o as [ctx i|ctx i], e as [A [] a]; simpl; try done; by intros [-> _]%andb_prop.
Qed.

Lemma untouched_unpointed o h : existsb (cr_touch o) h = false -> existsb (cr_point o) h = false.
Proof.
  induction h as [|e h IH]; [done|]. simpl. intros [He Hh]%orb_false_iff. rewrite (IH Hh), orb_false_r.
  destruct (cr_point o e) eqn:Hp; [|done]. by rewrite (cr_point_touch _ _ Hp) in He.
Qed.

Lemma leaves_write e : leaves e -> write_of e = None.
Proof. by destruct e as [A [] a]. Qed.

(** What an operation may write: its own object, once. *)
Lemma allowed_write o h e :
  cr_allowed o h e ->
  write_of e = None \/
  existsb (cr_touch o) h = false /\ cr_touch o e = true /\
  match o with
  | DoEnsure _ id => exists r ctx ns obj a, e = Ev (KCreate r ctx ns obj) a /\
      (r, ns, name_of obj) = cr_key c id /\ obj = cr_build c id /\
      write_of e = Some (Put (cr_key c id) (cr_build c id), is_ok a)
  | DoDelete _ id => exists r ctx ns name a, e = Ev (KDelete r ctx ns name) a /\
      (r, ns, name) = cr_key c id /\
      write_of e = Some (Drop (cr_key c id), match a with None => true | Some _ => false end)
  end.
Proof.
  intros [Hl|[Hh Ha]]; [left; by apply leaves_write|right]. split; [done|].
  destruct o as [ctx i|ctx i], e as [A [] a]; try done; simpl in *.
  - destruct Ha as [Hk ->]. rewrite Hk, bool_decide_eq_true_2 by done. split; [done|].
    do 5 eexists. split; [done|]. split; [done|]. split; [done|]. unfold write_of. simpl. by rewrite Hk.
  - rewrite Ha, bool_decide_eq_true_2 by done. split; [done|].
    do 5 eexists. split; [done|]. split; [done|]. unfold write_of. simpl. by rewrite Ha.
Qed.

Lemma apply_owned o h e σ :
  dom (op_id o) -> cr_allowed o h e -> cr_owned c dom σ -> cr_owned c dom (apply_event σ e).
Proof.
  intros Hd Ha Hinv. apply (carry_owned c dom); [done|]. intros k obj ok Hw.
  destruct (allowed_write o h e Ha) as [Hn|(_ & _ & Hown)]; [congruence|].
  destruct o as [ctx i|ctx i].
  - destruct Hown as (r & ctx' & ns & obj' & a & _ & _ & _ & Hw'). rewrite Hw' in Hw. injection Hw as <- <- _.
    by exists i.
  - destruct Hown as (r & ctx' & ns & name & a & _ & _ & Hw'). congruence.
Qed.

(** *** On any server *)

Notation any := (fun _ : object => True).

(** An object that answered a Get, or a creation it was in the way of. *)
Lemma get_there σ r ctx ns name a :
  true_answer (objects_now σ) (Ev (KGet r ctx ns name) a) -> is_ok a = true ->
  there any (objects_now σ) (r, ns, name).
Proof. destruct a as [o|]; [|done]. intros [o' Ho] _. by exists o'. Qed.

Lemma there_any (m : objects_of) k : there any m k <-> is_Some (m !! k).
Proof. unfold there. split; [intros (o & Ho & _)|intros [o Ho]]; by exists o. Qed.

Lemma there_stays_or_goes (σ : cluster) k : there any (objects σ) k -> staying any σ k \/ going any σ k.
Proof. apply there_either. Qed.

Lemma cr_serve_other o h e σ id :
  dom (op_id o) -> dom id -> id <> op_id o -> cr_allowed o h e -> cr_owned c dom σ ->
  honest api_server σ e ->
  (cr_live c (apply_event σ e) id <-> cr_live c σ id) /\
  (cr_leaving c (apply_event σ e) id -> cr_leaving c σ id).
Proof.
  intros Hd Hid Hne Ha _ _. unfold apply_event, cr_live, cr_leaving.
  assert (cr_key c id <> cr_key c (op_id o)) as Hk by (intros Hk; by apply Hne, (cr_key_inj c dom)).
  destruct (allowed_write o h e Ha) as [->|(_ & _ & Hown)].
  { destruct (carry_none any σ) as (_ & Hl & Hg). split; [apply Hl|apply Hg]. }
  destruct o as [ctx i|ctx i].
  - destruct Hown as (r & ctx' & ns & obj' & a & _ & _ & _ & ->). by apply carry_other.
  - destruct Hown as (r & ctx' & ns & name & a & _ & _ & ->). by apply carry_other.
Qed.

(** A call that only looks. *)
Lemma cr_looks o e σ :
  write_of e = None -> cr_owned c dom σ -> honest api_server σ e ->
  (cr_live c (apply_event σ e) (op_id o) <-> cr_live c σ (op_id o)) /\
  (cr_leaving c (apply_event σ e) (op_id o) -> cr_leaving c σ (op_id o)) /\
  match o with
  | DoEnsure _ id => cr_point o e = true -> cr_live c (apply_event σ e) id \/ cr_leaving c (apply_event σ e) id
  | DoDelete _ id => cr_point o e = true -> ~ cr_live c (apply_event σ e) id
  end.
Proof.
  intros Hw _ He. unfold apply_event, cr_live, cr_leaving. rewrite Hw.
  destruct (carry_none any σ) as (Hobj & Hl & Hg). split; [by apply Hl|]. split; [by apply Hg|].
  destruct o as [ctx i|ctx i], e as [A [] a]; try done; simpl.
  intros [Hk%bool_decide_eq_true Ha]%andb_prop. apply there_stays_or_goes. simpl. rewrite <- Hk.
  exact (get_there _ _ _ _ _ _ He Ha).
Qed.

Lemma cr_serve_own o h e σ :
  dom (op_id o) -> cr_allowed o h e -> cr_owned c dom σ -> honest api_server σ e ->
  cr_owned c dom (apply_event σ e) /\
  (cr_touch o e = false \/ existsb (cr_touch o) h = true ->
     (cr_live c (apply_event σ e) (op_id o) <-> cr_live c σ (op_id o)) /\
     (cr_leaving c (apply_event σ e) (op_id o) -> cr_leaving c σ (op_id o))) /\
  match o with
  | DoEnsure _ id =>
      (cr_live c σ id -> cr_live c (apply_event σ e) id) /\
      (cr_leaving c (apply_event σ e) id -> cr_leaving c σ id) /\
      (cr_leaving c (apply_event σ e) id -> cr_leaving c σ id) /\
      (cr_point o e = true -> cr_live c (apply_event σ e) id \/ cr_leaving c (apply_event σ e) id)
  | DoDelete _ id =>
      (cr_live c (apply_event σ e) id -> cr_live c σ id) /\
      (cr_leaving c (apply_event σ e) id -> cr_leaving c σ id \/ cr_live c σ id) /\
      (cr_point o e = true -> ~ cr_live c (apply_event σ e) id)
  end.
Proof.
  intros Hd Ha Hinv He. split; [by eapply apply_owned|].
  destruct (allowed_write o h e Ha) as [Hw|(Hh & Ht & Hown)].
  { destruct (cr_looks o e σ Hw Hinv He) as (Hl & Hg & Hp). split; [by intros _|].
    destruct o; simpl in *; tauto. }
  split; [rewrite Hh, Ht; by intros [|]|].
  destruct o as [ctx i|ctx i]; simpl in Hd.
  - destruct Hown as (r & ctx' & ns & obj & a & -> & Hk & Hobj & Hw).
    unfold apply_event, cr_live, cr_leaving. rewrite Hw.
    destruct (carry_put any (cr_key c i) (cr_build c i) (is_ok a) σ I) as (H1 & H2 & H3).
    split_and!; [done..|]. simpl. intros [_ Hp]%andb_prop. destruct a as [o|e]; simpl in *; [left; by apply H3|].
    apply there_stays_or_goes, carry_put_there; [done|]. cbn in He. rewrite Hk in He.
    destruct (He Hp) as [o Ho]. by exists o.
  - destruct Hown as (r & ctx' & ns & name & a & -> & Hk & Hw).
    unfold apply_event, cr_live, cr_leaving. rewrite Hw.
    destruct (carry_drop any (cr_key c i) (match a with None => true | Some _ => false end) σ) as (H1 & H2).
    split_and!; [done|apply carry_drop_going|]. simpl. intros [_ Hp]%andb_prop.
    destruct a as [e|]; [|by apply H2]. apply carry_drop_missing. cbn in He. rewrite Hk in He. by apply He.
Qed.

(** *** On a server that is prompt *)

Lemma cr_step o h e σ :
  dom (op_id o) -> cr_allowed o h e -> cr_prompt c dom σ -> honest api_server σ e ->
  cr_prompt c dom (apply_event σ e) /\ forall id, dom id ->
    cr_managed c (apply_event σ e) id <->
    (if cr_point o e && negb (existsb (cr_point o) h)
     then op_set o id (cr_managed c σ id) else cr_managed c σ id).
Proof.
  intros Hd Ha [Hprompt Hinv] He.
  assert (cr_prompt c dom (apply_event σ e)) as Hinv'.
  { split; [|by eapply apply_owned]. unfold apply_event. by rewrite carry_prompt. }
  split; [exact Hinv'|]. cbn in He. rewrite objects_now_prompt in He by done. intros id Hid.
  unfold cr_managed, apply_event. rewrite carry_prompt by done. cbn [objects stored].
  destruct (allowed_write o h e Ha) as [Hw|(Hh & _ & Hown)].
  { rewrite Hw. simpl. destruct (cr_point o e) eqn:Hp; [|done]. case_match; [|done]. simpl.
    destruct o as [ctx i|ctx i], e as [A [] a]; try done; simpl in *.
    apply andb_prop in Hp as [Hk%bool_decide_eq_true Hok]. destruct a as [obj|]; [|done]. cbn in He.
    rewrite Hk in He. pose proof (present_managed c dom i σ Hd Hinv He). unfold cr_managed in *. naive_solver. }
  rewrite (untouched_unpointed _ _ Hh), andb_true_r.
  destruct o as [ctx i|ctx i]; simpl in Hd.
  - destruct Hown as (r & ctx' & ns & obj & a & -> & Hk & Hobj & ->). cbn in He. rewrite Hk in He.
    simpl. rewrite Hk, bool_decide_eq_true_2 by done. destruct a as [o|e]; simpl.
    + exact (proj2 (create_ids c dom i (objects σ) Hd Hinv) id Hid).
    + destruct (isAlreadyExists e) eqn:Hae; [|done].
      pose proof (present_managed c dom i σ Hd Hinv (He eq_refl)). unfold cr_managed in *. naive_solver.
  - destruct Hown as (r & ctx' & ns & name & a & -> & Hk & ->). cbn in He. rewrite Hk in He.
    simpl. rewrite Hk, bool_decide_eq_true_2 by done. destruct a as [e|]; simpl;
      [|exact (proj2 (delete_ids c dom i (objects σ) Hd Hinv) id Hid)].
    destruct (isNotFound e) eqn:Hnf; [|done].
    pose proof (delete_ids c dom i (objects σ) Hd Hinv) as [_ Hdel].
    rewrite (delete_id (objects σ) (cr_key c i)) in Hdel by by apply He. by apply Hdel.
Qed.

(** *** The programs the backends share *)

(** A creation that succeeded or found the object there. *)
Lemma create_lawful {A} (env : environment call) ctx' ctx id h
    (f : result error object -> IO (history call) A) (Q : A -> history call -> Prop) :
  existsb (cr_touch (DoEnsure ctx id)) h = false ->
  (forall a h', existsb (cr_point (DoEnsure ctx id)) h' =
       match a with Ok _ => true | Err e => isAlreadyExists e end ->
     lawful (cr_allowed (DoEnsure ctx id)) h' (f a) Q) ->
  lawful (cr_allowed (DoEnsure ctx id)) h
    (io_bind (perform env (KCreate (cr_gvr c) ctx' (cr_namespace c) (cr_build c id))) f) Q.
Proof.
  intros Hh Hf. assert (((cr_gvr c, cr_namespace c, name_of (cr_build c id))) = cr_key c id) as Hk
    by (unfold cr_key; by rewrite (build_name c dom)).
  apply lawful_call.
  - intros a. right. by rewrite Hh.
  - intros a. apply Hf. rewrite existsb_app, (untouched_unpointed _ _ Hh). simpl.
    rewrite bool_decide_eq_true_2 by done. by rewrite orb_false_r.
Qed.

Lemma get_lawful {A} (env : environment call) ctx' ctx id h
    (f : result error object -> IO (history call) A) (Q : A -> history call -> Prop) :
  (forall a h', existsb (cr_point (DoEnsure ctx id)) h' =
       existsb (cr_point (DoEnsure ctx id)) h || is_ok a ->
     existsb (cr_touch (DoEnsure ctx id)) h' = existsb (cr_touch (DoEnsure ctx id)) h || is_ok a ->
     lawful (cr_allowed (DoEnsure ctx id)) h' (f a) Q) ->
  lawful (cr_allowed (DoEnsure ctx id)) h
    (io_bind (perform env (KGet (cr_gvr c) ctx' (cr_namespace c) (cr_name c id))) f) Q.
Proof.
  intros Hf. apply lawful_call; [by left|].
  intros a. apply Hf; rewrite existsb_app; simpl;
    rewrite bool_decide_eq_true_2 by done; by rewrite orb_false_r.
Qed.

(** Made, as far as its result tells. *)
Definition ensured_by {A} (ctx : Ctx) (id : string) (r : result error A) (h : history call) : Prop :=
  is_ok r = true -> existsb (cr_point (DoEnsure ctx id)) h = true.

Lemma get_or_create_lawful env ctx id (wget wmake : error -> error) :
  lawful (cr_allowed (DoEnsure ctx id)) []
    (let* got := perform env (KGet (cr_gvr c) ctx (cr_namespace c) (cr_name c id)) in
     match got with
     | Ok _ => io_ret (Ok tt)
     | Err e =>
         if negb (isNotFound e) then io_ret (Err (wget e)) else
         let* made := perform env (KCreate (cr_gvr c) ctx (cr_namespace c) (cr_build c id)) in
         io_ret (match made with
                 | Ok _ => Ok tt
                 | Err e => if isAlreadyExists e then Ok tt else Err (wmake e)
                 end)
     end) (ensured_by ctx id).
Proof.
  apply get_lawful. intros [o|e] h Hh Ht; simpl in Hh, Ht; [by apply lawful_ret; intros _|].
  destruct (isNotFound e); [|by apply lawful_ret].
  apply create_lawful; [done|]. intros a h' Hh'. apply lawful_ret. unfold ensured_by.
  rewrite Hh'. destruct a as [|e']; [done|]. by destruct (isAlreadyExists e').
Qed.

Lemma ensure_rest_lawful {A B} ctx id (goc : IO (history call) (result error B))
    (rest : IO (history call) (result error A)) :
  lawful (cr_allowed (DoEnsure ctx id)) [] goc (ensured_by ctx id) ->
  calls_only leaves rest ->
  lawful (cr_allowed (DoEnsure ctx id)) []
    (let* made := goc in match made with Err e => io_ret (Err e) | Ok _ => rest end)
    (ensured_by ctx id).
Proof.
  intros Hgoc Hrest. eapply lawful_bind; [exact Hgoc|]. intros [b|e] h Hh.
  2:{ apply lawful_ret. by intros ?. }
  eapply lawful_mono.
  - apply (lawful_calls_only _ _ leaves); [exact Hrest|by left].
  - intros r h' [l ->] _. by rewrite existsb_app, (Hh eq_refl).
Qed.

Lemma delete_lawful_cr env ctx id (wrap : error -> error) :
  lawful (cr_allowed (DoDelete ctx id)) []
    (let* deleted := perform env (KDelete (cr_gvr c) ctx (cr_namespace c) (cr_name c id)) in
     io_ret (match deleted with
             | Some e => if isNotFound e then None else Some (wrap e)
             | None => None
             end))
    (fun r h => existsb (cr_point (DoDelete ctx id)) h = match r with None => true | Some _ => false end).
Proof.
  apply lawful_call; [by right|]. intros a. apply lawful_ret. simpl.
  rewrite bool_decide_eq_true_2 by done. destruct a as [e|]; [|done]. simpl. by destruct (isNotFound e).
Qed.

Lemma list_lawful_cr env ctx (wrap : error -> error) :
  adds (let* listed := perform env (KList (cr_gvr c) ctx (cr_namespace c) (managedByLabel +:+ "=true")) in
        io_ret (match listed with
                | Err e => Err (wrap e)
                | Ok items => Ok (ids_of (cr_label c) items)
                end))
    (fun r l => exists e, l = [e] /\ leaves e /\ forall ids, r = Ok ids ->
       forall m, cr_owns c dom m -> true_answer m e ->
         forall id, id ∈ ids <-> id <> EmptyString /\ dom id /\ is_Some (m !! cr_key c id)).
Proof.
  apply adds_call. intros a. apply adds_ret. eexists. split; [done|]. split; [done|].
  intros ids Hids m Hm Ha id. destruct a as [items|]; [|done]. injection Hids as <-.
  apply list_ids; [done..|]. by apply Ha.
Qed.

(** A listing tells what there is when it is made. *)
Lemma list_serves_cr (r : result error (list string)) e :
  leaves e -> (forall ids, r = Ok ids -> forall m, cr_owns c dom m -> true_answer m e ->
    forall id, id ∈ ids <-> id <> EmptyString /\ dom id /\ is_Some (m !! cr_key c id)) ->
  forall σ, cr_owned c dom σ -> honestly api_server σ [e] ->
    cr_owned c dom (after api_server σ [e]) /\
    (forall id, dom id ->
       (cr_live c (after api_server σ [e]) id <-> cr_live c σ id) /\
       (cr_leaving c (after api_server σ [e]) id -> cr_leaving c σ id)) /\
    forall ids, r = Ok ids -> True ->
      forall id, id ∈ ids <-> id <> EmptyString /\ dom id /\
        (cr_live c (after api_server σ [e]) id \/ cr_leaving c (after api_server σ [e]) id).
Proof.
  intros Hl Hids σ Hinv [He _]. cbn [after foldl api_server apply]. unfold apply_event.
  rewrite (leaves_write e Hl). destruct (carry_none any σ) as (Hobj & Hlive & Hleaving).
  split; [apply (carry_owned c dom); [done|by intros * [=]]|].
  split; [intros id _; unfold cr_live, cr_leaving; rewrite Hlive; auto|].
  intros ids Hr _ id. rewrite (Hids ids Hr (objects_now σ)).
  - unfold cr_live, cr_leaving. by rewrite <- there_either, Hobj, there_any.
  - eapply owns_sub; [apply objects_now_sub|exact Hinv].
  - exact He.
Qed.

Lemma list_keeps_cr (r : result error (list string)) e :
  leaves e -> (forall ids, r = Ok ids -> forall m, cr_owns c dom m -> true_answer m e ->
    forall id, id ∈ ids <-> id <> EmptyString /\ dom id /\ is_Some (m !! cr_key c id)) ->
  forall σ, cr_prompt c dom σ -> honestly api_server σ [e] ->
    after api_server σ [e] = σ /\ forall ids, r = Ok ids ->
      forall id, id ∈ ids <-> id <> EmptyString /\ dom id /\ cr_managed c σ id.
Proof.
  intros Hl Hids σ [Hp Hinv] [He _]. cbn [after foldl api_server apply]. unfold apply_event.
  rewrite (leaves_write e Hl), carry_prompt by done. simpl. split; [symmetry; by apply prompt_eq|].
  cbn in He. rewrite objects_now_prompt in He by done. intros ids Hr id.
  rewrite (Hids ids Hr (objects σ) Hinv He). split; intros (Hne & Hd & Hm); (split; [done|]; split; [done|]).
  - by apply (present_managed c dom).
  - by eexists.
Qed.
(** *** What the programs of a backend have to do *)

Context `{!Poller (history call)} (B : environment call -> Backend.Backend (history call)).

Record follows_cr : Prop := {
  cr_ensures env ctx id :
    lawful (cr_allowed (DoEnsure ctx id)) [] (@Backend.Ensure _ (B env) ctx id) (ensured_by ctx id);
  cr_deletes env ctx id :
    lawful (cr_allowed (DoDelete ctx id)) [] (@Backend.Delete _ (B env) ctx id) (fun r h =>
      existsb (cr_point (DoDelete ctx id)) h = match r with None => true | Some _ => false end);
  cr_lists env ctx :
    adds (@Backend.List _ (B env) ctx) (fun r l => exists e, l = [e] /\ leaves e /\
      forall ids, r = Ok ids -> forall m, cr_owns c dom m -> true_answer m e ->
        forall id, id ∈ ids <-> id <> EmptyString /\ dom id /\ is_Some (m !! cr_key c id));
  cr_performs env ctx id :
    performs env (@Backend.Ensure _ (B env) ctx id) /\
    performs env (@Backend.Delete _ (B env) ctx id) /\
    performs env (@Backend.List _ (B env) ctx);
}.

Lemma follows_keeps_ids :
  follows_cr ->
  KeepsIds api_server B (cr_prompt c dom) (cr_managed c) dom cr_allowed cr_point.
Proof.
  intros [He Hd Hl Hp]. split; [exact He|exact Hd| |exact Hp|apply cr_step].
  intros env ctx. eapply adds_mono; [apply Hl|]. intros r l (e & -> & Hleaves & Hids).
  intros σ Hinv Hhon. by apply list_keeps_cr.
Qed.

(** A listing is one call, during which nothing goes. *)
Definition at_one_time (σ σ' : cluster) : Prop := True.

Lemma follows_serves_ids :
  follows_cr ->
  ServesIds api_server B (cr_owned c dom) (cr_live c) (cr_leaving c) (cr_leaving c) at_one_time dom
    cr_allowed cr_touch cr_point.
Proof.
  intros [He Hd Hl Hp]. split; [exact He| | |exact Hp|apply cr_point_touch| |done| |apply cr_serve_own].
  - intros env ctx id. eapply lawful_mono; [apply Hd|]. by intros r h -> ->.
  - intros env ctx. eapply adds_mono; [apply Hl|]. intros r l (e & -> & Hleaves & Hids).
    intros σ Hinv Hhon. by apply list_serves_cr.
  - intros σ id Hg Hs. by apply (staying_going any σ (cr_key c id)).
  - intros. by eapply cr_serve_other.
Qed.
End executions.

(** ** The three backends *)

Section backends.
Context `{!Unstructured, !Poller (history call)}.

Definition claim_cr (s : SandboxClaim.SandboxClaim) : CR :=
  mkCR SandboxClaim.sandboxClaimGVR (SandboxClaim.namespace s)
    (SandboxClaim.playwrightIDLabelKey s) SandboxClaim.claimName
    (fun id => SandboxClaim.buildClaim s (SandboxClaim.claimName id) id).

Definition isola_cr (sha256 : string -> list Z) (b : Isola.IsolaBackend) : CR :=
  mkCR Isola.isolaSandboxGVR (Isola.namespace b) (Isola.playwrightIDLabelKey b)
    (Isola.isolaName sha256) (fun id => Isola.buildCR b (Isola.isolaName sha256 id) id).

Definition kars_cr (k : KarsSandbox.KarsSandboxBackend) : CR :=
  mkCR KarsSandbox.karsSandboxGVR (KarsSandbox.namespace k)
    (KarsSandbox.playwrightIDLabelKey k) KarsSandbox.karsName
    (fun id => KarsSandbox.buildCR k (KarsSandbox.karsName id) id).

Lemma prefix_inj (p : string) : Inj (=) (=) (fun id => p +:+ id).
Proof.
  intros id id' Hn. apply (inj to_chars). apply (f_equal to_chars) in Hn.
  rewrite !to_chars_app in Hn. by apply app_inv_head in Hn.
Qed.

Lemma claim_laws s :
  SandboxClaim.playwrightIDLabelKey s <> managedByLabel -> CRLaws (claim_cr s) (fun _ => True).
Proof. split; [done..|]. intros id id' _ _. apply (prefix_inj "pw-"). Qed.

Lemma kars_laws k :
  KarsSandbox.playwrightIDLabelKey k <> managedByLabel -> CRLaws (kars_cr k) (fun _ => True).
Proof. split; [done..|]. intros id id' _ _. apply (prefix_inj "pw-"). Qed.

Lemma isola_laws sha256 b (dom : string -> Prop) :
  Isola.playwrightIDLabelKey b <> managedByLabel ->
  (forall id id', dom id -> dom id' ->
     Isola.isolaName sha256 id = Isola.isolaName sha256 id' -> id = id') ->
  CRLaws (isola_cr sha256 b) dom.
Proof. split; done. Qed.

Notation keeps_ids B c dom :=
  (KeepsIds api_server B (cr_prompt c dom) (cr_managed c) dom (cr_allowed c) (cr_point c)).
Notation serves_ids B c dom :=
  (ServesIds api_server B (cr_owned c dom) (cr_live c) (cr_leaving c) (cr_leaving c) at_one_time dom
     (cr_allowed c) (cr_touch c) (cr_point c)).

Lemma claim_get_or_create env s ctx id :
  SandboxClaim.playwrightIDLabelKey s <> managedByLabel ->
  lawful (cr_allowed (claim_cr s) (DoEnsure ctx id)) []
    (SandboxClaim.get_or_create env s ctx (SandboxClaim.claimName id) id)
    (ensured_by (claim_cr s) ctx id).
Proof.
  intros Hkey. pose proof (claim_laws s Hkey).
  apply (get_lawful (claim_cr s) env). intros [o|e] h Hh Ht; simpl in Hh, Ht; [by apply lawful_ret; intros _|].
  destruct (isNotFound e); [|by apply lawful_ret].
  apply (create_lawful (claim_cr s) (fun _ => True) env); [done|].
  intros [o|e'] h' Hh'; [by apply lawful_ret; intros _|].
  destruct (isAlreadyExists e'); [|by apply lawful_ret].
  apply (get_lawful (claim_cr s) env). intros a h'' Hh'' _. rewrite Hh' in Hh''.
  destruct a; apply lawful_ret; by intros ?.
Qed.

Lemma claim_follows s :
  SandboxClaim.playwrightIDLabelKey s <> managedByLabel ->
  follows_cr (claim_cr s) (fun _ => True) (fun env => SandboxClaim.SandboxClaim_backend env s).
Proof.
  intros Hkey. pose proof (claim_laws s Hkey). split.
  - intros env ctx id. apply ensure_rest_lawful; [by apply claim_get_or_create|].
    unfold SandboxClaim.ready_poll. solve_calls_only.
  - intros env ctx id. exact (delete_lawful_cr (claim_cr s) env ctx id
      (Errorf_w "delete SandboxClaim %s: %w" [FStr (SandboxClaim.claimName id)])).
  - intros env ctx. exact (list_lawful_cr (claim_cr s) (fun _ => True) env ctx
      (Errorf_w "list SandboxClaims: %w" [])).
  - intros env ctx id. cbn -[String.append]. unfold SandboxClaim.Ensure, SandboxClaim.get_or_create,
      SandboxClaim.ready_poll, SandboxClaim.Delete, SandboxClaim.List. split_and!; solve_performs.
Qed.

Lemma claim_keeps_ids s :
  SandboxClaim.playwrightIDLabelKey s <> managedByLabel ->
  keeps_ids (fun env => SandboxClaim.SandboxClaim_backend env s) (claim_cr s) (fun _ => True).
Proof. intros Hkey. pose proof (claim_laws s Hkey). by apply follows_keeps_ids, claim_follows. Qed.

Lemma claim_serves_ids s :
  SandboxClaim.playwrightIDLabelKey s <> managedByLabel ->
  serves_ids (fun env => SandboxClaim.SandboxClaim_backend env s) (claim_cr s) (fun _ => True).
Proof. intros Hkey. pose proof (claim_laws s Hkey). by apply follows_serves_ids, claim_follows. Qed.

Lemma isola_follows sha256 b (dom : string -> Prop) :
  Isola.playwrightIDLabelKey b <> managedByLabel ->
  (forall id id', dom id -> dom id' ->
     Isola.isolaName sha256 id = Isola.isolaName sha256 id' -> id = id') ->
  follows_cr (isola_cr sha256 b) dom (fun env => Isola.Isola_backend sha256 env b).
Proof.
  intros Hkey Hinj. pose proof (isola_laws sha256 b dom Hkey Hinj). split.
  - intros env ctx id. apply ensure_rest_lawful.
    { exact (get_or_create_lawful (isola_cr sha256 b) dom env ctx id
        (Errorf_w "get Sandbox %s: %w" [FStr (Isola.isolaName sha256 id)])
        (Errorf_w "create Sandbox %s: %w" [FStr (Isola.isolaName sha256 id)])). }
    unfold Isola.waitForReady, Isola.ready_poll. solve_calls_only.
  - intros env ctx id. exact (delete_lawful_cr (isola_cr sha256 b) env ctx id
      (Errorf_w "delete Sandbox %s: %w" [FStr (Isola.isolaName sha256 id)])).
  - intros env ctx. exact (list_lawful_cr (isola_cr sha256 b) dom env ctx
      (Errorf_w "list Sandboxes: %w" [])).
  - intros env ctx id. cbn -[String.append]. unfold Isola.Ensure, Isola.get_or_create,
      Isola.waitForReady, Isola.ready_poll, Isola.Delete, Isola.List. split_and!; solve_performs.
Qed.

Lemma isola_keeps_ids sha256 b (dom : string -> Prop) :
  Isola.playwrightIDLabelKey b <> managedByLabel ->
  (forall id id', dom id -> dom id' ->
     Isola.isolaName sha256 id = Isola.isolaName sha256 id' -> id = id') ->
  keeps_ids (fun env => Isola.Isola_backend sha256 env b) (isola_cr sha256 b) dom.
Proof. intros Hkey Hinj. pose proof (isola_laws sha256 b dom Hkey Hinj). by apply follows_keeps_ids, isola_follows. Qed.

Lemma isola_serves_ids sha256 b (dom : string -> Prop) :
  Isola.playwrightIDLabelKey b <> managedByLabel ->
  (forall id id', dom id -> dom id' ->
     Isola.isolaName sha256 id = Isola.isolaName sha256 id' -> id = id') ->
  serves_ids (fun env => Isola.Isola_backend sha256 env b) (isola_cr sha256 b) dom.
Proof. intros Hkey Hinj. pose proof (isola_laws sha256 b dom Hkey Hinj). by apply follows_serves_ids, isola_follows. Qed.

Lemma kars_follows k :
  KarsSandbox.playwrightIDLabelKey k <> managedByLabel ->
  follows_cr (kars_cr k) (fun _ => True) (fun env => KarsSandbox.Kars_backend env k).
Proof.
  intros Hkey. pose proof (kars_laws k Hkey). split.
  - intros env ctx id. apply ensure_rest_lawful;
      [|unfold KarsSandbox.waitForRunning, KarsSandbox.running_poll, KarsSandbox.ensureProxyIngress,
          KarsSandbox.waitForPodIP, KarsSandbox.pod_poll; solve_calls_only].
    exact (get_or_create_lawful (kars_cr k) (fun _ => True) env ctx id
      (Errorf_w "get KarsSandbox %s: %w" [FStr (KarsSandbox.karsName id)])
      (Errorf_w "create KarsSandbox %s: %w" [FStr (KarsSandbox.karsName id)])).
  - intros env ctx id. exact (delete_lawful_cr (kars_cr k) env ctx id
      (Errorf_w "delete KarsSandbox %s: %w" [FStr (KarsSandbox.karsName id)])).
  - intros env ctx. exact (list_lawful_cr (kars_cr k) (fun _ => True) env ctx
      (Errorf_w "list KarsSandboxes: %w" [])).
  - intros env ctx id. cbn -[String.append]. unfold KarsSandbox.Ensure, KarsSandbox.get_or_create,
      KarsSandbox.waitForRunning, KarsSandbox.running_poll, KarsSandbox.ensureProxyIngress,
      KarsSandbox.waitForPodIP, KarsSandbox.pod_poll, KarsSandbox.Delete, KarsSandbox.List.
    split_and!; solve_performs.
Qed.

Lemma kars_keeps_ids k :
  KarsSandbox.playwrightIDLabelKey k <> managedByLabel ->
  keeps_ids (fun env => KarsSandbox.Kars_backend env k) (kars_cr k) (fun _ => True).
Proof. intros Hkey. pose proof (kars_laws k Hkey). by apply follows_keeps_ids, kars_follows. Qed.

Lemma kars_serves_ids k :
  KarsSandbox.playwrightIDLabelKey k <> managedByLabel ->
  serves_ids (fun env => KarsSandbox.Kars_backend env k) (kars_cr k) (fun _ => True).
Proof. intros Hkey. pose proof (kars_laws k Hkey). by apply follows_serves_ids, kars_follows. Qed.
End backends.

(** ** Checking answers *)

(** True answers to calls other than lists, by evaluation. *)
Definition check_answer (σ : gmap (GVR * string * string) object) (e : event call) : bool :=
  let present key := match σ !! key with Some _ => true | None => false end in
  match ev_call e in call A return A -> bool with
  | KGet r _ ns name => fun a =>
      match a with
      | Ok _ => present (r, ns, name)
      | Err e => implb (isNotFound e) (negb (present (r, ns, name)))
      end
  | KCreate r _ ns obj => fun a =>
      match a with
      | Ok _ => negb (present (r, ns, name_of obj))
      | Err e => implb (isAlreadyExists e) (present (r, ns, name_of obj))
      end
  | KDelete r _ ns name => fun a =>
      match a with
      | None => true
      | Some e => implb (isNotFound e) (negb (present (r, ns, name)))
      end
  | KList _ _ _ _ => fun _ => false
  | _ => fun _ => true
  end (ev_answer e).

Fixpoint check_answers (σ : cluster) (l : history call) : bool :=
  match l with
  | [] => true
  | e :: l => check_answer (objects_now σ) e && check_answers (apply_event σ e) l
  end.

Lemma check_answers_honestly `{!Unstructured} σ l :
  check_answers σ l = true -> honestly api_server σ l.
Proof.
  revert σ. induction l as [|e l IH]; intros σ; simpl; [done|].
  intros [He Hl]%andb_prop. split; [|by apply IH]. clear Hl.
  cbn [honest api_server]. generalize dependent (objects_now σ). intros m He.
  unfold check_answer, true_answer in *.
  destruct e as [A [] a]; simpl in *; try done; destruct a; simpl in *; try done;
    try destruct (isNotFound _); try destruct (isAlreadyExists _);
    destruct (m !! _); simpl in *; first [done|by intros|intros; by eexists|by eexists].
Qed.

(** ** A server to evaluate with *)

(** It answers from its objects and never fails; its pods and policies are as wished. *)
Definition sample_server (σ0 : cluster) : environment call :=
  fun A e h =>
  let σ := objects_now (after (@api_server sample_unstructured) σ0 h) in
  match e in call A return A with
  | KGet r _ ns name =>
      match σ !! (r, ns, name) with
      | Some o => Ok o
      | None => Err (StatusError 404 "not found")
      end
  | KCreate r _ ns obj =>
      match σ !! (r, ns, name_of obj) with
      | Some _ => Err (StatusError 409 "already exists")
      | None => Ok obj
      end
  | KDelete r _ ns name =>
      match σ !! (r, ns, name) with
      | Some _ => None
      | None => Some (StatusError 404 "not found")
      end
  | KList r _ ns _ => Ok (@labelled sample_unstructured σ r ns)
  | KPods _ _ _ => Ok [mkKPod None "Running" "10.0.0.9" [("Ready", "True")]]
  | KPolicyCreate _ _ p => Ok (policySpec p)
  | KPolicyGet _ _ _ => Err (StatusError 404 "not found")
  end.

(** The sample server with a controller that reports every claim ready. *)
Definition ready_status : json :=
  jmap [
    ("conditions", JArray [jmap [("type", JString "Ready"); ("status", JString "True")]]);
    ("sandbox", jmap [("podIPs", JArray [JString "10.0.0.7"])])].

Definition ready_server (σ0 : cluster) : environment call :=
  fun A e h =>
  match e in call A return A -> A with
  | KGet _ _ _ _ => fun r => match r with Ok o => Ok (<["status" := ready_status]> o) | Err e => Err e end
  | _ => fun r => r
  end (sample_server σ0 _ e h).

Lemma ready_server_honest σ0 : honest_env (@api_server sample_unstructured) σ0 (ready_server σ0).
Proof.
  intros A [] h; cbn; unfold sample_server; try done.
  - by destruct (objects_now _ !! _).
  - by destruct (objects_now _ !! _).
  - by destruct (objects_now _ !! _).
  - by intros _ ? [= <-].
Qed.

Definition sample_claims : SandboxClaim.SandboxClaim :=
  SandboxClaim.NewSandboxClaim "browsers" "chrome" "warm" 9222 8931 "playwright-id".

Definition sample_claim_backend (env : environment call) : Backend.Backend (history call) :=
  @SandboxClaim.SandboxClaim_backend sample_unstructured (sample_poller _) env sample_claims.

(** What is listed after an id is ensured and after it is deleted again. *)
Definition ensured_then_deleted (id : string) : list string * list string :=
  let B := sample_claim_backend (sample_server ∅) in
  let h1 := (Backend.Ensure Background id []).2 in
  let h2 := (Backend.Delete Background id h1).2 in
  let listed h := match (Backend.List Background h).1 with Ok ids => ids | Err _ => [] end in
  (listed h1, listed h2).

Example ensured_then_deleted_ids : ensured_then_deleted "alice" = (["alice"], []).
Proof. vm_compute. reflexivity. Qed.

Lemma sample_claims_keep_ids :
  @KeepsIds _ _ (@api_server sample_unstructured) sample_claim_backend
    (@cr_prompt sample_unstructured (claim_cr sample_claims) (fun _ => True))
    (cr_managed (claim_cr sample_claims)) (fun _ => True) (cr_allowed (claim_cr sample_claims))
    (cr_point (claim_cr sample_claims)).
Proof. apply claim_keeps_ids. by_decision. Qed.

Lemma sample_claims_id_set :
  IdSet (sample_claim_backend (ready_server ∅))
    (fun h => @cr_prompt sample_unstructured (claim_cr sample_claims) (fun _ => True)
       (after (@api_server sample_unstructured) ∅ h))
    (fun h => cr_managed (claim_cr sample_claims) (after (@api_server sample_unstructured) ∅ h))
    (fun _ => True).
Proof. apply (@id_set_alone _ _ _ _ _ _ _ _ _ sample_claims_keep_ids), ready_server_honest. Qed.
