(* ===== verification/Restart.v ===== *)
(** * Restarting on a backend that keeps its ids

    The proxy keeps no state of its own across restarts: a new manager lists its backend and
    adopts what it finds.  Against any backend that keeps a set of ids ([IdSet], [KeepsIds]),
    what a restarted manager knows is what the calls before it left, one after the other or
    interleaved. *)

From S2P Require Import Prelude GoStd Effects Backend Metrics Session SessionFacts SessionSys SessionInv SessionLive Ids Store Cluster.
From S2P Require Kube SandboxClaim.
Local Open Scope Z_scope.

(** ** Calls of a backend and what they leave *)

(** What is known of an id: it is there, it is not, or an Ensure that failed may have left
    it behind. *)
Definition knowledge : Type := option bool.

Definition learn (id : string) (k : knowledge) (e : op * bool) : knowledge :=
  let '(o, ok) := e in
  if decide (op_id o = id) then
    match o, ok with
    | DoEnsure _ _, true => Some true
    | DoEnsure _ _, false => if decide (k = Some true) then k else None
    | DoDelete _ _, true => Some false
    | DoDelete _ _, false => k
    end
  else k.

Definition known (id : string) (k : knowledge) (log : list (op * bool)) : knowledge :=
  foldl (learn id) k log.

(** Knowledge that is right. *)
Definition agrees (k : knowledge) (P : Prop) : Prop :=
  match k with Some true => P | Some false => ~ P | None => True end.

(** ** What a new manager makes of a list *)

(** One pending session for each listed id, and no other. *)
Lemma adopts_listed ids t mx ps st :
  reconcile_ids ids (New t mx) = (ps, st) ->
  size (sessions st) = length ps /\
  forall id, (is_Some (sessions st !! id) <-> id ∈ ids) /\
    forall p, sessions st !! id = Some p -> p ∈ ps /\ heap st !! p = Some (fresh_session id t).
Proof. by apply (adopts_empty ids (New t mx)). Qed.

Section backend.
Context {W : Type} (B : Backend.Backend W) (inv : W -> Prop) (managed : W -> string -> Prop).
Context (dom : string -> Prop) `{!IdSet B inv managed dom}.

Fixpoint ops_run (os : list op) (w : W) : list (op * bool) * W :=
  match os with
  | [] => ([], w)
  | o :: os =>
      let '(ok, w1) := op_run B o w in
      let '(log, w2) := ops_run os w1 in ((o, ok) :: log, w2)
  end.

Lemma op_run_learns o w id k :
  dom (op_id o) -> dom id -> inv w -> agrees k (managed w id) ->
  inv (op_run B o w).2 /\ agrees (learn id k (o, (op_run B o w).1)) (managed (op_run B o w).2 id).
Proof.
  intros Ho Hid Hw Hk. destruct o as [ctx i|ctx i]; simpl in *.
  - destruct (ensure_adds_id ctx i w Ho Hw) as [Hinv Hm]. split; [exact Hinv|].
    destruct (Hm id Hid) as (Hkeep & Hnew & Hok). case_decide as Hi.
    + subst i. destruct (is_ok _); [by apply Hok|].
      case_decide as Hd; [|done]. subst k. simpl in *. auto.
    + destruct k as [[]|]; simpl in *; [auto| |done].
      intros H. destruct (Hnew H) as [->|?]; [done|auto].
  - destruct (delete_removes_id ctx i w Ho Hw) as [Hinv Hm]. split; [exact Hinv|].
    specialize (Hm id Hid). destruct (Backend.Delete ctx i w).1 as [e|]; simpl.
    + assert (agrees k (managed (Backend.Delete ctx i w).2 id)) as H
        by (destruct k as [[]|]; simpl in *; naive_solver).
      by case_decide.
    + case_decide as Hi; [subst i; simpl; naive_solver|].
      destruct k as [[]|]; simpl in *; naive_solver.
Qed.

Lemma ops_run_known os w log w' :
  ops_run os w = (log, w') -> Forall (fun o => dom (op_id o)) os -> inv w ->
  inv w' /\ forall id k, dom id -> agrees k (managed w id) -> agrees (known id k log) (managed w' id).
Proof.
  revert w log. induction os as [|o os IH]; intros w log; cbn [ops_run].
  { intros [= <- <-] _ Hw. split; [done|]. by intros. }
  destruct (op_run B o w) as [ok w1] eqn:Ho. destruct (ops_run os w1) as [log1 w2] eqn:Hos.
  intros [= <- <-] [Hd Hds]%Forall_cons Hw.
  assert (inv w1) as Hw1.
  { change w1 with (ok, w1).2. rewrite <- Ho. by apply (op_run_learns o w (op_id o) None). }
  destruct (IH _ _ Hos Hds Hw1) as [Hw2 Hk]. split; [done|].
  intros id k Hid Ha. apply Hk; [done|].
  destruct (op_run_learns o w id k Hd Hid Hw Ha) as [_ Hl]. by rewrite Ho in Hl.
Qed.

(** A restart: whatever Ensures and Deletes ran before and whichever of them failed, a new
    manager that lists the backend starts one pending session for every id that is there,
    and for no other: for each id whose last effective call was an Ensure that succeeded,
    and for none that a Delete removed. *)
Theorem restart_adopts (os : list op) (w w' : W) (log : list (op * bool)) (ctx : Ctx)
    (ids : list string) (t : Z) (mx : option Metrics) (ps : list loc) (st : state) :
  inv w -> Forall (fun o => dom (op_id o)) os -> ops_run os w = (log, w') ->
  (Backend.List ctx w').1 = Ok ids -> reconcile_ids ids (New t mx) = (ps, st) ->
  size (sessions st) = length ps /\
  forall id,
    (forall p, sessions st !! id = Some p ->
       id <> EmptyString /\ dom id /\ managed w' id /\ p ∈ ps /\ heap st !! p = Some (fresh_session id t)) /\
    forall k, id <> EmptyString -> dom id -> agrees k (managed w id) ->
      agrees (known id k log) (is_Some (sessions st !! id)).
Proof.
  intros Hw Hos Hrun Hlist Hrec.
  destruct (ops_run_known _ _ _ _ Hrun Hos Hw) as [Hw' Hk].
  destruct (list_returns_ids ctx w' ids Hw' Hlist) as [_ Hids].
  destruct (adopts_listed _ _ _ _ _ Hrec) as [Hsize Hst]. split; [exact Hsize|].
  intros id. destruct (Hst id) as [Hin Hp]. split.
  - intros p Hs. assert (id ∈ ids) as (? & ? & ?)%Hids by (apply Hin; by exists p).
    destruct (Hp p Hs). auto.
  - intros k Hne Hid Ha. specialize (Hk id k Hid Ha).
    assert (managed w' id <-> is_Some (sessions st !! id)) as Heq
      by (rewrite Hin, Hids; naive_solver).
    destruct (known id k log) as [[]|]; simpl in *; naive_solver.
Qed.
End backend.

(** *** After any interleaving *)

Section shared.
Context {E : Type -> Type} {Σ : Type} (S : Server E Σ) (B : environment E -> Backend.Backend (history E)).
Context (inv : Σ -> Prop) (managed : Σ -> string -> Prop) (dom : string -> Prop).
Context (allowed : op -> history E -> event E -> Prop) (point : op -> event E -> bool).
Context `{!KeepsIds S B inv managed dom allowed point}.

End shared.

(** ** A restart evaluated *)

Definition ready_claims : Backend.Backend (history Kube.call) :=
  sample_claim_backend (ready_server ∅).

Definition before_restart : list op :=
  [DoEnsure Background "alice"; DoEnsure Background "bob"; DoDelete Background "alice"].

Definition left_behind : history Kube.call := (ops_run ready_claims before_restart []).2.
Definition restarted : list loc * state := reconcile_ids ["bob"] (New 5 None).

(** Bob's sandbox is adopted after the restart, Alice's is gone. *)
Lemma restart_adopts_witness :
  (@Backend.List _ ready_claims Background left_behind).1 = Ok ["bob"] /\
  size (sessions restarted.2) = length restarted.1 /\
  is_Some (sessions restarted.2 !! "bob") /\ ~ is_Some (sessions restarted.2 !! "alice").
Proof.
  assert ((@Backend.List _ ready_claims Background left_behind).1 = Ok ["bob"]) as Hlist
    by (vm_compute; reflexivity).
  split; [exact Hlist|].
  assert ((ops_run ready_claims before_restart []).1 =
    [(DoEnsure Background "alice", true); (DoEnsure Background "bob", true);
     (DoDelete Background "alice", true)]) as Hlog by (vm_compute; reflexivity).
  destruct (@restart_adopts _ ready_claims _ _ _ sample_claims_id_set before_restart [] left_behind _
    Background ["bob"] 5 None restarted.1 restarted.2 (nothing_prompt _ _) ltac:(by repeat constructor)
    (surjective_pairing _) Hlist eq_refl) as [Hsize Hk].
  rewrite Hlog in Hk. split; [exact Hsize|]. split.
  - apply (proj2 (Hk "bob") None); done.
  - apply (proj2 (Hk "alice") None); done.
Defined.

(** *** After an interleaving *)

(** Alice and Bob are ensured at the same time, and Alice's sandbox deleted again. *)
Definition busy_op (u : nat) : op :=
  match u with
  | 1%nat => DoEnsure Background "bob"
  | 2%nat => DoDelete Background "alice"
  | _ => DoEnsure Background "alice"
  end.

Definition busy_env (u : nat) : environment Kube.call :=
  match u with
  | 2%nat => ready_server
      (after (@api_server Kube.sample_unstructured) ∅
         (op_run (sample_claim_backend (ready_server ∅)) (busy_op 0) []).2)
  | _ => ready_server ∅
  end.

Definition busy_run (u : nat) : bool * history Kube.call :=
  op_run (sample_claim_backend (busy_env u)) (busy_op u) [].

Definition turns {A} (l1 l2 : list A) : list (nat * A) :=
  concat (zip_with (fun a b => [(0%nat, a); (1%nat, b)]) l1 l2).

Lemma mine_turns {E : Type -> Type} t (l1 l2 : list (event E)) :
  length l1 = length l2 ->
  mine t (turns l1 l2) = match t with 0%nat => l1 | 1%nat => l2 | _ => [] end.
Proof.
  revert l2. induction l1 as [|a l1 IH]; intros [|b l2] Hl; simplify_eq/=; [by destruct t as [|[]]|].
  change (turns (a :: l1) (b :: l2)) with ((0%nat, a) :: (1%nat, b) :: turns l1 l2).
  rewrite !mine_cons, IH by done. by destruct t as [|[|t]].
Qed.

Definition busy : list (nat * event Kube.call) :=
  turns (busy_run 0).2 (busy_run 1).2 ++ map (pair 2%nat) (busy_run 2).2.

Definition busy_state : Store.store (Kube.GVR * string * string) Kube.object :=
  after (@api_server Kube.sample_unstructured) ∅ busy.*2.

Lemma busy_executing : executing sample_claim_backend busy_op busy.
Proof.
  assert (length (busy_run 0).2 = length (busy_run 1).2) as Hlen by (vm_compute; reflexivity).
  intros u. unfold busy. rewrite mine_app, mine_turns, mine_pairs by exact Hlen.
  intros Hu. exists (busy_env u), []. rewrite app_nil_r.
  destruct u as [|[|[|u]]].
  1-2: by rewrite decide_False, app_nil_r by done.
  - by rewrite decide_True by done.
  - exfalso. apply Hu. by rewrite decide_False by lia.
Qed.

Lemma busy_honest : honestly (@api_server Kube.sample_unstructured) ∅ busy.*2.
Proof. apply check_answers_honestly. vm_compute. reflexivity. Qed.

