(* ===== verification/AteApi.v ===== *)
(** * The Control API of ate-api-server ([internal/backend/ateapipb])

    The generated messages the Substrate backend sends and receives, with their accessors,
    and the methods of the client.  A pointer to a message is an [option]: the accessors
    of a nil message return zero values.  Fields the backend neither reads, sends nor
    compares (timestamps, worker assignments, volumes, snapshots) are left out; the
    messages that [proto.Equal] compares are complete, with their unknown fields. *)

From S2P Require Import Prelude GoStd Effects.
Local Open Scope Z_scope.

(** ** [enum ActorState]; proto3 enums are open *)

Inductive ActorState : Type :=
| ACTOR_STATE_UNSPECIFIED
| ACTOR_STATE_RESUMING
| ACTOR_STATE_RUNNING
| ACTOR_STATE_SUSPENDING
| ACTOR_STATE_SUSPENDED
| ACTOR_STATE_CRASHED
| ACTOR_STATE_DELETING
| ACTOR_STATE_REVERTING
| ACTOR_STATE_unknown (n : Z).

#[export] Instance ActorState_eq_dec : EqDecision ActorState.
Proof. solve_decision. Defined.

Definition ActorState_String (x : ActorState) : string :=
  match x with
  | ACTOR_STATE_UNSPECIFIED => "ACTOR_STATE_UNSPECIFIED"
  | ACTOR_STATE_RESUMING => "ACTOR_STATE_RESUMING"
  | ACTOR_STATE_RUNNING => "ACTOR_STATE_RUNNING"
  | ACTOR_STATE_SUSPENDING => "ACTOR_STATE_SUSPENDING"
  | ACTOR_STATE_SUSPENDED => "ACTOR_STATE_SUSPENDED"
  | ACTOR_STATE_CRASHED => "ACTOR_STATE_CRASHED"
  | ACTOR_STATE_DELETING => "ACTOR_STATE_DELETING"
  | ACTOR_STATE_REVERTING => "ACTOR_STATE_REVERTING"
  | ACTOR_STATE_unknown n => fmt_d n
  end.

(** Read a field of a message that may be nil. *)
Definition field {M A} (zero : A) (get : M -> A) (x : option M) : A :=
  match x with Some m => get m | None => zero end.

(** ** Messages *)

Record ObjectRef := mkObjectRef { ref_Atespace : string; ref_Name : string }.

Definition ObjectRef_GetAtespace : option ObjectRef -> string := field EmptyString ref_Atespace.
Definition ObjectRef_GetName : option ObjectRef -> string := field EmptyString ref_Name.

Record ResourceMetadata := mkResourceMetadata {
  meta_Atespace : string;
  meta_Name : string;
  meta_Uid : string;
  meta_Version : Z;
}.

Definition ResourceMetadata_GetName : option ResourceMetadata -> string :=
  field EmptyString meta_Name.

Record ActorCrash := mkActorCrash { crash_Message : string }.

Definition ActorCrash_GetMessage : option ActorCrash -> string := field EmptyString crash_Message.

Record ActorStatus := mkActorStatus {
  status_State : ActorState;
  status_Crash : option ActorCrash;
  status_AssignedNode : string;
  status_LastAssignedGeneration : Z;
}.

Definition ActorStatus_GetState : option ActorStatus -> ActorState :=
  field ACTOR_STATE_UNSPECIFIED status_State.
Definition ActorStatus_GetCrash : option ActorStatus -> option ActorCrash := field None status_Crash.

Record Actor := mkActor {
  actor_Metadata : option ResourceMetadata;
  actor_ActorTemplate : option ObjectRef;
  actor_Status : option ActorStatus;
}.

Definition Actor_GetMetadata : option Actor -> option ResourceMetadata := field None actor_Metadata.
Definition Actor_GetActorTemplate : option Actor -> option ObjectRef := field None actor_ActorTemplate.
Definition Actor_GetStatus : option Actor -> option ActorStatus := field None actor_Status.

(** *** Egress rules, compared by [proto.Equal] *)

Record ActorJwtSource := mkActorJwtSource {
  jwt_Audiences : list string;
  jwt_ExpirationSeconds : Z;
  jwt_unknownFields : string;
}.

Record CredentialHeader := mkCredentialHeader {
  cred_Header : string;
  cred_Prefix : string;
  cred_CredentialUri : string;
  cred_ActorJwt : option ActorJwtSource;
  cred_unknownFields : string;
}.

Record HttpRuleEffects := mkHttpRuleEffects {
  effects_ReplaceHeaders : list CredentialHeader;
  effects_unknownFields : string;
}.

Record AllPorts := mkAllPorts { all_unknownFields : string }.

Record Ports := mkPorts {
  ports_All : option AllPorts;
  ports_Numbers : list Z;
  ports_unknownFields : string;
}.

Record HttpRule := mkHttpRule {
  http_Hostnames : list string;
  http_Ports : option Ports;
  http_Effects : option HttpRuleEffects;
  http_unknownFields : string;
}.

Record HttpsRule := mkHttpsRule {
  https_Hostnames : list string;
  https_Ports : option Ports;
  https_Effects : option HttpRuleEffects;
  https_unknownFields : string;
}.

Record TlsPassthroughRule := mkTlsPassthroughRule {
  tls_Hostnames : list string;
  tls_Ports : option Ports;
  tls_unknownFields : string;
}.

Record EgressRule := mkEgressRule {
  rule_Http : option HttpRule;
  rule_Https : option HttpsRule;
  rule_TlsPassthrough : option TlsPassthroughRule;
  rule_unknownFields : string;
}.

Record EgressPolicy := mkEgressPolicy {
  policy_Metadata : option ResourceMetadata;
  policy_Rules : list EgressRule;
}.

Definition EgressPolicy_GetRules : option EgressPolicy -> list EgressRule := field [] policy_Rules.

#[export] Instance ActorJwtSource_eq_dec : EqDecision ActorJwtSource.
Proof. solve_decision. Defined.
#[export] Instance CredentialHeader_eq_dec : EqDecision CredentialHeader.
Proof. solve_decision. Defined.
#[export] Instance HttpRuleEffects_eq_dec : EqDecision HttpRuleEffects.
Proof. solve_decision. Defined.
#[export] Instance AllPorts_eq_dec : EqDecision AllPorts.
Proof. solve_decision. Defined.
#[export] Instance Ports_eq_dec : EqDecision Ports.
Proof. solve_decision. Defined.
#[export] Instance HttpRule_eq_dec : EqDecision HttpRule.
Proof. solve_decision. Defined.
#[export] Instance HttpsRule_eq_dec : EqDecision HttpsRule.
Proof. solve_decision. Defined.
#[export] Instance TlsPassthroughRule_eq_dec : EqDecision TlsPassthroughRule.
Proof. solve_decision. Defined.
#[export] Instance EgressRule_eq_dec : EqDecision EgressRule.
Proof. solve_decision. Defined.

(** ** Requests and responses *)

Record GetActorRequest := mkGetActorRequest { get_Actor : option ObjectRef }.
Record CreateActorRequest := mkCreateActorRequest { create_Actor : option Actor }.
Record SuspendActorRequest := mkSuspendActorRequest { suspend_Actor : option ObjectRef }.
Record SuspendActorResponse := mkSuspendActorResponse { suspended_Actor : option Actor }.
Record ResumeActorRequest := mkResumeActorRequest { resume_Actor : option ObjectRef }.
Record ResumeActorResponse := mkResumeActorResponse {
  resumed_Actor : option Actor;
  resumed_Resumed : bool;
}.
Record DeleteOptions := mkDeleteOptions { delete_Version : Z; delete_Uid : string }.
Record DeleteActorRequest := mkDeleteActorRequest {
  delete_Actor : option ObjectRef;
  delete_AnyState : bool;
  delete_Options : option DeleteOptions;
}.
Record GetActorEgressPolicyRequest := mkGetActorEgressPolicyRequest {
  getpolicy_Actor : option ObjectRef;
  getpolicy_Name : string;
}.
Record CreateActorEgressPolicyRequest := mkCreateActorEgressPolicyRequest {
  createpolicy_Actor : option ObjectRef;
  createpolicy_EgressPolicy : option EgressPolicy;
}.
Record ListOptions := mkListOptions { list_PageSize : Z; list_PageToken : string }.
Record ListActorsRequest := mkListActorsRequest {
  list_Atespace : string;
  list_Options : option ListOptions;
}.
Record ListActorsResponse := mkListActorsResponse {
  listed_Actors : list Actor;
  listed_NextPageToken : string;
}.

Definition ListActorsResponse_GetActors : option ListActorsResponse -> list Actor :=
  field [] listed_Actors.
Definition ListActorsResponse_GetNextPageToken : option ListActorsResponse -> string :=
  field EmptyString listed_NextPageToken.

(** ** The methods, with what they take and return *)

Inductive rpc : Type -> Type :=
| Control_GetActor (r : GetActorRequest) : rpc Actor
| Control_CreateActor (r : CreateActorRequest) : rpc Actor
| Control_SuspendActor (r : SuspendActorRequest) : rpc SuspendActorResponse
| Control_ResumeActor (r : ResumeActorRequest) : rpc ResumeActorResponse
| Control_DeleteActor (r : DeleteActorRequest) : rpc Actor
| Control_GetActorEgressPolicy (r : GetActorEgressPolicyRequest) : rpc EgressPolicy
| Control_CreateActorEgressPolicy (r : CreateActorEgressPolicyRequest) : rpc EgressPolicy
| Control_ListActors (r : ListActorsRequest) : rpc ListActorsResponse.

Definition FullMethodName {R} (m : rpc R) : string :=
  match m with
  | Control_GetActor _ => "/ateapi.Control/GetActor"
  | Control_CreateActor _ => "/ateapi.Control/CreateActor"
  | Control_SuspendActor _ => "/ateapi.Control/SuspendActor"
  | Control_ResumeActor _ => "/ateapi.Control/ResumeActor"
  | Control_DeleteActor _ => "/ateapi.Control/DeleteActor"
  | Control_GetActorEgressPolicy _ => "/ateapi.Control/GetActorEgressPolicy"
  | Control_CreateActorEgressPolicy _ => "/ateapi.Control/CreateActorEgressPolicy"
  | Control_ListActors _ => "/ateapi.Control/ListActors"
  end.

(** ** Everything the backend calls: the API, the network, the clock, the file system *)

Inductive call : Type -> Type :=
| Invoke (R : Type) (ctx : Ctx) (method : string) (in_ : rpc R) : call (result error R)
| Now : call Z
| WaitAfter (ctx : Ctx) (d : Z) : call (option error) (* [select] on [ctx.Done()] and [time.After] *)
| NewRequest (method url : string) : call (option error)
| Do (ctx : Ctx) (timeout : Z) (method url : string) (header : Header) : call (result error Z)
| Getenv (key : string) : call string
| Stat (path : string) : call (option (bool * error)) (* whether it is [os.IsNotExist] *)
| ReadFile (path : string) : call (result error string)
| NewClient (endpoint : string) (tokenPath : option string) : call (option error).

(** ** The client: one stub per method *)

Section client.
Context (env : environment call).

Definition invoke {R} (ctx : Ctx) (in_ : rpc R) : IO (history call) (result error R) :=
  perform env (Invoke R ctx (FullMethodName in_) in_).

Definition GetActor ctx in_ := invoke ctx (Control_GetActor in_).
Definition CreateActor ctx in_ := invoke ctx (Control_CreateActor in_).
Definition SuspendActor ctx in_ := invoke ctx (Control_SuspendActor in_).
Definition ResumeActor ctx in_ := invoke ctx (Control_ResumeActor in_).
Definition DeleteActor ctx in_ := invoke ctx (Control_DeleteActor in_).
Definition GetActorEgressPolicy ctx in_ := invoke ctx (Control_GetActorEgressPolicy in_).
Definition CreateActorEgressPolicy ctx in_ := invoke ctx (Control_CreateActorEgressPolicy in_).
Definition ListActors ctx in_ := invoke ctx (Control_ListActors in_).
End client.

(** [status.Code] of an error, and of the status [status.FromError] makes of it: the code
    of the first error of its chain that has one. *)
Definition Code_of (err : error) : Code :=
  default CodeUnknown
    (errors_As (fun e => match e with GrpcError c _ => Some c | _ => None end) err).
