(* ===== verification/Substrate.v ===== *)
(** * The Substrate backend ([internal/backend/substrate.go])

    One actor per playwright-id behind a shared router.  Loops take fuel; [None] is its
    exhaustion, which never happens with the fuel of [ready_rounds] when the clock runs. *)

From S2P Require Import Prelude GoStd Effects Backend AteApi.
Local Open Scope Z_scope.

Definition readyPollInterval : Z := 200 * millisecond.
Definition readyDeadline : Z := 60 * second.
Definition upstreamReadyDeadline : Z := 30 * second.
Definition upstreamProbeInterval : Z := 200 * millisecond.

Record Substrate := mkSubstrate {
  actorTemplateNS : string;
  actorTemplateName : string;
  atenetRouterHost : string;
  atenetRouterPort : Z;
  allowedHTTPHosts : list string;
}.

Definition actorID (playwrightID : string) : string := "pw-" +:+ playwrightID.

Definition actorRef (s : Substrate) (id : string) : ObjectRef := mkObjectRef (actorTemplateNS s) id.

(** The actor runs the proxy's template. *)
Definition own_template (s : Substrate) (actor : Actor) : bool :=
  let ref := Actor_GetActorTemplate (Some actor) in
  bool_decide (ObjectRef_GetAtespace ref = actorTemplateNS s)
  && bool_decide (ObjectRef_GetName ref = actorTemplateName s).

Definition egress_rule (s : Substrate) : EgressRule :=
  mkEgressRule
    (Some (mkHttpRule (allowedHTTPHosts s) (Some (mkPorts None [80] EmptyString)) None EmptyString))
    None None EmptyString.

(** The statuses that show that an application answers. *)
Definition upstream_ok (code : Z) : bool :=
  (200 <=? code) && (code <? 500) && negb (code =? 421) && negb (code =? 401) && negb (code =? 403).

(** The id of a listed actor of the proxy. *)
Definition listed_id (s : Substrate) (a : Actor) : option string :=
  if negb (own_template s a) then None
  else match strings_CutPrefix (ResourceMetadata_GetName (Actor_GetMetadata (Some a))) "pw-" with
       | (pid, true) => Some pid
       | _ => None
       end.

Section backend.
(** The text of a message, which protobuf does not fix. *)
Context (MessageString : option ActorStatus -> string).
Context (env : environment call).
Notation do e := (perform env e).

(** ** Construction *)

Definition default_token_file : string := "/var/run/secrets/kubernetes.io/serviceaccount/token".

Definition NewSubstrateWithOptions (apiEndpoint atenetRouterAddr actorTemplateRef : string)
    (forceBoot : bool) (hosts : list string) : IO (history call) (result error Substrate) :=
  if forceBoot then
    io_ret (Err (Errorf ("SUBSTRATE_FORCE_BOOT is unsupported by substrate v0.5.0; "
      +:+ "configure snapshotConfig on the ActorTemplate instead") [])) else
  if bool_decide (apiEndpoint = EmptyString) then io_ret (Err (Errorf "apiEndpoint required" [])) else
  match strings_Cut atenetRouterAddr ":" with
  | (_, _, false) =>
      io_ret (Err (Errorf "atenetRouterAddr must be host:port, got %q" [FStr atenetRouterAddr]))
  | (host, portStr, true) =>
      match strconv_Atoi portStr with
      | Err e => io_ret (Err (Errorf_w "atenetRouterAddr port: %w" [] e))
      | Ok port =>
          let '(tns, tname, ok) := strings_Cut actorTemplateRef "/" in
          if negb ok || bool_decide (tns = EmptyString) || bool_decide (tname = EmptyString)
             || strings_Contains tname "/"
          then io_ret (Err (Errorf "actorTemplateRef must be 'atespace/name', got %q"
                              [FStr actorTemplateRef])) else
          let* configured := do (Getenv "SUBSTRATE_TOKEN_FILE") in
          let tokenFile := if decide (configured = EmptyString) then default_token_file
                           else configured in
          let* stat := do (Stat tokenFile) in
          match stat with
          | Some (missing, e) =>
              if negb (bool_decide (configured = EmptyString)) || negb missing
              then io_ret (Err (Errorf_w "stat service account token: %w" [] e)) else
              let* refused := do (NewClient apiEndpoint None) in
              io_ret (match refused with
                      | Some e => Err (Errorf_w "dial ate-api-server: %w" [] e)
                      | None => Ok (mkSubstrate tns tname host port hosts)
                      end)
          | None =>
              let* refused := do (NewClient apiEndpoint (Some tokenFile)) in
              io_ret (match refused with
                      | Some e => Err (Errorf_w "dial ate-api-server: %w" [] e)
                      | None => Ok (mkSubstrate tns tname host port hosts)
                      end)
          end
      end
  end.

Definition NewSubstrate (apiEndpoint atenetRouterAddr actorTemplateRef : string) :=
  NewSubstrateWithOptions apiEndpoint atenetRouterAddr actorTemplateRef false [].

(** [serviceAccountTokenSource]: the headers of a call with the token of the file, which is
    only sent over TLS. *)
Definition RequireTransportSecurity : bool := true.

Definition GetRequestMetadata (path : string)
  : IO (history call) (result error (list (string * string))) :=
  let* token := do (ReadFile path) in
  io_ret (match token with
          | Err e => Err (Errorf_w "read service account token: %w" [] e)
          | Ok token =>
              let value := strings_TrimSpace token in
              if bool_decide (value = EmptyString)
              then Err (Errorf "service account token is empty" [])
              else Ok [("authorization", "Bearer " +:+ value)]
          end).

(** ** Ensure *)

Context (s : Substrate).

Definition getOrCreate (ctx : Ctx) (id : string) : IO (history call) (result error Actor) :=
  let* resp := GetActor env ctx (mkGetActorRequest (Some (actorRef s id))) in
  match resp with
  | Ok actor => io_ret (Ok actor)
  | Err err =>
      if negb (bool_decide (Code_of err = CodeNotFound))
      then io_ret (Err (Errorf_w "GetActor %s: %w" [FStr id] err)) else
      let* cResp := CreateActor env ctx (mkCreateActorRequest (Some (mkActor
        (Some (mkResourceMetadata (actorTemplateNS s) id EmptyString 0))
        (Some (actorRef s (actorTemplateName s))) None))) in
      match cResp with
      | Ok actor => io_ret (Ok actor)
      | Err err =>
          if bool_decide (Code_of err = CodeAlreadyExists) then
            let* resp := GetActor env ctx (mkGetActorRequest (Some (actorRef s id))) in
            io_ret (map_err (Errorf_w "re-GetActor %s after AlreadyExists: %w" [FStr id]) resp)
          else io_ret (Err (Errorf_w "CreateActor %s: %w" [FStr id] err))
      end
  end.

Definition get_policy (ctx : Ctx) (id : string) : IO (history call) (result error EgressPolicy) :=
  GetActorEgressPolicy env ctx (mkGetActorEgressPolicyRequest (Some (actorRef s id)) "default").

Definition ensureEgressPolicy (ctx : Ctx) (id : string) : IO (history call) (option error) :=
  match allowedHTTPHosts s with
  | [] => io_ret None
  | _ =>
      let rule := egress_rule s in
      let* policy := get_policy ctx id in
      let* policy :=
        match policy with
        | Err err =>
            if bool_decide (Code_of err = CodeNotFound) then
              let* made := CreateActorEgressPolicy env ctx (mkCreateActorEgressPolicyRequest
                (Some (actorRef s id))
                (Some (mkEgressPolicy
                  (Some (mkResourceMetadata (actorTemplateNS s) "default" EmptyString 0)) [rule]))) in
              match made with
              | Err err =>
                  if bool_decide (Code_of err = CodeAlreadyExists) then get_policy ctx id
                  else io_ret (Err err)
              | Ok policy => io_ret (Ok policy)
              end
            else io_ret (Err err)
        | Ok policy => io_ret (Ok policy)
        end in
      io_ret (match policy with
              | Err err => Some (Errorf_w "egress policy for actor %s: %w" [FStr id] err)
              | Ok policy =>
                  match EgressPolicy_GetRules (Some policy) with
                  | [r] => if bool_decide (r = rule) then None else
                      Some (Errorf ("actor %s default egress policy differs from "
                        +:+ "SUBSTRATE_ALLOWED_HTTP_HOSTS; reconcile it explicitly") [FStr id])
                  | _ =>
                      Some (Errorf ("actor %s default egress policy differs from "
                        +:+ "SUBSTRATE_ALLOWED_HTTP_HOSTS; reconcile it explicitly") [FStr id])
                  end
              end)
  end.

(** The switch of [waitForRunning]: done, failed, or the new [resumed]. *)
Inductive observed := Arrived | Failed (e : error) | Pending (resumed : bool).

Definition observe (ctx : Ctx) (id : string) (resumed : bool) (actor : Actor)
  : IO (history call) observed :=
  let st := Actor_GetStatus (Some actor) in
  match ActorStatus_GetState st with
  | ACTOR_STATE_RUNNING => io_ret Arrived
  | ACTOR_STATE_SUSPENDED =>
      if resumed then io_ret (Pending resumed) else
      let* resp := ResumeActor env ctx (mkResumeActorRequest (Some (actorRef s id))) in
      io_ret (match resp with
              | Err err =>
                  if bool_decide (Code_of err = CodeFailedPrecondition) then Pending true
                  else Failed (Errorf_w "ResumeActor %s: %w" [FStr id] err)
              | Ok _ => Pending true
              end)
  | ACTOR_STATE_CRASHED | ACTOR_STATE_DELETING =>
      io_ret (Failed (Errorf "actor %s entered %s: %s"
        [FStr id; FStr (ActorState_String (ActorStatus_GetState st));
         FStr (ActorCrash_GetMessage (ActorStatus_GetCrash st))]))
  | _ => io_ret (Pending resumed)
  end.

Fixpoint running_loop (fuel : nat) (ctx : Ctx) (id : string) (deadline : Z) (resumed : bool)
    (actor : Actor) : IO (history call) (option (Actor * option error)) :=
  match fuel with
  | O => io_ret None
  | S fuel =>
      let* seen := observe ctx id resumed actor in
      match seen with
      | Arrived => io_ret (Some (actor, None))
      | Failed e => io_ret (Some (actor, Some e))
      | Pending resumed =>
          let* now := do Now in
          if deadline <? now then
            io_ret (Some (actor, Some (Errorf
              "actor %s did not reach ACTOR_STATE_RUNNING within %s (last=%s)"
              [FStr id; FStr "1m0s"; FStr (MessageString (Actor_GetStatus (Some actor)))]))) else
          let* woken := do (WaitAfter ctx readyPollInterval) in
          match woken with
          | Some e => io_ret (Some (actor, Some e))
          | None =>
              let* resp := GetActor env ctx (mkGetActorRequest (Some (actorRef s id))) in
              match resp with
              | Err e => io_ret (Some (actor, Some (Errorf_w "GetActor %s during wait: %w" [FStr id] e)))
              | Ok actor => running_loop fuel ctx id deadline resumed actor
              end
          end
      end
  end.

Definition waitForRunning (fuel : nat) (ctx : Ctx) (id : string) (actor : Actor)
  : IO (history call) (option (Actor * option error)) :=
  let* now := do Now in
  running_loop fuel ctx id (now + readyDeadline) false actor.

Definition probe_url : string :=
  "http://" +:+ atenetRouterHost s +:+ ":" +:+ fmt_d (atenetRouterPort s) +:+ "/".
Definition probe_header (id : string) : Header :=
  Header_Set ∅ "ate-target-actor" (actorTemplateNS s +:+ "/" +:+ id).

Fixpoint probe_loop (fuel : nat) (ctx : Ctx) (id : string) (deadline attempt : Z)
  : IO (history call) (option (option error)) :=
  match fuel with
  | O => io_ret None
  | S fuel =>
      let attempt := attempt + 1 in
      let* bad := do (NewRequest "HEAD" probe_url) in
      match bad with
      | Some e => io_ret (Some (Some (Errorf_w "build probe req: %w" [] e)))
      | None =>
          let* resp := do (Do ctx (2 * second) "HEAD" probe_url (probe_header id)) in
          if (match resp with Ok code => upstream_ok code | Err _ => false end)
          then io_ret (Some None) else
          let* now := do Now in
          if deadline <? now then
            io_ret (Some (Some (Errorf "substrate actor %s upstream not ready after %s (%d attempts)"
              [FStr id; FStr "30s"; FInt attempt]))) else
          let* woken := do (WaitAfter ctx upstreamProbeInterval) in
          match woken with
          | Some e => io_ret (Some (Some e))
          | None => probe_loop fuel ctx id deadline attempt
          end
      end
  end.

Definition waitUpstreamReady (fuel : nat) (ctx : Ctx) (id : string)
  : IO (history call) (option (option error)) :=
  let* now := do Now in
  probe_loop fuel ctx id (now + upstreamReadyDeadline) 0.

Definition Ensure (fuel : nat) (ctx : Ctx) (playwrightID : string)
  : IO (history call) (option (result error Endpoint)) :=
  let id := actorID playwrightID in
  let* got := getOrCreate ctx id in
  match got with
  | Err e => io_ret (Some (Err e))
  | Ok actor =>
      if negb (own_template s actor) then
        io_ret (Some (Err (Errorf
          "actor %s uses a different ActorTemplate; migrate or delete it explicitly" [FStr id]))) else
      let* refused := ensureEgressPolicy ctx id in
      match refused with
      | Some e => io_ret (Some (Err e))
      | None =>
          let* running := waitForRunning fuel ctx id actor in
          match running with
          | None => io_ret None
          | Some (_, Some e) => io_ret (Some (Err e))
          | Some (_, None) =>
              let* ready := waitUpstreamReady fuel ctx id in
              io_ret (match ready with
                      | None => None
                      | Some (Some e) => Some (Err e)
                      | Some None =>
                          Some (Ok (mkEndpoint (atenetRouterHost s)
                            (actorTemplateNS s +:+ "/" +:+ id) (atenetRouterPort s) 0))
                      end)
          end
      end
  end.

(** ** Delete and List *)

Definition Delete (ctx : Ctx) (playwrightID : string) : IO (history call) (option error) :=
  let id := actorID playwrightID in
  let* suspended := SuspendActor env ctx (mkSuspendActorRequest (Some (actorRef s id))) in
  let refused := match suspended with
                 | Err err =>
                     if negb (bool_decide (Code_of err = CodeNotFound))
                        && negb (bool_decide (Code_of err = CodeFailedPrecondition))
                     then Some (Errorf_w "SuspendActor %s: %w" [FStr id] err) else None
                 | Ok _ => None
                 end in
  match refused with
  | Some e => io_ret (Some e)
  | None =>
      let* deleted := DeleteActor env ctx (mkDeleteActorRequest (Some (actorRef s id)) false None) in
      io_ret (match deleted with
              | Err err => if negb (bool_decide (Code_of err = CodeNotFound))
                           then Some (Errorf_w "DeleteActor %s: %w" [FStr id] err) else None
              | Ok _ => None
              end)
  end.

Fixpoint list_loop (fuel : nat) (ctx : Ctx) (pageToken : string) (ids : list string)
  : IO (history call) (option (result error (list string))) :=
  match fuel with
  | O => io_ret None
  | S fuel =>
      let* resp := ListActors env ctx
        (mkListActorsRequest (actorTemplateNS s) (Some (mkListOptions 500 pageToken))) in
      match resp with
      | Err e => io_ret (Some (Err (Errorf_w "ListActors: %w" [] e)))
      | Ok resp =>
          let ids := ids ++ omap (listed_id s) (ListActorsResponse_GetActors (Some resp)) in
          let next := ListActorsResponse_GetNextPageToken (Some resp) in
          if decide (next = EmptyString) then io_ret (Some (Ok ids))
          else list_loop fuel ctx next ids
      end
  end.

Definition List (fuel : nat) (ctx : Ctx) : IO (history call) (option (result error (list string))) :=
  list_loop fuel ctx EmptyString [].
End backend.

(** A new error value is never the error it is compared with, so that only the status
    code counts. *)
Definition IsConflict (err : option error) : bool :=
  match err with
  | None => false
  | Some e => bool_decide (Code_of e = CodeAlreadyExists)
  end.
