(* ===== verification/SubstrateFacts.v ===== *)
(** * What the Substrate backend guarantees

    An endpoint is returned only for an actor of the proxy's template that was seen
    running, with its egress policy in force and its application answering; Ensure returns
    within its deadlines; List returns the ids of the proxy's actors on every page. *)

From S2P Require Import Prelude GoStd Effects Backend AteApi Substrate.
Local Open Scope Z_scope.

(** ** What the calls are and answer *)

(** The actor a call returned, with the reference it was asked for. *)
Definition actor_answer (e : event call) : option (option ObjectRef * Actor) :=
  match ev_call e in call A return A -> option (option ObjectRef * Actor) with
  | Invoke _ _ _ m =>
      match m in rpc R return result error R -> option (option ObjectRef * Actor) with
      | Control_GetActor r => fun a =>
          match a with Ok actor => Some (get_Actor r, actor) | Err _ => None end
      | Control_CreateActor r => fun a =>
          match a with
          | Ok actor =>
              Some ((fun m => mkObjectRef (meta_Atespace m) (meta_Name m)) <$>
                      Actor_GetMetadata (create_Actor r), actor)
          | Err _ => None
          end
      | _ => fun _ => None
      end
  | _ => fun _ => None
  end (ev_answer e).

(** The egress policy a call returned, with the actor it was asked for. *)
Definition policy_answer (e : event call) : option (option ObjectRef * EgressPolicy) :=
  match ev_call e in call A return A -> option (option ObjectRef * EgressPolicy) with
  | Invoke _ _ _ m =>
      match m in rpc R return result error R -> option (option ObjectRef * EgressPolicy) with
      | Control_GetActorEgressPolicy r => fun a =>
          match a with Ok p => Some (getpolicy_Actor r, p) | Err _ => None end
      | Control_CreateActorEgressPolicy r => fun a =>
          match a with Ok p => Some (createpolicy_Actor r, p) | Err _ => None end
      | _ => fun _ => None
      end
  | _ => fun _ => None
  end (ev_answer e).

(** The actor a call creates or resumes. *)
Definition creation (e : event call) : option (option Actor) :=
  match ev_call e with Invoke _ _ _ (Control_CreateActor r) => Some (create_Actor r) | _ => None end.
Definition resumption (e : event call) : option (option ObjectRef) :=
  match ev_call e with Invoke _ _ _ (Control_ResumeActor r) => Some (resume_Actor r) | _ => None end.

(** A probe of an actor that its application answered. *)
Definition answered_probe (s : Substrate) (id : string) (e : event call) : Prop :=
  match ev_call e in call A return A -> Prop with
  | Do _ _ method url header => fun a =>
      method = "HEAD" /\ url = probe_url s /\
      Header_Get header "ate-target-actor" = actorTemplateNS s +:+ "/" +:+ id /\
      exists code, a = Ok code /\ upstream_ok code = true
  | _ => fun _ => False
  end (ev_answer e).

Lemma upstream_ok_spec code :
  upstream_ok code = true <-> 200 <= code < 500 /\ code <> 421 /\ code <> 401 /\ code <> 403.
Proof. unfold upstream_ok. lia. Qed.

Section facts.
Context (MessageString : option ActorStatus -> string) (env : environment call) (s : Substrate).

(** [id]'s actor was returned by one of the calls. *)
Definition returned (id : string) (actor : Actor) (l : history call) : Prop :=
  exists e, e ∈ l /\ actor_answer e = Some (Some (actorRef s id), actor).

Lemma returned_app id actor l1 l2 :
  returned id actor l1 \/ returned id actor l2 -> returned id actor (l1 ++ l2).
Proof. unfold returned. set_solver. Qed.

Lemma getOrCreate_adds ctx id :
  adds (getOrCreate env s ctx id) (fun r l =>
    (length (omap creation l) <= 1)%nat /\ omap resumption l = [] /\
    forall actor, r = Ok actor -> returned id actor l).
Proof.
  assert (forall e a l, actor_answer e = Some (Some (actorRef s id), a) -> e ∈ l ->
    forall actor, Ok (E := error) a = Ok actor -> returned id actor l) as Hret.
  { intros e a l ?? actor [= <-]. by exists e. }
  unfold getOrCreate. apply adds_call. intros [a|e].
  { apply adds_ret. split_and!; [simpl; lia|done|]. eapply Hret; [|left]. done. }
  case_match; [apply adds_ret; split_and!; [simpl; lia|done..]|].
  apply adds_call. intros [a|e'].
  { apply adds_ret. split_and!; [simpl; lia|done|]. eapply Hret; [|right; left]. done. }
  case_match; [|apply adds_ret; split_and!; [simpl; lia|done..]].
  apply adds_call. intros [a|e'']; apply adds_ret; (split_and!; [simpl; lia|done|]); [|done].
  eapply Hret; [|right; right; left]. done.
Qed.

(** The egress policy the answers show in force. *)
Definition enforced (id : string) (l : history call) : Prop :=
  exists e p, e ∈ l /\ policy_answer e = Some (Some (actorRef s id), p) /\
    policy_Rules p = [egress_rule s].

Lemma ensureEgressPolicy_adds ctx id :
  adds (ensureEgressPolicy env s ctx id) (fun r l =>
    omap creation l = [] /\ omap resumption l = [] /\
    (r = None -> allowedHTTPHosts s <> [] -> enforced id l)).
Proof.
  unfold ensureEgressPolicy. destruct (allowedHTTPHosts s) as [|host hosts] eqn:Hh; [by apply adds_ret|].
  unfold get_policy, GetActorEgressPolicy, invoke.
  apply adds_call. intros got.
  eapply adds_bind with (P := fun r l => omap creation l = [] /\ omap resumption l = [] /\
    forall p, r = Ok p -> (got = Ok p /\ l = []) \/
      exists e, e ∈ l /\ policy_answer e = Some (Some (actorRef s id), p)).
  { destruct got as [p|e]; [apply adds_ret; naive_solver|].
    case_match; [|by apply adds_ret]. apply adds_call. intros [p|e'].
    - apply adds_ret. split_and!; [done..|]. intros p' [= <-]. right. eexists. split; [left|]. done.
    - case_match; [|by apply adds_ret]. apply adds_perform. intros [p|e'']; (split_and!; [done..|]); [|done].
      intros p' [= <-]. right. eexists. split; [right; left|]. done. }
  intros policy l (Hc & Hr & Hp). apply adds_ret. rewrite app_nil_r, !omap_cons_eq. simpl.
  split_and!; [done..|]. destruct policy as [p|]; [|done]. simpl.
  destruct (policy_Rules p) as [|r [|]] eqn:Hrules; try done.
  case_bool_decide as Hrule; [|done]. subst r. intros _ _.
  destruct (Hp p eq_refl) as [[-> ->]|(e & He & Ha)].
  - eexists _, p. split; [left|]. done.
  - exists e, p. split; [by right|done].
Qed.

Lemma observe_adds ctx id resumed actor :
  adds (observe env s ctx id resumed actor) (fun r l => omap creation l = [] /\
    match r with
    | Arrived => ActorStatus_GetState (Actor_GetStatus (Some actor)) = ACTOR_STATE_RUNNING /\
                 omap resumption l = []
    | Failed _ => (length (omap resumption l) <= if resumed then 0 else 1)%nat
    | Pending resumed' =>
        (length (omap resumption l) + (if resumed' then 0 else 1) <= if resumed then 0 else 1)%nat
    end).
Proof.
  unfold observe. destruct resumed, (ActorStatus_GetState _) eqn:Hs;
    try (apply adds_ret; split; [done|]; first [done|simpl; lia]).
  apply adds_call. intros [|e]; apply adds_ret; [split; [done|exact (le_n 1)]|].
  destruct (bool_decide _); (split; [done|exact (le_n 1)]).
Qed.

Definition is_running (actor : Actor) : Prop :=
  ActorStatus_GetState (Actor_GetStatus (Some actor)) = ACTOR_STATE_RUNNING.

Lemma running_loop_adds fuel ctx id deadline resumed actor :
  adds (running_loop MessageString env s fuel ctx id deadline resumed actor) (fun r l =>
    omap creation l = [] /\ (length (omap resumption l) <= if resumed then 0 else 1)%nat /\
    forall last, r = Some (last, None) ->
      is_running last /\ (last = actor \/ returned id last l)).
Proof.
  revert resumed actor. induction fuel as [|fuel IH]; intros resumed actor; cbn [running_loop].
  { apply adds_ret. split_and!; [done|simpl; destruct resumed; lia|done]. }
  eapply adds_bind; [apply observe_adds|]. intros [|e|resumed'] l [Hc Hobs].
  - apply adds_ret. rewrite app_nil_r. destruct Hobs as [Hrun ->].
    split_and!; [done|simpl; lia|]. intros last [= <-]. split; [done|by left].
  - apply adds_ret. rewrite app_nil_r. by split_and!.
  - assert (length (omap resumption l) <= if resumed then 0 else 1)%nat as Hl
      by (destruct resumed; lia).
    apply adds_call. intros now. destruct (deadline <? now).
    { apply adds_ret. rewrite !omap_app, length_app. simpl. rewrite Hc, Nat.add_0_r. by split_and!. }
    apply adds_call. intros [e|].
    { apply adds_ret. rewrite !omap_app, length_app. simpl. rewrite Hc, Nat.add_0_r. by split_and!. }
    apply adds_call. intros [next|e].
    2:{ apply adds_ret. rewrite !omap_app, length_app. simpl. rewrite Hc, Nat.add_0_r. by split_and!. }
    eapply adds_mono; [apply IH|]. intros r l' (Hc' & Hr' & Hrun).
    rewrite !omap_app, !omap_cons_eq. cbn [creation resumption ev_call GetActor invoke].
    rewrite Hc, Hc', length_app. split_and!; [done|destruct resumed, resumed'; lia|].
    intros last Hlast. destruct (Hrun last Hlast) as [? Hret]. split; [done|]. right.
    apply returned_app. right. destruct Hret as [->|(e & He & Ha)].
    + eexists. split; [right; right; left|]. done.
    + exists e. split; [by do 3 right|done].
Qed.

Lemma probe_loop_adds fuel ctx id deadline attempt :
  adds (probe_loop env s fuel ctx id deadline attempt) (fun r l =>
    omap creation l = [] /\ omap resumption l = [] /\
    (r = Some None -> exists e, last l = Some e /\ answered_probe s id e)).
Proof.
  revert attempt. induction fuel as [|fuel IH]; intros attempt; cbn [probe_loop];
    [by apply adds_ret|].
  apply adds_call. intros [e|]; [by apply adds_ret|].
  apply adds_call. intros resp. destruct (match resp with Ok _ => _ | Err _ => _ end) eqn:Hok.
  { apply adds_ret. split_and!; [done..|]. intros _. eexists. split; [done|].
    unfold answered_probe. simpl. split_and!; [done..|].
    destruct resp as [code|]; [|done]. by exists code. }
  apply adds_call. intros now. destruct (deadline <? now); [by apply adds_ret|].
  apply adds_call. intros [e|]; [by apply adds_ret|].
  eapply adds_mono; [apply IH|]. intros r l (Hc & Hr & Hp).
  split_and!; [done..|]. intros Hnone. destruct (Hp Hnone) as (e & Hl & ?).
  exists e. split; [|done]. rewrite !last_cons, Hl. done.
Qed.
Lemma waitForRunning_adds fuel ctx id actor :
  adds (waitForRunning MessageString env s fuel ctx id actor) (fun r l =>
    omap creation l = [] /\ (length (omap resumption l) <= 1)%nat /\
    forall last, r = Some (last, None) -> is_running last /\ (last = actor \/ returned id last l)).
Proof.
  unfold waitForRunning. apply adds_call. intros now.
  eapply adds_mono; [apply running_loop_adds|]. intros r l (Hc & Hr & Hrun).
  split_and!; [done..|]. intros last Hlast. destruct (Hrun last Hlast) as [? [->|Hret]];
    (split; [done|]); [by left|right].
  by apply (returned_app id last [_]); right.
Qed.

Lemma waitUpstreamReady_adds fuel ctx id :
  adds (waitUpstreamReady env s fuel ctx id) (fun r l =>
    omap creation l = [] /\ omap resumption l = [] /\
    (r = Some None -> exists e, last l = Some e /\ answered_probe s id e)).
Proof.
  unfold waitUpstreamReady. apply adds_call. intros now.
  eapply adds_mono; [apply probe_loop_adds|]. intros r l (Hc & Hr & Hp).
  split_and!; [done..|]. intros Hnone. destruct (Hp Hnone) as (e & Hl & ?).
  exists e. by rewrite last_cons, Hl.
Qed.

Lemma own_template_spec actor :
  own_template s actor = true <->
  ObjectRef_GetAtespace (actor_ActorTemplate actor) = actorTemplateNS s /\
  ObjectRef_GetName (actor_ActorTemplate actor) = actorTemplateName s.
Proof. unfold own_template. by rewrite andb_true_iff, !bool_decide_eq_true. Qed.

(** What an actor's endpoint is, after the calls [l] that ensured it. *)
Definition actor_provided (pid : string) (ep : Endpoint) (l : history call) : Prop :=
  ep = mkEndpoint (atenetRouterHost s) (actorTemplateNS s +:+ "/" +:+ actorID pid)
         (atenetRouterPort s) 0 /\
  (exists actor, returned (actorID pid) actor l /\ own_template s actor = true) /\
  (exists actor, returned (actorID pid) actor l /\ is_running actor) /\
  (allowedHTTPHosts s <> [] -> enforced (actorID pid) l) /\
  exists e, last l = Some e /\ answered_probe s (actorID pid) e.

Lemma substrate_ensure_adds fuel ctx pid :
  adds (Ensure MessageString env s fuel ctx pid) (fun r l =>
    (length (omap creation l) <= 1)%nat /\ (length (omap resumption l) <= 1)%nat /\
    forall ep, r = Some (Ok ep) -> actor_provided pid ep l).
Proof.
  unfold Ensure. eapply adds_bind; [apply getOrCreate_adds|]. intros [actor|e] l (Hc & Hr & Hret).
  2:{ apply adds_ret. rewrite app_nil_r, Hr. split_and!; [done|simpl; lia|done]. }
  specialize (Hret actor eq_refl).
  destruct (own_template s actor) eqn:Hown; cbn [negb].
  2:{ apply adds_ret. rewrite app_nil_r, Hr. split_and!; [done|simpl; lia|done]. }
  eapply adds_bind; [apply ensureEgressPolicy_adds|]. intros [e|] l2 (Hc2 & Hr2 & Hpol).
  { apply adds_ret. rewrite app_nil_r, !omap_app, Hr, Hc2, Hr2, app_nil_r.
    split_and!; [done|simpl; lia|done]. }
  eapply adds_bind; [apply waitForRunning_adds|]. intros running l3 (Hc3 & Hr3 & Hrun).
  destruct running as [[final [e|]]|].
  1,3: apply adds_ret; rewrite app_nil_r, !omap_app, Hr, Hc2, Hr2, Hc3, !app_nil_r, !app_nil_l;
    by split_and!.
  eapply adds_bind; [apply waitUpstreamReady_adds|].
  intros ready l4 (Hc4 & Hr4 & Hprobe). apply adds_ret.
  rewrite app_nil_r, !omap_app, Hr, Hc2, Hr2, Hc3, Hc4, Hr4, !app_nil_r, !app_nil_l.
  split_and!; [done..|]. destruct ready as [[e|]|]; [by intros..| |done].
  intros ep [= <-]. destruct (Hrun final eq_refl) as [Hrunning Hfinal].
  split_and!; [done| | | |].
  - exists actor. split; [|done]. apply returned_app. by left.
  - exists final. split; [|done]. destruct Hfinal as [->|Hfinal].
    + apply returned_app. by left.
    + do 2 (apply returned_app; right). apply returned_app. by left.
  - intros Hhosts. destruct (Hpol eq_refl Hhosts) as (e & p & He & Hp). exists e, p.
    split; [set_solver|done].
  - destruct (Hprobe eq_refl) as (e & Hl & Hprobed). exists e. split; [|done].
    by rewrite !last_app, Hl.
Qed.

(** C15. An endpoint Ensure returns is the router's, for the actor of the id: that actor was
    returned with the proxy's template and was returned running, its egress policy was
    exactly the configured one if there is one, and the last call is a probe that its
    application answered.  At most one actor is created and at most one resume sent. *)
Theorem substrate_ensure_sound (fuel : nat) (ctx : Ctx) (pid : string) (h : history call) :
  exists l, (Ensure MessageString env s fuel ctx pid h).2 = h ++ l /\
    (length (omap creation l) <= 1)%nat /\ (length (omap resumption l) <= 1)%nat /\
    forall ep, (Ensure MessageString env s fuel ctx pid h).1 = Some (Ok ep) ->
      ep = mkEndpoint (atenetRouterHost s) (actorTemplateNS s +:+ "/" +:+ actorID pid)
             (atenetRouterPort s) 0 /\
      (exists actor, returned (actorID pid) actor l /\ own_template s actor = true) /\
      (exists actor, returned (actorID pid) actor l /\ is_running actor) /\
      (allowedHTTPHosts s <> [] -> enforced (actorID pid) l) /\
      exists e, last l = Some e /\ answered_probe s (actorID pid) e.
Proof.
  destruct (substrate_ensure_adds fuel ctx pid h) as (l & ? & ? & ? & ?). by exists l.
Qed.
End facts.

(** ** Ensure returns *)

(** How long the finished waits took, at least. *)
Definition waited (e : event call) : Z :=
  match ev_call e in call A return A -> Z with
  | WaitAfter _ d => fun a => match a with None => d | Some _ => 0 end
  | _ => fun _ => 0
  end (ev_answer e).
Definition elapsed (h : history call) : Z := foldr (fun e z => waited e + z) 0 h.

(** The monotonic clock: a wait that finishes takes at least its duration. *)
Definition clock_runs (env : environment call) : Prop :=
  forall h1 t h2, t + elapsed h2 <= env Z Now (h1 ++ [Ev Now t] ++ h2).

(** Rounds that pass either deadline: 60 s and 30 s in steps of 200 ms. *)
Definition ready_rounds : nat := 302.

Lemma elapsed_app h1 h2 : elapsed (h1 ++ h2) = elapsed h1 + elapsed h2.
Proof. unfold elapsed. rewrite foldr_app. induction h1; simpl; lia. Qed.

Section returns.
Context (MessageString : option ActorStatus -> string) (env : environment call) (s : Substrate).
Context (Hclock : clock_runs env).

Lemma observe_elapsed ctx id resumed actor :
  adds (observe env s ctx id resumed actor) (fun _ l => elapsed l = 0).
Proof.
  unfold observe. destruct (ActorStatus_GetState _); try by apply adds_ret.
  destruct resumed; [by apply adds_ret|]. apply adds_call. intros r. by apply adds_ret.
Qed.

(** A loop that has seen time [t] and waited [k] rounds since. *)
Lemma running_loop_returns fuel k ctx id t resumed actor h1 h2 :
  (k <= 301)%nat -> (302 <= fuel + k)%nat -> elapsed h2 = Z.of_nat k * readyPollInterval ->
  exists r, (running_loop MessageString env s fuel ctx id (t + readyDeadline) resumed actor
               (h1 ++ [Ev Now t] ++ h2)).1 = Some r.
Proof.
  revert k resumed actor h2. induction fuel as [|fuel IH]; intros k resumed actor h2 Hk Hf Hel; [lia|].
  cbn [running_loop]. rewrite io_bind_run.
  destruct (observe_elapsed ctx id resumed actor (h1 ++ [Ev Now t] ++ h2)) as (l & Hl & Hl0).
  rewrite Hl. destruct (observe _ _ _ _ _ _ _).1 as [|e|resumed']; [by eexists..|].
  rewrite io_bind_run. cbn [perform fst snd].
  set (now := env Z Now _). assert (t + elapsed h2 <= now) as Hnow.
  { pose proof (Hclock h1 t (h2 ++ l)) as Hn. rewrite elapsed_app, Hl0 in Hn.
    unfold now. rewrite <- !app_assoc. lia. }
  destruct (Z.ltb_spec (t + readyDeadline) now) as [|Hle]; [by eexists|].
  rewrite io_bind_run. cbn [perform fst snd].
  set (woken := env _ (WaitAfter _ _) _). destruct woken as [e|]; [by eexists|].
  unfold GetActor, invoke. rewrite io_bind_run. cbn [perform fst snd].
  set (resp := env _ (Invoke _ _ _ _) _). destruct resp as [next|e]; [|by eexists].
  rewrite <- !app_assoc. apply (IH (S k)); [|lia|].
  - unfold readyDeadline, readyPollInterval, second, millisecond in *. lia.
  - rewrite !elapsed_app, Hl0, Hel. cbn. unfold readyPollInterval, millisecond. lia.
Qed.

Lemma probe_loop_returns fuel k ctx id t attempt h1 h2 :
  (k <= 301)%nat -> (302 <= fuel + k)%nat -> elapsed h2 = Z.of_nat k * upstreamProbeInterval ->
  exists r, (probe_loop env s fuel ctx id (t + upstreamReadyDeadline) attempt
               (h1 ++ [Ev Now t] ++ h2)).1 = Some r.
Proof.
  revert k attempt h2. induction fuel as [|fuel IH]; intros k attempt h2 Hk Hf Hel; [lia|].
  cbn [probe_loop]. rewrite io_bind_run. cbn [perform fst snd].
  set (bad := env _ (NewRequest _ _) _). destruct bad as [e|]; [by eexists|].
  rewrite io_bind_run. cbn [perform fst snd].
  set (resp := env _ (Do _ _ _ _ _) _). destruct (match resp with Ok _ => _ | Err _ => _ end); [by eexists|].
  rewrite io_bind_run. cbn [perform fst snd]. rewrite <- !app_assoc.
  set (now := env Z Now _). assert (t + elapsed h2 <= now) as Hnow.
  { unfold now. match goal with |- _ <= env Z Now (_ ++ _ ++ ?h) => pose proof (Hclock h1 t h) as Hn end.
    rewrite !elapsed_app in Hn. cbn [elapsed foldr waited ev_call ev_answer] in Hn.
    rewrite !Z.add_0_r in Hn. exact Hn. }
  destruct (Z.ltb_spec (t + upstreamReadyDeadline) now) as [|Hle]; [by eexists|].
  rewrite io_bind_run. cbn [perform fst snd].
  set (woken := env _ (WaitAfter _ _) _). destruct woken as [e|]; [by eexists|].
  rewrite <- !app_assoc. apply (IH (S k)); [|lia|].
  - unfold upstreamReadyDeadline, upstreamProbeInterval, second, millisecond in *. lia.
  - rewrite !elapsed_app, Hel. cbn. unfold upstreamProbeInterval, millisecond. lia.
Qed.

(** C35. Ensure returns, whatever the API and the actor's application answer: its waits end
    with their deadlines, within [ready_rounds] rounds of each loop. *)
Theorem substrate_ensure_returns (fuel : nat) (ctx : Ctx) (pid : string) (h : history call) :
  (ready_rounds <= fuel)%nat ->
  exists r, (Ensure MessageString env s fuel ctx pid h).1 = Some r.
Proof.
  intros Hfuel. unfold ready_rounds in Hfuel. unfold Ensure. rewrite io_bind_run.
  destruct (getOrCreate _ _ _ _ _) as [[actor|e] h1]; cbn [fst snd]; [|by eexists].
  destruct (own_template s actor); cbn [negb]; [|by eexists].
  rewrite io_bind_run. destruct (ensureEgressPolicy _ _ _ _ _) as [[e|] h2]; cbn [fst snd]; [by eexists|].
  rewrite io_bind_run. unfold waitForRunning at 1. rewrite io_bind_run. cbn [perform fst snd].
  destruct (running_loop_returns fuel 0 ctx (actorID pid) (env Z Now h2) false actor h2 []) as [r Hr];
    [lia..|done|].
  rewrite app_nil_r in Hr. unfold waitForRunning. rewrite io_bind_run. cbn [perform fst snd].
  destruct (running_loop _ _ _ _ _ _ _ _ _ _) as [r' h3]. simpl in Hr. subst r'. cbn [fst snd].
  destruct r as [final [e|]]; [by eexists|].
  unfold waitUpstreamReady. rewrite !io_bind_run. cbn [perform fst snd].
  destruct (probe_loop_returns fuel 0 ctx (actorID pid) (env Z Now h3) 0 h3 []) as [r Hr];
    [lia..|done|].
  rewrite app_nil_r in Hr. rewrite Hr. destruct r; by eexists.
Qed.
End returns.

(** ** List *)

Lemma actorID_listed s pid a :
  listed_id s a = Some pid <->
  own_template s a = true /\ ResourceMetadata_GetName (actor_Metadata a) = actorID pid.
Proof.
  unfold listed_id. simpl. destruct (own_template s a); simpl; [|naive_solver].
  destruct (strings_CutPrefix _ _) as [r []] eqn:Hcut.
  - apply strings_CutPrefix_true in Hcut. rewrite Hcut. unfold actorID. split.
    + by intros [= ->].
    + intros [_ Hn]. f_equal. apply (inj to_chars). apply (f_equal to_chars) in Hn.
      rewrite !to_chars_app in Hn. by apply app_inv_head in Hn.
  - split; [done|]. intros [_ Hn]. rewrite Hn in Hcut. unfold actorID in Hcut.
    by rewrite strings_CutPrefix_app in Hcut.
Qed.

Section listing.
Context (env : environment call) (s : Substrate).
(** A server that returns its actors in pages, each naming the token of the next. *)
Context (pages : list (list Actor)) (token : nat -> string).
Context (first_token : token 0%nat = EmptyString).
Context (next_token : forall i, token (S i) <> EmptyString).
Context (serves : forall ctx h i page, pages !! i = Some page ->
  env _ (Invoke ListActorsResponse ctx "/ateapi.Control/ListActors"
    (Control_ListActors (mkListActorsRequest (actorTemplateNS s)
      (Some (mkListOptions 500 (token i)))))) h =
  Ok (mkListActorsResponse page (if (S i =? length pages)%nat then EmptyString else token (S i)))).

Lemma list_loop_pages fuel i ctx ids h :
  (i < length pages)%nat -> (length pages <= fuel + i)%nat ->
  (list_loop env s fuel ctx (token i) ids h).1 =
    Some (Ok (ids ++ omap (listed_id s) (concat (drop i pages)))).
Proof.
  revert i ids h. induction fuel as [|fuel IH]; intros i ids h Hi Hf; [lia|].
  destruct (lookup_lt_is_Some_2 pages i Hi) as [page Hpage].
  cbn [list_loop]. unfold ListActors, invoke. rewrite io_bind_run. cbn [perform fst snd FullMethodName].
  rewrite (serves ctx h i page Hpage).
  rewrite (drop_S pages page i Hpage). cbn [concat]. rewrite omap_app, (assoc app).
  cbn [ListActorsResponse_GetActors ListActorsResponse_GetNextPageToken field listed_Actors
    listed_NextPageToken].
  destruct (Nat.eqb_spec (S i) (length pages)) as [Heq|Hne].
  - rewrite decide_True by done. rewrite Heq, drop_all. by rewrite app_nil_r.
  - rewrite decide_False by apply next_token. apply IH; lia.
Qed.

(** List returns the playwright-id of every actor of the proxy's template with a name it
    gives, from all pages, and nothing else; it reads one page per round. *)
Theorem substrate_list_pages (fuel : nat) (ctx : Ctx) (h : history call) :
  pages <> [] -> (length pages <= fuel)%nat ->
  exists ids, (List env s fuel ctx h).1 = Some (Ok ids) /\
    forall pid, pid ∈ ids <->
      exists a, a ∈ concat pages /\ own_template s a = true /\
        ResourceMetadata_GetName (actor_Metadata a) = actorID pid.
Proof.
  intros Hp Hf. assert (0 < length pages)%nat by (destruct pages; [done|simpl; lia]).
  eexists. split.
  - unfold List. rewrite <- first_token. apply list_loop_pages; lia.
  - intros pid. rewrite drop_0, app_nil_l, list_elem_of_omap.
    by setoid_rewrite actorID_listed.
Qed.
End listing.

(** ** Evaluation *)

Definition sample_substrate : Substrate :=
  mkSubstrate "browsers" "chrome" "router" 80 ["example.com"].

(** A running actor of the sample template. *)
Definition sample_actor (pid : string) : Actor :=
  mkActor (Some (mkResourceMetadata "browsers" (actorID pid) "u1" 1))
    (Some (mkObjectRef "browsers" "chrome"))
    (Some (mkActorStatus ACTOR_STATE_SUSPENDED None "" 0)).

(** A clock that starts at zero and follows the waits. *)
Definition tick (c : Z) (e : event call) : Z :=
  match ev_call e in call A return A -> Z with
  | Now => fun t => Z.max c t
  | _ => fun _ => c + waited e
  end (ev_answer e).
Definition sample_clock (h : history call) : Z := foldl tick 0 h.

(** An API whose actors never run, on that clock. *)
Definition sample_api (pages : list (list Actor)) (token : nat -> string) : environment call :=
  fun A e h =>
  match e in call A return A with
  | Invoke _ _ _ m =>
      match m in rpc R return result error R with
      | Control_GetActor _ => Ok (sample_actor "alice")
      | Control_CreateActor _ => Ok (sample_actor "alice")
      | Control_SuspendActor _ => Ok (mkSuspendActorResponse None)
      | Control_ResumeActor _ => Err (GrpcError CodeFailedPrecondition "busy")
      | Control_DeleteActor _ => Ok (sample_actor "alice")
      | Control_GetActorEgressPolicy _ => Ok (mkEgressPolicy None [egress_rule sample_substrate])
      | Control_CreateActorEgressPolicy _ => Ok (mkEgressPolicy None [egress_rule sample_substrate])
      | Control_ListActors r =>
          let tok := match list_Options r with Some o => list_PageToken o | None => EmptyString end in
          match list_find (fun i => token i = tok) (seq 0 (length pages)) with
          | Some (i, _) =>
              Ok (mkListActorsResponse (default [] (pages !! i))
                    (if (S i =? length pages)%nat then EmptyString else token (S i)))
          | None => Err (GrpcError (CodeOther 3) "invalid page token")
          end
      end
  | Now => sample_clock h
  | WaitAfter _ _ => None
  | NewRequest _ _ => None
  | Do _ _ _ _ _ => Ok 503
  | Getenv _ => EmptyString
  | Stat _ => None
  | ReadFile _ => Ok EmptyString
  | NewClient _ _ => None
  end.

Lemma tick_after c h : c + elapsed h <= foldl tick c h.
Proof.
  revert c. induction h as [|e h IH]; intros c; [simpl; lia|]. cbn [foldl].
  etrans; [|apply IH]. change (elapsed (e :: h)) with (waited e + elapsed h).
  destruct e as [A [] a]; cbn; lia.
Qed.

Lemma sample_clock_runs pages token : clock_runs (sample_api pages token).
Proof.
  intros h1 t h2. cbn [sample_api]. unfold sample_clock. rewrite !foldl_app. cbn [foldl].
  etrans; [|apply tick_after]. cbn. lia.
Qed.

Lemma substrate_ensure_returns_witness :
  exists r, (Ensure (fun _ => "") (sample_api [] (fun _ => "")) sample_substrate 302 Background
               "alice" []).1 = Some r.
Proof.
  apply (substrate_ensure_returns (fun _ => "") (sample_api [] (fun _ => "")) sample_substrate
           (sample_clock_runs [] (fun _ => ""))).
  apply le_n.
Defined.

Definition sample_pages : list (list Actor) :=
  [[sample_actor "alice"]; []; [sample_actor "bob"]].
Definition sample_token (i : nat) : string := match i with O => EmptyString | S i => "p" +:+ fmt_d (Z.of_nat i) end.

Example sample_list :
  (List (sample_api sample_pages sample_token) sample_substrate 3 Background []).1 =
    Some (Ok ["alice"; "bob"]).
Proof. vm_compute. reflexivity. Qed.

Lemma sample_serves ctx h i page :
  sample_pages !! i = Some page ->
  sample_api sample_pages sample_token _ (Invoke ListActorsResponse ctx "/ateapi.Control/ListActors"
    (Control_ListActors (mkListActorsRequest (actorTemplateNS sample_substrate)
      (Some (mkListOptions 500 (sample_token i)))))) h =
  Ok (mkListActorsResponse page
        (if (S i =? length sample_pages)%nat then EmptyString else sample_token (S i))).
Proof. destruct i as [|[|[|i]]]; intros [= <-]; vm_compute; reflexivity. Qed.

Lemma substrate_list_pages_witness :
  exists ids, (List (sample_api sample_pages sample_token) sample_substrate 3 Background []).1 =
      Some (Ok ids) /\
    forall pid, pid ∈ ids <->
      exists a, a ∈ concat sample_pages /\ own_template sample_substrate a = true /\
        ResourceMetadata_GetName (actor_Metadata a) = actorID pid.
Proof.
  apply (substrate_list_pages (sample_api sample_pages sample_token) sample_substrate
           sample_pages sample_token eq_refl (fun i => ltac:(discriminate)) sample_serves).
  - discriminate.
  - apply le_n.
Defined.
