(* ===== verification/SubstrateStore.v ===== *)
(** * The Substrate backend on a control plane that keeps its actors

    The control plane is a store of [Store]: it keeps which actors there are and what
    template each has; a deleted actor may be [DELETING] for a while, and a call that failed
    may have taken effect.  Its actors' states, but for that one, and their egress policies
    are its own affair.  On it the backend serves its ids: those with an actor of the
    proxy's template. *)

From S2P Require Import Prelude GoStd Effects Backend Ids Delays Store AteApi Substrate SubstrateFacts.
Local Open Scope Z_scope.

(** ** The actors *)

(** By atespace and name, with the template. *)
Notation actor_name := (string * string)%type (only parsing).
Notation templates := (gmap actor_name (option ObjectRef)) (only parsing).
Notation actors := (Store.store actor_name (option ObjectRef)) (only parsing).

Definition ref_key (r : option ObjectRef) : string * string :=
  (ObjectRef_GetAtespace r, ObjectRef_GetName r).
Definition meta_key (m : option ResourceMetadata) : string * string :=
  (field EmptyString meta_Atespace m, ResourceMetadata_GetName m).

(** What a call is to change, and whether it was answered with success. *)
Definition write_of (e : event call) : option (write actor_name (option ObjectRef) * bool) :=
  match ev_call e in call A return A -> option (write actor_name (option ObjectRef) * bool) with
  | Invoke _ _ _ m =>
      match m in rpc R return result error R -> option (write actor_name (option ObjectRef) * bool) with
      | Control_CreateActor r => fun a =>
          Some (Put (meta_key (Actor_GetMetadata (create_Actor r)))
                  (Actor_GetActorTemplate (create_Actor r)), is_ok a)
      | Control_DeleteActor r => fun a => Some (Drop (ref_key (delete_Actor r)), is_ok a)
      | _ => fun _ => None
      end
  | _ => fun _ => None
  end (ev_answer e).

Definition apply_event (σ : actors) (e : event call) : actors := carry_out (write_of e) σ.

(** What a listing shows of an actor. *)
Definition summary : Type := string * option ObjectRef.
Definition summarize (a : Actor) : summary :=
  (ResourceMetadata_GetName (actor_Metadata a), actor_ActorTemplate a).

Definition actors_of (ns : string) (m : templates) : list summary :=
  omap (fun x : string * string * option ObjectRef =>
          if bool_decide (x.1.1 = ns) then Some (x.1.2, x.2) else None)
    (map_to_list m).

Lemma elem_actors_of (ns : string) (m : templates) n t : (n, t) ∈ actors_of ns m <-> m !! (ns, n) = Some t.
Proof.
  unfold actors_of. rewrite list_elem_of_omap. split.
  - intros ([[ns' n'] t'] & Hin%elem_of_map_to_list & Hx). simpl in Hx.
    case_bool_decide; [|done]. by simplify_eq.
  - intros Hin. exists ((ns, n), t). split; [by apply elem_of_map_to_list|].
    simpl. by rewrite bool_decide_eq_true_2.
Qed.

Definition list_token (r : ListActorsRequest) : string :=
  match list_Options r with Some o => list_PageToken o | None => EmptyString end.

Section control_plane.
(** How the control plane pages a listing of an atespace: the pages from a token on. *)
Context (pages : string -> string -> templates -> list (list summary)).

Definition true_page (m : templates) (r : ListActorsRequest) (resp : ListActorsResponse) : Prop :=
  pages (list_Atespace r) (list_token r) m =
    map summarize (listed_Actors resp) ::
    (if decide (listed_NextPageToken resp = EmptyString) then []
     else pages (list_Atespace r) (listed_NextPageToken resp) m).

Definition actor_state (actor : Actor) : ActorState :=
  ActorStatus_GetState (Actor_GetStatus (Some actor)).

(** Answers that are true of the actors, of which [dying] are being deleted; a call may also
    fail otherwise. *)
Definition true_answer (m : templates) (dying : gset actor_name) (e : event call) : Prop :=
  match ev_call e in call A return A -> Prop with
  | Invoke _ _ _ rpc =>
      match rpc in rpc R return result error R -> Prop with
      | Control_GetActor r => fun a =>
          match a with
          | Ok actor => m !! ref_key (get_Actor r) = Some (actor_ActorTemplate actor) /\
              (ref_key (get_Actor r) ∈ dying -> actor_state actor = ACTOR_STATE_DELETING)
          | Err e => Code_of e = CodeNotFound -> m !! ref_key (get_Actor r) = None
          end
      | Control_DeleteActor r => fun a =>
          match a with
          | Ok _ => True
          | Err e => Code_of e = CodeNotFound -> m !! ref_key (delete_Actor r) = None
          end
      | Control_ListActors r => fun a =>
          match a with Ok resp => true_page m r resp | Err _ => True end
      | _ => fun _ => True
      end
  | _ => fun _ => True
  end (ev_answer e).

(** It answers from the actors it has when the call comes. *)
Definition control_plane : Server call actors :=
  mkServer apply_event (fun σ e => true_answer (objects_now σ) (dying_now σ) e).
End control_plane.

(** A call that creates and deletes no actor. *)
Definition leaves (e : event call) : Prop :=
  match ev_call e with
  | Invoke _ _ _ (Control_CreateActor _) | Invoke _ _ _ (Control_DeleteActor _) => False
  | _ => True
  end.

Lemma actors_leave_write e : leaves e -> write_of e = None.
Proof. destruct e as [A [R ctx m [] | | | | | | | |] a]; try done. Qed.

(** ** The backend as the manager sees it *)

(** A loop out of rounds counts as an error; [ready_rounds] rounds are enough. *)
Definition in_rounds {A} (r : option (result error A)) : result error A :=
  default (Err (Errorf "out of rounds" [])) r.

#[export] Instance Substrate_backend (MessageString : option ActorStatus -> string)
    (env : environment call) (s : Substrate) (fuel : nat) : Backend.Backend (history call) := {
  Ensure ctx id := let* r := Ensure MessageString env s fuel ctx id in io_ret (in_rounds r);
  Delete := Delete env s;
  List ctx := let* r := List env s fuel ctx in io_ret (in_rounds r);
}.

(** ** Its set of ids *)

Section ids.
Context (MessageString : option ActorStatus -> string) (s : Substrate).
Context (pages : string -> string -> templates -> list (list summary)).
Context (pages_all : forall ns m, concat (pages ns EmptyString m) ≡ₚ actors_of ns m).

(** Whether an actor's template is the proxy's. *)
Definition own_ref (t : option ObjectRef) : bool := own_template s (mkActor None t None).

Definition actor_key (id : string) : string * string := (actorTemplateNS s, actorID id).

Definition own_there (t : option ObjectRef) : Prop := own_ref t = true.

(** Whether the actor of an id is there with the proxy's template; to stay; being deleted. *)
Definition actor_managed (σ : actors) (id : string) : Prop := there own_there (objects σ) (actor_key id).
Definition actor_live (σ : actors) (id : string) : Prop := staying own_there σ (actor_key id).
Definition actor_leaving (σ : actors) (id : string) : Prop := going own_there σ (actor_key id).

(** No actor of the template is named after the empty id, which the proxy never ensures. *)
Definition actors_owned (σ : actors) : Prop := ~ actor_managed σ EmptyString.

(** The same on a control plane that deletes at once and whose failed calls take no effect. *)
Definition actors_prompt (σ : actors) : Prop := prompt σ /\ actors_owned σ.

Definition named (id : string) : Prop := id <> EmptyString.

(** Ensure takes effect when it gets an actor of the template that is not being deleted, or
    creates one, Delete when the actor is deleted or missing. *)
Definition actor_point (o : op) (e : event call) : bool :=
  match ev_call e in call A return A -> bool with
  | Invoke _ _ _ m =>
      match m in rpc R return result error R -> bool with
      | Control_GetActor r => fun a =>
          match o, a with
          | DoEnsure _ id, Ok actor =>
              bool_decide (ref_key (get_Actor r) = actor_key id) && own_template s actor
              && negb (bool_decide (actor_state actor = ACTOR_STATE_DELETING))
          | _, _ => false
          end
      | Control_CreateActor r => fun a =>
          match o with
          | DoEnsure _ id =>
              bool_decide (meta_key (Actor_GetMetadata (create_Actor r)) = actor_key id) && is_ok a
          | DoDelete _ _ => false
          end
      | Control_DeleteActor r => fun a =>
          match o with
          | DoDelete _ id =>
              bool_decide (ref_key (delete_Actor r) = actor_key id) &&
              match a with Ok _ => true | Err e => bool_decide (Code_of e = CodeNotFound) end
          | DoEnsure _ _ => false
          end
      | _ => fun _ => false
      end
  | _ => fun _ => false
  end (ev_answer e).

Definition own_actor (id : string) : option Actor :=
  Some (mkActor (Some (mkResourceMetadata (actorTemplateNS s) (actorID id) EmptyString 0))
    (Some (actorRef s (actorTemplateName s))) None).

(** A call that writes to the actor of an operation, or finds it there. *)
Definition actor_touch (o : op) (e : event call) : bool :=
  actor_point o e ||
  match o, ev_call e with
  | DoEnsure _ id, Invoke _ _ _ (Control_CreateActor r) =>
      bool_decide (meta_key (Actor_GetMetadata (create_Actor r)) = actor_key id)
  | DoDelete _ id, Invoke _ _ _ (Control_DeleteActor r) =>
      bool_decide (ref_key (delete_Actor r) = actor_key id)
  | _, _ => false
  end.

Definition actor_allowed (o : op) (h : history call) (e : event call) : Prop :=
  leaves e \/ existsb (actor_touch o) h = false /\
  match o, ev_call e with
  | DoEnsure _ id, Invoke _ _ _ (Control_CreateActor r) => create_Actor r = own_actor id
  | DoDelete _ id, Invoke _ _ _ (Control_DeleteActor r) => delete_Actor r = Some (actorRef s (actorID id))
  | _, _ => False
  end.

Lemma actor_point_touch o e : actor_point o e = true -> actor_touch o e = true.
Proof. unfold actor_touch. by intros ->. Qed.

Lemma actor_untouched_unpointed o h : existsb (actor_touch o) h = false -> existsb (actor_point o) h = false.
Proof.
  induction h as [|e h IH]; [done|]. simpl. unfold actor_touch at 1.
  intros [[-> _]%orb_false_iff Hh]%orb_false_iff. by rewrite (IH Hh).
Qed.

Lemma actor_key_inj id id' : actor_key id = actor_key id' -> id = id'.
Proof.
  intros [= Hn]. apply (inj to_chars). apply (f_equal to_chars) in Hn. exact Hn.
Qed.

Lemma own_actor_ref : own_there (Some (actorRef s (actorTemplateName s))).
Proof. apply own_template_spec. by split. Qed.

#[export] Instance own_there_dec t : Decision (own_there t) := _.

(** What an operation may write: its own actor, once. *)
Lemma actor_allowed_write o h e :
  actor_allowed o h e ->
  write_of e = None \/
  existsb (actor_touch o) h = false /\ actor_touch o e = true /\
  match o with
  | DoEnsure _ id => exists ok,
      write_of e = Some (Put (actor_key id) (Some (actorRef s (actorTemplateName s))), ok) /\
      actor_point o e = ok
  | DoDelete _ id => exists ok, write_of e = Some (Drop (actor_key id), ok) /\
      (actor_point o e = true -> ok = true \/
         forall m d, true_answer pages m d e -> m !! actor_key id = None) /\
      (ok = true -> actor_point o e = true)
  end.
Proof.
  intros [Hl|[Hh Ha]]; [left; by apply actors_leave_write|right]. split; [done|].
  destruct o as [ctx i|ctx i], e as [A [R ctx' m [] | | | | | | | |] a]; try done; simpl in *.
  - assert (meta_key (Actor_GetMetadata (create_Actor r)) = actor_key i) as Hk by by rewrite Ha.
    unfold actor_touch, actor_point. simpl. rewrite Hk, bool_decide_eq_true_2, orb_true_r by done.
    split; [done|]. exists (is_ok a). split; [|done]. unfold write_of. simpl. by rewrite Hk, Ha.
  - assert (ref_key (delete_Actor r) = actor_key i) as Hk by by rewrite Ha.
    unfold actor_touch, actor_point. simpl. rewrite Hk, bool_decide_eq_true_2, orb_true_r by done.
    split; [done|]. exists (is_ok a). split; [unfold write_of; simpl; by rewrite Hk|].
    split; [|by destruct a]. destruct a as [x|e]; [by left|]. simpl. intros Hnf%bool_decide_eq_true.
    right. intros mm d He. cbn in He. rewrite Hk in He. by apply He.
Qed.

Lemma actors_carry w σ :
  actors_owned σ -> (forall k t ok, w = Some (Put k t, ok) -> exists id, named id /\ k = actor_key id) ->
  actors_owned (carry_out w σ).
Proof.
  intros Ho Hw (t & Ht & Hown). destruct (carry_objects _ _ _ _ Ht) as [Hs|[ok Hs]].
  - apply Ho. by exists t.
  - destruct (Hw _ _ _ Hs) as (id & Hid & Hk%actor_key_inj). by subst.
Qed.

Lemma actor_apply_owned o h e σ :
  named (op_id o) -> actor_allowed o h e -> actors_owned σ -> actors_owned (apply_event σ e).
Proof.
  intros Hd Ha Hinv. apply actors_carry; [done|]. intros k t ok Hw.
  destruct (actor_allowed_write o h e Ha) as [Hn|(_ & _ & Hown)]; [congruence|].
  destruct o as [ctx i|ctx i]; destruct Hown as (ok' & Hw' & _); [|congruence].
  rewrite Hw' in Hw. injection Hw as <- _ _. by exists i.
Qed.

(** *** On any control plane *)

Notation served := (control_plane pages).

Lemma actor_serve_other o h e σ id :
  id <> op_id o -> actor_allowed o h e ->
  (actor_live (apply_event σ e) id <-> actor_live σ id) /\
  (actor_leaving (apply_event σ e) id -> actor_leaving σ id).
Proof.
  intros Hne Ha. unfold apply_event, actor_live, actor_leaving.
  assert (actor_key id <> actor_key (op_id o)) as Hk by by intros Hk%actor_key_inj.
  destruct (actor_allowed_write o h e Ha) as [->|(_ & _ & Hown)].
  { destruct (carry_none own_there σ) as (_ & Hl & Hg). split; [apply Hl|apply Hg]. }
  destruct o as [ctx i|ctx i]; destruct Hown as (ok & -> & _); by apply carry_other.
Qed.

(** A Get that finds the actor, not being deleted, finds it to stay. *)
Lemma actor_looks ctx id e σ :
  write_of e = None -> honest served σ e -> actor_point (DoEnsure ctx id) e = true ->
  actor_live (apply_event σ e) id.
Proof.
  intros Hw He Hp. unfold apply_event, actor_live. rewrite Hw.
  apply (proj2 (carry_none own_there σ)), staying_now.
  destruct e as [A [R ctx' m [r| | | | | | |] | | | | | | | |] a]; try done; simpl in *.
  destruct a as [actor|]; [|done]. apply andb_prop in Hp as [[Hk Ho]%andb_prop Hs].
  apply bool_decide_eq_true in Hk. apply negb_true_iff, bool_decide_eq_false in Hs.
  cbn in He. rewrite Hk in He. destruct He as [Hobj Hdying]. split; [by eexists|]. by intros ?%Hdying.
Qed.

Lemma actor_looks_delete ctx id e :
  write_of e = None -> actor_point (DoDelete ctx id) e = false.
Proof.
  destruct e as [A [R ctx' m [] | | | | | | | |] a]; try done; intros _; by destruct a.
Qed.

Lemma actor_serve_own o h e σ :
  named (op_id o) -> actor_allowed o h e -> actors_owned σ -> honest served σ e ->
  actors_owned (apply_event σ e) /\
  (actor_touch o e = false \/ existsb (actor_touch o) h = true ->
     (actor_live (apply_event σ e) (op_id o) <-> actor_live σ (op_id o)) /\
     (actor_leaving (apply_event σ e) (op_id o) -> actor_leaving σ (op_id o))) /\
  match o with
  | DoEnsure _ id =>
      (actor_live σ id -> actor_live (apply_event σ e) id) /\
      (actor_leaving (apply_event σ e) id -> actor_leaving σ id) /\ (False -> False) /\
      (actor_point o e = true -> actor_live (apply_event σ e) id \/ False)
  | DoDelete _ id =>
      (actor_live (apply_event σ e) id -> actor_live σ id) /\
      (actor_leaving (apply_event σ e) id -> actor_leaving σ id \/ actor_live σ id) /\
      (actor_point o e = true -> ~ actor_live (apply_event σ e) id)
  end.
Proof.
  intros Hd Ha Hinv He. split; [by eapply actor_apply_owned|].
  destruct (actor_allowed_write o h e Ha) as [Hw|(Hh & Ht & Hown)].
  { destruct (carry_none own_there σ) as (_ & Hl & Hg).
    assert (forall id, (actor_live (apply_event σ e) id <-> actor_live σ id) /\
      (actor_leaving (apply_event σ e) id -> actor_leaving σ id)) as Hsame.
    { intros id. unfold apply_event, actor_live, actor_leaving. rewrite Hw. split; [apply Hl|apply Hg]. }
    split; [intros _; apply Hsame|]. destruct o as [ctx i|ctx i].
    - split_and!; [apply Hsame|apply Hsame|done|]. intros Hp. left. by apply (actor_looks ctx).
    - split_and!; [apply Hsame|left; by apply Hsame|]. by rewrite actor_looks_delete. }
  split; [rewrite Hh, Ht; by intros [|]|].
  unfold apply_event, actor_live, actor_leaving. destruct o as [ctx i|ctx i].
  - destruct Hown as (ok & -> & ->).
    destruct (carry_put own_there (actor_key i) _ ok σ own_actor_ref) as (H1 & H2 & H3).
    split_and!; [done..|]. intros Hok. left. by apply H3.
  - destruct Hown as (ok & -> & Hp & _).
    destruct (carry_drop own_there (actor_key i) ok σ) as (H1 & H2).
    split_and!; [done|apply carry_drop_going|]. intros Hpt. destruct (Hp Hpt) as [Hok|Hno]; [by apply H2|].
    apply carry_drop_missing. exact (Hno _ _ He).
Qed.

(** *** On a control plane that is prompt *)

Lemma create_managed (id : string) (m : templates) (id' : string) :
  there own_there (<[actor_key id := Some (actorRef s (actorTemplateName s))]> m) (actor_key id') <->
  there own_there m (actor_key id') \/ id' = id.
Proof.
  unfold there. destruct (decide (id' = id)) as [->|Hne].
  - rewrite lookup_insert_eq. split; [by right|]. intros _. eexists. split; [done|apply own_actor_ref].
  - rewrite lookup_insert_ne; [naive_solver|]. by intros Hk%actor_key_inj.
Qed.

Lemma delete_managed (id : string) (m : templates) (id' : string) :
  there own_there (delete (actor_key id) m) (actor_key id') <->
  there own_there m (actor_key id') /\ id' <> id.
Proof.
  unfold there. setoid_rewrite lookup_delete_Some. split.
  - intros (t & [Hk Ht] & Ho). split; [by exists t|]. by intros ->.
  - intros [(t & Ht & Ho) Hne]. exists t. split; [|done]. split; [|done].
    intros Hk. by apply Hne, actor_key_inj.
Qed.

Lemma actor_step o h e σ :
  named (op_id o) -> actor_allowed o h e -> actors_prompt σ -> honest served σ e ->
  actors_prompt (apply_event σ e) /\ forall id, named id ->
    actor_managed (apply_event σ e) id <->
    (if actor_point o e && negb (existsb (actor_point o) h)
     then op_set o id (actor_managed σ id) else actor_managed σ id).
Proof.
  intros Hd Ha [Hprompt Hinv] He.
  assert (actors_prompt (apply_event σ e)) as Hinv'.
  { split; [|by eapply actor_apply_owned]. unfold apply_event. by rewrite carry_prompt. }
  split; [exact Hinv'|]. intros id _.
  assert (actor_managed (apply_event σ e) id <->
    there own_there (carried_at_once (write_of e) (objects σ)) (actor_key id)) as ->.
  { unfold actor_managed, apply_event. by rewrite carry_prompt. }
  destruct (actor_allowed_write o h e Ha) as [Hw|(Hh & _ & Hown)].
  { rewrite Hw. destruct o as [ctx i|ctx i]; [|by rewrite actor_looks_delete].
    destruct (actor_point _ e) eqn:Hp; [|done]. case_match; [|done].
    pose proof (actor_looks ctx i e σ Hw He Hp) as [Hm _]. unfold apply_event in Hm.
    rewrite Hw, carry_prompt in Hm by done. simpl in *. unfold actor_managed. naive_solver. }
  rewrite (actor_untouched_unpointed _ _ Hh), andb_true_r. destruct o as [ctx i|ctx i].
  - destruct Hown as (ok & -> & ->). destruct ok; simpl; [apply create_managed|done].
  - destruct Hown as (ok & -> & Hp & Hok). destruct ok; simpl.
    { rewrite (Hok eq_refl). apply delete_managed. }
    destruct (actor_point _ e) eqn:Hpt; [|done]. destruct (Hp eq_refl) as [|Hno]; [done|].
    pose proof (Hno _ _ He) as Hm. rewrite (objects_now_prompt σ Hprompt) in Hm.
    unfold actor_managed. simpl. by rewrite <- delete_managed, (delete_id (objects σ) (actor_key i)).
Qed.

(** *** The programs *)

Ltac unfold_rpc :=
  unfold GetActor, CreateActor, SuspendActor, ResumeActor, DeleteActor, GetActorEgressPolicy,
    CreateActorEgressPolicy, ListActors, invoke.

Lemma observe_leaves env ctx id resumed actor : calls_only leaves (observe env s ctx id resumed actor).
Proof. unfold observe. unfold_rpc. solve_calls_only. Qed.
#[local] Hint Resolve observe_leaves : calls_only.

Lemma running_loop_leaves env fuel ctx id deadline resumed actor :
  calls_only leaves (running_loop MessageString env s fuel ctx id deadline resumed actor).
Proof.
  revert resumed actor. induction fuel; intros resumed actor; cbn [running_loop]; unfold_rpc;
    solve_calls_only.
Qed.

Lemma probe_loop_leaves env fuel ctx id deadline attempt :
  calls_only leaves (probe_loop env s fuel ctx id deadline attempt).
Proof. revert attempt. induction fuel; intros attempt; cbn [probe_loop]; solve_calls_only. Qed.
#[local] Hint Resolve running_loop_leaves probe_loop_leaves : calls_only.

Ltac calls_done := cbn [app existsb actor_point ev_call ev_answer].

Lemma getOrCreate_lawful env ctx ctx' id :
  lawful (actor_allowed (DoEnsure ctx' id)) [] (getOrCreate env s ctx (actorID id)) (fun r h =>
    forall actor, r = Ok actor -> own_template s actor = true ->
      actor_state actor <> ACTOR_STATE_DELETING -> existsb (actor_point (DoEnsure ctx' id)) h = true).
Proof.
  unfold getOrCreate. unfold_rpc. apply lawful_call; [by left|]. intros [actor|e].
  { apply lawful_ret. intros ? [= <-] Ho Hs. calls_done.
    by rewrite bool_decide_eq_true_2, Ho, bool_decide_eq_false_2 by done. }
  case_bool_decide; [|by apply lawful_ret].
  apply lawful_call; [by right|]. intros [actor|e'].
  { apply lawful_ret. intros _ _ _ _. calls_done. by rewrite bool_decide_eq_true_2 by done. }
  case_bool_decide; [|by apply lawful_ret].
  apply lawful_call; [by left|]. intros [actor|e'']; apply lawful_ret; [|done].
  intros ? [= <-] Ho Hs. calls_done.
  by rewrite Ho, !bool_decide_eq_true_2, bool_decide_eq_false_2 by done.
Qed.

(** An actor that is being deleted is not waited for. *)
Lemma waitForRunning_deleting env fuel ctx id actor :
  actor_state actor = ACTOR_STATE_DELETING ->
  adds (waitForRunning MessageString env s fuel ctx id actor) (fun r l =>
    Forall leaves l /\ forall a, r <> Some (a, None)).
Proof.
  intros Hs. unfold waitForRunning. apply adds_call. intros t. destruct fuel as [|fuel]; cbn [running_loop].
  { apply adds_ret. by repeat constructor. }
  unfold observe. unfold actor_state in Hs. rewrite Hs.
  eapply (adds_bind _ _ (fun o l => l = [] /\ exists e, o = Failed e)); [apply adds_ret; by split; [|eexists]|].
  intros o l [-> [e ->]]. apply adds_ret. by repeat constructor.
Qed.

Lemma ensure_lawful_actor env fuel ctx id :
  lawful (actor_allowed (DoEnsure ctx id)) [] (Ensure MessageString env s fuel ctx id) (fun r h =>
    forall ep, r = Some (Ok ep) -> existsb (actor_point (DoEnsure ctx id)) h = true).
Proof.
  unfold Ensure. eapply lawful_bind; [apply getOrCreate_lawful|]. intros [actor|e] h Hh.
  2:{ by apply lawful_ret. }
  destruct (own_template s actor) eqn:Ho; cbn [negb]; [|by apply lawful_ret].
  destruct (decide (actor_state actor = ACTOR_STATE_DELETING)) as [Hs|Hs].
  { eapply lawful_bind.
    - apply (lawful_calls_only _ _ leaves); [|by left].
      unfold ensureEgressPolicy, get_policy. unfold_rpc. solve_calls_only.
    - intros [e|] h' _; [by apply lawful_ret|].
      eapply adds_bind; [by apply waitForRunning_deleting|]. intros r l [Hl Hr].
      assert (permitted (actor_allowed (DoEnsure ctx id)) h' l) as Hp.
      { clear Hr. revert h'. induction Hl as [|x l Hx Hl IH]; intros h'; [done|]. split; [by left|apply IH]. }
      destruct r as [[a [e|]]|]; [|by destruct (Hr a)|]; apply adds_ret; by rewrite app_nil_r. }
  eapply lawful_mono.
  - apply (lawful_calls_only _ _ leaves); [|by left].
    unfold ensureEgressPolicy, get_policy, waitForRunning, waitUpstreamReady. unfold_rpc.
    solve_calls_only.
  - intros r h' [l ->] ep _. by rewrite existsb_app, (Hh actor eq_refl Ho Hs).
Qed.

Lemma delete_lawful_actor env ctx id :
  lawful (actor_allowed (DoDelete ctx id)) [] (Delete env s ctx id) (fun r h =>
    existsb (actor_point (DoDelete ctx id)) h = match r with None => true | Some _ => false end).
Proof.
  unfold Delete. unfold_rpc. apply lawful_call; [by left|]. intros suspended.
  destruct (match suspended with Ok _ => _ | Err _ => _ end) eqn:Hs; [by apply lawful_ret|].
  apply lawful_call; [by right|]. intros a. apply lawful_ret. calls_done.
  rewrite bool_decide_eq_true_2 by done. destruct a as [|e]; simpl; [done|].
  by case_bool_decide.
Qed.

(** The summaries listed from a token on, and the ids they are of. *)
Definition summary_id (x : summary) : option string :=
  listed_id s (mkActor (Some (mkResourceMetadata EmptyString x.1 EmptyString 0)) x.2 None).

Lemma omap_summaries l : omap summary_id (map summarize l) = omap (listed_id s) l.
Proof. induction l as [|a l IH]; [done|]. rewrite map_cons, !omap_cons_eq, IH. reflexivity. Qed.

Lemma elem_summary_ids (m : templates) (id : string) :
  id ∈ omap summary_id (actors_of (actorTemplateNS s) m) <-> there own_there m (actor_key id).
Proof.
  rewrite list_elem_of_omap. unfold summary_id. setoid_rewrite actorID_listed. split.
  - intros ([n t] & Hin%elem_actors_of & Ho & Hn). exists t. split; [|exact Ho].
    unfold actor_key. rewrite <- Hn. exact Hin.
  - intros (t & Ht & Ho). exists (actorID id, t). by rewrite elem_actors_of.
Qed.

(** Calls that only look take nothing away but what was going. *)
Lemma leaves_after l σ :
  Forall leaves l ->
  objects (after served σ l) ⊆ objects σ /\
  (actors_owned σ -> actors_owned (after served σ l)) /\
  forall id, (actor_live (after served σ l) id <-> actor_live σ id) /\
    (actor_leaving (after served σ l) id -> actor_leaving σ id).
Proof.
  intros Hl. revert σ. induction Hl as [|e l He Hl IH]; intros σ; [by split|].
  destruct (IH (apply_event σ e)) as (H1 & H2 & H3). unfold apply_event in *.
  rewrite (actors_leave_write e He) in *. destruct (carry_none own_there σ) as (Hobj & Hlive & Hgo).
  change (after served σ (e :: l)) with (after served (apply_event σ e) l).
  unfold apply_event. rewrite (actors_leave_write e He). split; [|split].
  - etrans; [exact H1|]. rewrite Hobj. apply objects_now_sub.
  - intros Ho. apply H2. apply actors_carry; [done|by intros * [=]].
  - intros id. destruct (H3 id) as [H4 H5]. split; [rewrite H4; apply Hlive|intros ?%H5; by apply Hgo].
Qed.

Lemma leaves_after_prompt l σ : Forall leaves l -> prompt σ -> after served σ l = σ.
Proof.
  intros Hl Hp. induction Hl as [|e l He Hl IH]; [done|].
  change (after served σ (e :: l)) with (after served (apply_event σ e) l).
  unfold apply_event. rewrite (actors_leave_write e He), (carry_prompt None σ Hp).
  cbn [carried_at_once]. by rewrite <- (prompt_eq σ Hp).
Qed.

(** The pages of a listing during which nothing went are those of the actors there are. *)
Lemma list_loop_lawful env fuel ctx token ids :
  adds (list_loop env s fuel ctx token ids) (fun r l => Forall leaves l /\ forall σ,
    honestly served σ l -> objects (after served σ l) = objects σ ->
    forall ids', r = Some (Ok ids') ->
      ids' = ids ++ omap summary_id (concat (pages (actorTemplateNS s) token (objects σ)))).
Proof.
  revert token ids. induction fuel as [|fuel IH]; intros token ids; cbn [list_loop].
  { by apply adds_ret. }
  unfold_rpc. apply adds_call. intros [resp|e].
  2:{ apply adds_ret. by repeat constructor. }
  assert (forall m, true_page pages m (mkListActorsRequest (actorTemplateNS s)
      (Some (mkListOptions 500 token))) resp ->
    omap summary_id (concat (pages (actorTemplateNS s) token m)) =
    omap (listed_id s) (listed_Actors resp) ++
    (if decide (listed_NextPageToken resp = EmptyString) then []
     else omap summary_id (concat (pages (actorTemplateNS s) (listed_NextPageToken resp) m))))
    as Hpage.
  { intros m Hp. unfold true_page, list_token in Hp. simpl in Hp. rewrite Hp. simpl.
    rewrite omap_app, omap_summaries. f_equal. by case_decide. }
  cbn [ListActorsResponse_GetActors ListActorsResponse_GetNextPageToken field].
  set (e := Ev _ _). assert (leaves e) as Hle by done.
  assert (forall σ, objects (apply_event σ e) = objects_now σ) as Hnow
    by (intros σ; apply (carry_none own_there σ)).
  case_decide as Hnext.
  - apply adds_ret. split; [by repeat constructor|]. intros σ [He _] Hsame ids' [= <-].
    change (after served σ [e]) with (apply_event σ e) in Hsame. rewrite Hnow in Hsame.
    cbn in He. rewrite Hsame in He. rewrite (Hpage _ He). by rewrite app_nil_r.
  - eapply adds_mono; [apply IH|]. intros r l [Hl Hpages]. split; [by constructor|].
    intros σ [He Hrest] Hsame ids' Hr.
    change (after served σ (e :: l)) with (after served (apply_event σ e) l) in Hsame.
    assert (objects (apply_event σ e) = objects σ) as Hmid.
    { apply (anti_symm (⊆)); [rewrite Hnow; apply objects_now_sub|].
      rewrite <- Hsame. by apply leaves_after. }
    rewrite <- Hmid in Hsame. rewrite (Hpages (apply_event σ e) Hrest Hsame ids' Hr), Hmid.
    rewrite Hnow in Hmid. cbn in He. rewrite Hmid in He. by rewrite (Hpage _ He), (assoc app).
Qed.

(** What a listing tells when nothing went while it was made. *)
Definition unchanged (σ σ' : actors) : Prop := objects σ' = objects σ.

Lemma list_lawful_actor env fuel ctx :
  adds (@Backend.List _ (Substrate_backend MessageString env s fuel) ctx) (fun r l =>
    Forall leaves l /\ forall σ, actors_owned σ -> honestly served σ l -> unchanged σ (after served σ l) ->
      forall ids, r = Ok ids -> forall id, id ∈ ids <-> id <> EmptyString /\ named id /\ actor_managed σ id).
Proof.
  cbn [Backend.List Substrate_backend]. unfold List. eapply adds_bind; [apply list_loop_lawful|].
  intros r l [Hleaves Hl]. apply adds_ret. rewrite app_nil_r. split; [done|].
  intros σ Hinv Hhon Hsame ids Hr id.
  destruct r as [[ids'|e]|]; try done. injection Hr as ->.
  rewrite (Hl σ Hhon Hsame ids eq_refl), app_nil_l, (pages_all (actorTemplateNS s) (objects σ)),
    elem_summary_ids.
  unfold named, actors_owned, actor_managed in *. split; [|by intros (_ & _ & ?)]. intros Hm.
  assert (id <> EmptyString) by (by intros ->). done.
Qed.

Lemma observe_performs env ctx id resumed actor : performs env (observe env s ctx id resumed actor).
Proof. unfold observe. unfold_rpc. solve_performs. Qed.
#[local] Hint Resolve observe_performs : performs.

Lemma loops_perform env fuel :
  (forall ctx id deadline resumed actor,
     performs env (running_loop MessageString env s fuel ctx id deadline resumed actor)) /\
  (forall ctx id deadline attempt, performs env (probe_loop env s fuel ctx id deadline attempt)) /\
  (forall ctx token ids, performs env (list_loop env s fuel ctx token ids)).
Proof.
  induction fuel as [|fuel (IH1 & IH2 & IH3)].
  { split_and!; intros; apply performs_ret. }
  split_and!; intros; cbn [running_loop probe_loop list_loop]; unfold_rpc; solve_performs.
Qed.

Lemma substrate_performs env fuel ctx id :
  performs env (@Backend.Ensure _ (Substrate_backend MessageString env s fuel) ctx id) /\
  performs env (@Backend.Delete _ (Substrate_backend MessageString env s fuel) ctx id) /\
  performs env (@Backend.List _ (Substrate_backend MessageString env s fuel) ctx).
Proof.
  destruct (loops_perform env fuel) as (Hrun & Hprobe & Hlist).
  cbn -[String.append]. unfold Ensure, getOrCreate, ensureEgressPolicy, get_policy,
    waitForRunning, waitUpstreamReady, Delete, List. unfold_rpc.
  split_and!; solve_performs.
Qed.

Lemma substrate_ensures env fuel ctx id :
  lawful (actor_allowed (DoEnsure ctx id)) []
    (@Backend.Ensure _ (Substrate_backend MessageString env s fuel) ctx id) (fun r h =>
      is_ok r = true -> existsb (actor_point (DoEnsure ctx id)) h = true).
Proof.
  cbn [Backend.Ensure Substrate_backend].
  eapply lawful_bind; [apply ensure_lawful_actor|]. intros r h Hr. apply lawful_ret.
  destruct r as [[ep|]|]; [|done..]. intros _. by apply (Hr ep).
Qed.

Lemma substrate_keeps_ids fuel :
  KeepsIds served (fun env => Substrate_backend MessageString env s fuel)
    actors_prompt actor_managed named actor_allowed actor_point.
Proof.
  split.
  - intros env ctx id. apply substrate_ensures.
  - intros env ctx id. apply delete_lawful_actor.
  - intros env ctx. eapply adds_mono; [apply list_lawful_actor|]. intros r l [Hl Hids] σ [Hp Ho] Hhon.
    pose proof (leaves_after_prompt l σ Hl Hp) as Hsame. split; [exact Hsame|].
    apply Hids; [done..|]. unfold unchanged. by rewrite Hsame.
  - intros env ctx id. apply substrate_performs.
  - intros o h e σ. apply actor_step.
Qed.

Definition nobody (σ : actors) (id : string) : Prop := False.

(** An Ensure takes no actor that is being deleted for its own. *)
Lemma substrate_serves_ids fuel :
  ServesIds served (fun env => Substrate_backend MessageString env s fuel)
    actors_owned actor_live actor_leaving nobody unchanged named actor_allowed actor_touch actor_point.
Proof.
  split.
  - intros env ctx id. apply substrate_ensures.
  - intros env ctx id. eapply lawful_mono; [apply delete_lawful_actor|]. by intros r h -> ->.
  - intros env ctx. eapply adds_mono; [apply list_lawful_actor|]. intros r l [Hl Hids] σ Ho Hhon.
    destruct (leaves_after l σ Hl) as (_ & Hown & Hsame). split; [auto|]. split; [by intros id _|].
    intros ids Hr Hun id. rewrite (Hids σ Ho Hhon Hun ids Hr id).
    unfold actor_live, actor_leaving. rewrite <- there_either. unfold actor_managed.
    by rewrite Hun.
  - intros env ctx id. apply substrate_performs.
  - apply actor_point_touch.
  - intros σ id Hg Hs. by apply (staying_going own_there σ (actor_key id)).
  - done.
  - intros o h e σ id _ _ Hne Ha _ _. by eapply actor_serve_other.
  - intros o h e σ. apply actor_serve_own.
Qed.

Lemma list_loop_returns env σ0 fuel ctx token ids h :
  honest_env served σ0 env -> prompt (after served σ0 h) ->
  (length (pages (actorTemplateNS s) token (objects (after served σ0 h))) < fuel)%nat ->
  exists r, (list_loop env s fuel ctx token ids h).1 = Some r.
Proof.
  intros Henv. revert token ids h. induction fuel as [|fuel IH]; intros token ids h Hprompt Hp; [lia|].
  cbn [list_loop]. unfold_rpc. rewrite io_bind_run. cbn [perform fst snd].
  pose proof (Henv _ (Invoke ListActorsResponse ctx "/ateapi.Control/ListActors"
    (Control_ListActors (mkListActorsRequest (actorTemplateNS s) (Some (mkListOptions 500 token))))) h)
    as He.
  cbn [FullMethodName]. set (resp := env _ _ _) in *. destruct resp as [resp|e]; [|by eexists].
  cbn [ListActorsResponse_GetNextPageToken field]. case_decide as Hnext; [by eexists|].
  cbn in He. rewrite (objects_now_prompt _ Hprompt) in He.
  unfold true_page, list_token in He. simpl in He. rewrite He, decide_False in Hp by done.
  simpl in Hp. set (h' := h ++ _).
  assert (after served σ0 h' = after served σ0 h) as Hsame.
  { unfold h'. rewrite after_app. apply leaves_after_prompt; [by repeat constructor|done]. }
  apply IH; rewrite Hsame; [done|lia].
Qed.

(** List reads one page a round, so that it returns. *)
Theorem substrate_list_returns env σ0 fuel ctx h :
  honest_env served σ0 env -> prompt (after served σ0 h) ->
  (length (pages (actorTemplateNS s) EmptyString (objects (after served σ0 h))) < fuel)%nat ->
  exists r, (List env s fuel ctx h).1 = Some r.
Proof. apply list_loop_returns. Qed.
End ids.

(** ** A control plane to evaluate with *)

(** One page; its actors run and answer their probes. *)
Definition one_page (ns token : string) (m : templates) : list (list summary) :=
  if decide (token = EmptyString) then [actors_of ns m] else [].

Definition actor_of (state : ActorState) (ns : string) (x : summary) : Actor :=
  mkActor (Some (mkResourceMetadata ns x.1 "u1" 1)) x.2
    (Some (mkActorStatus state None "" 0)).

Definition sample_control (σ0 : actors) : environment call := fun A e h =>
  let σ := objects_now (after (control_plane one_page) σ0 h) in
  let state key := if decide (key ∈ dying_now (after (control_plane one_page) σ0 h))
                   then ACTOR_STATE_DELETING else ACTOR_STATE_RUNNING in
  match e in call A return A -> A with
  | Invoke _ _ _ m =>
      match m in rpc R return result error R -> result error R with
      | Control_GetActor r => fun _ =>
          match σ !! ref_key (get_Actor r) with
          | Some t => Ok (actor_of (state (ref_key (get_Actor r))) (ref_key (get_Actor r)).1 ((ref_key (get_Actor r)).2, t))
          | None => Err (GrpcError CodeNotFound "no such actor")
          end
      | Control_CreateActor r => fun _ =>
          let key := meta_key (Actor_GetMetadata (create_Actor r)) in
          match σ !! key with
          | Some _ => Err (GrpcError CodeAlreadyExists "already exists")
          | None => Ok (actor_of ACTOR_STATE_RUNNING key.1 (key.2, Actor_GetActorTemplate (create_Actor r)))
          end
      | Control_DeleteActor r => fun a =>
          match σ !! ref_key (delete_Actor r) with
          | Some _ => a
          | None => Err (GrpcError CodeNotFound "no such actor")
          end
      | Control_ListActors r => fun _ =>
          if decide (list_token r = EmptyString)
          then Ok (mkListActorsResponse (map (actor_of ACTOR_STATE_RUNNING (list_Atespace r)) (actors_of (list_Atespace r) σ))
                     EmptyString)
          else Err (GrpcError (CodeOther 3) "invalid page token")
      | _ => fun a => a
      end
  | Do _ _ _ _ _ => fun _ => Ok 200
  | _ => fun a => a
  end (sample_api [] (fun _ => EmptyString) _ e h).

Lemma one_page_all ns σ : concat (one_page ns EmptyString σ) ≡ₚ actors_of ns σ.
Proof. unfold one_page. rewrite decide_True by done. simpl. by rewrite app_nil_r. Qed.

Lemma sample_control_honest σ0 : honest_env (control_plane one_page) σ0 (sample_control σ0).
Proof.
  intros A [R ctx m [r|r|r|r|r|r|r|r] | | | | | | | |] h; try exact I; cbn; unfold sample_control.
  - destruct (objects_now _ !! _); [|done]. split; [done|]. intros Hd. cbn. by rewrite decide_True.
  - by destruct (objects_now _ !! _).
  - case_decide as Ht; [|done]. unfold true_page, one_page. simpl. rewrite decide_True by done.
    f_equal. symmetry. etrans; [apply map_map|]. etrans; [|apply map_id]. apply map_ext. by intros [].
Qed.

Definition sample_backend (σ0 : actors) : Backend.Backend (history call) :=
  Substrate_backend (fun _ => EmptyString) (sample_control σ0) sample_substrate 302.

(** What is listed after an id is ensured and after it is deleted again. *)
Example actor_ensured_then_deleted :
  let h1 := (@Backend.Ensure _ (sample_backend ∅) Background "alice" []).2 in
  let h2 := (@Backend.Delete _ (sample_backend ∅) Background "alice" h1).2 in
  ((@Backend.List _ (sample_backend ∅) Background h1).1,
   (@Backend.List _ (sample_backend ∅) Background h2).1) = (Ok ["alice"], Ok []).
Proof. vm_compute. reflexivity. Qed.
