(* ===== verification/Backends.v ===== *)
(** * The four backends keep sets of ids

    What every backend promises of its ids, to a caller who is alone and to any number of
    callers whose calls interleave: on servers that take their time ([IdServer],
    [accounts_ids]) and, exactly a set, on servers that delete at once and whose failed
    calls take no effect ([IdSet], [shares_ids]). *)

From S2P Require Import Prelude GoStd Effects Backend Ids Delays Store Cluster SubstrateStore.
From S2P Require Kube SandboxClaim Isola KarsSandbox AteApi Substrate SubstrateFacts.
Local Open Scope Z_scope.

(** The control plane pages a listing of an atespace in some way. *)
Definition paging : Type :=
  string -> string -> gmap (string * string) (option AteApi.ObjectRef) -> list (list summary).
Definition pages_cover (pages : paging) : Prop :=
  forall ns m, concat (pages ns EmptyString m) ≡ₚ actors_of ns m.

(** The names of isola are hashed; [dom] is a set of ids whose names differ. *)
Definition names_differ (sha256 : string -> list Z) (dom : string -> Prop) : Prop :=
  forall id id', dom id -> dom id' -> Isola.isolaName sha256 id = Isola.isolaName sha256 id' -> id = id'.

(** *** Alone *)

(** The history of a caller that is alone stands for the store it has led to from [σ0]. *)
Definition cr_alone `{!Kube.Unstructured} (σ0 : Store.store (Kube.GVR * string * string) Kube.object)
    (B : Backend.Backend (history Kube.call)) (c : CR) (dom : string -> Prop) : Prop :=
  IdServer B (fun h => cr_owned c dom (after api_server σ0 h))
    (fun h => cr_live c (after api_server σ0 h)) (fun h => cr_leaving c (after api_server σ0 h))
    (fun h => cr_leaving c (after api_server σ0 h)) (fun h h' => True) dom /\
  IdSet B (fun h => cr_prompt c dom (after api_server σ0 h))
    (fun h => cr_managed c (after api_server σ0 h)) dom.

Definition actors_alone (pages : paging) (τ0 : Store.store (string * string) (option AteApi.ObjectRef))
    (B : Backend.Backend (history AteApi.call)) (s : Substrate.Substrate) : Prop :=
  IdServer B (fun h => actors_owned s (after (control_plane pages) τ0 h))
    (fun h => actor_live s (after (control_plane pages) τ0 h))
    (fun h => actor_leaving s (after (control_plane pages) τ0 h)) (fun h id => False)
    (fun h h' => unchanged (after (control_plane pages) τ0 h) (after (control_plane pages) τ0 h')) named /\
  IdSet B (fun h => actors_prompt s (after (control_plane pages) τ0 h))
    (fun h => actor_managed s (after (control_plane pages) τ0 h)) named.

Lemma follows_alone `{!Kube.Unstructured, !Kube.Poller (history Kube.call)}
    (B : environment Kube.call -> Backend.Backend (history Kube.call)) c dom σ0 env :
  CRLaws c dom -> follows_cr c dom B -> honest_env api_server σ0 env -> cr_alone σ0 (B env) c dom.
Proof.
  intros Hlaws HB Henv. split.
  - apply (@id_server_alone _ _ _ _ _ _ _ _ _ _ _ _ _ (follows_serves_ids c dom B HB)). exact Henv.
  - apply (@id_set_alone _ _ _ _ _ _ _ _ _ (follows_keeps_ids c dom B HB)). exact Henv.
Qed.

(** C2. On servers that may take their time to delete, and whose failed calls may have taken
    effect, each of the four backends serves its ids, from any state in which it alone has
    made the objects with its names or with the managed label (of Substrate: in which no
    actor is named after the empty id), its id label is not the managed label and -- isola,
    whose names are hashed -- the names of the ids differ: Ensure disturbs no live id and
    adds at most its own; when it succeeds its id is live, or was met while it was being
    deleted, which Substrate's Ensure never takes for success; Delete disturbs no other id,
    and when it succeeds its id is no longer live; List returns exactly the ids whose
    sandboxes are there, live or being deleted (Substrate's, whose listing has pages: when
    none went meanwhile).  On servers that delete at once and whose failed calls take no
    effect each is exactly a set of ids: a Delete that fails then removes nothing. *)
Theorem backends_keep_ids `{!Kube.Unstructured, !Kube.Poller (history Kube.call)}
    (σ0 : Store.store (Kube.GVR * string * string) Kube.object) (env : environment Kube.call)
    (pages : paging) (τ0 : Store.store (string * string) (option AteApi.ObjectRef))
    (env' : environment AteApi.call) :
  honest_env api_server σ0 env -> pages_cover pages -> honest_env (control_plane pages) τ0 env' ->
  (forall s, SandboxClaim.playwrightIDLabelKey s <> Kube.managedByLabel ->
     cr_alone σ0 (SandboxClaim.SandboxClaim_backend env s) (claim_cr s) (fun _ => True)) /\
  (forall k, KarsSandbox.playwrightIDLabelKey k <> Kube.managedByLabel ->
     cr_alone σ0 (KarsSandbox.Kars_backend env k) (kars_cr k) (fun _ => True)) /\
  (forall sha256 b dom, Isola.playwrightIDLabelKey b <> Kube.managedByLabel -> names_differ sha256 dom ->
     cr_alone σ0 (Isola.Isola_backend sha256 env b) (isola_cr sha256 b) dom) /\
  (forall MessageString s fuel,
     actors_alone pages τ0 (Substrate_backend MessageString env' s fuel) s).
Proof.
  intros Henv Hpages Henv'. split_and!.
  - intros s Hkey. apply (follows_alone (fun env => SandboxClaim.SandboxClaim_backend env s));
      [by apply claim_laws|by apply claim_follows|done].
  - intros k Hkey. apply (follows_alone (fun env => KarsSandbox.Kars_backend env k));
      [by apply kars_laws|by apply kars_follows|done].
  - intros sha256 b dom Hkey Hd. apply (follows_alone (fun env => Isola.Isola_backend sha256 env b));
      [by apply isola_laws|by apply isola_follows|done].
  - intros MS s fuel. split.
    + apply (@id_server_alone _ _ _ _ _ _ _ _ _ _ _ _ _ (substrate_serves_ids MS s pages Hpages fuel)).
      exact Henv'.
    + apply (@id_set_alone _ _ _ _ _ _ _ _ _ (substrate_keeps_ids MS s pages Hpages fuel)). exact Henv'.
Qed.

(** Nothing that is deleted goes. *)
Definition lingering {K} : verdict K := mkVerdict (fun _ => false) false true.
Definition slow {K V} `{Countable K} (m : gmap K V) : Store.store K V := mkStore m ∅ (repeat lingering 20).

(** On a server where deletions linger the claim of [alice] is ensured, deleted and still
    listed; on a control plane where they do not, an actor is a member of a set. *)
Lemma backends_keep_ids_witness :
  let B := sample_claim_backend (ready_server (slow ∅)) in
  let h1 := (Backend.Ensure Background "alice" []).2 in
  let h2 := (Backend.Delete Background "alice" h1).2 in
  (Backend.Delete Background "alice" h1).1 = None /\
  ~ cr_live (claim_cr sample_claims) (after (@api_server Kube.sample_unstructured) (slow ∅) h2) "alice" /\
  (Backend.List Background h2).1 = Ok ["alice"] /\
  IdSet (sample_backend ∅)
    (fun h => actors_prompt SubstrateFacts.sample_substrate (after (control_plane one_page) ∅ h))
    (fun h => actor_managed SubstrateFacts.sample_substrate (after (control_plane one_page) ∅ h)) named.
Proof.
  intros B h1 h2.
  destruct (@backends_keep_ids Kube.sample_unstructured (Kube.sample_poller _) (slow ∅)
    (ready_server (slow ∅)) one_page ∅ (sample_control ∅) (ready_server_honest (slow ∅)) one_page_all
    (sample_control_honest ∅)) as (Hclaim & _ & _ & Hsub).
  assert ((Backend.Delete Background "alice" h1).1 = None) as Hok by (vm_compute; reflexivity).
  split; [exact Hok|]. split; [|split; [vm_compute; reflexivity|apply Hsub]].
  destruct (Hclaim sample_claims ltac:(by_decision)) as [Hserve _].
  assert (@cr_owned Kube.sample_unstructured (claim_cr sample_claims) (fun _ => True)
    (after (@api_server Kube.sample_unstructured) (slow ∅) h1)) as Hown.
  { pose proof (@ensure_serves _ _ _ _ _ _ _ _ Hserve Background "alice" [] I (nothing_owned _ _)) as He.
    rewrite (surjective_pairing (Backend.Ensure _ _ _)) in He. apply He. }
  pose proof (@delete_serves _ _ _ _ _ _ _ _ Hserve Background "alice" h1 I Hown) as Hd.
  rewrite (surjective_pairing (Backend.Delete _ _ _)) in Hd. apply Hd. exact Hok.
Defined.

(** *** Shared *)

Definition cr_shared `{!Kube.Unstructured} (B : environment Kube.call -> Backend.Backend (history Kube.call))
    (c : CR) (dom : string -> Prop) : Prop :=
  accounts_ids api_server B (cr_owned c dom) (cr_live c) (cr_leaving c) (cr_leaving c) dom /\
  shares_ids api_server B (cr_prompt c dom) (cr_managed c) dom.

Definition actors_shared (pages : paging) (B : environment AteApi.call -> Backend.Backend (history AteApi.call))
    (s : Substrate.Substrate) : Prop :=
  accounts_ids (control_plane pages) B (actors_owned s) (actor_live s) (actor_leaving s)
    (fun _ _ => False) named /\
  shares_ids (control_plane pages) B (actors_prompt s) (actor_managed s) named.

Lemma follows_shared `{!Kube.Unstructured, !Kube.Poller (history Kube.call)}
    (B : environment Kube.call -> Backend.Backend (history Kube.call)) c dom :
  CRLaws c dom -> follows_cr c dom B -> cr_shared B c dom.
Proof.
  intros Hlaws HB. split.
  - apply (@serves_ids_account _ _ _ _ _ _ _ _ _ _ _ _ _ (follows_serves_ids c dom B HB)).
    intros σ id. apply staying_dec. apply _.
  - apply (@keeps_ids_shares _ _ _ _ _ _ _ _ _ (follows_keeps_ids c dom B HB)).
Qed.

(** C3. Any number of Ensures and Deletes may run against one server at a time, with their
    calls interleaved in any way: for each of the four backends, under the conditions of
    [backends_keep_ids] on names, labels and what is there, they can be put in an order in
    which each acts on the live ids at once.  The live ids are always those of the order so
    far, and nobody is in it twice or before its first call; a Delete that succeeded is in
    it, and an Ensure that succeeded too, unless it met its sandbox while that was being
    deleted, which Substrate's never does; and an id is being deleted only if it was, or a
    Delete of it is in the order.  One that failed may have taken effect; on servers that
    delete at once and whose failed calls take no effect, a Delete that failed is not in
    the order and the ids there are always exactly those of the order. *)
Theorem backends_share_ids `{!Kube.Unstructured, !Kube.Poller (history Kube.call)}
    (pages : paging) :
  pages_cover pages ->
  (forall s, SandboxClaim.playwrightIDLabelKey s <> Kube.managedByLabel ->
     cr_shared (fun env => SandboxClaim.SandboxClaim_backend env s) (claim_cr s) (fun _ => True)) /\
  (forall k, KarsSandbox.playwrightIDLabelKey k <> Kube.managedByLabel ->
     cr_shared (fun env => KarsSandbox.Kars_backend env k) (kars_cr k) (fun _ => True)) /\
  (forall sha256 b dom, Isola.playwrightIDLabelKey b <> Kube.managedByLabel -> names_differ sha256 dom ->
     cr_shared (fun env => Isola.Isola_backend sha256 env b) (isola_cr sha256 b) dom) /\
  (forall MessageString s fuel,
     actors_shared pages (fun env => Substrate_backend MessageString env s fuel) s).
Proof.
  intros Hpages. split_and!.
  - intros s Hkey. apply follows_shared; [by apply claim_laws|by apply claim_follows].
  - intros k Hkey. apply follows_shared; [by apply kars_laws|by apply kars_follows].
  - intros sha256 b dom Hkey Hd. apply follows_shared; [by apply isola_laws|by apply isola_follows].
  - intros MS s fuel. split.
    + apply (@serves_ids_account _ _ _ _ _ _ _ _ _ _ _ _ _ (substrate_serves_ids MS s pages Hpages fuel)).
      intros σ id. apply staying_dec. apply _.
    + apply (@keeps_ids_shares _ _ _ _ _ _ _ _ _ (substrate_keeps_ids MS s pages Hpages fuel)).
Qed.

(** *** A race *)

(** The claim of [alice] is there and ready; one execution, the reaper's, deletes it, which
    takes time, and another ensures it meanwhile. *)
Definition alice_claimed : Store.store (Kube.GVR * string * string) Kube.object :=
  slow (objects (after (@api_server Kube.sample_unstructured) ∅
    (@Backend.Ensure _ (sample_claim_backend (ready_server ∅)) Background "alice" []).2)).

Lemma alice_owned :
  @cr_owned Kube.sample_unstructured (claim_cr sample_claims) (fun _ => True) alice_claimed.
Proof.
  apply (@ensure_adds_id _ _ _ _ _ sample_claims_id_set Background "alice" [] I).
  apply nothing_prompt.
Qed.

Definition race_op (t : nat) : op :=
  match t with 1%nat => DoDelete Background "alice" | _ => DoEnsure Background "alice" end.

Definition deletes_alice : history Kube.call :=
  (op_run (sample_claim_backend (ready_server alice_claimed)) (race_op 1) []).2.
Definition being_deleted : Store.store (Kube.GVR * string * string) Kube.object :=
  after (@api_server Kube.sample_unstructured) alice_claimed deletes_alice.
Definition ensures_alice : bool * history Kube.call :=
  op_run (sample_claim_backend (ready_server being_deleted)) (race_op 0) [].

(** The Delete is carried out, then the Ensure gets its endpoint. *)
Definition race : list (nat * event Kube.call) :=
  map (pair 1%nat) deletes_alice ++ map (pair 0%nat) ensures_alice.2.

Lemma race_executing : executing sample_claim_backend race_op race.
Proof.
  intros t. unfold race. rewrite mine_app, !mine_pairs. destruct t as [|[|t]]; simpl.
  - intros _. exists (ready_server being_deleted), []. by rewrite ?app_nil_r.
  - intros _. exists (ready_server alice_claimed), []. by rewrite ?app_nil_r.
  - by intros [].
Qed.

Lemma race_honest : honestly (@api_server Kube.sample_unstructured) alice_claimed race.*2.
Proof. apply check_answers_honestly. vm_compute. reflexivity. Qed.

Lemma ensures_alice_ok : ensures_alice = (true, ensures_alice.2).
Proof. apply injective_projections; [vm_compute; reflexivity|done]. Qed.

Lemma race_ensured : returned sample_claim_backend race_op 0 true race.
Proof.
  exists (ready_server being_deleted).
  assert (mine 0%nat race = ensures_alice.2) as ->; [|exact ensures_alice_ok].
  unfold race. by rewrite mine_app, !mine_pairs.
Qed.

Lemma deletes_alice_ok :
  op_run (sample_claim_backend (ready_server alice_claimed)) (race_op 1) [] = (true, deletes_alice).
Proof. apply injective_projections; [vm_compute; reflexivity|done]. Qed.

Lemma race_deleted : returned sample_claim_backend race_op 1 true race.
Proof.
  exists (ready_server alice_claimed).
  assert (mine 1%nat race = deletes_alice) as ->; [|exact deletes_alice_ok].
  unfold race. rewrite mine_app, !mine_pairs. apply app_nil_r.
Qed.

(** Both succeed, and the sandbox the client was given is on its way out. *)
Lemma backends_share_ids_witness :
  exists ord,
    accountable (@api_server Kube.sample_unstructured) sample_claim_backend
      (cr_live (claim_cr sample_claims)) (cr_leaving (claim_cr sample_claims))
      (cr_leaving (claim_cr sample_claims)) (fun _ => True) race_op alice_claimed race ord /\
    (1%nat ∈ ord race) /\
    (0%nat ∈ ord race \/ exists H1 e H2, race = H1 ++ (0%nat, e) :: H2 /\
       cr_leaving (claim_cr sample_claims)
         (after (@api_server Kube.sample_unstructured) alice_claimed (H1 ++ [(0%nat, e)]).*2) "alice") /\
    ~ cr_live (claim_cr sample_claims)
        (after (@api_server Kube.sample_unstructured) alice_claimed race.*2) "alice".
Proof.
  destruct (@backends_share_ids Kube.sample_unstructured (Kube.sample_poller _) one_page one_page_all)
    as (Hclaim & _ & _ & _).
  destruct (Hclaim sample_claims ltac:(by_decision)) as [Hacc _].
  destruct (Hacc race_op alice_claimed) as [ord Hord].
  specialize (Hord race (fun _ => I) alice_owned race_honest race_executing).
  exists ord. split_and!.
  - exact Hord.
  - by apply (acc_deleted _ _ _ _ _ _ _ _ _ _ Hord 1 Background "alice"), race_deleted.
  - by apply (acc_ensured _ _ _ _ _ _ _ _ _ _ Hord 0 Background "alice"), race_ensured.
  - intros Hm.
    assert (bool_decide (cr_live (claim_cr sample_claims)
      (after (@api_server Kube.sample_unstructured) alice_claimed race.*2) "alice") = false) as Hno
      by (vm_compute; reflexivity).
    by rewrite bool_decide_eq_true_2 in Hno.
Defined.
