(* ===== verification/Deployed.v ===== *)
(** * The manager and the server of its backend as one system

    The Ensures and Deletes of the manager's goroutines are executions on one server: they
    are begun at any moment, their calls interleave with each other and with every step of
    the manager, and the goroutine that waits for one goes on with its result.  Others may
    use the server as well: they too make calls of Ensures and Deletes, which the manager
    does not know of.  A call of the manager that fails but takes effect is another's call
    before it.  The theorem says when the sandbox of a live session is there. *)

From S2P Require Import Prelude GoStd Effects Backend Ids Metrics Session SessionFacts SessionSys SessionInv SessionRefresh.
Local Open Scope Z_scope.

(** ** What the reaper still has to delete *)

Section reaping.
Context (m : Manager).

(** A session that has left the map. *)
Definition gone (st : state) (p : loc) : Prop := exists id, gone_of st id p.

Definition reaping_ok (st : state) (c : pc) : Prop :=
  match c with
  | PReap2 _ p vs | PReap4 _ p _ vs => Forall (gone st) (p :: vs)
  | PReap3 _ p id vs => gone_of st id p /\ Forall (gone st) vs
  | _ => True
  end.

Lemma scan_gone st pcs cutoff ord vs st' :
  Inv st pcs -> valid_order ord -> reap_scan cutoff ord st = (vs, st') -> Forall (gone st') vs.
Proof.
  intros HI Ho Hscan. pose proof (reap_lookup cutoff ord st (Ho _)) as Hlook.
  rewrite reap_scan_eq in Hscan by (by apply (Inv_maps_live _ _ HI) || apply Ho).
  cbv zeta in Hscan. injection Hscan as <- <-.
  apply Forall_fmap, Forall_forall. intros [id p] [Hr Hin]%list_elem_of_filter. simpl in *.
  rewrite (Ho _) in Hin. apply elem_of_map_to_list in Hin.
  destruct (inv_map _ _ HI _ _ Hin) as (s & Hs & Hid). exists id, s. simpl.
  split; [done|]. split; [done|]. rewrite Hlook. unfold victim. rewrite Hin. simpl.
  unfold pointer_reapable in Hr. simpl in Hr. rewrite Hs in *. apply Is_true_true in Hr. by rewrite Hr.
Qed.

Lemma reaping_cstep st pcs i c sp c' st' :
  Inv st pcs -> pcs !! i = Some c -> reaping_ok st c -> cstep m c st sp c' st' -> reaping_ok st' c'.
Proof.
  intros HI Hi Hok Hc.
  assert (forall vs, Forall (gone st) vs -> Forall (gone st') vs) as Hkeep.
  { intros vs Hvs. eapply Forall_impl; [exact Hvs|]. intros p [id Hp]. exists id. by eapply gone_cstep. }
  assert (forall ctx vs, Forall (gone st') vs -> reaping_ok st' (reap_from ctx vs)) as Hfrom
    by by intros ctx [].
  pose proof (Forall_lookup_1 _ _ _ _ (inv_pcs _ _ HI) Hi) as Hpc.
  destruct Hc; try done; try by destruct k.
  - by destruct d.
  - apply Hfrom. by eapply scan_gone.
  - simpl in *. apply Forall_cons in Hok as [(id & s & Hs & Hid & Hno) Hvs]. split; [|done].
    exists s. split; [done|]. unfold session_id. by rewrite Hs, Hid.
  - simpl in *. destruct Hok as [Hp Hvs]. apply Forall_cons. split; [|by apply Hkeep]. by exists id.
  - apply Hfrom. apply Forall_cons in Hok as [_ Hvs]. by apply Hkeep.
Qed.

Lemma reaping_gone s s' c :
  good m s -> gstep m s s' -> reaping_ok (sst s) c -> reaping_ok (sst s') c.
Proof.
  intros Hg Hs.
  assert (forall vs, Forall (gone (sst s)) vs -> Forall (gone (sst s')) vs) as Hkeep.
  { intros vs Hvs. eapply Forall_impl; [exact Hvs|]. intros p [id Hp]. exists id. by eapply gone_gstep. }
  destruct c; simpl; auto. intros [Hp Hvs]. split; [by eapply gone_gstep|auto].
Qed.

(** The call of the backend a goroutine is about to make or waits for. *)
Definition calling (g : prog outcome) : option op :=
  match g with
  | Do a _ =>
      match a with
      | CallEnsure ctx id => Some (DoEnsure ctx id)
      | CallDelete ctx id => Some (DoDelete ctx id)
      | _ => None
      end
  | Ret _ => None
  end.

Definition pc_calling (c : pc) : option op :=
  match c with
  | PRes2 _ ctx _ id => Some (DoEnsure ctx id)
  | PReap3 ctx _ id _ => Some (DoDelete ctx id)
  | _ => None
  end.

Lemma calling_pc c : calling (prog_of m c) = pc_calling c.
Proof. destruct c; try done; try (by destruct k); by destruct r. Qed.

(** A goroutine that waits for the backend steps with its result. *)
Lemma calling_cstep c o st sp c' st' :
  pc_calling c = Some o -> cstep m c st sp c' st' ->
  sp = [] /\ exists b, st' = log_call b st /\
    match o, b with
    | DoEnsure _ id, BEnsure id' _ | DoDelete _ id, BDelete id' _ => id' = id
    | _, _ => False
    end.
Proof. intros Ho Hc. destruct Hc; simplify_eq/=; try (split; [done|]; by eexists); by destruct k. Qed.
End reaping.

(** ** The system *)

Section deployed.
Context (m : Manager).
Context {E : Type -> Type} {Σ : Type} (S : Server E Σ) (B : environment E -> Backend.Backend (history E)).
Context (inv : Σ -> Prop) (managed : Σ -> string -> Prop) (dom : string -> Prop).
Context (allowed : op -> history E -> event E -> Prop) (point : op -> event E -> bool).
Context `{!KeepsIds S B inv managed dom allowed point}.
(** The operation each execution carries out, in the order they are begun. *)
Context (ops : nat -> op) (ops_dom : forall t, dom (op_id (ops t))).
(** Which of them are not the manager's. *)
Context (foreign : nat -> bool).
Context (σ0 : Σ) (owned : inv σ0).

Record deployed := mkDeployed {
  mgr : system;
  begun : nat;                      (* how many executions *)
  flight : gmap nat nat;            (* the execution a goroutine waits for *)
  traffic : list (nat * event E);   (* the calls the server answered *)
}.

(** The result of an execution whose calls are all made. *)
Definition result_of (t : nat) (b : bcall) (H : list (nat * event E)) : Prop :=
  match ops t, b with
  | DoEnsure ctx id, BEnsure id' r =>
      id' = id /\ exists env, @Backend.Ensure _ (B env) ctx id [] = (r, mine t H)
  | DoDelete ctx id, BDelete id' r =>
      id' = id /\ exists env, @Backend.Delete _ (B env) ctx id [] = (r, mine t H)
  | _, _ => False
  end.

Lemma result_of_mine t b H H' : mine t H = mine t H' -> result_of t b H -> result_of t b H'.
Proof. unfold result_of. by intros ->. Qed.

Lemma result_returned t id ep H : result_of t (BEnsure id (Ok ep)) H -> returned B ops t true H.
Proof.
  unfold result_of, returned. destruct (ops t) as [ctx id'|]; [|done]. intros [-> [env Hr]].
  exists env. simpl. by rewrite Hr.
Qed.

(** Who may make the next call: an execution a goroutine waits for, or another's. *)
Definition may_call (n : nat) (fl : gmap nat nat) (t : nat) : Prop :=
  (exists i, fl !! i = Some t) \/ ((t < n)%nat /\ foreign t = true).

Inductive dstep : deployed -> deployed -> Prop :=
| d_manager s s' n fl H :
    gstep m s s' -> calls (sst s') = calls (sst s) ->
    dstep (mkDeployed s n fl H) (mkDeployed s' n fl H)
| d_begin s n fl H i g :
    pool s !! i = Some g -> calling g = Some (ops n) -> fl !! i = None -> foreign n = false ->
    dstep (mkDeployed s n fl H) (mkDeployed s (n + 1) (<[i := n]> fl) H)
| d_other s n fl H :
    foreign n = true -> dstep (mkDeployed s n fl H) (mkDeployed s (n + 1) fl H)
| d_serve s n fl H t e :
    may_call n fl t -> honest S (after S σ0 H.*2) e -> executing B ops (H ++ [(t, e)]) ->
    dstep (mkDeployed s n fl H) (mkDeployed s n fl (H ++ [(t, e)]))
| d_return s n fl H i t pr b pr' st' :
    fl !! i = Some t -> pool s !! i = Some pr -> pstep pr (sst s) [] pr' st' ->
    st' = log_call b (sst s) -> result_of t b H ->
    dstep (mkDeployed s n fl H) (mkDeployed (mkSystem st' (<[i := pr']> (pool s))) n (delete i fl) H).

Definition start (t : Z) (mx : option Metrics) : deployed := mkDeployed (init t mx) 0 ∅ [].
Definition dreachable (d : deployed) : Prop := exists t mx, rtc dstep (start t mx) d.

(** The steps on control points. *)
Inductive dshape : deployed -> list pc -> deployed -> list pc -> Prop :=
| sh_step s s' n fl H pcs i c sp c' :
    pcs !! i = Some c -> cstep m c (sst s) sp c' (sst s') -> pc_calling c = None -> fl !! i = None ->
    calls (sst s') = calls (sst s) ->
    dshape (mkDeployed s n fl H) pcs (mkDeployed s' n fl H) (<[i := c']> pcs ++ map PRes0 sp)
| sh_start s s' n fl H pcs new :
    Forall (fun c => starting c = true) new -> heap (sst s') = heap (sst s) ->
    sessions (sst s') = sessions (sst s) -> calls (sst s') = calls (sst s) ->
    dshape (mkDeployed s n fl H) pcs (mkDeployed s' n fl H) (pcs ++ new)
| sh_begin s n fl H pcs i c :
    pcs !! i = Some c -> pc_calling c = Some (ops n) -> fl !! i = None -> foreign n = false ->
    dshape (mkDeployed s n fl H) pcs (mkDeployed s (n + 1) (<[i := n]> fl) H) pcs
| sh_other s n fl H pcs :
    foreign n = true -> dshape (mkDeployed s n fl H) pcs (mkDeployed s (n + 1) fl H) pcs
| sh_serve s n fl H pcs t e :
    may_call n fl t -> dshape (mkDeployed s n fl H) pcs (mkDeployed s n fl (H ++ [(t, e)])) pcs
| sh_return s n fl H pcs i t c c' b grs :
    fl !! i = Some t -> pcs !! i = Some c -> cstep m c (sst s) [] c' (log_call b (sst s)) ->
    result_of t b H ->
    dshape (mkDeployed s n fl H) pcs
      (mkDeployed (mkSystem (log_call b (sst s)) grs) n (delete i fl) H) (<[i := c']> pcs).

(** An execution of the manager that has returned. *)
Definition over (d : deployed) (t : nat) : Prop :=
  (t < begun d)%nat /\ foreign t = false /\ forall i, flight d !! i <> Some t.

Record deployed_ok (d : deployed) (pcs : list pc) : Prop := {
  d_reach : reachable m (mgr d);
  d_pool : pool (mgr d) = map (prog_of m) pcs;
  d_inv : Inv (sst (mgr d)) pcs;
  d_reaping : Forall (reaping_ok (sst (mgr d))) pcs;
  d_executing : executing B ops (traffic d);
  d_honest : honestly S σ0 (traffic d).*2;
  d_later t : (begun d <= t)%nat -> mine t (traffic d) = [];
  d_flight i t : flight d !! i = Some t ->
    (t < begun d)%nat /\ foreign t = false /\ exists c, pcs !! i = Some c /\ pc_calling c = Some (ops t);
  d_flight_inj i j t : flight d !! i = Some t -> flight d !! j = Some t -> i = j;
  d_ensured id ep : BEnsure id (Ok ep) ∈ calls (sst (mgr d)) ->
    exists t ctx, over d t /\ ops t = DoEnsure ctx id /\ result_of t (BEnsure id (Ok ep)) (traffic d);
  d_deleted u ctx id : (u < begun d)%nat -> foreign u = false -> ops u = DoDelete ctx id ->
    exists q, gone_of (sst (mgr d)) id q;
}.

Lemma start_ok t mx : deployed_ok (start t mx) [].
Proof.
  split; simpl; try done; try by constructor.
  - by exists t, mx.
  - destruct (reachable_good m (init t mx)) as (pcs & Hp & HI & _); [by exists t, mx|].
    by destruct pcs.
  - by intros u [].
  - by intros id ep ?%elem_of_nil.
  - intros u ctx id ?. lia.
Qed.

(** A step of the manager, with what the server has done so far. *)
Lemma reachable_gstep s s' : reachable m s -> gstep m s s' -> reachable m s'.
Proof. intros (t & mx & Hr) Hs. exists t, mx. by eapply rtc_r. Qed.

Lemma manager_ok s s' n fl H pcs :
  deployed_ok (mkDeployed s n fl H) pcs -> gstep m s s' -> calls (sst s') = calls (sst s) ->
  exists pcs', deployed_ok (mkDeployed s' n fl H) pcs' /\
    dshape (mkDeployed s n fl H) pcs (mkDeployed s' n fl H) pcs'.
Proof.
  intros [Hr Hp HI Hre Hx Hh Hl Hf Hinj He Hd] Hs Hcalls. simpl in *.
  pose proof (reachable_good m s Hr) as Hg.
  assert (forall c, reaping_ok (sst s) c -> reaping_ok (sst s') c) as Hkeep
    by (intros c; by eapply reaping_gone).
  destruct (gstep_pcs m s s' pcs Hp HI Hs) as (pcs' & Hp' & HI' & Hcase). exists pcs'.
  assert (forall c sp c', cstep m c (sst s) sp c' (sst s') -> pc_calling c = None) as Hinner.
  { intros c sp c' Hstep. destruct (pc_calling c) as [o|] eqn:Ho; [|done]. exfalso.
    destruct (calling_cstep m _ _ _ _ _ _ Ho Hstep) as (_ & b & Hb & _).
    rewrite Hb in Hcalls. simpl in Hcalls. apply (f_equal length) in Hcalls.
    rewrite length_app in Hcalls. simpl in Hcalls. lia. }
  assert (forall i c, pcs !! i = Some c -> pc_calling c = None -> fl !! i = None) as Hidle.
  { intros i c Hi Hc. destruct (fl !! i) as [t|] eqn:Ht; [|done].
    destruct (Hf i t Ht) as (_ & _ & c' & ? & ?). by simplify_eq. }
  split; [split; simpl; try done|].
  - by eapply reachable_gstep.
  - destruct Hcase as [(i & c & sp & c' & Hi & Hc & ->)|(new & -> & Hnew & _)]; apply Forall_app; split.
    + apply Forall_insert; [by eapply Forall_impl|].
      apply (reaping_cstep m _ _ i c sp c' _ HI Hi); [|exact Hc]. by eapply Forall_lookup_1.
    + apply Forall_forall. by intros ? (? & <- & ?)%list_elem_of_In%in_map_iff.
    + by eapply Forall_impl.
    + eapply Forall_impl; [exact Hnew|]. by intros [].
  - intros i t Hi. destruct (Hf i t Hi) as (Ht & Hmine & c & Hc & Ho). split_and!; [done..|]. exists c. split; [|done].
    destruct Hcase as [(j & cj & sp & c' & Hj & Hstep & ->)|(new & -> & _)].
    + apply lookup_app_l_Some. rewrite list_lookup_insert_ne; [done|]. intros ->. simplify_eq.
      apply Hinner in Hstep. congruence.
    + by apply lookup_app_l_Some.
  - rewrite Hcalls. exact He.
  - intros u ctx id Hu Hm Ho. destruct (Hd u ctx id Hu Hm Ho) as [q Hq]. exists q. by eapply gone_gstep.
  - destruct Hcase as [(i & c & sp & c' & Hi & Hc & ->)|(new & -> & Hnew & ? & _ & ? & _)].
    + pose proof (Hinner _ _ _ Hc). by eapply sh_step; [..|eapply Hidle|].
    + by apply sh_start.
Qed.

Lemma begin_ok s n fl H i g pcs :
  deployed_ok (mkDeployed s n fl H) pcs -> pool s !! i = Some g -> calling g = Some (ops n) ->
  fl !! i = None -> foreign n = false -> deployed_ok (mkDeployed s (n + 1) (<[i := n]> fl) H) pcs.
Proof.
  intros [Hr Hp HI Hre Hx Hh Hl Hf Hinj He Hd] Hi Hg Hfl Hours. simpl in *.
  rewrite Hp in Hi. apply map_lookup_inv in Hi as (c & Hc & <-). rewrite calling_pc in Hg.
  assert (forall j, fl !! j <> Some n) as Hfresh.
  { intros j Hj. destruct (Hf j n Hj) as [? _]. lia. }
  split; simpl; try done.
  - intros t Ht. apply Hl. lia.
  - intros j t [[-> ->]|[Hne Hj]]%lookup_insert_Some; [split_and!; [lia|done|by exists c]|].
    destruct (Hf j t Hj) as [? ?]. split; [lia|done].
  - intros j k t [[-> ->]|[? Hj]]%lookup_insert_Some [[-> Hk]|[? Hk]]%lookup_insert_Some; try done;
      subst; try by destruct (Hfresh _ Hj). 1: by destruct (Hfresh _ Hk). by eapply Hinj.
  - intros id ep (t & ctx & (Ht & Hm & Hnf) & Ho & Hret)%He. exists t, ctx. split; [|done].
    split_and!; simpl in *; [lia|done|]. intros j [[_ ->]|[_ Hj]]%lookup_insert_Some; [lia|by eapply Hnf].
  - intros u ctx id Hu Hm Ho. destruct (decide (u = n)) as [->|]; [|eapply Hd; [|done..]; lia].
    rewrite Ho in Hg. pose proof (Forall_lookup_1 _ _ _ _ Hre Hc) as Hok.
    destruct c; try done. injection Hg as -> ->. destruct Hok as [Hgone _]. by eexists.
Qed.

Lemma other_ok s n fl H pcs :
  deployed_ok (mkDeployed s n fl H) pcs -> foreign n = true ->
  deployed_ok (mkDeployed s (n + 1) fl H) pcs.
Proof.
  intros [Hr Hp HI Hre Hx Hh Hl Hf Hinj He Hd] Hother. split; simpl in *; try done.
  - intros t Ht. apply Hl. lia.
  - intros i t Hi. destruct (Hf i t Hi) as [? ?]. split; [lia|done].
  - intros id ep (t & ctx & (Ht & ?) & ?)%He. exists t, ctx. split; [|done]. split; simpl in *; [lia|done].
  - intros u ctx id Hu Hm. apply Hd; [|done]. assert (u <> n) by congruence. lia.
Qed.

Lemma mine_snoc t u e (H : list (nat * event E)) :
  mine t (H ++ [(u, e)]) = mine t H ++ (if decide (u = t) then [e] else []).
Proof. rewrite mine_app, mine_cons. simpl. by rewrite app_nil_r. Qed.

(** Whoever calls has been begun and is not over. *)
Lemma may_call_begun d pcs t :
  deployed_ok d pcs -> may_call (begun d) (flight d) t -> (t < begun d)%nat /\ ~ over d t.
Proof.
  intros Hok [[i Hi]|[Ht Hother]].
  - split; [by apply (d_flight _ _ Hok i t Hi)|]. intros (_ & _ & Hno). by apply (Hno i).
  - split; [done|]. intros (_ & Hm & _). congruence.
Qed.

Lemma serve_ok s n fl H t e pcs :
  deployed_ok (mkDeployed s n fl H) pcs -> may_call n fl t ->
  honest S (after S σ0 H.*2) e -> executing B ops (H ++ [(t, e)]) ->
  deployed_ok (mkDeployed s n fl (H ++ [(t, e)])) pcs.
Proof.
  intros Hok Hcall Hhon Hx'. destruct (may_call_begun _ _ t Hok Hcall) as [Ht Hnot].
  destruct Hok as [Hr Hp HI Hre Hx Hh Hl Hf Hinj He Hd]. simpl in *. split; simpl; try done.
  - rewrite fmap_app. apply honestly_app. by split; [|split].
  - intros u Hu. rewrite mine_snoc, decide_False by lia. rewrite app_nil_r. by apply Hl.
  - intros id ep (u & ctx & Hover & Ho & Hret)%He. exists u, ctx. split_and!; [done..|].
    eapply result_of_mine; [|exact Hret]. rewrite mine_snoc, decide_False, app_nil_r; [done|].
    by intros <-.
Qed.

Lemma return_ok s n fl H i t pr b pr' st' pcs :
  deployed_ok (mkDeployed s n fl H) pcs -> fl !! i = Some t -> pool s !! i = Some pr ->
  pstep pr (sst s) [] pr' st' -> st' = log_call b (sst s) -> result_of t b H ->
  exists pcs', deployed_ok (mkDeployed (mkSystem st' (<[i := pr']> (pool s))) n (delete i fl) H) pcs' /\
    dshape (mkDeployed s n fl H) pcs
      (mkDeployed (mkSystem st' (<[i := pr']> (pool s))) n (delete i fl) H) pcs'.
Proof.
  intros [Hr Hp HI Hre Hx Hh Hl Hf Hinj He Hd] Hi Hpr Hstep Hst Hres. simpl in *.
  pose proof (reachable_good m s Hr) as Hg.
  assert (gstep m s (mkSystem st' (<[i := pr']> (pool s)))) as Hs.
  { pose proof (g_run m s i pr [] pr' st' Hpr Hstep) as Hs. by rewrite app_nil_r in Hs. }
  rewrite Hp in Hpr. apply map_lookup_inv in Hpr as (c & Hc & <-).
  apply control_simulation in Hstep as (c' & -> & Hstep).
  assert (forall c, reaping_ok (sst s) c -> reaping_ok st' c) as Hkeep
    by (intros c0; by apply (reaping_gone m s _ c0 Hg Hs)).
  exists (<[i := c']> pcs). split; [|subst st'; by eapply sh_return]. split; simpl; try done.
  - by eapply reachable_gstep.
  - by rewrite Hp, map_insert.
  - pose proof (Inv_cstep m _ _ _ _ _ _ _ HI Hc Hstep) as HI'. by rewrite app_nil_r in HI'.
  - apply Forall_insert; [by eapply Forall_impl|].
    apply (reaping_cstep m _ _ i c [] c' _ HI Hc); [|exact Hstep]. by eapply Forall_lookup_1.
  - intros j u [Hne Hj]%lookup_delete_Some. destruct (Hf j u Hj) as (Hu & Hm & cj & Hcj & Ho).
    split_and!; [done..|]. exists cj. by rewrite list_lookup_insert_ne.
  - intros j k u [_ Hj]%lookup_delete_Some [_ Hk]%lookup_delete_Some. by eapply Hinj.
  - rewrite Hst. simpl. intros id ep [Hold|Hb]%elem_of_app.
    + destruct (He id ep Hold) as (u & ctx & (Hu & Hm & Hno) & Ho & Hret). exists u, ctx. split_and!; try done.
      split_and!; [done..|]. simpl. intros j [_ Hj]%lookup_delete_Some. by eapply Hno.
    + apply list_elem_of_singleton in Hb as <-. pose proof Hres as Hop. unfold result_of in Hop.
      destruct (ops t) as [ctx id'|] eqn:Ho; [|done]. destruct Hop as [-> _].
      exists t, ctx. split_and!; [|done|exact Hres].
      destruct (Hf i t Hi) as (? & ? & _). split_and!; [done..|]. simpl. intros j [Hne Hj]%lookup_delete_Some.
      apply Hne. by eapply Hinj.
  - intros u ctx id Hu Hm Ho. destruct (Hd u ctx id Hu Hm Ho) as [q Hq]. exists q.
    by apply (gone_gstep m s _ id q Hg Hs).
Qed.

Lemma dstep_ok d d' pcs :
  deployed_ok d pcs -> dstep d d' -> exists pcs', deployed_ok d' pcs' /\ dshape d pcs d' pcs'.
Proof.
  intros Hok Hstep. destruct Hstep as [s s' n fl H Hs Hcalls|s n fl H i g Hi Hg Hfl Hours|s n fl H Hother|
    s n fl H t e Hcall Hhon Hx|s n fl H i t pr b pr' st' Hi Hpr Hs Hst Hres].
  - by apply manager_ok.
  - exists pcs. split; [by eapply begin_ok|]. pose proof (d_pool _ _ Hok) as Hp. simpl in Hp. rewrite Hp in Hi.
    apply map_lookup_inv in Hi as (c & Hc & <-). rewrite calling_pc in Hg. by eapply sh_begin.
  - exists pcs. split; [by apply other_ok|by apply sh_other].
  - exists pcs. split; [by apply serve_ok|by apply sh_serve].
  - by eapply return_ok.
Qed.

(** An invariant of the system, on control points. *)
Lemma dreachable_inv (P : deployed -> list pc -> Prop) :
  (forall t mx, P (start t mx) []) ->
  (forall d pcs d' pcs', deployed_ok d pcs -> P d pcs -> deployed_ok d' pcs' -> dshape d pcs d' pcs' ->
     P d' pcs') ->
  forall d, dreachable d -> exists pcs, deployed_ok d pcs /\ P d pcs.
Proof.
  intros Hstart Hkeep d (t & mx & Hr).
  assert (exists pcs, deployed_ok (start t mx) pcs /\ P (start t mx) pcs) as Hok
    by (eexists; split; [apply start_ok|apply Hstart]).
  induction Hr as [d|d d' d'' Hstep _ IH]; [done|]. apply IH. destruct Hok as (pcs & Hok & HP).
  destruct (dstep_ok d d' pcs Hok Hstep) as (pcs' & Hok' & Hsh). exists pcs'. split; [done|]. by apply (Hkeep d pcs).
Qed.

Lemma dreachable_ok d : dreachable d -> exists pcs, deployed_ok d pcs.
Proof.
  intros Hd. destruct (dreachable_inv (fun _ _ => True)) with (d := d) as (pcs & Hok & _); [done..|].
  by exists pcs.
Qed.

(** What an operation put last in the order still holds, unless another undid it. *)
Lemma in_order_kept id ts (P : Prop) :
  P -> in_order ops id P ts \/ exists u ctx, u ∈ ts /\ ops u = DoDelete ctx id.
Proof.
  revert P. induction ts as [|u ts IH]; intros P HP; [by left|].
  destruct (ops u) as [ctx i|ctx i] eqn:Hu.
  - destruct (IH (op_set (ops u) id P)) as [?|(v & c & Hv & ?)]; [rewrite Hu; by left|by left|].
    right. exists v, c. split; [by right|done].
  - destruct (decide (i = id)) as [->|Hne]; [right; exists u, ctx; split; [by left|done]|].
    destruct (IH (op_set (ops u) id P)) as [?|(v & c & Hv & ?)]; [rewrite Hu; by split|by left|].
    right. exists v, c. split; [by right|done].
Qed.

(** C9. While a session is live its sandbox is on the server, but for two causes: the executions
    have an order in which each acts at once, and when the sandbox is missing a Delete
    comes after the session's Ensure in it, of someone else than the manager, or one the
    reaper began for another session of the id, which it had taken from the map. *)
Theorem live_sandbox (d : deployed) (id : string) (p : loc) (x : Session) :
  dreachable d -> dom id ->
  sessions (sst (mgr d)) !! id = Some p -> heap (sst (mgr d)) !! p = Some x ->
  ready x = true -> serr x = None ->
  exists ord, serializable S B managed dom ops σ0 (traffic d) ord /\
    (managed (after S σ0 (traffic d).*2) id \/
     exists before t later u ctx ctx',
       ord (traffic d) = before ++ t :: later /\ ops t = DoEnsure ctx id /\ foreign t = false /\
       u ∈ later /\ ops u = DoDelete ctx' id /\
       (foreign u = true \/ exists q, q <> p /\ gone_of (sst (mgr d)) id q)).
Proof.
  intros Hd Hid Hp Hx Hr Herr. destruct (dreachable_ok d Hd) as [pcs Hok].
  exists (Ids.order point ops).
  assert (serializable S B managed dom ops σ0 (traffic d) (Ids.order point ops)) as Hser
    by (apply (@order_serializes _ _ S B inv managed dom allowed); try done; apply Hok).
  split; [exact Hser|].
  destruct (inv_map _ _ (d_inv _ _ Hok) _ _ Hp) as (x' & Hx' & Hix). simplify_eq.
  pose proof (inv_resolved _ _ (d_inv _ _ Hok) _ _ Hx Hr) as Hres. unfold resolved in Hres.
  rewrite Herr in Hres. destruct (d_ensured _ _ Hok _ _ Hres) as (t & ctx & (_ & Hours & _) & Ho & Hret%result_returned).
  pose proof (ord_succeeded _ _ _ _ _ _ _ _ Hser t Hret) as Hin.
  apply list_elem_of_split in Hin as (before & later & Hord).
  assert (managed (after S σ0 (traffic d).*2) (ID x) <->
    in_order ops (ID x) (managed σ0 (ID x)) (Ids.order point ops (traffic d))) as Hm
    by by apply (ord_set _ _ _ _ _ _ _ _ Hser).
  rewrite Hord, in_order_app in Hm. simpl in Hm. rewrite Ho in Hm.
  match type of Hm with _ <-> in_order _ _ ?P _ =>
    destruct (in_order_kept (ID x) later P (or_intror eq_refl)) as [Hk|(u & ctx' & Hu & Hou)]
  end; [by left; apply Hm|].
  right. assert (u ∈ Ids.order point ops (traffic d)) as Huo by (rewrite Hord; set_solver).
  assert (u < begun d)%nat as Hlt.
  { destruct (decide (u < begun d)%nat); [done|].
    destruct (ord_begun _ _ _ _ _ _ _ _ Hser u Huo). apply (d_later _ _ Hok). lia. }
  exists before, t, later, u, ctx, ctx'. split_and!; try done.
  destruct (foreign u) eqn:Hmine; [by left|right].
  destruct (d_deleted _ _ Hok u ctx' (ID x) Hlt Hmine Hou) as [q Hq]. exists q. split; [|done].
  destruct Hq as (y & _ & _ & Hno). congruence.
Qed.
End deployed.
