(* ===== verification/Race.v ===== *)
(** * The deployed system evaluated: the reaper's race on the server

    Whole calls of the backend, and stretches of the manager's steps between them, as steps
    of [Deployed]; then the run in which the reaper deletes the sandbox of a live session,
    down to the objects of the API server. *)

From S2P Require Import Prelude GoStd Effects Backend Metrics Session SessionFacts SessionSys SessionSched SessionInv SessionRefresh Ids Store Cluster Deployed.
From S2P Require Kube SandboxClaim.
Local Open Scope Z_scope.

Section playing.
Context (m : Manager).
Context {E : Type -> Type} {Σ : Type} (S : Server E Σ) (B : environment E -> Backend.Backend (history E)).
Context (inv : Σ -> Prop) (managed : Σ -> string -> Prop) (dom : string -> Prop).
Context (allowed : op -> history E -> event E -> Prop) (point : op -> event E -> bool).
Context `{!KeepsIds S B inv managed dom allowed point}.
Context (ops : nat -> op) (foreign : nat -> bool) (σ0 : Σ).
Notation dsteps := (rtc (dstep m S B ops foreign σ0)).

(** Steps of the manager that return from no call of the backend. *)
Fixpoint quiet_run (s : system) (cs : list choice) : option system :=
  match cs with
  | [] => Some s
  | c :: cs =>
      match step m s c with
      | Some s' => if bool_decide (calls (sst s') = calls (sst s)) then quiet_run s' cs else None
      | None => None
      end
  end.

Lemma quiet_run_sound s cs s' n fl (H : list (nat * event E)) :
  quiet_run s cs = Some s' -> dsteps (mkDeployed s n fl H) (mkDeployed s' n fl H).
Proof.
  revert s. induction cs as [|c cs IH]; intros s; simpl; [by intros [= ->]|].
  destruct (step m s c) as [s1|] eqn:Hs; [|done]. case_bool_decide as Hc; [|done]. intros Hrun.
  eapply rtc_l; [|by apply IH]. apply d_manager; [by eapply step_sound|done].
Qed.

(** The rest of an execution, served without others in between. *)
Lemma serve_rest env s n fl i t l1 l2 H :
  fl !! i = Some t -> mine t H = l1 -> (op_run (B env) (ops t) []).2 = l1 ++ l2 ->
  executing B ops H -> honestly S (after S σ0 H.*2) l2 ->
  dsteps (mkDeployed s n fl H) (mkDeployed s n fl (H ++ map (pair t) l2)) /\
  executing B ops (H ++ map (pair t) l2).
Proof.
  revert l1 H. induction l2 as [|e l2 IH]; intros l1 H Hi Hm Hrun Hx Hh; simpl.
  { by rewrite app_nil_r. }
  destruct Hh as [He Hh].
  assert (executing B ops (H ++ [(t, e)])) as Hx'.
  { intros u Hu. rewrite mine_snoc in *. destruct (decide (t = u)) as [->|].
    - exists env, l2. by rewrite Hrun, Hm, <- (assoc app).
    - rewrite app_nil_r in *. by apply Hx. }
  destruct (IH (l1 ++ [e]) (H ++ [(t, e)])) as [Hsteps Hx'']; try done.
  - by rewrite mine_snoc, decide_True, Hm.
  - by rewrite Hrun, <- (assoc app).
  - by rewrite fmap_app, after_app.
  - rewrite <- (assoc app) in Hsteps, Hx''. split; [|done].
    eapply rtc_l; [eapply d_serve; [by left; eexists|done..]|exact Hsteps].
Qed.

(** What the goroutine that waits for an operation is answered when it runs in [env]. *)
Definition answer_in (env : environment E) (o : op) : answer :=
  match o with
  | DoEnsure ctx id => AEnsure (@Backend.Ensure _ (B env) ctx id []).1
  | DoDelete ctx id => ADelete (@Backend.Delete _ (B env) ctx id []).1
  end.

(** A whole call of the backend, begun, served and returned from. *)
Lemma call_run env s s' n fl H i :
  pool s !! i ≫= calling = Some (ops n) -> fl !! i = None -> foreign n = false -> mine n H = [] ->
  executing B ops H -> honest_env S (after S σ0 H.*2) env ->
  step m s (Run i (answer_in env (ops n))) = Some s' ->
  dsteps (mkDeployed s n fl H)
    (mkDeployed s' (n + 1) fl (H ++ map (pair n) (op_run (B env) (ops n) []).2)) /\
  executing B ops (H ++ map (pair n) (op_run (B env) (ops n) []).2).
Proof.
  intros Hg Hfl Hours Hmine Hx Henv Hstep.
  destruct (pool s !! i) as [g|] eqn:Hi; [|done]. simpl in Hg.
  destruct (@op_performs _ _ S B inv managed dom allowed point _ env (ops n) []) as (l & Hl & Ha).
  apply (answered_honestly S (after S σ0 H.*2) env []) in Ha; [|done].
  destruct (serve_rest env s (n + 1) (<[i := n]> fl) i n [] l H) as [Hserve Hx']; try done.
  { by rewrite lookup_insert_eq. }
  simpl in Hl. rewrite Hl. split; [|done].
  eapply rtc_l; [by apply (d_begin m S B ops foreign σ0 s n fl H i g)|].
  eapply rtc_r; [exact Hserve|].
  assert (mine n (H ++ map (pair n) l) = (op_run (B env) (ops n) []).2) as Hmn.
  { rewrite mine_app, Hmine, Hl. simpl. clear. induction l as [|e l IH]; [done|].
    simpl. rewrite mine_cons, decide_True by done. simpl. by rewrite IH. }
  rewrite <- (delete_insert_id fl i n Hfl) at 2.
  simpl in Hstep. rewrite Hi in Hstep. destruct g as [o|X a k]; [done|].
  destruct a as [| |ctx id|ctx id|]; try done; injection Hg as Hg; rewrite <- Hg in Hstep;
    simpl in Hstep; injection Hstep as <-; rewrite app_nil_r.
  - apply (d_return m S B ops foreign σ0 s (n + 1) (<[i := n]> fl) (H ++ map (pair n) l) i n
      (Do (CallEnsure ctx id) k) (BEnsure id (@Backend.Ensure _ (B env) ctx id []).1));
      [by rewrite lookup_insert_eq|done| |done|].
    + by eexists.
    + unfold result_of. rewrite <- Hg. split; [done|]. exists env. rewrite Hmn, <- Hg. cbn [op_run fst snd].
      apply surjective_pairing.
  - apply (d_return m S B ops foreign σ0 s (n + 1) (<[i := n]> fl) (H ++ map (pair n) l) i n
      (Do (CallDelete ctx id) k) (BDelete id (@Backend.Delete _ (B env) ctx id []).1));
      [by rewrite lookup_insert_eq|done| |done|].
    + by eexists.
    + unfold result_of. rewrite <- Hg. split; [done|]. exists env. rewrite Hmn, <- Hg. cbn [op_run fst snd].
      apply surjective_pairing.
Qed.
End playing.

(** ** The race *)

(** The state after some choices the scheduler accepts. *)
Definition played (s : system) (cs : list choice) : system := default s (run demo_manager s cs).
Definition accepted {A} (x : option A) : bool := match x with Some _ => true | None => false end.

Lemma played_one s c :
  accepted (step demo_manager s c) = true -> step demo_manager s c = Some (played s [c]).
Proof. unfold played. simpl. by destruct (step demo_manager s c). Qed.

Lemma played_quiet s cs :
  accepted (quiet_run demo_manager s cs) = true ->
  quiet_run demo_manager s cs = Some (played s cs).
Proof.
  unfold played. revert s. enough (forall s s', quiet_run demo_manager s cs = Some s' ->
    run demo_manager s cs = Some s') as Hq.
  { intros s. destruct (quiet_run demo_manager s cs) as [s'|] eqn:Hs; [|done]. intros _.
    by rewrite (Hq _ _ Hs). }
  induction cs as [|c cs IH]; intros s s'; simpl; [done|].
  destruct (step demo_manager s c); [|done]. case_bool_decide; [apply IH|done].
Qed.

Notation claims_step := (dstep demo_manager (@api_server Kube.sample_unstructured) sample_claim_backend).

(** The first session's Ensure, the second one's, and the Delete of the first. *)
Definition reap_op (t : nat) : op :=
  match t with
  | 0%nat => DoEnsure (WithTimeout Background 0 minute) "alice"
  | 1%nat => DoEnsure (WithTimeout Background (30 * minute) minute) "alice"
  | 2%nat => DoDelete Background "alice"
  | _ => DoEnsure Background "alice"
  end.

(** The server after the calls [H], and the calls after one more execution. *)
Definition server_after (H : list (nat * event Kube.call)) : environment Kube.call :=
  ready_server (after (@api_server Kube.sample_unstructured) ∅ H.*2).
Definition with_call (n : nat) (H : list (nat * event Kube.call)) : list (nat * event Kube.call) :=
  H ++ map (pair n) (op_run (sample_claim_backend (server_after H)) (reap_op n) []).2.
Definition answered_call (i n : nat) (H : list (nat * event Kube.call)) : choice :=
  Run i (answer_in sample_claim_backend (server_after H) (reap_op n)).

Definition calls1 := with_call 0 [].
Definition calls2 := with_call 1 calls1.
Definition calls3 := with_call 2 calls2.

(** Up to the first Ensure; the session served, idle, and taken by the scan, a second Get up
    to its Ensure; the second session served, up to the reaper's Delete. *)
Definition to_ensure (i : nat) : list choice :=
  [CallGet Background "alice"; Run i ANone; Run (S i) ANone; Run (S i) ANone].
Definition from_ensure (i : nat) : list choice :=
  [Run (S i) ANone; Run (S i) ANone; Run (S i) ANone; Run (S i) ANone; Run i (ASel SelReady); Run i ANone].
Definition idle_scan : list choice :=
  [Tick (30 * minute); Reap Background; Run 2 ANone; Run 2 ANone].

Definition race1 := played (init 0 None) (to_ensure 0).
Definition race2 := played race1 [answered_call 1 0 []].
Definition race3 := played race2 (from_ensure 0 ++ idle_scan ++ to_ensure 3).
Definition race4 := played race3 [answered_call 4 1 calls1].
Definition race5 := played race4 (from_ensure 3 ++ [Run 2 ANone]).
Definition race6 := played race5 [answered_call 2 2 calls2].

Definition raced : deployed := mkDeployed race6 3 ∅ calls3.

(** Nobody else uses the server. *)
Definition nobody_else (t : nat) : bool := false.

Notation claims_steps := (rtc (claims_step reap_op nobody_else ∅)).

(** The first Get, up to its Ensure's return and to its own. *)
Lemma first_ensure :
  claims_steps (start 0 None) (mkDeployed race2 1 ∅ calls1) /\
  executing sample_claim_backend reap_op calls1.
Proof.
  destruct (@call_run demo_manager _ _ _ _ _ _ _ _ _ sample_claims_keep_ids reap_op nobody_else ∅ (server_after [])
    race1 race2 0 ∅ [] 1) as [Hs1 Hx1];
    [by vm_compute|done|done|done|by intros t []|apply ready_server_honest|by apply played_one; vm_compute|].
  split; [|exact Hx1]. etrans; [eapply quiet_run_sound, (played_quiet _ (to_ensure 0)); by vm_compute|].
  exact Hs1.
Qed.

Definition first_served : deployed := mkDeployed (played race2 (from_ensure 0)) 1 ∅ calls1.

Lemma first_served_reachable :
  dreachable demo_manager (@api_server Kube.sample_unstructured) sample_claim_backend reap_op nobody_else ∅ first_served.
Proof.
  exists 0, None. etrans; [apply first_ensure|].
  eapply quiet_run_sound, (played_quiet race2 (from_ensure 0)). by vm_compute.
Qed.

Lemma raced_reachable :
  dreachable demo_manager (@api_server Kube.sample_unstructured) sample_claim_backend reap_op nobody_else ∅ raced.
Proof.
  exists 0, None. destruct first_ensure as [Hs1 Hx1].
  pose proof sample_claims_keep_ids as Hk.
  destruct (@call_run demo_manager _ _ _ _ _ _ _ _ _ Hk reap_op nobody_else ∅ (server_after calls1) race3 race4 1 ∅ calls1 4)
    as [Hs2 Hx2]; [by vm_compute|done|done|by vm_compute|exact Hx1|apply ready_server_honest
                  |by apply played_one; vm_compute|].
  destruct (@call_run demo_manager _ _ _ _ _ _ _ _ _ Hk reap_op nobody_else ∅ (server_after calls2) race5 race6 2 ∅ calls2 2)
    as [Hs3 Hx3]; [by vm_compute|done|done|by vm_compute|exact Hx2|apply ready_server_honest
                  |by apply played_one; vm_compute|].
  etrans; [exact Hs1|].
  etrans;
    [eapply quiet_run_sound, (played_quiet race2 (from_ensure 0 ++ idle_scan ++ to_ensure 3)); by vm_compute|].
  etrans; [exact Hs2|].
  etrans;
    [eapply quiet_run_sound, (played_quiet race4 (from_ensure 3 ++ [Run 2 ANone])); by vm_compute|].
  exact Hs3.
Qed.

Lemma served_live id s :
  served id s = true -> exists p x, sessions (sst s) !! id = Some p /\ heap (sst s) !! p = Some x /\
    ready x = true /\ serr x = None.
Proof.
  unfold served. destruct (sessions (sst s) !! id) as [p|]; [|done]. simpl.
  destruct (heap (sst s) !! p) as [x|] eqn:Hx; [|done]. simpl.
  intros [[Hr He%bool_decide_eq_true]%andb_prop _]%andb_prop. by exists p, x.
Qed.

Lemma raced_missing :
  ~ cr_managed (claim_cr sample_claims) (after (@api_server Kube.sample_unstructured) ∅ calls3.*2) "alice".
Proof.
  unfold cr_managed. intros Hm.
  assert (accepted (objects (after (@api_server Kube.sample_unstructured) ∅ calls3.*2)
                      !! cr_key (claim_cr sample_claims) "alice") = false) as Hno by by vm_compute.
  by rewrite Hm in Hno.
Qed.

(** The client holds a live session, its sandbox is gone, and the one thing that can have
    happened has: the Delete of the session before it. *)
Lemma live_sandbox_witness :
  served "alice" race6 = true /\
  ~ cr_managed (claim_cr sample_claims) (after (@api_server Kube.sample_unstructured) ∅ calls3.*2) "alice" /\
  exists ord before t later u ctx ctx' q,
    ord calls3 = before ++ t :: later /\ reap_op t = DoEnsure ctx "alice" /\
    u ∈ later /\ reap_op u = DoDelete ctx' "alice" /\ gone_of (sst race6) "alice" q.
Proof.
  assert (served "alice" race6 = true) as Hserved by by vm_compute.
  split; [exact Hserved|]. split; [exact raced_missing|].
  destruct (served_live _ _ Hserved) as (p & x & Hp & Hx & Hr & He).
  destruct (@live_sandbox demo_manager _ _ _ _ _ _ _ _ _ sample_claims_keep_ids reap_op (fun _ => I) nobody_else ∅
    (nothing_prompt _ _) raced "alice" p x raced_reachable I Hp Hx Hr He)
    as (ord & _ & [Hm|(before & t & later & u & ctx & ctx' & Hord & Ht & _ & Hu & Hou & [Hm|(q & _ & Hq)])]).
  - destruct (raced_missing Hm).
  - discriminate Hm.
  - exists ord, before, t, later, u, ctx, ctx', q. repeat split; assumption.
Defined.
