(* ===== verification/Orphans.v ===== *)
(** * No sandbox without a session

    The converse of [Deployed.live_sandbox]: when the sandbox of an id is on the server, the
    manager has a session for it, or a goroutine is about to get one or to delete the sandbox,
    or something went wrong: an operation failed, or someone else made the sandbox.  The
    books are kept for every Ensure that succeeded, from its return on. *)

From S2P Require Import Prelude GoStd Effects Backend Ids Metrics Session SessionFacts SessionSys SessionSched SessionInv SessionProps Store Cluster Deployed Race.
From S2P Require Kube.
Local Open Scope Z_scope.

(** ** What a reaper still has to delete *)

Definition has_id (st : state) (id : string) (q : loc) : Prop := session_at st q (fun s => ID s = id).

(** The goroutine has taken a session of [id] from the map and its Delete has not returned. *)
Definition to_delete (st : state) (id : string) (c : pc) : Prop :=
  match c with
  | PReap2 _ p vs => Exists (has_id st id) (p :: vs)
  | PReap3 _ _ id' vs => id' = id \/ Exists (has_id st id) vs
  | PReap4 _ _ _ vs => Exists (has_id st id) vs
  | _ => False
  end.

Section manager.
Context (m : Manager).

Lemma has_id_cstep st pcs i c sp c' st' id q :
  Inv st pcs -> pcs !! i = Some c -> cstep m c st sp c' st' -> has_id st id q -> has_id st' id q.
Proof.
  intros HI Hi Hc. intros H. apply (session_at_ext _ _ _ _ _ _ (cstep_ext m _ _ _ _ _ _ _ HI Hi Hc) H).
  congruence.
Qed.

Lemma to_delete_mono st st' id c :
  (forall q, has_id st id q -> has_id st' id q) -> to_delete st id c -> to_delete st' id c.
Proof.
  intros Hm. destruct c; simpl; try done; try (intros H; by eapply Exists_impl).
  intros [?|H]; [by left|right; by eapply Exists_impl].
Qed.

Lemma to_delete_from st id ctx vs : to_delete st id (reap_from ctx vs) <-> Exists (has_id st id) vs.
Proof. destruct vs; simpl; [by rewrite Exists_nil|done]. Qed.

(** Its own steps keep what is to delete, up to the Delete's return. *)
Lemma to_delete_cstep st pcs i c sp c' st' id :
  Inv st pcs -> pcs !! i = Some c -> cstep m c st sp c' st' -> pc_calling c = None ->
  to_delete st id c -> to_delete st' id c'.
Proof.
  intros HI Hi Hc Hno Hd. pose proof (fun q => has_id_cstep _ _ _ _ _ _ _ id q HI Hi Hc) as Hm.
  destruct Hc; try done; simpl in *.
  - apply Exists_cons in Hd as [(s & Hs & Hid)|Hd]; [left|right; by eapply Exists_impl].
    unfold session_id. by rewrite Hs.
  - apply to_delete_from. by eapply Exists_impl.
Qed.

(** Where a session goes that leaves the map. *)
Lemma leaves_map st pcs i c sp c' st' id p x :
  Inv st pcs -> pcs !! i = Some c -> cstep m c st sp c' st' ->
  sessions st !! id = Some p -> heap st !! p = Some x -> sessions st' !! id = None ->
  (ready x = true /\ is_Some (serr x)) \/ (exists ctx k, c' = PGet ctx id k) \/ to_delete st' id c'.
Proof.
  intros HI Hi Hc Hp Hx Hno.
  assert (sessions st' <> sessions st) as Hsame by congruence.
  pose proof (Forall_lookup_1 _ _ _ _ (inv_pcs _ _ HI) Hi) as Hok.
  assert (forall ps, allocs ps st st' -> False) as Hkeep.
  { intros ps HA. apply (al_keep _ _ _ HA) in Hp. congruence. }
  destruct Hc; simpl in Hok; try done; try (by rewrite sessions_update in Hsame).
  - destruct (get_acquire_allocs _ _ _ _ _ H) as [(_ & _ & ->)|(_ & _ & HA & _)]; [done|].
    by destruct (Hkeep _ HA).
  - destruct Hok as [_ (s & Hs & Hid & Hr & He)]. revert Hno. unfold get_drop.
    case_decide as Hcur; simpl; [|congruence]. rewrite lookup_delete_None.
    intros [->|]; [simplify_eq; left; eauto|congruence].
  - destruct (refresh_lock_cases _ _ _ _ H) as [->|(_ & -> & Hm & _)]; [done|].
    rewrite Hm in Hno. case_decide as Hcur; [|congruence].
    apply lookup_delete_None in Hno as [->|]; [|congruence]. right; left. simpl. eauto.
  - exfalso. apply Hsame. unfold close_ready. repeat case_match; simpl; by rewrite ?sessions_update.
  - right; right. apply to_delete_from. pose proof (reap_lookup cutoff ord st (Hok _)) as Hlook.
    rewrite reap_scan_eq in H by (by apply (Inv_maps_live _ _ HI) || apply Hok).
    cbv zeta in H. injection H as <- <-. simpl in Hno. rewrite Hlook in Hno.
    destruct (victim cutoff st id) eqn:Hv; [|congruence].
    apply Exists_exists. exists p. split.
    + apply list_elem_of_fmap. exists (id, p). split; [done|]. apply list_elem_of_filter. split.
      * unfold victim in Hv. rewrite Hp in Hv. simpl in Hv. rewrite Hx in Hv.
        unfold pointer_reapable. simpl. by rewrite Hx, Hv.
      * rewrite (Hok _). by apply elem_of_map_to_list.
    + destruct (inv_map _ _ HI _ _ Hp) as (s & Hs & Hid). exists s. by split.
  - exfalso. apply Hsame. unfold reap_record. by repeat case_match.
  - by destruct (Hkeep _ (reconcile_allocs _ _ _ _ H)).
Qed.

(** The session whose Ensure failed, until its goroutine has published it. *)
Definition failing (c : pc) : option loc :=
  match c with
  | PRes3 p _ (Err _) | PRes4 p _ (Err _) | PRes5 p _ (Err _) | PRes6 p (Err _) => Some p
  | _ => None
  end.

Lemma failing_resolving c p : failing c = Some p -> resolving c = Some p.
Proof. destruct c; try done; by destruct r. Qed.

Lemma failing_cstep c st sp c' st' p :
  cstep m c st sp c' st' -> pc_calling c = None -> failing c' = Some p -> failing c = Some p.
Proof. intros Hc Hno. destruct Hc; try done; try (by destruct k); try (by destruct d); by destruct vs. Qed.

(** A failed session of the map was one, or a goroutine publishes its failure. *)
Lemma failed_session st pcs i c sp c' st' id p x :
  Inv st pcs -> pcs !! i = Some c -> cstep m c st sp c' st' ->
  sessions st' !! id = Some p -> heap st' !! p = Some x -> ready x = true -> is_Some (serr x) ->
  exists x0, heap st !! p = Some x0 /\ ID x0 = id /\
    ((sessions st !! id = Some p /\ ready x0 = true /\ is_Some (serr x0)) \/ failing c = Some p).
Proof.
  intros HI Hi Hc Hp Hx Hr Herr. pose proof (Inv_cstep m _ _ _ _ _ _ _ HI Hi Hc) as HI'.
  destruct (inv_map _ _ HI' _ _ Hp) as (x' & Hx' & Hid). simplify_eq.
  destruct (cstep_shape m _ _ _ _ _ _ _ HI Hi Hc) as [H|[H|(q & r & -> & ->)]].
  - destruct (q_dom _ _ _ H p) as [x0 Hx0]; [eauto|]. exists x0.
    destruct (ext_heap _ _ _ (q_ext _ _ _ H) _ _ Hx0) as (x1 & Hx1 & Hid & Hcore). simplify_eq.
    rewrite (q_ready _ _ _ H _ _ _ Hx0 Hx) in Hr. split; [done|]. split; [done|]. left.
    destruct (core_fields _ _ (Hcore (or_introl Hr))) as (_ & _ & _ & _ & He). rewrite He in Herr.
    split_and!; try done. by apply (q_sub _ _ _ H).
  - destruct (allocs_heap _ _ _ _ _ _ HI H Hx) as [[Hx0 Hn]|(_ & Hr' & _)]; [|congruence].
    exists x. split_and!; try done. left.
    destruct (al_map _ _ _ H _ _ Hp) as [?|[? _]]; [by split_and!|done].
  - pose proof (Forall_lookup_1 _ _ _ _ (inv_pcs _ _ HI) Hi) as (y & Hy & Hpub & _).
    assert (sessions st !! ID x = Some p) as Hp0.
    { revert Hp. unfold close_ready. repeat case_match; simpl; by rewrite ?sessions_update. }
    destruct (decide (p = q)) as [->|Hne].
    + exists y. assert (unready st q) as (y' & Hy' & Hry).
      { apply (inv_resolver _ _ HI), list_elem_of_omap. exists (PRes6 q r).
        split; [by eapply list_elem_of_lookup_2|done]. }
      simplify_eq. rewrite (close_ready_eq _ _ _ Hy Hry) in Hx. simpl in Hx.
      rewrite lookup_insert_eq in Hx. injection Hx as <-. split_and!; try done. right.
      simpl in Hpub, Herr. destruct r; [|done]. destruct Hpub as [_ Hnone]. rewrite Hnone in Herr. by destruct Herr.
    + exists x. split; [|split; [done|left; by split_and!]]. revert Hx. unfold close_ready.
      rewrite Hy. case_match; [done|]. rewrite (heap_update _ _ _ _ Hy). by rewrite lookup_insert_ne.
Qed.
End manager.

(** ** The books *)

Section books.
Context (m : Manager).
Context {E : Type -> Type} {Σ : Type} (S : Server E Σ) (B : environment E -> Backend.Backend (history E)).
Context (inv : Σ -> Prop) (managed : Σ -> string -> Prop) (dom : string -> Prop).
Context (allowed : op -> history E -> event E -> Prop) (point : op -> event E -> bool).
Context `{!KeepsIds S B inv managed dom allowed point}.
Context (ops : nat -> op) (ops_dom : forall t, dom (op_id (ops t))) (foreign : nat -> bool).
Context (σ0 : Σ) (owned : inv σ0).

Notation deployed := (@Deployed.deployed E).
Notation result_of := (result_of B ops).
Notation over := (over foreign).
Notation dshape := (dshape m B ops foreign).
Notation deployed_ok := (deployed_ok m S B ops foreign σ0).
Notation dreachable := (dreachable m S B ops foreign σ0).
Implicit Types (d : deployed) (H : list (nat * event E)).

(** The execution of the manager has returned with an error. *)
Definition failed d (id : string) (v : nat) : Prop :=
  over d v /\ ((exists e, result_of v (BEnsure id (Err e)) (traffic d)) \/
               (exists e, result_of v (BDelete id (Some e)) (traffic d))).

(** It has returned an endpoint. *)
Definition ensured d (id : string) (t : nat) : Prop :=
  over d t /\ exists ep, result_of t (BEnsure id (Ok ep)) (traffic d).

(** No Ensure of [id] by the manager was begun after [v]. *)
Definition newest d (id : string) (v : nat) : Prop :=
  forall u ctx, (u < begun d)%nat -> foreign u = false -> ops u = DoEnsure ctx id -> (u <= v)%nat.

Definition ensure_failed d (id : string) : Prop :=
  exists v e, over d v /\ result_of v (BEnsure id (Err e)) (traffic d) /\ newest d id v.

(** [u] made its first call after [t] had taken effect. *)
Definition follows d (t u : nat) : Prop :=
  (t < u)%nat /\ exists H1 H2, traffic d = H1 ++ H2 /\ t ∈ Ids.order point ops H1 /\ mine u H1 = [].

(** *** What a step leaves of an execution *)

Lemma result_op t b H : result_of t b H ->
  match ops t, b with
  | DoEnsure _ id, BEnsure id' _ | DoDelete _ id, BDelete id' _ => id' = id
  | _, _ => False
  end.
Proof. unfold Deployed.result_of. destruct (ops t), b; try done; by intros [-> _]. Qed.

Lemma over_stays d pcs d' pcs' v :
  deployed_ok d pcs -> dshape d pcs d' pcs' -> over d v -> over d' v /\ mine v (traffic d') = mine v (traffic d).
Proof.
  intros Hok Hsh (Hv & Hm & Hno).
  destruct Hsh; unfold Deployed.over in *; simpl in *; try done.
  - split; [|done]. split_and!; [lia|done|].
    intros j [[_ ->]|[_ Hj]]%lookup_insert_Some; [lia|by eapply Hno].
  - split; [|done]. split_and!; [lia|done..].
  - split; [done|]. rewrite mine_snoc, decide_False, app_nil_r; [done|]. intros ->.
    destruct (may_call_begun m S B ops foreign σ0 _ _ v Hok) as [_ []]; [done|by split_and!].
  - split; [|done]. split_and!; [done..|]. by intros j [_ Hj%Hno]%lookup_delete_Some.
Qed.

Lemma result_stays d pcs d' pcs' v b :
  deployed_ok d pcs -> dshape d pcs d' pcs' -> over d v -> result_of v b (traffic d) ->
  result_of v b (traffic d').
Proof.
  intros Hok Hsh Hv Hr. destruct (over_stays _ _ _ _ v Hok Hsh Hv) as [_ Hm].
  by eapply result_of_mine.
Qed.

Lemma failed_stays d pcs d' pcs' id v :
  deployed_ok d pcs -> dshape d pcs d' pcs' -> failed d id v -> failed d' id v.
Proof.
  intros Hok Hsh [Hv Hr]. split; [by eapply over_stays|].
  destruct Hr as [[e Hr]|[e Hr]]; [left|right]; exists e; by eapply result_stays.
Qed.

Lemma follows_stays d pcs d' pcs' t u : dshape d pcs d' pcs' -> follows d t u -> follows d' t u.
Proof.
  intros Hsh (Htu & H1 & H2 & Hd & Ht & Hu). split; [done|].
  destruct Hsh; simpl in *; try by exists H1, H2.
  exists H1, (H2 ++ [(t0, e)]). by rewrite Hd, (assoc app).
Qed.

Lemma newest_stays d pcs d' pcs' id v :
  dshape d pcs d' pcs' -> newest d id v ->
  (forall ctx, begun d' = (begun d + 1)%nat -> foreign (begun d) = false -> ops (begun d) <> DoEnsure ctx id) ->
  newest d' id v.
Proof.
  intros Hsh Hn Hno u ctx Hu Hm Ho.
  enough (u < begun d)%nat by by eapply Hn.
  destruct Hsh; simpl in *; try done; destruct (decide (u = n)) as [->|]; try lia; by destruct (Hno ctx).
Qed.

(** *** Failures of Ensure *)

Record failures d (pcs : list pc) : Prop := {
  fl_flight i t ctx id : flight d !! i = Some t -> ops t = DoEnsure ctx id -> newest d id t;
  fl_pc i c p x : pcs !! i = Some c -> failing c = Some p -> heap (sst (mgr d)) !! p = Some x ->
    ensure_failed d (ID x);
  fl_map id p x : sessions (sst (mgr d)) !! id = Some p -> heap (sst (mgr d)) !! p = Some x ->
    ready x = true -> is_Some (serr x) -> ensure_failed d id;
}.

(** The step begins no Ensure of [id]. *)
Definition no_ensure_begun d d' (id : string) : Prop :=
  forall ctx, begun d' = (begun d + 1)%nat -> foreign (begun d) = false -> ops (begun d) <> DoEnsure ctx id.

Lemma ensure_failed_stays d pcs d' pcs' id :
  deployed_ok d pcs -> dshape d pcs d' pcs' -> no_ensure_begun d d' id ->
  ensure_failed d id -> ensure_failed d' id.
Proof.
  intros Hok Hsh Hno (v & e & Hv & Hr & Hn). exists v, e. split_and!.
  - by eapply over_stays.
  - by eapply result_stays.
  - by eapply newest_stays.
Qed.

(** A goroutine that is publishing a failure works on the session of the map. *)
Lemma failing_current d pcs i c p x :
  deployed_ok d pcs -> pcs !! i = Some c -> failing c = Some p -> heap (sst (mgr d)) !! p = Some x ->
  sessions (sst (mgr d)) !! ID x = Some p /\ ready x = false.
Proof.
  intros Hok Hi Hc%failing_resolving Hx.
  assert (unready (sst (mgr d)) p) as (y & Hy & Hr).
  { apply (inv_resolver _ _ (d_inv _ _ _ _ _ _ _ _ Hok)), list_elem_of_omap. exists c.
    split; [by eapply list_elem_of_lookup_2|done]. }
  simplify_eq. split; [|done]. by apply (inv_unready _ _ (d_inv _ _ _ _ _ _ _ _ Hok)).
Qed.

(** While an Ensure of [id] begins, its session is unresolved and nobody else resolves it. *)
Lemma begun_alone d pcs i p ctx t id :
  deployed_ok d pcs -> pcs !! i = Some (PRes2 p ctx t id) ->
  sessions (sst (mgr d)) !! id = Some p /\ unready (sst (mgr d)) p /\
  forall j c, pcs !! j = Some c -> resolving c = Some p -> j = i.
Proof.
  intros Hok Hi. destruct (ensuring_current _ _ _ _ _ _ _ (d_inv _ _ _ _ _ _ _ _ Hok) Hi) as [Hp Hu].
  split_and!; [done..|]. intros j c Hj Hc. destruct (decide (j = i)) as [|Hne]; [done|].
  by destruct (omap_NoDup_lookup resolving pcs j i _ _ p (inv_one _ _ (d_inv _ _ _ _ _ _ _ _ Hok)) Hj Hi Hne Hc).
Qed.

Lemma pc_calling_ensure c ctx id :
  pc_calling c = Some (DoEnsure ctx id) -> exists p t, c = PRes2 p ctx t id.
Proof. destruct c; intros; simplify_eq/=; eauto. Qed.

(** An Ensure of [id] that begins finds no failed session of [id] and no Ensure of it under way. *)
Lemma failed_not_begun d pcs d' pcs' id p x :
  deployed_ok d pcs -> dshape d pcs d' pcs' -> sessions (sst (mgr d)) !! id = Some p ->
  heap (sst (mgr d)) !! p = Some x ->
  ready x = true \/ (exists i c, pcs !! i = Some c /\ failing c = Some p) -> no_ensure_begun d d' id.
Proof.
  intros Hok Hsh Hp Hx Hcase ctx Hb Hm Ho.
  destruct Hsh as [| |s n fl H pcs i c Hi Hc Hfl Hours|s n fl H pcs Hother| |]; simpl in *; try lia; [|congruence].
  rewrite Ho in Hc. apply pc_calling_ensure in Hc as (q & t & ->).
  destruct (begun_alone _ _ _ _ _ _ _ Hok Hi) as (Hq & (y & Hy & Hr) & Halone). simpl in *. simplify_eq.
  destruct Hcase as [|(j & c & Hj & Hc)]; [congruence|].
  assert (j = i) as -> by (by eapply Halone, failing_resolving). by simplify_eq.
Qed.

Lemma log_call_inj b b' st : log_call b st = log_call b' st -> b = b'.
Proof. intros H%(f_equal calls). simpl in H. by apply app_inj_2 in H as [_ [= ?]]. Qed.

Lemma over_returned s s' n fl H pcs i t :
  deployed_ok (mkDeployed s n fl H) pcs -> fl !! i = Some t -> over (mkDeployed s' n (delete i fl) H) t.
Proof.
  intros Hok Hi. destruct (d_flight _ _ _ _ _ _ _ _ Hok i t Hi) as (? & ? & _).
  split_and!; simpl; [done..|]. intros j [Hne Hj]%lookup_delete_Some.
  apply Hne. by apply (d_flight_inj _ _ _ _ _ _ _ _ Hok i j t).
Qed.

(** What a goroutine returns from. *)
Lemma return_cases d pcs i t c c' b :
  deployed_ok d pcs -> flight d !! i = Some t -> pcs !! i = Some c ->
  cstep m c (sst (mgr d)) [] c' (log_call b (sst (mgr d))) ->
  (exists p ctx start id r, c = PRes2 p ctx start id /\ ops t = DoEnsure ctx id /\
     c' = PRes3 p start r /\ b = BEnsure id r) \/
  (exists ctx p id vs err, c = PReap3 ctx p id vs /\ ops t = DoDelete ctx id /\
     c' = PReap4 ctx p err vs /\ b = BDelete id err).
Proof.
  intros Hok Hi Hc Hstep. destruct (d_flight _ _ _ _ _ _ _ _ Hok i t Hi) as (_ & _ & c0 & ? & Ho). simplify_eq.
  remember (log_call b (sst (mgr d))) as st' eqn:Hst.
  destruct Hstep; simpl in Ho; try done; try (by destruct k); apply log_call_inj in Hst as <-;
    injection Ho as <-; [left|right]; eauto 10.
Qed.

Lemma starting_not_failing c : starting c = true -> failing c = None.
Proof. by destruct c. Qed.

Lemma insert_lookup_cases {A} (l l2 : list A) i a j b :
  (<[i := a]> l ++ l2) !! j = Some b -> (j = i /\ b = a) \/ (j <> i /\ l !! j = Some b) \/ b ∈ l2.
Proof.
  intros [Hj|[_ Hj]]%lookup_app_Some; [|right; right; by eapply list_elem_of_lookup_2].
  apply list_lookup_insert_Some in Hj as [(-> & <- & _)|[? ?]]; [by left|by right; left].
Qed.

Lemma spawned_not_failing ps c : c ∈ map PRes0 ps -> failing c = None.
Proof. by intros (? & <- & _)%list_elem_of_In%in_map_iff. Qed.

Lemma failures_pc d pcs d' pcs' :
  deployed_ok d pcs -> failures d pcs -> deployed_ok d' pcs' -> dshape d pcs d' pcs' ->
  forall i c p x, pcs' !! i = Some c -> failing c = Some p -> heap (sst (mgr d')) !! p = Some x ->
    ensure_failed d' (ID x).
Proof.
  intros Hok [Hfl Hpc Hmap] Hok' Hsh.
  assert (forall i c p x x0, pcs !! i = Some c -> failing c = Some p ->
    heap (sst (mgr d)) !! p = Some x0 -> ID x0 = ID x -> ensure_failed d' (ID x)) as Hold.
  { intros i c p x x0 Hi Hc Hx0 <-.
    apply (ensure_failed_stays d pcs d' pcs'); [done|done| |by eapply Hpc].
    destruct (failing_current _ _ _ _ _ _ Hok Hi Hc Hx0).
    apply (failed_not_begun d pcs d' pcs' _ p x0); eauto. }
  intros i c p x Hi Hc Hx. pose proof Hsh as Hsh0.
  destruct Hsh as [s s' n fl H pcs j cj sp cj' Hj Hstep Hinner Hidle Hcalls|s s' n fl H pcs new Hnew Hheap _ _|
    | | |s n fl H pcs j t cj cj' b grs Hj Hcj Hstep Hres]; simpl in *; try by eapply Hold.
  - pose proof (d_inv _ _ _ _ _ _ _ _ Hok) as HI. simpl in HI.
    assert (exists k ck, pcs !! k = Some ck /\ failing ck = Some p) as (k & ck & Hk & Hck).
    { apply insert_lookup_cases in Hi as [[-> ->]|[[_ Hi]|Hin%spawned_not_failing]]; [|eauto|congruence].
      exists j, cj. split; [done|]. by eapply failing_cstep. }
    pose proof (failing_resolving _ _ Hck) as Hrk.
    assert (unready (sst s) p) as (x0 & Hx0 & _).
    { apply (inv_resolver _ _ HI), list_elem_of_omap. exists ck.
      split; [by eapply list_elem_of_lookup_2|done]. }
    destruct (ext_heap _ _ _ (cstep_ext m _ _ _ _ _ _ _ HI Hj Hstep) _ _ Hx0) as (x1 & Hx1 & Hid & _).
    simplify_eq. by eapply Hold.
  - rewrite Hheap in Hx. apply lookup_app_Some in Hi as [Hi|[_ Hi]]; [by eapply Hold|].
    apply (Forall_lookup_1 _ _ _ _ Hnew), starting_not_failing in Hi. congruence.
  - apply list_lookup_insert_Some in Hi as [(-> & -> & _)|[_ Hi]]; [|by eapply Hold].
    destruct (return_cases _ _ _ _ _ _ _ Hok Hj Hcj Hstep)
      as [(q & ctx & start & id & r & -> & Ho & -> & ->)|(? & ? & ? & ? & ? & _ & _ & -> & _)]; [|done].
    pose proof (Forall_lookup_1 _ _ _ _ (inv_pcs _ _ (d_inv _ _ _ _ _ _ _ _ Hok)) Hcj) as (y & Hy & _ & Hid).
    destruct r as [|e]; [done|]. injection Hc as ->. simpl in *. simplify_eq.
    exists t, e. split_and!; [|done|].
    + by eapply over_returned.
    + by apply (Hfl _ _ _ _ Hj Ho).
Qed.

Lemma failures_keep d pcs d' pcs' :
  deployed_ok d pcs -> failures d pcs -> deployed_ok d' pcs' -> dshape d pcs d' pcs' -> failures d' pcs'.
Proof.
  intros Hok Hf Hok' Hsh. split; [|by apply (failures_pc d pcs d' pcs')|].
  - intros i t ctx id Hi Ho.
    assert (flight d !! i = Some t -> newest d' id t) as Hold.
    { intros Hi0. apply (newest_stays d pcs d' pcs'); [done|by eapply fl_flight|].
      destruct (d_flight _ _ _ _ _ _ _ _ Hok i t Hi0) as (_ & _ & c & Hc & Hcall). rewrite Ho in Hcall.
      apply pc_calling_ensure in Hcall as (p & tm & ->).
      destruct (begun_alone _ _ _ _ _ _ _ Hok Hc) as (Hp & _ & Halone).
      intros ctx' Hb Hm Ho'. destruct Hsh as [| |s n fl H pcs j c Hj Hcj Hfl Hours|s n fl H pcs Hother| |];
        simpl in *; try lia; [|congruence].
      rewrite Ho' in Hcj. apply pc_calling_ensure in Hcj as (q & tq & ->).
      destruct (begun_alone _ _ _ _ _ _ _ Hok Hj) as (Hq & _). simpl in *. simplify_eq.
      assert (j = i) as -> by (by eapply Halone). congruence. }
    destruct Hsh; simpl in *; try by apply Hold.
    + apply lookup_insert_Some in Hi as [[<- <-]|[_ Hi]]; [|by apply Hold]. intros u c0 Hu _ _. simpl in Hu. lia.
    + apply lookup_delete_Some in Hi as [_ Hi]. by apply Hold.
  - intros id p x Hp Hx Hr Herr.
    assert (forall x0, sessions (sst (mgr d)) !! id = Some p -> heap (sst (mgr d)) !! p = Some x0 ->
      ready x0 = true -> is_Some (serr x0) -> ensure_failed d' id) as Hold.
    { intros x0 Hp0 Hx0 Hr0 He0. apply (ensure_failed_stays d pcs d' pcs'); [done..| |by eapply fl_map].
      apply (failed_not_begun d pcs d' pcs' id p x0); eauto. }
    pose proof Hsh as Hsh0.
    destruct Hsh as [s s' n fl H pcs j cj sp cj' Hj Hstep Hinner Hidle Hcalls|s s' n fl H pcs new Hnew Hheap Hmap _|
      | | |s n fl H pcs j t cj cj' b grs Hj Hcj Hstep Hres]; simpl in *; try by eapply Hold.
    + destruct (failed_session m _ _ _ _ _ _ _ _ _ _ (d_inv _ _ _ _ _ _ _ _ Hok) Hj Hstep Hp Hx Hr Herr)
        as (x0 & Hx0 & <- & [(Hp0 & Hr0 & He0)|Hfail]); [by eapply Hold|].
      apply (ensure_failed_stays _ _ _ _ _ Hok Hsh0); [|by eapply fl_pc].
      destruct (failing_current _ _ _ _ _ _ Hok Hj Hfail Hx0). apply (failed_not_begun _ _ _ _ _ p x0 Hok Hsh0); eauto.
    + rewrite Hheap in Hx. rewrite Hmap in Hp. by eapply Hold.
Qed.

(** *** Where the sandbox of an Ensure that succeeded is accounted for *)

Inductive covered d (pcs : list pc) (id : string) (t : nat) : Prop :=
| cov_session p : sessions (sst (mgr d)) !! id = Some p -> covered d pcs id t
| cov_get i ctx k : pcs !! i = Some (PGet ctx id k) -> covered d pcs id t
| cov_reap i c :
    pcs !! i = Some c -> to_delete (sst (mgr d)) id c ->
    (forall u, flight d !! i = Some u -> follows d t u) -> covered d pcs id t
| cov_failed v : (t <= v)%nat -> failed d id v -> covered d pcs id t
| cov_deleted u : over d u -> result_of u (BDelete id None) (traffic d) -> follows d t u -> covered d pcs id t.

Lemma ensured_op d id t : ensured d id t -> exists ctx, ops t = DoEnsure ctx id.
Proof. intros (_ & ep & Hr%result_op). destruct (ops t); [|done]. subst. eauto. Qed.

(** What a step has to answer for: the session it may take from the map, and the goroutines that
    account for one. *)
Lemma covered_by_parts d pcs d' pcs' id t :
  deployed_ok d pcs -> dshape d pcs d' pcs' ->
  (forall p, sessions (sst (mgr d)) !! id = Some p -> covered d' pcs' id t) ->
  (forall i c, pcs !! i = Some c -> (exists ctx k, c = PGet ctx id k) \/ to_delete (sst (mgr d)) id c ->
    (forall u, flight d !! i = Some u -> follows d t u) -> covered d' pcs' id t) ->
  covered d pcs id t -> covered d' pcs' id t.
Proof.
  intros Hok Hsh Hmap Hpc [p Hp|i ctx k Hi|i c Hi Hd Hfl|v Hv Hf|u Hu Hr Hfol].
  - by eapply Hmap.
  - eapply Hpc; [done|left; eauto|]. intros u Hu.
    destruct (d_flight _ _ _ _ _ _ _ _ Hok i u Hu) as (_ & _ & c & ? & ?). by simplify_eq.
  - by eapply Hpc; [..|right|].
  - apply (cov_failed _ _ _ _ v); [done|by eapply failed_stays].
  - apply (cov_deleted _ _ _ _ u); [by eapply over_stays|by eapply result_stays|by eapply follows_stays].
Qed.

(** A goroutine the step leaves where it was still accounts for what it did. *)
Lemma covered_by_other d pcs d' pcs' id t i c :
  dshape d pcs d' pcs' -> pcs' !! i = Some c ->
  (forall q, has_id (sst (mgr d)) id q -> has_id (sst (mgr d')) id q) ->
  (exists ctx k, c = PGet ctx id k) \/ to_delete (sst (mgr d)) id c ->
  (forall u, flight d' !! i = Some u -> follows d t u) -> covered d' pcs' id t.
Proof.
  intros Hsh Hi Hm [(ctx & k & ->)|Hd] Hfl; [by eapply cov_get|].
  eapply cov_reap; [done|by eapply to_delete_mono|]. intros u Hu. by eapply follows_stays, Hfl.
Qed.

Lemma covered_step s s' n fl H pcs j c sp c' id t :
  let d := mkDeployed s n fl H in let d' := mkDeployed s' n fl H in
  deployed_ok d pcs -> failures d pcs -> dshape d pcs d' (<[j := c']> pcs ++ map PRes0 sp) ->
  pcs !! j = Some c -> cstep m c (sst s) sp c' (sst s') -> pc_calling c = None -> fl !! j = None ->
  ensured d id t -> covered d pcs id t -> covered d' (<[j := c']> pcs ++ map PRes0 sp) id t.
Proof.
  intros d d' Hok Hf Hsh Hj Hc Hinner Hidle Hen. pose proof (d_inv _ _ _ _ _ _ _ _ Hok) as HI. simpl in HI.
  assert ((<[j := c']> pcs ++ map PRes0 sp) !! j = Some c') as Hj'.
  { apply lookup_app_l_Some, list_lookup_insert_eq. by eapply lookup_lt_Some. }
  apply covered_by_parts; [done|done|..].
  - intros p Hp. destruct (sessions (sst s') !! id) as [q|] eqn:Hq; [by eapply cov_session|].
    destruct (inv_map _ _ HI _ _ Hp) as (x & Hx & _).
    destruct (leaves_map m _ _ _ _ _ _ _ id p x HI Hj Hc Hp Hx Hq) as [[Hr He]|[(ctx & k & ->)|Hd]].
    + destruct (fl_map _ _ Hf id p x Hp Hx Hr He) as (v & e & Hv & Hres & Hnew).
      destruct (ensured_op _ _ _ Hen) as [ctx Ho]. destruct Hen as [(Ht & Hm & _) _].
      apply (cov_failed _ _ _ _ v); [by eapply Hnew|]. split; [by eapply over_stays|]. left. by exists e.
    + by eapply cov_get.
    + apply (cov_reap _ _ _ _ j c'); [done..|]. intros u Hu. simpl in Hu. congruence.
  - intros i ci Hi Hcase Hfl. destruct (decide (i = j)) as [->|Hne].
    + simplify_eq. destruct Hcase as [(ctx & k & ->)|Hd].
      * inversion Hc as [? ? ? ? p ? ? Ha| | | | | | | | | | | | | | | | | | | | | | | | |]; subst.
        destruct (get_acquire_allocs _ _ _ _ _ Ha) as [(Hp & _ & Hst)|(_ & -> & HA & (x & Hx & Hid))].
        -- apply (cov_session _ _ _ _ p). simpl. by rewrite Hst.
        -- destruct (al_new _ _ _ HA p) as (y & Hy & _ & _ & Hp); [by left|].
           simplify_eq. by eapply cov_session.
      * eapply cov_reap; [done|by eapply to_delete_cstep|]. intros u Hu. simpl in Hu. congruence.
    + eapply covered_by_other; [done| | |done|exact Hfl].
      * apply lookup_app_l_Some. by rewrite list_lookup_insert_ne.
      * intros q. by apply (has_id_cstep m _ _ _ _ _ _ _ id q HI Hj Hc).
Qed.

Lemma ensured_in_order d id t : ensured d id t -> t ∈ Ids.order point ops (traffic d).
Proof.
  intros (_ & ep & Hr). apply (returned_true S B inv managed dom allowed point). by eapply result_returned.
Qed.

Lemma covered_return s n fl H pcs j t0 c c' b grs id t :
  let d := mkDeployed s n fl H in
  let d' := mkDeployed (mkSystem (log_call b (sst s)) grs) n (delete j fl) H in
  deployed_ok d pcs -> dshape d pcs d' (<[j := c']> pcs) -> fl !! j = Some t0 -> pcs !! j = Some c ->
  cstep m c (sst s) [] c' (log_call b (sst s)) -> result_of t0 b H ->
  covered d pcs id t -> covered d' (<[j := c']> pcs) id t.
Proof.
  intros d d' Hok Hsh Hj Hc Hstep Hres.
  assert (over d' t0) as Hover by by eapply over_returned.
  assert ((<[j := c']> pcs) !! j = Some c') as Hj' by (by apply list_lookup_insert_eq; eapply lookup_lt_Some).
  apply covered_by_parts; [done|done|intros p Hp; by eapply cov_session|].
  intros i ci Hi Hcase Hfl. destruct (decide (i = j)) as [->|Hne].
  - simplify_eq. destruct (return_cases _ _ _ _ _ _ _ Hok Hj Hc Hstep)
      as [(? & ? & ? & ? & ? & -> & _)|(ctx & p & id' & vs & err & -> & Ho & -> & ->)].
    { by destruct Hcase as [(? & ? & ?)|[]]. }
    destruct Hcase as [(? & ? & ?)|[->|Hd]]; [done| |].
    + pose proof (follows_stays _ _ _ _ _ _ Hsh (Hfl _ Hj)) as Hfol. destruct err as [e|].
      * apply (cov_failed _ _ _ _ t0); [apply Nat.lt_le_incl, Hfol|]. split; [done|]. right. by exists e.
      * by apply (cov_deleted _ _ _ _ t0).
    + apply (cov_reap _ _ _ _ j (PReap4 ctx p err vs)); [done..|]. intros u Hu. simpl in Hu.
      by rewrite lookup_delete_eq in Hu.
  - apply (covered_by_other d pcs d' _ id t i ci Hsh); [by rewrite list_lookup_insert_ne|done|done|].
    intros u Hu. simpl in Hu. rewrite lookup_delete_ne in Hu by done. by apply Hfl.
Qed.

Lemma covered_keep d pcs d' pcs' id t :
  deployed_ok d pcs -> failures d pcs -> dshape d pcs d' pcs' -> ensured d id t ->
  covered d pcs id t -> covered d' pcs' id t.
Proof.
  intros Hok Hf Hsh Hen Hcov. pose proof Hsh as Hsh0.
  destruct Hsh as [s s' n fl H pcs j cj sp cj' Hj Hstep Hinner Hidle _|s s' n fl H pcs new Hnew Hheap Hmap _|
    s n fl H pcs j cj Hj Hcj Hfl Hours|s n fl H pcs Hother|s n fl H pcs u e Hcall|s n fl H pcs j t0 cj cj' b grs Hj Hcj Hstep Hres].
  2-5: revert Hcov; apply covered_by_parts; [done|done|intros p Hp; apply (cov_session _ _ _ _ p); simpl in *; congruence|];
    intros i c Hi Hcase Hfol; simpl in Hcase.
  - by apply (covered_step s s' n fl H pcs j cj sp cj').
  - apply (covered_by_other _ _ _ _ id t i c Hsh0); [by apply lookup_app_l_Some| |done|done].
    intros q. unfold has_id, session_at. simpl. by rewrite Hheap.
  - apply (covered_by_other _ _ _ _ id t i c Hsh0); [done..|]. simpl.
    intros u [[<- <-]|[_ Hu]]%lookup_insert_Some; [|by apply Hfol].
    split; [by apply Hen|]. exists H, []. rewrite app_nil_r. split_and!; [done|by apply ensured_in_order in Hen|].
    by apply (d_later _ _ _ _ _ _ _ _ Hok).
  - by apply (covered_by_other _ _ _ _ id t i c Hsh0).
  - by apply (covered_by_other _ _ _ _ id t i c Hsh0).
  - by eapply covered_return.
Qed.

(** An Ensure that succeeds has its session in the map when it returns. *)
Lemma ensured_new d pcs d' pcs' id t :
  deployed_ok d pcs -> dshape d pcs d' pcs' -> ensured d' id t -> ensured d id t \/ covered d' pcs' id t.
Proof.
  intros Hok Hsh [(Ht & Hm & Hno) [ep Hr]]. unfold ensured, Deployed.over.
  destruct Hsh as [| |s n fl H pcs j c Hj Hc Hfl Hours|s n fl H pcs Hother|s n fl H pcs u e Hcall|s n fl H pcs j t0 c c' b grs Hj Hc Hstep Hres];
    simpl in *; try (left; split; [by split_and!|by exists ep]).
  - destruct (decide (t = n)) as [->|]; [by destruct (Hno j); rewrite lookup_insert_eq|].
    left. split; [|by exists ep]. split_and!; [lia|done|]. intros i Hi. apply (Hno i).
    rewrite lookup_insert_ne; [done|]. intros ->. congruence.
  - destruct (decide (t = n)) as [->|]; [congruence|].
    left. split; [|by exists ep]. split_and!; [lia|done..].
  - left. split; [by split_and!|]. exists ep. eapply result_of_mine; [|exact Hr].
    rewrite mine_snoc, decide_False, app_nil_r; [done|]. intros <-.
    destruct Hcall as [[i Hi]|[_ ?]]; [by destruct (Hno i)|congruence].
  - destruct (decide (t = t0)) as [->|Hne].
    + right. apply result_op in Hr. destruct (return_cases _ _ _ _ _ _ _ Hok Hj Hc Hstep)
        as [(p & ctx & start & id' & r & -> & Ho & _)|(? & ? & ? & ? & ? & _ & Ho & _)]; rewrite Ho in Hr; [subst id'|done].
      destruct (begun_alone _ _ _ _ _ _ _ Hok Hc) as [Hp _]. by apply (cov_session _ _ _ _ p).
    + left. split; [|by exists ep]. split_and!; [done..|]. intros i Hi. apply (Hno i).
      rewrite lookup_delete_ne; [done|]. intros ->. congruence.
Qed.

(** *** Every execution of the manager that was begun waits or has returned *)

Definition accounted d : Prop :=
  forall t, (t < begun d)%nat -> foreign t = false ->
    (exists i, flight d !! i = Some t) \/ (over d t /\ exists b, result_of t b (traffic d)).

Lemma accounted_keep d pcs d' pcs' :
  deployed_ok d pcs -> dshape d pcs d' pcs' -> accounted d -> accounted d'.
Proof.
  intros Hok Hsh Ha t Ht Hm.
  assert ((t < begun d)%nat -> (forall i, flight d !! i = Some t -> flight d' !! i = Some t) ->
    (exists i, flight d' !! i = Some t) \/ (over d' t /\ exists b, result_of t b (traffic d'))) as Hold.
  { intros Ht0 Hi. destruct (Ha t Ht0 Hm) as [[i Hfl]|[Hv [b Hr]]]; [left; eauto|right].
    split; [by eapply over_stays|]. exists b. by eapply result_stays. }
  destruct Hsh as [| |s n fl H pcs j c Hj Hc Hfl Hours|s n fl H pcs Hother| |s n fl H pcs j t0 c c' b grs Hj Hc Hstep Hres];
    simpl in *; try (by apply Hold).
  - destruct (decide (t = n)) as [->|]; [left; exists j; by rewrite lookup_insert_eq|].
    apply Hold; [lia|]. intros i Hi. rewrite lookup_insert_ne; [done|]. intros ->. congruence.
  - assert (t <> n) by congruence. apply Hold; [lia|done].
  - destruct (decide (t = t0)) as [->|Hne].
    + right. split; [by eapply over_returned|]. by exists b.
    + apply Hold; [done|]. intros i Hi. rewrite lookup_delete_ne; [done|]. intros ->. congruence.
Qed.

Record books d (pcs : list pc) : Prop := {
  bk_failures : failures d pcs;
  bk_covered id t : ensured d id t -> covered d pcs id t;
  bk_accounted : accounted d;
}.

Lemma dreachable_books d : dreachable d -> exists pcs, deployed_ok d pcs /\ books d pcs.
Proof.
  apply dreachable_inv.
  - intros t mx. split; [split|..]; simpl.
    + done.
    + done.
    + intros id p x Hp. by rewrite lookup_empty in Hp.
    + intros id u [[Hu _] _]. simpl in Hu. lia.
    + intros u Hu. simpl in Hu. lia.
  - intros e pcs e' pcs' Hok [Hf Hc Ha] Hok' Hsh. split.
    + by apply (failures_keep e pcs e' pcs').
    + intros id t Ht. destruct (ensured_new _ _ _ _ _ _ Hok Hsh Ht); [|done].
      apply (covered_keep e pcs e' pcs'); [done..|]. by apply Hc.
    + by apply (accounted_keep e pcs e' pcs').
Qed.

(** *** The last operation on an id *)

Lemma in_order_last id ts P :
  in_order ops id P ts ->
  (P /\ forall u, u ∈ ts -> op_id (ops u) <> id) \/
  exists before t later ctx, ts = before ++ t :: later /\ ops t = DoEnsure ctx id /\
    forall u, u ∈ later -> op_id (ops u) <> id.
Proof.
  induction ts as [|u ts IH] using rev_ind; [intros HP; left; split; [done|by intros u ?%elem_of_nil]|].
  rewrite in_order_app. simpl. destruct (decide (op_id (ops u) = id)) as [Hu|Hu].
  - destruct (ops u) as [ctx i|ctx i] eqn:Ho; simpl in *; subst i; [|by intros [_ []]].
    intros _. right. exists ts, u, [], ctx. split_and!; [done..|by intros v ?%elem_of_nil].
  - intros Hin. assert (in_order ops id P ts) as [[HP Hno]|(before & t & later & ctx & -> & Ho & Hno)]%IH.
    { destruct (ops u); simpl in *; [|by destruct Hin]. destruct Hin as [?|<-]; [done|by destruct Hu]. }
    + left. split; [done|]. intros v [Hv| ->%list_elem_of_singleton]%elem_of_app; [by apply Hno|done].
    + right. exists before, t, (later ++ [u]), ctx. rewrite <- (assoc app). split_and!; [done..|].
      intros v [Hv| ->%list_elem_of_singleton]%elem_of_app; [by apply Hno|done].
Qed.

(** An execution that follows another comes after it in the order. *)
Lemma follows_later d before t later u :
  follows d t u -> u ∈ Ids.order point ops (traffic d) ->
  Ids.order point ops (traffic d) = before ++ t :: later -> u ∈ later.
Proof.
  intros (_ & H1 & H2 & Hd & Ht & Hu) Hin Hord.
  assert (NoDup (Ids.order point ops (traffic d))) as Hnd by apply (order_from_NoDup S B inv managed dom allowed point).
  assert (u ∉ Ids.order point ops H1) as Hu1 by (intros [_ Hx]%(elem_order_from S B inv managed dom allowed point); by rewrite Hu in Hx).
  assert (exists l2, Ids.order point ops (traffic d) = Ids.order point ops H1 ++ l2) as [l2 Hl2].
  { unfold Ids.order. rewrite Hd, order_from_app. by eexists. }
  apply list_elem_of_split in Ht as (a & b & Ht). rewrite Hl2, Ht, <- (assoc app) in Hin, Hord, Hnd.
  simpl in Hin, Hord, Hnd. destruct (split_unique _ _ _ _ _ Hord Hnd) as [<- <-].
  rewrite Ht in Hu1. set_solver.
Qed.

(** What accounts for a sandbox on the server. *)
Definition accounts d (ord : list nat) (id : string) : Prop :=
  is_Some (sessions (sst (mgr d)) !! id) \/
  (exists ctx k, prog_of m (PGet ctx id k) ∈ pool (mgr d)) \/
  (exists c, prog_of m c ∈ pool (mgr d) /\ to_delete (sst (mgr d)) id c) \/
  (managed σ0 id /\ forall u, u ∈ ord -> op_id (ops u) <> id) \/
  exists before t later ctx, ord = before ++ t :: later /\ ops t = DoEnsure ctx id /\
    (forall u, u ∈ later -> op_id (ops u) <> id) /\
    (foreign t = true \/ exists v, (t <= v)%nat /\ failed d id v).

Lemma pool_of_pc d pcs i c : deployed_ok d pcs -> pcs !! i = Some c -> prog_of m c ∈ pool (mgr d).
Proof.
  intros Hok Hi. rewrite (d_pool _ _ _ _ _ _ _ _ Hok). apply list_elem_of_In, in_map, list_elem_of_In.
  by eapply list_elem_of_lookup_2.
Qed.

Lemma sandbox_accounted d id :
  dreachable d -> dom id -> managed (after S σ0 (traffic d).*2) id ->
  accounts d (Ids.order point ops (traffic d)) id.
Proof.
  intros Hd Hid Hm. destruct (dreachable_books d Hd) as (pcs & Hok & [Hf Hcov Hacc]).
  assert (serializable S B managed dom ops σ0 (traffic d) (Ids.order point ops)) as Hser
    by (apply (@order_serializes _ _ S B inv managed dom allowed); try done; apply Hok).
  apply (ord_set _ _ _ _ _ _ _ _ Hser id Hid), in_order_last in Hm as [Hm|(before & t & later & ctx & Hord & Ho & Hlast)].
  { by do 3 right; left. }
  assert (forall v, (t <= v)%nat -> failed d id v -> accounts d (Ids.order point ops (traffic d)) id) as Hfailed.
  { intros v Hv Hfv. do 4 right. exists before, t, later, ctx. split_and!; [done..|]. right. eauto. }
  destruct (foreign t) eqn:Hours.
  { do 4 right. exists before, t, later, ctx. split_and!; [done..|]. by left. }
  assert (t ∈ Ids.order point ops (traffic d)) as Hin by (rewrite Hord; set_solver).
  assert (t < begun d)%nat as Hlt.
  { destruct (decide (t < begun d)%nat); [done|].
    destruct (ord_begun _ _ _ _ _ _ _ _ Hser t Hin). apply (d_later _ _ _ _ _ _ _ _ Hok). lia. }
  destruct (Hacc t Hlt Hours) as [[i Hi]|[Hover [b Hr]]].
  - destruct (d_flight _ _ _ _ _ _ _ _ Hok i t Hi) as (_ & _ & c & Hc & Hcall). rewrite Ho in Hcall.
    apply pc_calling_ensure in Hcall as (p & start & ->).
    destruct (begun_alone _ _ _ _ _ _ _ Hok Hc) as [Hp _]. left. eauto.
  - pose proof (result_op _ _ _ Hr) as Hb. rewrite Ho in Hb. destruct b as [id' [ep|e]|]; [| |done]; subst id'.
    + destruct (Hcov id t) as [p Hp|i ctx' k Hi|i c Hi Hdel _|v Hv Hfv|u Hu Hru Hfol]; [by split; [|exists ep]|..].
      * left. eauto.
      * right; left. exists ctx', k. by eapply pool_of_pc.
      * do 2 right; left. exists c. split; [by eapply pool_of_pc|done].
      * by eapply Hfailed.
      * exfalso. pose proof (result_op _ _ _ Hru) as Hou. destruct (ops u) as [|cu iu] eqn:Hopu; [done|]. subst iu.
        apply (Hlast u); [|by rewrite Hopu]. apply (follows_later d before t later u Hfol); [|done].
        apply (returned_true S B inv managed dom allowed point). unfold Deployed.result_of in Hru.
        rewrite Hopu in Hru. destruct Hru as [_ [env Hrun]]. exists env. rewrite Hopu. simpl. by rewrite Hrun.
    + apply (Hfailed t); [done|]. split; [done|]. left. by exists e.
Qed.


(** With nothing under way, no failure and nobody else, the ids with a sandbox have a session. *)
Corollary at_rest d (id : string) :
  dreachable d -> dom id -> managed (after S σ0 (traffic d).*2) id -> ~ managed σ0 id ->
  (forall t, foreign t = false) -> (forall v, ~ failed d id v) -> Forall finished (pool (mgr d)) ->
  is_Some (sessions (sst (mgr d)) !! id).
Proof.
  intros Hd Hid Hm H0 Hours Hok Hdone. rewrite Forall_forall in Hdone.
  destruct (sandbox_accounted d id Hd Hid Hm) as
    [?|[(ctx & k & [o Hg]%Hdone)|[(c & [o Hg]%Hdone & Hdel)|[[? _]|(? & t & ? & ? & _ & _ & _ & [Ht|(v & _ & Hv)])]]]].
  - done.
  - by apply prog_of_Ret in Hg.
  - apply prog_of_Ret in Hg. by subst c.
  - done.
  - by rewrite Hours in Ht.
  - by destruct (Hok v).
Qed.
End books.

(** ** A Delete that fails *)

(** The sample server with an API server that refuses every Delete. *)
Definition refusing_server (σ0 : Store.store (Kube.GVR * string * string) Kube.object) : environment Kube.call :=
  fun A e h =>
  match e in Kube.call A return A -> A with
  | Kube.KDelete _ _ _ _ => fun _ => Some (StatusError 500 "internal error")
  | _ => fun r => r
  end (sample_server σ0 _ e h).

Lemma refusing_server_honest σ0 : honest_env (@api_server Kube.sample_unstructured) σ0 (refusing_server σ0).
Proof.
  intros A [] h; cbn; unfold sample_server; try done; [| |by intros _ ? [= <-]].
  - by destruct (objects_now _ !! _).
  - by destruct (objects_now _ !! _).
Qed.

(** The first session's Ensure and its Delete. *)
Definition leak_op (t : nat) : op :=
  match t with 1%nat => DoDelete Background "alice" | _ => reap_op 0 end.

Definition refused_env : environment Kube.call :=
  refusing_server (after (@api_server Kube.sample_unstructured) ∅ calls1.*2).
Definition refused_calls : list (nat * event Kube.call) :=
  calls1 ++ map (pair 1%nat) (op_run (sample_claim_backend refused_env) (leak_op 1) []).2.

(** The session served and idle, taken by the scan; the Delete refused; the reaper done. *)
Definition leak3 := played race2 (from_ensure 0 ++ idle_scan ++ [Run 2 ANone]).
Definition leak4 := played leak3 [Run 2 (answer_in sample_claim_backend refused_env (leak_op 1))].
Definition leak5 := played leak4 [Run 2 ANone].
Definition leaked : deployed := mkDeployed leak5 2 ∅ refused_calls.

Notation leak_steps := (rtc (dstep demo_manager (@api_server Kube.sample_unstructured) sample_claim_backend
  leak_op nobody_else ∅)).

Lemma leaked_reachable :
  dreachable demo_manager (@api_server Kube.sample_unstructured) sample_claim_backend leak_op nobody_else ∅ leaked.
Proof.
  exists 0, None. pose proof sample_claims_keep_ids as Hk.
  destruct (@call_run demo_manager _ _ _ _ _ _ _ _ _ Hk leak_op nobody_else ∅ (server_after [])
    race1 race2 0 ∅ [] 1) as [Hs1 Hx1];
    [by vm_compute|done|done|done|by intros t []|apply ready_server_honest|by apply played_one; vm_compute|].
  destruct (@call_run demo_manager _ _ _ _ _ _ _ _ _ Hk leak_op nobody_else ∅ refused_env leak3 leak4 1 ∅ calls1 2)
    as [Hs2 _]; [by vm_compute|done|done|by vm_compute|exact Hx1|apply refusing_server_honest
                |by apply played_one; vm_compute|].
  etrans; [eapply quiet_run_sound, (played_quiet _ (to_ensure 0)); by vm_compute|].
  etrans; [exact Hs1|].
  etrans; [eapply quiet_run_sound, (played_quiet race2 (from_ensure 0 ++ idle_scan ++ [Run 2 ANone])); by vm_compute|].
  etrans; [exact Hs2|].
  eapply quiet_run_sound, (played_quiet leak4 [Run 2 ANone]). by vm_compute.
Qed.

Lemma leaked_finished : Forall finished (pool leak5).
Proof.
  assert (forallb (fun g => match g with Ret _ => true | Do _ _ => false end) (pool leak5) = true) as H
    by by vm_compute.
  apply Forall_forall. intros g Hg. rewrite forallb_forall in H.
  specialize (H g (proj1 (list_elem_of_In _ _) Hg)). destruct g as [o|]; [by exists o|done].
Qed.

Lemma leaked_managed :
  cr_managed (claim_cr sample_claims) (after (@api_server Kube.sample_unstructured) ∅ refused_calls.*2) "alice".
Proof. vm_cast_no_check (eq_refl (Some (cr_build (claim_cr sample_claims) "alice"))). Qed.

