(* ===== verification/EndToEnd.v ===== *)
(** * The whole proxy: handlers, index, manager, backend and server as one system

    The handlers of [Compose] over the system of [Deployed]: a request is answered by
    goroutines of a manager whose Ensures and Deletes are executions on a server.  The
    theorems say which sandbox of that server a request reaches. *)

From S2P Require Import Prelude GoStd Effects Backend Metrics Session SessionFacts SessionSys SessionInv SessionClient Proxy ProxyFacts ProxyProps Compose Ids Deployed.
From S2P Require Identify IdentifyFacts.
Local Open Scope Z_scope.

(** What the calls of an Ensure that returned an endpoint show of it. *)
Class Provides {E : Type -> Type} (B : environment E -> Backend.Backend (history E))
    (provided : string -> Endpoint -> history E -> Prop) : Prop :=
  provides env ctx id : adds (@Backend.Ensure _ (B env) ctx id) (fun r l =>
    forall ep, r = Ok ep -> provided id ep l).

Section whole.
Context (m : Manager).
Context {E : Type -> Type} {Σ : Type} (S : Server E Σ) (B : environment E -> Backend.Backend (history E)).
Context (inv : Σ -> Prop) (managed : Σ -> string -> Prop) (dom : string -> Prop).
Context (allowed : op -> history E -> event E -> Prop) (point : op -> event E -> bool).
Context (provided : string -> Endpoint -> history E -> Prop).
Context `{!KeepsIds S B inv managed dom allowed point, !Provides B provided}.
Context (ops : nat -> op) (ops_dom : forall t, dom (op_id (ops t))) (foreign : nat -> bool) (σ0 : Σ) (owned : inv σ0).

(** The index, as in [Compose]. *)
Context (c : Identify.config) (real : Identify.Pod -> Prop) (releasable : string -> Prop).
Context (ienv : nat -> Identify.Index -> Identify.Index).
Context (ienv_ok : forall n i, rtc (IdentifyFacts.istep c real releasable) i (ienv n i)).
Context (api : nat -> Identify.ListOptions -> Ctx -> Identify.Index -> result error (list Identify.Pod)).
Context (api_selects : forall n key ip ctx i pods,
  api n (Identify.mkListOptions key (Identify.by_ip ip)) ctx i = Ok pods ->
  Forall (fun p => real p /\ Identify.PodIP p = ip) pods).

Notation dstep := (dstep m S B ops foreign σ0).
Notation dreachable := (dreachable m S B ops foreign σ0).
Notation answered := (answered c real ienv api).

(** One handler's calls so far, answered while everything else runs. *)
Inductive serves : history Proxy.call -> deployed -> Prop :=
| sv_start d : dreachable d -> serves [] d
| sv_run h d d' : serves h d -> dstep d d' -> serves h d'
| sv_call h d e : serves h d -> answered (mgr d) e -> serves (h ++ [e]) d.

Lemma serves_dreachable h d : serves h d -> dreachable d.
Proof.
  induction 1 as [| h d d' _ (t & mx & IH) Hs|]; [done| |done]. exists t, mx. by eapply rtc_r.
Qed.

(** Calls that one state answers. *)
Lemma serves_all d l : dreachable d -> Forall (answered (mgr d)) l -> serves l d.
Proof.
  intros Hd. induction l as [|e l IH] using rev_ind; [by constructor|].
  intros [Hl He]%Forall_app. constructor; [by apply IH|by inversion He].
Qed.

(** To the manager a step of the system is one of its own, or none. *)
Lemma dstep_gstep d d' : dstep d d' -> rtc (gstep m) (mgr d) (mgr d').
Proof.
  destruct 1 as [s s' n fl H Hs _|s n fl H i g|s n fl H|s n fl H t e|s n fl H i t pr b pr' st' _ Hpr Hs];
    simpl; [by apply rtc_once|done..|].
  apply rtc_once. pose proof (g_run m s i pr [] pr' st' Hpr Hs) as Hg. by rewrite app_nil_r in Hg.
Qed.

Lemma realises_rtc h s s' :
  realises m c real ienv api h s -> rtc (gstep m) s s' -> realises m c real ienv api h s'.
Proof. intros Hr. induction 1; [done|]. apply IHrtc. by eapply re_run. Qed.

Lemma serves_realises h d : serves h d -> realises m c real ienv api h (mgr d).
Proof.
  induction 1 as [d Hd|h d d' _ IH Hs|h d e _ IH He].
  - apply re_start. destruct (dreachable_ok m S B ops foreign σ0 d Hd) as [pcs Hok].
    apply Hok.
  - by eapply realises_rtc, dstep_gstep.
  - by apply re_call.
Qed.

(** An endpoint the manager has is the result of an execution whose calls are on the server. *)
Lemma ensured_executed d id ep :
  dreachable d -> BEnsure id (Ok ep) ∈ calls (sst (mgr d)) ->
  exists t ctx, over foreign d t /\ ops t = DoEnsure ctx id /\ result_of B ops t (BEnsure id (Ok ep)) (traffic d) /\
    provided id ep (mine t (traffic d)).
Proof.
  intros Hd Hc. destruct (dreachable_ok m S B ops foreign σ0 d Hd) as [pcs Hok].
  destruct (d_ensured _ _ _ _ _ _ _ _ Hok id ep Hc) as (t & ctx & Hover & Ho & Hres).
  exists t, ctx. split_and!; [done..|].
  unfold result_of in Hres. rewrite Ho in Hres. destruct Hres as [_ [env Hrun]].
  destruct (adds_run _ _ _ _ _ (provides env ctx id) Hrun) as (l & Hl & Hp). simpl in Hl. subst l. by apply Hp.
Qed.

Lemma ensured_served d id ep :
  dreachable d -> BEnsure id (Ok ep) ∈ calls (sst (mgr d)) ->
  exists t ctx, over foreign d t /\ ops t = DoEnsure ctx id /\ provided id ep (mine t (traffic d)) /\
    exists H1 e H2, traffic d = H1 ++ (t, e) :: H2 /\ point (ops t) e = true /\
      managed (after S σ0 (H1 ++ [(t, e)]).*2) id.
Proof.
  intros Hd Hc. destruct (ensured_executed d id ep Hd Hc) as (t & ctx & Hover & Ho & Hres & Hp).
  destruct (dreachable_ok m S B ops foreign σ0 d Hd) as [pcs Hok].
  exists t, ctx. split_and!; [done..|].
  apply (took_effect S B inv managed dom allowed point ops σ0 (traffic d) t ctx id); try done;
    try apply Hok.
  apply (returned_true S B inv managed dom allowed point). by eapply result_returned.
Qed.

(** C7. End to end, for the whole proxy with its backend and the server: everything it dials or
    sends for a client is for an endpoint that an Ensure of the id of a pod with the
    client's address returned, on the strength of calls the server answered -- among them
    one after which the id's sandbox was on the server -- or, after a Refresh of its
    session, for the zero endpoint of a session still being brought up. *)
Theorem end_to_end (env : environment Proxy.call) (r : Request) (h l : history Proxy.call) (d : deployed) :
  from_server r -> (ServeHTTP env r h).2 = h ++ l -> serves l d ->
  forall e, e ∈ l -> outbound e = true ->
    exists id endpoint, client_id c real r id /\ bound_for l endpoint e /\
      ((exists t ctx, over foreign d t /\ ops t = DoEnsure ctx id /\ provided id endpoint (mine t (traffic d)) /\
          exists H1 e' H2, traffic d = H1 ++ (t, e') :: H2 /\ point (ops t) e' = true /\
            managed (after S σ0 (H1 ++ [(t, e')]).*2) id) \/
       endpoint = Endpoint_zero /\ omap refreshed l <> []).
Proof.
  intros Hsrv Hrun Hr e He Hout.
  destruct (outbound_ensured m c real releasable ienv ienv_ok api api_selects env r h l (mgr d) Hsrv Hrun
    (serves_realises l d Hr) e He Hout) as (id & ep & Hid & Hb & [Hc|Hz]);
    exists id, ep; split_and!; try done; [left|by right].
  by apply ensured_served; [eapply serves_dreachable|].
Qed.
End whole.
