(* ===== verification/Provision.v ===== *)
(** * The backends behind the whole proxy, and the proxy evaluated

    Each backend discharges the interface [Provides] of [EndToEnd], so that [end_to_end]
    speaks of the objects and actors its server reports; with the SandboxClaim backend the
    requests of a client go to the address of its id's ready claim ([claims_end_to_end]). *)

From S2P Require Import Prelude GoStd Effects Backend Metrics Session SessionFacts SessionSys SessionSched SessionInv SessionClient Compose Ids Delays Store Cluster Deployed Race EndToEnd.
From S2P Require Proxy ProxyFacts ProxyProps Identify IdentifyFacts Kube SandboxClaim Isola KarsSandbox AteApi Substrate SubstrateFacts SubstrateStore.
Local Open Scope Z_scope.

(** ** The interface, discharged *)

Section instances.
Context `{!Kube.Unstructured, !Kube.Poller (history Kube.call)}.

#[export] Instance claim_provides s :
  Provides (fun env => SandboxClaim.SandboxClaim_backend env s) (SandboxClaim.claim_provided s).
Proof. intros env ctx id. eapply adds_mono; [apply SandboxClaim.claim_ensure_adds|]. by intros r l []. Qed.

#[export] Instance isola_provides sha256 b :
  Provides (fun env => Isola.Isola_backend sha256 env b) (Isola.isola_provided sha256 b).
Proof. intros env ctx id. eapply adds_mono; [apply Isola.isola_ensure_adds|]. by intros r l []. Qed.

#[export] Instance kars_provides k :
  Provides (fun env => KarsSandbox.Kars_backend env k) (fun id ep l => KarsSandbox.admitted k id l ep).
Proof. intros env ctx id. eapply adds_mono; [apply KarsSandbox.kars_ensure_adds|]. by intros r l []. Qed.
End instances.

#[export] Instance substrate_provides MessageString s fuel :
  Provides (fun env => SubstrateStore.Substrate_backend MessageString env s fuel)
    (SubstrateFacts.actor_provided s).
Proof.
  intros env ctx id. eapply adds_bind; [apply SubstrateFacts.substrate_ensure_adds|].
  intros [r|] l (_ & _ & Hl); apply adds_ret; rewrite app_nil_r; intros ep Hr; [|done].
  apply Hl. by f_equal.
Qed.

(** ** The claim a client's requests go to *)

Lemma mine_last {E : Type -> Type} (t : nat) (H : list (nat * event E)) e :
  last (mine t H) = Some e -> exists H1 H2, H = H1 ++ (t, e) :: H2.
Proof.
  intros (l & Hl)%last_Some. assert (e ∈ mine t H) as Hin by (rewrite Hl; set_solver).
  unfold mine in Hin. apply list_elem_of_fmap in Hin as ([u e'] & -> & [Hu Hin]%list_elem_of_filter).
  simpl in *. subst u. apply list_elem_of_split in Hin as (H1 & H2 & ->). by exists H1, H2.
Qed.

Section claims.
Context `{!Kube.Unstructured, !Kube.Poller (history Kube.call)} (m : Manager).
Context (s : SandboxClaim.SandboxClaim) (key_differs : SandboxClaim.playwrightIDLabelKey s <> Kube.managedByLabel).
Context (ops : nat -> op) (foreign : nat -> bool) (σ0 : Store.store (Kube.GVR * string * string) Kube.object).
Context (owned : cr_owned (claim_cr s) (fun _ => True) σ0).

Notation claims := (fun env => SandboxClaim.SandboxClaim_backend env s).

(** In an earlier state of the server, [id]'s claim was there, as the proxy makes it, and was
    reported ready at the address and with the configured ports. *)
Definition claim_was_ready (d : deployed) (id : string) (ep : Endpoint) : Prop :=
  Port ep = SandboxClaim.port s /\ MCPPort ep = SandboxClaim.mcpPort s /\ TargetActor ep = EmptyString /\
  exists H1 t e H2 claim, traffic d = H1 ++ (t, e) :: H2 /\
    Kube.is_get SandboxClaim.sandboxClaimGVR (SandboxClaim.namespace s) (SandboxClaim.claimName id) e /\
    Kube.got_object e = Some claim /\ SandboxClaim.ready_at claim (Host ep) /\
    cr_managed (claim_cr s) (after api_server σ0 H1.*2) id.

(** An object the server really got is one it had. *)
Lemma got_present (σ : gmap (Kube.GVR * string * string) Kube.object) r ns name e o :
  Kube.is_get r ns name e -> Kube.got_object e = Some o -> true_answer σ e -> is_Some (σ !! (r, ns, name)).
Proof.
  destruct e as [A [] a]; try done. unfold Kube.is_get, Kube.got_object, true_answer. simpl.
  intros (-> & -> & ->) Ho Ha. by destruct a.
Qed.

Lemma provided_claim_ready d t id ep :
  dreachable m api_server claims ops foreign σ0 d ->
  SandboxClaim.claim_provided s id ep (mine t (traffic d)) -> claim_was_ready d id ep.
Proof.
  intros Hd (Hact & Hport & Hmcp & e & claim & Hlast & Hget & Hobj & Hready).
  destruct (mine_last t _ e Hlast) as (H1 & H2 & Hsplit).
  split_and!; [done..|]. exists H1, t, e, H2, claim. split_and!; [done..|].
  destruct (dreachable_ok m api_server claims ops foreign σ0 d Hd) as [pcs Hok].
  pose proof (d_honest _ _ _ _ _ _ _ _ Hok) as Hhon. pose proof (d_executing _ _ _ _ _ _ _ _ Hok) as Hx.
  rewrite Hsplit in Hhon, Hx. rewrite fmap_app, honestly_app in Hhon. destruct Hhon as [Hhon [He _]].
  assert (cr_owned (claim_cr s) (fun _ => True) (after api_server σ0 H1.*2)) as Hinv.
  { pose proof (claim_serves_ids s key_differs) as Hserve.
    eapply (@serves_ids_inv _ _ api_server claims _ _ _ _ _ _ _ _ _ Hserve);
      [|by intros|exact owned|exact Hhon|by eapply executing_app].
    intros σ i. apply staying_dec. apply _. }
  apply (present_managed (claim_cr s) (fun _ => True)); [done|exact Hinv|].
  destruct (got_present _ _ _ _ _ _ Hget Hobj He) as [o Ho]. exists o.
  eapply lookup_weaken; [exact Ho|apply objects_now_sub].
Qed.

(** The index, as in [Compose]. *)
Context (c : Identify.config) (real : Identify.Pod -> Prop) (releasable : string -> Prop).
Context (ienv : nat -> Identify.Index -> Identify.Index).
Context (ienv_ok : forall n i, rtc (IdentifyFacts.istep c real releasable) i (ienv n i)).
Context (api : nat -> Identify.ListOptions -> Ctx -> Identify.Index -> result error (list Identify.Pod)).
Context (api_selects : forall n key ip ctx i pods,
  api n (Identify.mkListOptions key (Identify.by_ip ip)) ctx i = Ok pods ->
  Forall (fun p => real p /\ Identify.PodIP p = ip) pods).

(** C8. With the SandboxClaim backend, and whatever the handlers, the manager, the index, the
    controllers and the API server do meanwhile (deletions may linger, failed calls may take
    effect), everything the proxy dials or sends for a
    client goes to the address, with the configured ports, that the claim of the client's
    id was reported ready with while it was on the server as the proxy makes it -- or,
    after a Refresh, to the zero endpoint. *)
Theorem claims_end_to_end (env : environment Proxy.call) (r : Proxy.Request)
    (h l : history Proxy.call) (d : deployed) :
  ProxyProps.from_server r -> (Proxy.ServeHTTP env r h).2 = h ++ l ->
  serves m api_server claims ops foreign σ0 c real ienv api l d ->
  forall e, e ∈ l -> ProxyProps.outbound e = true ->
    exists id endpoint, client_id c real r id /\ bound_for l endpoint e /\
      (claim_was_ready d id endpoint \/ endpoint = Endpoint_zero /\ omap ProxyFacts.refreshed l <> []).
Proof.
  intros Hsrv Hrun Hr e He Hout.
  destruct (outbound_ensured m c real releasable ienv ienv_ok api api_selects env r h l (mgr d) Hsrv Hrun
    (serves_realises m api_server claims ops foreign σ0 c real ienv api l d Hr) e He Hout)
    as (id & ep & Hid & Hb & [Hc|Hz]); exists id, ep; split_and!; try done; [left|by right].
  pose proof (serves_dreachable m api_server claims ops foreign σ0 c real ienv api l d Hr) as Hd.
  destruct (ensured_executed m api_server claims (SandboxClaim.claim_provided s) ops foreign σ0 d id ep Hd Hc)
    as (t & ctx & _ & _ & _ & Hp).
  by eapply provided_claim_ready.
Qed.
End claims.

(** ** The whole proxy at work *)

(** A pod of [alice], and an index that finds it with its first List. *)
Definition alice_pod : Identify.Pod := IdentifyFacts.demo_pod "w-1" "10.0.0.1" "alice".
Definition alice_list (n : nat) (opts : Identify.ListOptions) (ctx : Ctx) (i : Identify.Index)
  : result error (list Identify.Pod) :=
  Ok (if decide (Identify.FieldSelector opts = Identify.by_ip "10.0.0.1") then [alice_pod] else []).

Lemma alice_selects n key ip ctx i pods :
  alice_list n (Identify.mkListOptions key (Identify.by_ip ip)) ctx i = Ok pods ->
  Forall (fun p => p = alice_pod /\ Identify.PodIP p = ip) pods.
Proof.
  unfold alice_list. cbn [Identify.FieldSelector]. case_decide as H; intros [= <-]; [|done].
  repeat constructor. cbn [Identify.PodIP alice_pod IdentifyFacts.demo_pod]. unfold Identify.by_ip in H. by apply (inj (String.append _)) in H.
Qed.

(** The system after her first Get ([Race.first_served]), and the answers of that state: the
    client is [alice], her session the first. *)
Definition claim_ep : Endpoint := mkEndpoint "10.0.0.7" "" 9222 8931.
Definition alice_world (transport : Proxy.Request -> list Z * result error Proxy.Response)
  : environment Proxy.call := fun A e h =>
  match e in Proxy.call A return A with
  | Proxy.Identify_Lookup _ => Some "alice"
  | e => ProxyProps.answers claim_ep transport true _ e h
  end.
Definition answered_ok (r : Proxy.Request) : list Z * result error Proxy.Response :=
  ([], Ok ProxyProps.ok_response).
Definition alice_trace : history Proxy.call :=
  (Proxy.ServeHTTP (alice_world answered_ok) (ProxyProps.post ∅) []).2.

Lemma alice_lookup :
  exists w w', IdentifyFacts.sound IdentifyFacts.demo_config (fun p => p = alice_pod) (Identify.idx w) /\
    Identify.Lookup IdentifyFacts.demo_config IdentifyFacts.nobody alice_list "10.0.0.1" w = (Some "alice", w').
Proof.
  exists IdentifyFacts.fresh. eexists. split; [|vm_compute; reflexivity].
  intros ip id H. simpl in H. by rewrite lookup_empty in H.
Qed.

Notation alice_answered := (answered IdentifyFacts.demo_config (fun p => p = alice_pod)
  IdentifyFacts.nobody alice_list (mgr first_served)).

(** The calls of a request with their answers, up to the [n]th. *)
Definition alice_calls (n : nat) : history Proxy.call := take n alice_trace.

Lemma alice_all_answered : Forall alice_answered alice_trace.
Proof.
  assert (alice_trace = ltac:(let t := eval vm_compute in alice_trace in exact t)) as ->
    by (vm_compute; reflexivity).
  repeat constructor; first [apply alice_lookup|vm_compute; repeat constructor].
Qed.

Notation alice_serves l :=
  (serves demo_manager (@api_server Kube.sample_unstructured) sample_claim_backend reap_op nobody_else ∅
     IdentifyFacts.demo_config (fun p => p = alice_pod) IdentifyFacts.nobody alice_list l first_served).

Lemma alice_served n : alice_serves (alice_calls n).
Proof. apply serves_all; [apply first_served_reachable|]. apply Forall_take, alice_all_answered. Qed.

Lemma alice_served_all : alice_serves alice_trace.
Proof. apply serves_all; [apply first_served_reachable|apply alice_all_answered]. Qed.

Lemma end_to_end_witness :
  existsb ProxyProps.outbound alice_trace = true /\
  forall e, e ∈ alice_trace -> ProxyProps.outbound e = true -> exists id endpoint,
    client_id IdentifyFacts.demo_config (fun p => p = alice_pod) (ProxyProps.post ∅) id /\
    bound_for alice_trace endpoint e /\
    exists t, SandboxClaim.claim_provided sample_claims id endpoint (mine t (traffic first_served)).
Proof.
  split; [vm_compute; reflexivity|]. intros e He Hout.
  destruct (@end_to_end demo_manager _ _ _ _ _ _ _ _ _ (SandboxClaim.claim_provided sample_claims)
    sample_claims_keep_ids (@claim_provides Kube.sample_unstructured (Kube.sample_poller _) sample_claims)
    reap_op (fun _ => I) nobody_else ∅ (nothing_prompt _ _) IdentifyFacts.demo_config (fun p => p = alice_pod) (fun _ => True)
    IdentifyFacts.nobody (fun n i => rtc_refl _ i) alice_list alice_selects
    (alice_world answered_ok) (ProxyProps.post ∅) [] alice_trace first_served
    (ProxyProps.post_from_server ∅ ProxyProps.parsed_empty) eq_refl alice_served_all e He Hout)
    as (id & ep & Hid & Hb & [(t & _ & _ & _ & Hp & _)|[_ Hz]]).
  - exists id, ep. split; [exact Hid|]. split; [exact Hb|]. by exists t.
  - exfalso. apply Hz. vm_compute. reflexivity.
Defined.

(** The request goes to the address in the status of [alice]'s claim. *)
Lemma claims_end_to_end_witness :
  existsb ProxyProps.outbound alice_trace = true /\
  forall e, e ∈ alice_trace -> ProxyProps.outbound e = true -> exists id endpoint,
    client_id IdentifyFacts.demo_config (fun p => p = alice_pod) (ProxyProps.post ∅) id /\
    bound_for alice_trace endpoint e /\
    @claim_was_ready Kube.sample_unstructured sample_claims ∅ first_served id endpoint.
Proof.
  split; [vm_compute; reflexivity|]. intros e He Hout.
  destruct (@claims_end_to_end Kube.sample_unstructured (Kube.sample_poller _) demo_manager sample_claims
    ltac:(by_decision) reap_op nobody_else ∅ (nothing_owned _ _) IdentifyFacts.demo_config (fun p => p = alice_pod)
    (fun _ => True) IdentifyFacts.nobody (fun n i => rtc_refl _ i) alice_list alice_selects
    (alice_world answered_ok) (ProxyProps.post ∅) [] alice_trace first_served
    (ProxyProps.post_from_server ∅ ProxyProps.parsed_empty) eq_refl alice_served_all e He Hout)
    as (id & ep & Hid & Hb & [Hp|[_ Hz]]).
  - exists id, ep. split; [exact Hid|]. split; [exact Hb|exact Hp].
  - exfalso. apply Hz. vm_compute. reflexivity.
Defined.

(** The call after the Get marks its session active, and the manager can start it. *)
Lemma handler_obeys_manager_witness :
  gstep demo_manager (mgr first_served) (spawn [touch_goroutine TMark 0%nat] (mgr first_served)).
Proof.
  refine (proj1 (handler_obeys_manager demo_manager IdentifyFacts.demo_config (fun p => p = alice_pod)
    IdentifyFacts.nobody alice_list (alice_world answered_ok)
    (ProxyProps.post ∅) [] alice_trace eq_refl (alice_calls 3)
    (Ev (Proxy.Sess_MarkActive 0%nat) tt) (drop 4 alice_trace) (mgr first_served) _ _) _ eq_refl).
  - vm_compute. reflexivity.
  - exact (serves_realises demo_manager _ _ _ _ _ _ _ _ _ _ _ (alice_served 3)).
Defined.
