(* ===== verification/Main.v ===== *)
(** * The program ([cmd/playwright-proxy/main.go])

    [run] starts the parts in order and waits for the end of the context; the handlers of
    the management listener; what the end of each goroutine does to the context. *)

From S2P Require Import Prelude GoStd Effects Backend.
From S2P Require Config SandboxClaim Isola KarsSandbox Substrate Identify.
Local Open Scope Z_scope.

(** The backend a configuration selects, with what it is constructed of. *)
Inductive backend : Type :=
| BSandboxClaim (s : SandboxClaim.SandboxClaim)
| BSubstrate (s : Substrate.Substrate)
| BKars (k : KarsSandbox.KarsSandboxBackend)
| BIsola (b : Isola.IsolaBackend).

(** The goroutines [run] starts. *)
Inductive goroutine : Type :=
| PodInformer (ctx : Ctx) (labelKey namespace : string)
| ReapLoop (ctx : Ctx) (interval : Z)
| DataServer (addr : string) (b : backend) (ensureTimeout idleTTL : Z)
| MgmtServer (addr : string).

Inductive server := DataSrv | MgmtSrv.

#[export] Instance server_eq_dec : EqDecision server.
Proof. solve_decision. Defined.

Inductive call : Type -> Type :=
| InClusterConfig : call (option error)
| NewForConfig : call (option error)
| DynamicNewForConfig : call (option error)
| NewSubstrate (endpoint router template : string) (forceBoot : bool) (hosts : list string)
  : call (result error Substrate.Substrate)
| NotifyContext : call Ctx
| Now : call Z
| Go (g : goroutine) : call unit
| Reconcile (b : backend) (ctx : Ctx) : call (option error)
| AwaitDone (ctx : Ctx) : call unit
| Shutdown (s : server) (ctx : Ctx) : call (option error).

Section run.
Context (getenv : Config.environ) (env : environment call).
Notation do e := (perform env e).

Definition select_backend (cfg : Config.Config) : IO (history call) (result error backend) :=
  if decide (Config.Backend cfg = "sandboxclaim") then
    io_ret (Ok (BSandboxClaim (SandboxClaim.NewSandboxClaim (Config.Namespace cfg)
      (Config.TemplateName cfg) (Config.WarmPoolName cfg) (Config.SandboxPort cfg)
      (Config.SandboxMCPPort cfg) (Config.LabelKey cfg))))
  else if decide (Config.Backend cfg = "substrate") then
    let* bk := do (NewSubstrate (Config.SubstrateAPIEndpoint cfg) (Config.SubstrateRouterAddr cfg)
      (Config.SubstrateActorTemplate cfg) (Config.SubstrateForceBoot cfg)
      (Config.SubstrateAllowedHTTPHosts cfg)) in
    io_ret (let? s := bk in Ok (BSubstrate s))
  else if decide (Config.Backend cfg = "karssandbox") then
    io_ret (Ok (BKars (KarsSandbox.NewKarsSandbox (Config.Namespace cfg)
      (Config.KarsInferenceRef cfg) (Config.KarsSandboxImage cfg) (Config.SandboxPort cfg)
      (Config.LabelKey cfg))))
  else if decide (Config.Backend cfg = "isola") then
    io_ret (Ok (BIsola (Isola.NewIsolaBackend (Config.IsolaNamespace cfg)
      (Config.IsolaSandboxImage cfg) (Config.SandboxPort cfg)
      (Config.IsolaAllowedEgressCIDRs cfg) (Config.LabelKey cfg))))
  else io_ret (Err (Errorf "unknown backend %q" [FStr (Config.Backend cfg)])).

(** The part after the backend: it always ends in an orderly shutdown.  The two Shutdowns
    share one context of ten seconds. *)
Definition serve (cfg : Config.Config) (bk : backend) : IO (history call) unit :=
  let* ctx := do NotifyContext in
  do (Go (PodInformer ctx (Config.LabelKey cfg) (Config.Namespace cfg))) ;;
  let* t := do Now in
  let* reconciled := do (Reconcile bk (WithTimeout ctx t (10 * second))) in
  do (Go (ReapLoop ctx (Config.IdleCheckInterval cfg))) ;;
  do (Go (DataServer (Config.ListenAddr cfg) bk (Config.EnsureTimeout cfg) (Config.IdleTTL cfg))) ;;
  do (Go (MgmtServer (Config.MetricsAddr cfg))) ;;
  do (AwaitDone ctx) ;;
  let* t := do Now in
  let shutdownCtx := WithTimeout Background t (10 * second) in
  let* data := do (Shutdown DataSrv shutdownCtx) in
  let* mgmt := do (Shutdown MgmtSrv shutdownCtx) in
  io_ret tt.

Definition run : IO (history call) (option error) :=
  match Config.FromEnv getenv with
  | Err e => io_ret (Some (Errorf_w "config: %w" [] e))
  | Ok cfg =>
      let* rc := do InClusterConfig in
      match rc with
      | Some e => io_ret (Some (Errorf_w "in-cluster config (run inside a pod): %w" [] e))
      | None =>
          let* clientset := do NewForConfig in
          match clientset with
          | Some e => io_ret (Some (Errorf_w "kubernetes client: %w" [] e))
          | None =>
              let* dyn := do DynamicNewForConfig in
              match dyn with
              | Some e => io_ret (Some (Errorf_w "dynamic client: %w" [] e))
              | None =>
                  let* bk := select_backend cfg in
                  match bk with
                  | Err e => io_ret (Some e)
                  | Ok bk => serve cfg bk ;; io_ret None
                  end
              end
          end
      end
  end.

(** The exit status of the process. *)
Definition main : IO (history call) Z :=
  let* err := run in
  io_ret (match err with Some _ => 1 | None => 0 end).
End run.

(** ** The management listener *)

Definition readyz (idx : Identify.Index) : Z * string :=
  if negb (Identify.Ready idx) then (503, "informer cache not synced") else (200, "ok").
Definition healthz : Z * string := (200, "ok").

(** ** The ends of the goroutines *)

(** How a goroutine of [run] ended: the informer with its error, a server with the error
    of [ListenAndServe], which is [ErrServerClosed] after a shutdown. *)
Inductive ending :=
| InformerEnded (err : option error)
| DataServerEnded (err : option error) (closed : bool)
| MgmtServerEnded (err : option error) (closed : bool).

(** Whether the end cancels the context [run] waits for. *)
Definition cancels (cancelled : bool) (e : ending) : bool :=
  match e with
  | InformerEnded (Some _) => negb cancelled
  | DataServerEnded (Some _) closed => negb closed
  | _ => false
  end.

(** ** Start order *)

(** The goroutines a history started. *)
Definition started (h : history call) : list goroutine :=
  omap (fun e => match ev_call e with Go g => Some g | _ => None end) h.

(** The backend of a configuration, but for the connection of the Substrate one. *)
Definition backend_for (cfg : Config.Config) (b : backend) : Prop :=
  match b with
  | BSandboxClaim s => Config.Backend cfg = "sandboxclaim" /\
      s = SandboxClaim.NewSandboxClaim (Config.Namespace cfg) (Config.TemplateName cfg)
            (Config.WarmPoolName cfg) (Config.SandboxPort cfg) (Config.SandboxMCPPort cfg)
            (Config.LabelKey cfg)
  | BSubstrate _ => Config.Backend cfg = "substrate"
  | BKars k => Config.Backend cfg = "karssandbox" /\
      k = KarsSandbox.NewKarsSandbox (Config.Namespace cfg) (Config.KarsInferenceRef cfg)
            (Config.KarsSandboxImage cfg) (Config.SandboxPort cfg) (Config.LabelKey cfg)
  | BIsola b => Config.Backend cfg = "isola" /\
      b = Isola.NewIsolaBackend (Config.IsolaNamespace cfg) (Config.IsolaSandboxImage cfg)
            (Config.SandboxPort cfg) (Config.IsolaAllowedEgressCIDRs cfg) (Config.LabelKey cfg)
  end.

Section facts.
Context (getenv : Config.environ) (env : environment call).

Lemma select_backend_adds cfg :
  adds (select_backend env cfg) (fun r l => started l = [] /\
    forall b, r = Ok b -> backend_for cfg b).
Proof.
  unfold select_backend. repeat case_decide; try (apply adds_ret; naive_solver).
  apply adds_call. intros bk. apply adds_ret. split; [done|].
  by intros b (s & _ & [= <-])%result_bind_Ok.
Qed.

(** The calls of [serve], whatever they answer. *)
Definition service (cfg : Config.Config) (bk : backend) (l : history call) : Prop :=
  exists ctx t reconciled t' data mgmt,
    l = [Ev NotifyContext ctx;
         Ev (Go (PodInformer ctx (Config.LabelKey cfg) (Config.Namespace cfg))) tt;
         Ev Now t;
         Ev (Reconcile bk (WithTimeout ctx t (10 * second))) reconciled;
         Ev (Go (ReapLoop ctx (Config.IdleCheckInterval cfg))) tt;
         Ev (Go (DataServer (Config.ListenAddr cfg) bk (Config.EnsureTimeout cfg)
                   (Config.IdleTTL cfg))) tt;
         Ev (Go (MgmtServer (Config.MetricsAddr cfg))) tt;
         Ev (AwaitDone ctx) tt;
         Ev Now t';
         Ev (Shutdown DataSrv (WithTimeout Background t' (10 * second))) data;
         Ev (Shutdown MgmtSrv (WithTimeout Background t' (10 * second))) mgmt].

Lemma serve_adds cfg bk : adds (serve env cfg bk) (fun _ l => service cfg bk l).
Proof.
  unfold serve, service. apply adds_call; intros ctx. apply adds_call; intros [].
  apply adds_call; intros t. apply adds_call; intros reconciled.
  apply adds_call; intros []. apply adds_call; intros []. apply adds_call; intros [].
  apply adds_call; intros []. apply adds_call; intros t'.
  apply adds_call; intros data. apply adds_call; intros mgmt. apply adds_ret.
  by exists ctx, t, reconciled, t', data, mgmt.
Qed.

(** When [run] fails it has started nothing.  Otherwise the configuration was valid, and
    with the backend it selects [run] started the informer, reconciled, and only then, a
    failed reconciliation or not, the reaper and the two listeners; it ended with the
    shutdown of both. *)
Theorem run_starts_in_order (h : history call) :
  exists l, (run getenv env h).2 = h ++ l /\
    match (run getenv env h).1 with
    | Some _ => started l = []
    | None => exists cfg bk l0 l1, Config.FromEnv getenv = Ok cfg /\ backend_for cfg bk /\
        l = l0 ++ l1 /\ started l0 = [] /\ service cfg bk l1
    end.
Proof.
  enough (adds (run getenv env) (fun r l =>
    match r with
    | Some _ => started l = []
    | None => exists cfg bk l0 l1, Config.FromEnv getenv = Ok cfg /\ backend_for cfg bk /\
        l = l0 ++ l1 /\ started l0 = [] /\ service cfg bk l1
    end)) as Ha by exact (Ha h).
  unfold run. destruct (Config.FromEnv getenv) as [cfg|e]; [|by apply adds_ret].
  apply adds_call. intros [e|]; [by apply adds_ret|].
  apply adds_call. intros [e|]; [by apply adds_ret|].
  apply adds_call. intros [e|]; [by apply adds_ret|].
  eapply adds_bind; [apply select_backend_adds|]. intros [bk|e] l [Hl Hbk].
  2:{ apply adds_ret. by rewrite app_nil_r. }
  eapply adds_bind; [apply serve_adds|]. intros [] l' Hservice. apply adds_ret.
  rewrite app_nil_r. exists cfg, bk. eexists (_ :: _ :: _ :: l), l'.
  split; [done|]. split; [by apply Hbk|]. split; [reflexivity|]. split; [exact Hl|done].
Qed.
End facts.
