(* ===== verification/Lifetime.v ===== *)
(** * The life of the program ([cmd/playwright-proxy/main.go], past the choice of the backend)

    The goroutines of [run] together: [run] itself, the informer, the reaping loop, the two
    listeners, and with them the goroutines of the session manager that the requests start.
    They share the context of the process, which a signal, the informer and the listeners
    cancel and [run] waits for.  [pstep] plays one step of one of them; [net/http] servers are
    modelled by their listener and the number of their connections in each state. *)

From S2P Require Import Prelude GoStd Effects Backend Metrics Session SessionFacts SessionSys SessionSched SessionFair.
From S2P Require Config Identify Main.
Local Open Scope Z_scope.

(** ** HTTP servers *)

(** The goroutine of [ListenAndServe]: started, past its check of [inShutdown], accepting,
    returned (with [ErrServerClosed] or not). *)
Inductive listener :=
| Unstarted
| Launched
| Binding
| Serving
| Returned (err : error) (closed : bool).

(** Connections are active (new ones and those with a request), idle, or hijacked. *)
Record http_server := mkServer {
  listening : listener;
  inShutdown : bool;
  active : nat;
  idle : nat;
  hijacked : nat;
}.

Definition unstarted : http_server := mkServer Unstarted false 0 0 0.

Definition ErrServerClosed : error := NewError "http: Server closed".

Definition with_listener (l : listener) (s : http_server) : http_server :=
  mkServer l (inShutdown s) (active s) (idle s) (hijacked s).

(** The steps of [ListenAndServe]: its check, what [net.Listen] returns, an [Accept] that
    fails for good, and its end after the listener was closed. *)
Inductive listener_act :=
| Check | Listened (err : option error) | AcceptFails (e : error) | Unlistened.

Definition listener_step (a : listener_act) (s : http_server) : option http_server :=
  match listening s, a with
  | Launched, Check =>
      Some (with_listener (if inShutdown s then Returned ErrServerClosed true else Binding) s)
  | Binding, Listened (Some e) => Some (with_listener (Returned e false) s)
  | Binding, Listened None =>
      Some (with_listener (if inShutdown s then Returned ErrServerClosed true else Serving) s)
  | Serving, AcceptFails e =>
      if inShutdown s then None else Some (with_listener (Returned e false) s)
  | Serving, Unlistened =>
      if inShutdown s then Some (with_listener (Returned ErrServerClosed true) s) else None
  | _, _ => None
  end.

(** What happens to the connections. *)
Inductive conn_act := Accept | Rest | Resume | HangUp (from_idle : bool) | Hijack | TunnelEnds.

Definition with_conns (a i h : nat) (s : http_server) : http_server :=
  mkServer (listening s) (inShutdown s) a i h.

Definition conn_step (a : conn_act) (s : http_server) : option http_server :=
  match a with
  | Accept =>
      match listening s with
      | Serving => (* also between [Shutdown]'s flag and the end of the listener *)
          Some (with_conns (S (active s)) (idle s) (hijacked s) s)
      | _ => None
      end
  | Rest => (* a server that shuts down keeps no connection alive *)
      match active s with
      | S n => Some (with_conns n (if inShutdown s then idle s else S (idle s)) (hijacked s) s)
      | O => None
      end
  | Resume =>
      match idle s with S n => Some (with_conns (S (active s)) n (hijacked s) s) | O => None end
  | HangUp false =>
      match active s with S n => Some (with_conns n (idle s) (hijacked s) s) | O => None end
  | HangUp true =>
      match idle s with S n => Some (with_conns (active s) n (hijacked s) s) | O => None end
  | Hijack =>
      match active s with S n => Some (with_conns n (idle s) (S (hijacked s)) s) | O => None end
  | TunnelEnds =>
      match hijacked s with S n => Some (with_conns (active s) (idle s) n s) | O => None end
  end.

(** [Shutdown]: it closes the listeners and waits for [Serve] to return; it then closes the
    idle connections until there is no active one, or its context is done. *)
Definition begin_shutdown (s : http_server) : http_server :=
  mkServer (listening s) true (active s) (idle s) (hijacked s).

Definition serve_returned (s : http_server) : bool :=
  match listening s with Serving => false | _ => true end.

Definition closeIdleConns (s : http_server) : bool * http_server :=
  (bool_decide (active s = 0%nat), with_conns (active s) 0 (hijacked s) s).

(** ** The other goroutines *)

(** [identify.Run], then the end of its goroutine. *)
Inductive informer :=
| INone
| IRegister   (* before AddEventHandler *)
| ISync       (* started; waits for the caches *)
| IReady      (* synced *)
| IWait       (* for the end of the context *)
| IReturned (err : option error)
| IEnded (err : option error).

(** [ReapLoop]: before [NewTicker], at its select, in [reapOnce], which is goroutine [i] of
    the manager's. *)
Inductive reaper := RNone | RStart | RSelect | RReaping (i : nat) | REnded.

(** Where [run] is. *)
Inductive rpc :=
| StartInformer
| StartReconcile
| Reconciling (i : nat)  (* goroutine [i] of the manager's *)
| StartReaper
| StartData
| StartMgmt
| Waiting
| ShutBegin (s : Main.server) (sctx : Ctx)
| ShutDrain (s : Main.server) (sctx : Ctx)
| ShutPoll (s : Main.server) (sctx : Ctx) (polled : bool)
| Exited (sctx : Ctx)
| Panicked.

(** What [run] has called, without the answers. *)
Definition called : Type := { A : Type & Main.call A }.
Definition calls_of (l : history Main.call) : list called :=
  map (fun e => existT _ (ev_call e)) l.

Record program := mkProgram {
  psys : system;
  pidx : Identify.Index;
  prun : rpc;
  pinformer : informer;
  preaper : reaper;
  pdata : http_server;
  pmgmt : http_server;
  psignalled : bool;
  plog : list called;
}.

Definition with_sys (s : system) (p : program) : program :=
  mkProgram s (pidx p) (prun p) (pinformer p) (preaper p) (pdata p) (pmgmt p) (psignalled p) (plog p).
Definition with_idx (i : Identify.Index) (p : program) : program :=
  mkProgram (psys p) i (prun p) (pinformer p) (preaper p) (pdata p) (pmgmt p) (psignalled p) (plog p).
Definition with_run (c : rpc) (p : program) : program :=
  mkProgram (psys p) (pidx p) c (pinformer p) (preaper p) (pdata p) (pmgmt p) (psignalled p) (plog p).
Definition with_informer (i : informer) (p : program) : program :=
  mkProgram (psys p) (pidx p) (prun p) i (preaper p) (pdata p) (pmgmt p) (psignalled p) (plog p).
Definition with_reaper (r : reaper) (p : program) : program :=
  mkProgram (psys p) (pidx p) (prun p) (pinformer p) r (pdata p) (pmgmt p) (psignalled p) (plog p).
Definition with_data (s : http_server) (p : program) : program :=
  mkProgram (psys p) (pidx p) (prun p) (pinformer p) (preaper p) s (pmgmt p) (psignalled p) (plog p).
Definition with_mgmt (s : http_server) (p : program) : program :=
  mkProgram (psys p) (pidx p) (prun p) (pinformer p) (preaper p) (pdata p) s (psignalled p) (plog p).
Definition with_signal (p : program) : program :=
  mkProgram (psys p) (pidx p) (prun p) (pinformer p) (preaper p) (pdata p) (pmgmt p) true (plog p).
Definition with_call {A} (c : Main.call A) (p : program) : program :=
  mkProgram (psys p) (pidx p) (prun p) (pinformer p) (preaper p) (pdata p) (pmgmt p) (psignalled p)
    (plog p ++ [existT A c]).

Definition server_of (s : Main.server) (p : program) : http_server :=
  match s with Main.DataSrv => pdata p | Main.MgmtSrv => pmgmt p end.
Definition with_server (s : Main.server) (h : http_server) (p : program) : program :=
  match s with Main.DataSrv => with_data h p | Main.MgmtSrv => with_mgmt h p end.

(** The context [signal.NotifyContext] makes; no request has it: the servers have no
    BaseContext. *)
Definition process : nat := 1.
Definition process_ctx : Ctx := mkCtx process None.

Definition done (p : program) : bool := root_cancelled process (sst (psys p)).

Definition cancel_process (p : program) : program :=
  with_sys (mkSystem (set_cancelled ({[process]} ∪ cancelled (sst (psys p))) (sst (psys p)))
              (pool (psys p))) p.

(** Whether goroutine [i] of the manager's has returned. *)
Definition returned (i : nat) (p : program) : bool :=
  match pool (psys p) !! i with Some g => is_finished g | None => false end.

(** Handlers run on active and hijacked connections. *)
Definition busy (p : program) : bool := bool_decide (0 < active (pdata p) + hijacked (pdata p))%nat.

Definition running (p : program) : bool :=
  match prun p with Exited _ | Panicked => false | _ => true end.

(** ** Steps *)

Section lifetime.
Context (cfg : Config.Config) (bk : Main.backend).

Definition manager : Manager :=
  mkManager (Config.Backend cfg) (Config.EnsureTimeout cfg) (Config.IdleTTL cfg).
Definition idx_config : Identify.config :=
  Identify.mkConfig (Config.LabelKey cfg) true (Config.Namespace cfg).

(** [run] has made its backend, [NotifyContext] and [metrics.New]. *)
Definition launch (t : Z) (mx : option Metrics) : program :=
  mkProgram (init t mx) (Identify.New t mx) StartInformer INone RNone unstarted unstarted false
    (calls_of [Ev Main.NotifyContext process_ctx]).

Definition clock_of (p : program) : Z := clock (sst (psys p)).

(** The step of [run] itself.  A finished [Reconcile] is only logged when it fails; its context
    is not used again, so that [rcancel] does nothing more. *)
Definition run_step (p : program) : option program :=
  match prun p with
  | StartInformer =>
      Some (with_call (Main.Go (Main.PodInformer process_ctx (Config.LabelKey cfg) (Config.Namespace cfg)))
        (with_informer IRegister (with_run StartReconcile p)))
  | StartReconcile =>
      let rctx := WithTimeout process_ctx (clock_of p) (10 * second) in
      Some (with_call (Main.Reconcile bk rctx) (with_call Main.Now
        (with_sys (spawn [reconcile_goroutine rctx] (psys p))
          (with_run (Reconciling (length (pool (psys p)))) p))))
  | Reconciling i => if returned i p then Some (with_run StartReaper p) else None
  | StartReaper =>
      Some (with_call (Main.Go (Main.ReapLoop process_ctx (Config.IdleCheckInterval cfg)))
        (with_reaper RStart (with_run StartData p)))
  | StartData =>
      Some (with_call (Main.Go (Main.DataServer (Config.ListenAddr cfg) bk
                         (Config.EnsureTimeout cfg) (Config.IdleTTL cfg)))
        (with_data (with_listener Launched (pdata p)) (with_run StartMgmt p)))
  | StartMgmt =>
      Some (with_call (Main.AwaitDone process_ctx)
        (with_call (Main.Go (Main.MgmtServer (Config.MetricsAddr cfg)))
          (with_mgmt (with_listener Launched (pmgmt p)) (with_run Waiting p))))
  | Waiting =>
      if done p then
        Some (with_call Main.Now (with_run (ShutBegin Main.DataSrv
          (WithTimeout Background (clock_of p) (10 * second))) p))
      else None
  | ShutBegin s sctx =>
      Some (with_call (Main.Shutdown s sctx)
        (with_server s (begin_shutdown (server_of s p)) (with_run (ShutDrain s sctx) p)))
  | ShutDrain s sctx =>
      if serve_returned (server_of s p) then Some (with_run (ShutPoll s sctx false) p) else None
  | ShutPoll s sctx _ =>
      let '(quiescent, h) := closeIdleConns (server_of s p) in
      Some (with_server s h (with_run
        (if quiescent
         then match s with Main.DataSrv => ShutBegin Main.MgmtSrv sctx | Main.MgmtSrv => Exited sctx end
         else ShutPoll s sctx true) p))
  | Exited _ | Panicked => None
  end.

(** The other branch of the select of [Shutdown]. *)
Definition expire_step (p : program) : option program :=
  match prun p with
  | ShutPoll s sctx true =>
      match ctx_Err sctx (sst (psys p)) with
      | Some _ => Some (with_run
          (match s with Main.DataSrv => ShutBegin Main.MgmtSrv sctx | Main.MgmtSrv => Exited sctx end) p)
      | None => None
      end
  | _ => None
  end.

(** A goroutine of [run] ended: it cancels the context or does not. *)
Definition at_end (e : Main.ending) (p : program) : program :=
  if Main.cancels (done p) e then cancel_process p else p.

(** The informer: [AddEventHandler] returns, the caches sync, which they only fail to when the
    context is done. *)
Inductive informer_act := Registered (err : option error) | Synced | Unsynced | Proceed.

Definition informer_step (a : informer_act) (p : program) : option program :=
  match pinformer p, a with
  | IRegister, Registered (Some e) =>
      Some (with_informer (IReturned (Some (Errorf_w "add event handler: %w" [] e))) p)
  | IRegister, Registered None => Some (with_informer ISync p)
  | ISync, Synced => Some (with_informer IReady p)
  | ISync, Unsynced =>
      if done p then Some (with_informer (IReturned (Some (Errorf "pod cache sync failed" []))) p)
      else None
  | IReady, Proceed => Some (with_informer IWait (with_idx (Identify.set_ready (pidx p)) p))
  | IWait, Proceed => if done p then Some (with_informer (IReturned None) p) else None
  | IReturned err, Proceed =>
      Some (with_informer (IEnded err) (at_end (Main.InformerEnded err) p))
  | _, _ => None
  end.

(** The reaping loop. *)
Inductive reaper_act := Begin | Ticked (ord : order) | LoopDone | Reaped.

Definition reaper_step (a : reaper_act) (p : program) : option program :=
  match preaper p, a with
  | RStart, Begin =>
      Some (if Config.IdleCheckInterval cfg <=? 0 then with_run Panicked p
            else with_reaper RSelect p)
  | RSelect, Ticked ord =>
      Some (with_sys (spawn [reap_goroutine manager ord process_ctx] (psys p))
        (with_reaper (RReaping (length (pool (psys p)))) p))
  | RSelect, LoopDone => if done p then Some (with_reaper REnded p) else None
  | RReaping i, Reaped => if returned i p then Some (with_reaper RSelect p) else None
  | _, _ => None
  end.

(** What the end of a listener's goroutine does. *)
Definition listener_end (s : Main.server) (l : listener) (p : program) : program :=
  match l with
  | Returned e closed =>
      at_end (match s with
              | Main.DataSrv => Main.DataServerEnded (Some e) closed
              | Main.MgmtSrv => Main.MgmtServerEnded (Some e) closed
              end) p
  | _ => p
  end.

Inductive label :=
| LRun | LExpire
| LInformer (a : informer_act)
| LReaper (a : reaper_act)
| LListener (s : Main.server) (a : listener_act)
| LConn (s : Main.server) (a : conn_act)
| LSignal
| LGo (i : nat) (ans : answer)
| LTick (d : Z)
| LCancel (r : nat)
| LGet (ctx : Ctx) (id : string)
| LRefresh (ctx : Ctx) (l : loc)
| LTouch (t : touch) (l : loc)
| LNotify (e : Identify.event)
| LLookup (i : Identify.Index).

Definition listener_label (s : Main.server) (a : listener_act) (p : program) : option program :=
  h ← listener_step a (server_of s p); Some (listener_end s (listening h) (with_server s h p)).

Definition conn_label (s : Main.server) (a : conn_act) (p : program) : option program :=
  h ← conn_step a (server_of s p); Some (with_server s h p).

(** What a handler may do needs a connection. *)
Definition handling (s : option system) (p : program) : option program :=
  if busy p then s' ← s; Some (with_sys s' p) else None.

Definition gave_held (l : loc) (g : prog outcome) : bool :=
  match g with
  | Ret (OGet _ (Ok q)) | Ret (ORefresh _ (Ok q)) => bool_decide (l = q)
  | _ => false
  end.

(** The handlers of the informer run once it is started. *)
Definition notified (p : program) : bool :=
  match pinformer p with INone | IRegister => false | _ => true end.

Definition own_ctx (c : Ctx) : bool := bool_decide (ctx_root c <> process).

Definition act (l : label) (p : program) : option program :=
  match l with
  | LRun => run_step p
  | LExpire => expire_step p
  | LInformer a => informer_step a p
  | LReaper a => reaper_step a p
  | LListener s a => listener_label s a p
  | LConn s a => conn_label s a p
  | LSignal => Some (with_signal (cancel_process p))
  | LGo i ans => s ← step manager (psys p) (Run i ans); Some (with_sys s p)
  | LTick d => s ← step manager (psys p) (Tick d); Some (with_sys s p)
  | LCancel r =>
      if decide (r = process) then None
      else s ← step manager (psys p) (Cancel r); Some (with_sys s p)
  | LGet c id => if own_ctx c then handling (step manager (psys p) (CallGet c id)) p else None
  | LRefresh c q => if own_ctx c then handling (step manager (psys p) (CallRefresh c q)) p else None
  | LTouch t q =>
      if existsb (gave_held q) (pool (psys p))
      then handling (Some (spawn [touch_goroutine t q] (psys p))) p else None
  | LNotify e =>
      if notified p then Some (with_idx (Identify.handle idx_config (pidx p) e) p) else None
  | LLookup i =>
      if busy p && Bool.eqb (Identify.ready i) (Identify.ready (pidx p))
      then Some (with_idx i p) else None
  end.

(** One step; none after the program has ended. *)
Definition pstep (l : label) (p : program) : option program := if running p then act l p else None.

(** The order in which a scan visits the map is one. *)
Definition label_ok (l : label) : Prop :=
  match l with LReaper (Ticked ord) => valid_order ord | _ => True end.

Definition psteps (p p' : program) : Prop := exists l, label_ok l /\ pstep l p = Some p'.

Definition preachable (p : program) : Prop := exists t mx, rtc psteps (launch t mx) p.

Fixpoint prun_all (ls : list label) (p : program) : option program :=
  match ls with [] => Some p | l :: ls => p' ← pstep l p; prun_all ls p' end.

(** ** Who steps *)

(** The goroutines of [run] and of the manager; [RExpire] is the second branch of the select
    of [run].  The other labels are the outside's. *)
Inductive role :=
| RMain | RExpire | RInformer | RReaper | RListener (s : Main.server) | RGo (i : nat).

Definition role_of (l : label) : option role :=
  match l with
  | LRun => Some RMain
  | LExpire => Some RExpire
  | LInformer Synced => None
  | LInformer _ => Some RInformer
  | LReaper (Ticked _) => None
  | LReaper _ => Some RReaper
  | LListener _ (AcceptFails _) => None
  | LListener s _ => Some (RListener s)
  | LGo i _ => Some (RGo i)
  | _ => None
  end.
End lifetime.
