(* ===== verification/LifetimeFacts.v ===== *)
(** * The life of the program: its steps

    What a step of [Lifetime] changes, for the manager and for the other goroutines, and which
    of them [run] has started when. *)

From S2P Require Import Prelude GoStd Effects Backend Metrics Session SessionFacts SessionSys SessionSched SessionInv SessionProps SessionClient SessionLive SessionFair Lifetime.
From S2P Require Config Identify Main.
Local Open Scope Z_scope.

(** How far [run] is. *)
Definition phase (c : rpc) : nat :=
  match c with
  | StartInformer => 0
  | StartReconcile => 1
  | Reconciling _ => 2
  | StartReaper => 3
  | StartData => 4
  | StartMgmt => 5
  | Waiting => 6
  | ShutBegin _ _ | ShutDrain _ _ | ShutPoll _ _ _ => 7
  | Exited _ | Panicked => 8
  end.

(** Split an equation of steps into the cases of its label's definition. *)
Ltac step_cases H :=
  unfold run_step, expire_step, informer_step, reaper_step, handling, closeIdleConns in H;
  repeat match type of H with
         | context [match ?x with _ => _ end] => destruct x eqn:?; try discriminate H
         end;
  try discriminate H; try injection H as <-.

(** The informer has synced. *)
Definition has_synced (i : informer) : bool :=
  match i with IWait | IReturned None | IEnded None => true | _ => false end.

(** The loop has its ticker. *)
Definition ticking (r : reaper) : bool := match r with RNone | RStart => false | _ => true end.

(** The clauses of [started_ok] after a step of one of the four. *)
Ltac close_started Hd Hm Hl Hr Hr' :=
  intros; simpl in *; try done; try lia;
  try first [by apply Hr; lia | by apply Hd; lia | by apply Hm; lia | by apply Hr'; lia | by apply Hl; lia]; auto.

Section facts.
Context (cfg : Config.Config) (bk : Main.backend).
Notation pstep := (pstep cfg bk).
Notation act := (act cfg bk).
Notation psteps := (psteps cfg bk).
Notation preachable := (preachable cfg bk).
Notation m := (manager cfg).

Lemma pstep_act l p p' : pstep l p = Some p' -> running p = true /\ act l p = Some p'.
Proof. unfold Lifetime.pstep. by destruct (running p). Qed.

(** An invariant of the steps holds throughout. *)
Lemma preachable_ind (P : program -> Prop) :
  (forall t mx, P (launch t mx)) ->
  (forall l p p', label_ok l -> running p = true -> P p -> act l p = Some p' -> P p') ->
  forall p, preachable p -> P p.
Proof.
  intros Hi Hs p (t & mx & Hr). specialize (Hi t mx). revert Hi.
  induction Hr as [|p1 p2 p3 (l & Hok & [? ?]%pstep_act) _ IH]; [done|]. eauto.
Qed.

Lemma preachable_step l p p' :
  label_ok l -> running p = true -> preachable p -> act l p = Some p' -> preachable p'.
Proof.
  intros Hok Hrun (t & mx & Hr) Ha. exists t, mx. eapply rtc_r; [exact Hr|]. exists l. split; [done|].
  unfold Lifetime.pstep. by rewrite Hrun.
Qed.

(** ** Steps of the program and of its manager *)

Lemma handle_ready c i e : Identify.ready (Identify.handle c i e) = Identify.ready i.
Proof.
  destruct e as [o|o' o|o]; destruct o as [q|[q|o1|]|]; simpl; unfold Identify.upsertFromObj;
    repeat case_decide; done.
Qed.

(** The steps of the manager's goroutines, of time and of the clients. *)
Definition outside (l : label) : bool :=
  match l with
  | LGo _ _ | LTick _ | LCancel _ | LGet _ _ | LRefresh _ _ | LTouch _ _ | LNotify _ | LLookup _ => true
  | _ => false
  end.

Lemma outside_frame l p p' :
  act l p = Some p' -> outside l = true ->
  (exists s, p' = with_sys s p) \/
  (exists i, p' = with_idx i p /\ Identify.ready i = Identify.ready (pidx p)).
Proof.
  destruct l as [| |a|a|s a|s a| |i ans|d|r|c id|c q|t q|e|i]; cbn [Lifetime.act]; intros H Ho; try discriminate Ho; clear Ho.
  - destruct (step m (psys p) _); [|done]. injection H as <-. eauto.
  - destruct (step m (psys p) _); [|done]. injection H as <-. eauto.
  - case_decide; [done|]. destruct (step m (psys p) _); [|done]. injection H as <-. eauto.
  - unfold handling in H. repeat (case_match; try done). simplify_option_eq. eauto.
  - unfold handling in H. repeat (case_match; try done). simplify_option_eq. eauto.
  - unfold handling in H. repeat (case_match; try done). simplify_option_eq. eauto.
  - case_match; [|done]. injection H as <-. right. eexists. split; [done|]. apply handle_ready.
  - case_match eqn:Hb; [|done]. injection H as <-. right. exists i. split; [done|].
    by apply andb_true_iff in Hb as [_ Hb%eqb_prop].
Qed.


Lemma held_gave s q : existsb (gave_held q) (pool s) = true -> held s q.
Proof.
  intros (g & Hin & Hg)%existsb_exists.
  destruct g as [[|id [x|]|stale [x|]]|]; try done; apply bool_decide_eq_true in Hg as ->.
  - left. exists id. by apply list_elem_of_In.
  - right. exists stale. by apply list_elem_of_In.
Qed.

(** How a step that leaves the manager alone moves [run] and the loop. *)
Definition advance (p p' : program) : Prop :=
  (prun p' = prun p \/ (prun p = StartInformer /\ prun p' = StartReconcile) \/
   (exists i, prun p = Reconciling i /\ returned i p = true /\ prun p' = StartReaper) \/
   (3 <= phase (prun p) /\ 3 <= phase (prun p'))%nat \/ (preaper p = RStart /\ prun p' = Panicked)) /\
  (preaper p' = preaper p \/ prun p = StartReaper \/
   forall j, preaper p = RReaping j -> returned j p = true).

(** How a step changes the manager. *)
Inductive moved (p p' : program) : Prop :=
| moved_not : psys p' = psys p -> advance p p' -> moved p p'
| moved_env : gstep m (psys p) (psys p') -> pool (psys p') = pool (psys p) ->
    sessions (sst (psys p')) = sessions (sst (psys p)) -> heap (sst (psys p')) = heap (sst (psys p)) ->
    prun p' = prun p -> preaper p' = preaper p -> moved p p'
| moved_go i : moves m i (psys p) (psys p') -> prun p' = prun p -> preaper p' = preaper p -> moved p p'
| moved_handler c : gstep m (psys p) (psys p') -> psys p' = spawn [prog_of m c] (psys p) ->
    busy p = true -> match c with PGet _ _ _ | PRefresh _ _ | PMark0 _ | PConn _ _ => True | _ => False end ->
    prun p' = prun p -> preaper p' = preaper p -> moved p p'
| moved_reap ord ctx : gstep m (psys p) (psys p') ->
    psys p' = spawn [prog_of m (PReap0 ord ctx)] (psys p) ->
    preaper p = RSelect -> preaper p' = RReaping (length (pool (psys p))) -> prun p' = prun p -> moved p p'
| moved_reconcile ctx : gstep m (psys p) (psys p') ->
    psys p' = spawn [prog_of m (PRec0 ctx)] (psys p) ->
    prun p = StartReconcile -> prun p' = Reconciling (length (pool (psys p))) ->
    preaper p' = preaper p -> moved p p'.

Lemma stayed p p' : psys p' = psys p -> prun p' = prun p -> preaper p' = preaper p -> moved p p'.
Proof. intros ? ? ?. apply moved_not; [done|]. by split; left. Qed.

Lemma moved_cancel p p' :
  psys p' = psys (cancel_process p) -> prun p' = prun p -> preaper p' = preaper p -> moved p p'.
Proof. intros Hs Hc Hr. apply moved_env; rewrite ?Hs; try done. by apply g_cancel. Qed.

Lemma step_run s i ans s' : step m s (Run i ans) = Some s' -> moves m i s s'.
Proof.
  simpl. destruct (pool s !! i) as [[o|X a k]|] eqn:Hi; try done.
  destruct (act_run a ans (sst s)) as [[[x sp] st']|] eqn:Ha; [|done]. intros [= <-].
  eexists _, sp, _, st'. split; [done|]. split; [|done]. exists x. split; [by eapply act_run_sound|done].
Qed.

(** The handlers' calls. *)
Lemma handling_moved p p' c s :
  handling s p = Some p' -> s = Some (spawn [prog_of m c] (psys p)) ->
  gstep m (psys p) (spawn [prog_of m c] (psys p)) ->
  match c with PGet _ _ _ | PRefresh _ _ | PMark0 _ | PConn _ _ => True | _ => False end -> moved p p'.
Proof.
  intros H -> Hg Hc. unfold handling in H. destruct (busy p) eqn:Hb; [|done]. simpl in H.
  simplify_eq. by eapply moved_handler.
Qed.

Lemma act_moved l p p' : label_ok l -> act l p = Some p' -> moved p p'.
Proof.
  intros Hok H. destruct l as [| |a|a|s a|s a| |i ans|d|r|c id|c q|t q|e|i]; cbn [Lifetime.act] in H.
  - unfold run_step in H. destruct (prun p) eqn:Hc; step_cases H.
    2: { eapply moved_reconcile; try done. apply g_reconcile. }
    all: apply moved_not; [by try destruct s|]; split; [|try (by left); try (by right; left); try (by destruct s; left)];
      rewrite ?Hc; try destruct s; simpl; eauto 6 with lia.
    right; right; left. by eexists.
  - step_cases H; (apply moved_not; [done|]); (split; [|by left]); rewrite Heqr; simpl; auto 6 with lia.
  - step_cases H; try (by apply stayed).
    unfold at_end. case_match; [by apply moved_cancel|by apply stayed].
  - step_cases H.
    3: { eapply moved_reap; try done. by apply g_reap. }
    all: apply moved_not; [done|]; split; simpl; rewrite ?Heqr; auto 6; right; right; intros; by simplify_eq.
  - unfold listener_label in H. destruct (listener_step a (server_of s p)) as [h|]; [|done].
    injection H as <-. unfold listener_end, at_end.
    destruct s; repeat case_match; simpl; try (by apply stayed); by apply moved_cancel.
  - unfold conn_label in H. destruct (conn_step a (server_of s p)) as [h|]; [|done].
    injection H as <-. by destruct s; apply stayed.
  - injection H as <-. by apply moved_cancel.
  - destruct (step m (psys p) (Run i ans)) as [s|] eqn:Hs; [|done]. injection H as <-.
    by eapply moved_go; [apply (step_run _ _ _ _ Hs)|..].
  - destruct (step m (psys p) (Tick d)) as [s|] eqn:Hs; [|done]. injection H as <-.
    pose proof (step_sound _ _ _ _ Hs). simpl in Hs. case_match; simplify_eq. by apply moved_env.
  - case_decide; [done|]. destruct (step m (psys p) (Cancel r)) as [s|] eqn:Hs; [|done]. injection H as <-.
    pose proof (step_sound _ _ _ _ Hs). simpl in Hs. case_decide; simplify_eq. by apply moved_env.
  - destruct (own_ctx c); [|done]. eapply (handling_moved p p' (PGet c id (KGet id))); try done. apply g_get.
  - destruct (own_ctx c); [|done]. destruct (step m (psys p) (CallRefresh c q)) as [s|] eqn:Hs.
    2:{ unfold handling in H. by destruct (busy p). }
    pose proof (step_sound _ _ _ _ Hs). simpl in Hs. case_match; simplify_eq.
    by eapply (handling_moved p p' (PRefresh c q)).
  - destruct (existsb _ _) eqn:Hg; [|done]. apply held_gave in Hg.
    pose proof (g_touch m _ t _ Hg).
    destruct t; [eapply (handling_moved p p' (PMark0 q))|eapply (handling_moved p p' (PConn 1 q))
                |eapply (handling_moved p p' (PConn (-1) q))]; try done.
  - case_match; simplify_eq. by apply stayed.
  - case_match; simplify_eq. by apply stayed.
Qed.

Lemma moved_gstep p p' : moved p p' -> psys p' = psys p \/ gstep m (psys p) (psys p').
Proof.
  destruct 1; [by left|by right| |by right..]. right. destruct H as (pr & sp & pr' & st' & Hi & Hp & ->).
  by eapply g_run.
Qed.

(** The manager of the program makes a run of the concurrent manager. *)
Lemma preachable_manager p : preachable p -> reachable m (psys p).
Proof.
  revert p. apply preachable_ind; [by intros t mx; exists t, mx|].
  intros l p p' Hok _ IH Ha. destruct (moved_gstep _ _ (act_moved _ _ _ Hok Ha)) as [->|Hs]; [done|].
  by eapply reachable_rtc, rtc_once.
Qed.

(** ** What has been started *)

Record started_ok (p : program) : Prop := mkStarted {
  so_data : (phase (prun p) <= 4)%nat -> pdata p = unstarted;
  so_mgmt : (phase (prun p) <= 5)%nat -> pmgmt p = unstarted;
  so_launched : (5 <= phase (prun p) <= 7)%nat -> listening (pdata p) <> Unstarted;
  so_reaper : (phase (prun p) <= 3)%nat -> preaper p = RNone;
  so_reaping : (4 <= phase (prun p))%nat -> preaper p <> RNone;
  so_ticker : ticking (preaper p) = true -> 0 < Config.IdleCheckInterval cfg;
  so_panic : prun p = Panicked -> Config.IdleCheckInterval cfg <= 0;
  so_informer : prun p = StartInformer -> pinformer p = INone;
  so_ready : Identify.ready (pidx p) = has_synced (pinformer p);
}.

(** Steps that leave [run] where it is and the other goroutines in the same state. *)
Lemma started_same p p' :
  started_ok p -> prun p' = prun p -> preaper p' = preaper p -> pinformer p' = pinformer p ->
  Identify.ready (pidx p') = Identify.ready (pidx p) ->
  (pdata p = unstarted -> pdata p' = unstarted) -> (pmgmt p = unstarted -> pmgmt p' = unstarted) ->
  (listening (pdata p) <> Unstarted -> listening (pdata p') <> Unstarted) -> started_ok p'.
Proof.
  intros [Hd Hm Hl Hr Hr' Ht Hp Hn Hi] Hc He Hf Hx HD HM HL. split; rewrite ?Hc, ?He, ?Hf, ?Hx; auto.
Qed.

Lemma conn_unstarted a h : conn_step a unstarted = Some h -> False.
Proof. by destruct a as [| | |[]| |]. Qed.

Lemma listener_unstarted a h : listener_step a unstarted = Some h -> False.
Proof. by destruct a. Qed.

Lemma listening_conn a h h' : conn_step a h = Some h' -> listening h' = listening h.
Proof. destruct a as [| | |[]| |]; simpl; intros; repeat case_match; by simplify_eq/=. Qed.

Lemma listening_listener a h h' : listener_step a h = Some h' -> listening h' <> Unstarted.
Proof.
  unfold listener_step. intros H. destruct (listening h), a as [|[]| |]; repeat case_match; by simplify_eq/=.
Qed.

Lemma server_unstarted (f : http_server -> option http_server) s h p :
  (forall h, f unstarted = Some h -> False) -> f (server_of s p) = Some h ->
  (pdata p = unstarted -> pdata (with_server s h p) = unstarted) /\
  (pmgmt p = unstarted -> pmgmt (with_server s h p) = unstarted).
Proof.
  intros Hf H. destruct s; simpl in *; (split; [|]); try done; intros Heq; rewrite Heq in H;
    by destruct (Hf h).
Qed.

(** [f] leaves everything but the manager alone. *)
Lemma at_end_frame e p :
  prun (at_end e p) = prun p /\ preaper (at_end e p) = preaper p /\ pinformer (at_end e p) = pinformer p /\
  pidx (at_end e p) = pidx p /\ pdata (at_end e p) = pdata p /\ pmgmt (at_end e p) = pmgmt p /\
  psignalled (at_end e p) = psignalled p /\ plog (at_end e p) = plog p.
Proof. unfold at_end. by destruct (Main.cancels (done p) e). Qed.

Lemma listener_end_frame s l p :
  prun (listener_end s l p) = prun p /\ preaper (listener_end s l p) = preaper p /\
  pinformer (listener_end s l p) = pinformer p /\ pidx (listener_end s l p) = pidx p /\
  pdata (listener_end s l p) = pdata p /\ pmgmt (listener_end s l p) = pmgmt p /\
  psignalled (listener_end s l p) = psignalled p /\ plog (listener_end s l p) = plog p.
Proof. destruct l; try done. apply at_end_frame. Qed.

Lemma with_server_frame s h p :
  prun (with_server s h p) = prun p /\ preaper (with_server s h p) = preaper p /\
  pinformer (with_server s h p) = pinformer p /\ pidx (with_server s h p) = pidx p /\
  psys (with_server s h p) = psys p /\
  psignalled (with_server s h p) = psignalled p /\ plog (with_server s h p) = plog p.
Proof. by destruct s. Qed.

(** Labels that are not of [run], the informer or the reaper. *)
Lemma others_frame l p p' :
  act l p = Some p' ->
  match l with LRun | LExpire | LInformer _ | LReaper _ => True
  | _ => prun p' = prun p /\ preaper p' = preaper p /\ pinformer p' = pinformer p /\
         Identify.ready (pidx p') = Identify.ready (pidx p) /\
         (pdata p = unstarted -> pdata p' = unstarted) /\ (pmgmt p = unstarted -> pmgmt p' = unstarted) /\
         (listening (pdata p) <> Unstarted -> listening (pdata p') <> Unstarted)
  end.
Proof.
  intros H. destruct (outside l) eqn:Ho.
  { destruct (outside_frame l p p' H Ho) as [[s ->]|(i & -> & Hi)]; by destruct l. }
  destruct l as [| |a|a|s a|s a| | | | | | | | |]; cbn [Lifetime.act] in H; try done.
  - unfold listener_label in H. destruct (listener_step a (server_of s p)) as [h|] eqn:Hs; [|done].
    injection H as <-.
    destruct (server_unstarted _ s h p (listener_unstarted a) Hs) as [HD HM].
    destruct (listener_end_frame s (listening h) (with_server s h p)) as (-> & -> & -> & -> & -> & -> & _).
    destruct (with_server_frame s h p) as (-> & -> & -> & -> & _).
    apply listening_listener in Hs. by destruct s.
  - unfold conn_label in H. destruct (conn_step a (server_of s p)) as [h|] eqn:Hs; [|done].
    injection H as <-. destruct (server_unstarted _ s h p (conn_unstarted a) Hs) as [HD HM].
    destruct (with_server_frame s h p) as (-> & -> & -> & -> & _).
    apply listening_conn in Hs. destruct s; simpl in *; [by rewrite Hs|done].
  - by injection H as <-.
Qed.

Lemma started_step l p p' :
  label_ok l -> running p = true -> started_ok p -> act l p = Some p' -> started_ok p'.
Proof.
  intros _ Hrun Hok H. pose proof (others_frame l p p' H) as Hframe.
  destruct l as [| |a|a|s a|s a| |i ans|d|r|c id|c q|t q|e|i]; cbn [Lifetime.act] in H;
    try (destruct Hframe as (? & ? & ? & ? & ? & ? & ?); by eapply started_same).
  all: destruct Hok as [Hd Hm Hl Hr Hr' Ht Hp Hn Hi].
  - unfold run_step in H. destruct (prun p) eqn:Hc; step_cases H; try destruct s; simpl in *.
    all: try rewrite (Hn eq_refl) in Hi.
    all: split; simpl; rewrite ?Hc; close_started Hd Hm Hl Hr Hr'.
  - step_cases H; split; simpl in *; close_started Hd Hm Hl Hr Hr'.
  - step_cases H; try match goal with |- context [at_end ?e p] =>
      destruct (at_end_frame e p) as (Hc & He & _ & Hx & Hd' & Hm' & _) end;
      split; simpl; rewrite ?Hc, ?He, ?Hx, ?Hd', ?Hm'; close_started Hd Hm Hl Hr Hr';
      by discriminate (Hn H).
  - step_cases H; split; simpl; close_started Hd Hm Hl Hr Hr';
      first [congruence|by apply Z.leb_gt|by discriminate (Hr H)|by rewrite Heqr in H].
Qed.

Lemma started p : preachable p -> started_ok p.
Proof.
  revert p. apply preachable_ind; [|by intros; eapply started_step]. intros t mx. split; simpl; intros; try done; lia.
Qed.
End facts.
