(* ===== verification/LifetimeInv.v ===== *)
(** * The life of the program: invariants

    What holds in every state of [Lifetime]: what the goroutines of the manager are doing at
    each point of [run], why the context of the process is done, what a Shutdown has left, and
    what [run] has called. *)

From S2P Require Import Prelude GoStd Effects Backend Metrics Session SessionFacts SessionSys SessionSched SessionInv SessionProps SessionClient SessionLive SessionFair Lifetime LifetimeFacts.
From S2P Require Config Identify Main.
Local Open Scope Z_scope.

Section facts.
Context (cfg : Config.Config) (bk : Main.backend).
Notation pstep := (pstep cfg bk).
Notation act := (act cfg bk).
Notation preachable := (preachable cfg bk).
Notation m := (manager cfg).
Notation started_ok := (started_ok cfg).
Notation so_data := (so_data cfg).
Notation so_reaper := (so_reaper cfg).
Notation so_informer := (so_informer cfg).
Notation act_moved := (act_moved cfg bk).
Notation moved_gstep := (moved_gstep cfg).
Notation others_frame := (others_frame cfg bk).
Notation outside_frame := (outside_frame cfg bk).

(** ** The goroutines of the manager *)

Definition empty (st : state) : Prop := sessions st = ∅ /\ heap st = ∅.

Definition is_reap (c : pc) : Prop :=
  match c with
  | PReap0 _ _ | PReap1 _ _ _ | PReap2 _ _ _ | PReap3 _ _ _ _ | PReap4 _ _ _ _ => True
  | _ => False
  end.
Definition is_rec (c : pc) : Prop := match c with PRec0 _ | PRec1 _ => True | _ => False end.

(** Scans run one at a time, in the loop; a Reconcile runs alone, on an empty map, and has
    returned when [run] goes on. *)
Record pool_at (pcs : list pc) (st : state) (c : rpc) (r : reaper) : Prop := mkPool {
  po_before : (phase c <= 1)%nat -> pcs = [] /\ empty st;
  po_during i : c = Reconciling i -> i = 0%nat /\ exists c0, pcs !! 0%nat = Some c0 /\
    ((is_rec c0 /\ pcs = [c0] /\ empty st) \/ c0 = PDone OUnit);
  po_after : (3 <= phase c)%nat -> pcs !! 0%nat = Some (PDone OUnit);
  po_reap j cj : pcs !! j = Some cj -> is_reap cj -> r = RReaping j;
  po_rec j cj : pcs !! j = Some cj -> is_rec cj -> c = Reconciling j;
}.

Definition pool_ok (p : program) : Prop :=
  exists pcs, pool (psys p) = map (prog_of m) pcs /\ pool_at pcs (sst (psys p)) (prun p) (preaper p).

Lemma cstep_kind c st sp c' st' :
  cstep m c st sp c' st' ->
  (is_reap c' -> is_reap c) /\
  (is_rec c' -> is_rec c /\ sp = [] /\ st' = st) /\
  (is_rec c -> is_rec c' \/ c' = PDone OUnit) /\
  (forall o, c <> PDone o).
Proof.
  destruct 1; try destruct k; try destruct d; try destruct vs; split_and!; try done; auto.
Qed.

(** Goroutine [i] steps. *)
Lemma pool_go pcs st c r i ci sp c' st' :
  pool_at pcs st c r -> pcs !! i = Some ci -> cstep m ci st sp c' st' ->
  pool_at (<[i := c']> pcs ++ map PRes0 sp) st' c r.
Proof.
  intros [Hb Hd Ha Hp Hc] Hi Hs. destruct (cstep_kind _ _ _ _ _ Hs) as (Hk1 & Hk2 & Hk3 & Hk4).
  assert (forall j cj, (<[i := c']> pcs ++ map PRes0 sp) !! j = Some cj -> is_reap cj \/ is_rec cj ->
    exists cj', pcs !! j = Some cj' /\ (is_reap cj -> is_reap cj') /\ (is_rec cj -> is_rec cj')) as Hback.
  { intros j cj [Hj|(_ & Hj)]%lookup_app_Some Hcj.
    - destruct (decide (j = i)) as [->|Hne].
      + rewrite list_lookup_insert_eq in Hj by (by eapply lookup_lt_Some). simplify_eq.
        exists ci. split; [done|]. split; [done|]. by intros (? & _)%Hk2.
      + rewrite list_lookup_insert_ne in Hj by done. by exists cj.
    - change (map PRes0 sp) with (PRes0 <$> sp) in Hj. apply list_lookup_fmap_Some in Hj as (? & -> & _).
      by destruct Hcj. }
  assert (forall o, pcs !! 0%nat = Some (PDone o) ->
    (<[i := c']> pcs ++ map PRes0 sp) !! 0%nat = Some (PDone o)) as Hkeep.
  { intros o Ho. apply lookup_app_l_Some. rewrite list_lookup_insert_ne; [done|].
    intros ->. rewrite Hi in Ho. simplify_eq. by destruct (Hk4 o). }
  split.
  - intros Hph. destruct (Hb Hph) as [-> _]. done.
  - intros j Hj. destruct (Hd j Hj) as (-> & c0 & H0 & [(Hr & -> & He)| ->]).
    + split; [done|]. destruct i as [|i]; [|done]. simpl in Hi. simplify_eq. exists c'. split; [done|].
      destruct (Hk3 Hr) as [Hr'| ->]; [left|by right].
      destruct (Hk2 Hr') as (_ & -> & ->). done.
    + split; [done|]. exists (PDone OUnit). split; [by apply Hkeep|by right].
  - auto.
  - intros j cj Hj Hr. destruct (Hback j cj Hj) as (cj' & Hj' & H1 & _); [by left|]. eauto.
  - intros j cj Hj Hr. destruct (Hback j cj Hj) as (cj' & Hj' & _ & H1); [by right|]. eauto.
Qed.

(** A goroutine of neither kind is added, once [run] is past the Reconcile. *)
Lemma pool_spawn pcs st c r cn r' :
  pool_at pcs st c r -> (3 <= phase c)%nat -> ~ is_rec cn ->
  (forall j cj, pcs !! j = Some cj -> is_reap cj -> r' = RReaping j) ->
  (is_reap cn -> r' = RReaping (length pcs)) ->
  pool_at (pcs ++ [cn]) st c r'.
Proof.
  intros [Hb Hd Ha Hp Hc] Hph Hrec Hr Hn. split.
  - intros ?. lia.
  - intros i ->. simpl in Hph. lia.
  - intros _. apply lookup_app_l_Some. auto.
  - intros j cj [Hj|(Hle & Hj)]%lookup_app_Some; [eauto|].
    destruct (j - length pcs)%nat eqn:E; [|done]. simpl in Hj. simplify_eq.
    replace j with (length pcs) by lia. done.
  - intros j cj [Hj|(Hle & Hj)]%lookup_app_Some; [eauto|].
    destruct (j - length pcs)%nat eqn:E; [|done]. simpl in Hj. by simplify_eq.
Qed.

Lemma returned_pc p pcs j : pool (psys p) = map (prog_of m) pcs -> returned j p = true ->
  exists o, pcs !! j = Some (PDone o).
Proof.
  intros Hp Hr. unfold returned in Hr. destruct (pool (psys p) !! j) as [g|] eqn:Hj; [|done].
  destruct (pool_pc m _ _ _ _ Hp Hj) as (c & Hc & Hg). destruct g as [o|]; [|done].
  apply prog_of_Ret in Hg as ->. by exists o.
Qed.

(** Only [run] and the loop move. *)
Lemma pool_advance p p' pcs :
  pool (psys p) = map (prog_of m) pcs -> started_ok p -> advance p p' ->
  pool_at pcs (sst (psys p)) (prun p) (preaper p) -> pool_at pcs (sst (psys p)) (prun p') (preaper p').
Proof.
  intros Hp Hst [Hrun Hreap] Ha.
  assert (pool_at pcs (sst (psys p)) (prun p) (preaper p')) as [Hb Hd Haf Hpr Hpc].
  { destruct Hreap as [->|[Hc|Hj]]; [done| |]; destruct Ha as [Hb Hd Haf Hpr Hpc]; split; try done;
      intros j cj Hcj Hk; pose proof (Hpr j cj Hcj Hk) as Heq.
    - rewrite (so_reaper p Hst) in Heq by (rewrite Hc; simpl; lia). done.
    - destruct (returned_pc p pcs j Hp (Hj j Heq)) as [o Ho]. rewrite Hcj in Ho. by simplify_eq. }
  destruct Hrun as [->|[[Hc ->]|[(i & Hc & Hi & ->)|Hlate]]]; [by split| | |].
  - rewrite Hc in *. split; simpl; try done; try lia; [by intros _; apply Hb; simpl; lia|].
    intros j cj Hj Hk. by discriminate (Hpc j cj Hj Hk).
  - destruct (Hd i Hc) as (-> & c0 & H0 & Hcase).
    assert (c0 = PDone OUnit) as ->.
    { destruct (returned_pc p pcs _ Hp Hi) as [o Ho]. rewrite H0 in Ho. simplify_eq.
      by destruct Hcase as [[[] _]|]. }
    split; simpl; try done; try lia.
    intros j cj Hj Hk. pose proof (Hpc j cj Hj Hk) as Heq. rewrite Hc in Heq. simplify_eq. by destruct Hk.
  - assert (3 <= phase (prun p) /\ 3 <= phase (prun p'))%nat as [H1 H2].
    { destruct Hlate as [?|[Hr ->]]; [done|]. simpl. split; [|lia].
      destruct (decide (phase (prun p) <= 3)%nat) as [Hle|]; [|lia].
      rewrite (so_reaper p Hst Hle) in Hr. done. }
    split; auto; try lia.
    + intros i Hi. rewrite Hi in H2. simpl in H2. lia.
    + intros j cj Hj Hk. rewrite (Hpc j cj Hj Hk) in H1. simpl in H1. lia.
Qed.

Lemma busy_phase p : started_ok p -> busy p = true -> (5 <= phase (prun p))%nat.
Proof.
  intros Hst Hb. destruct (decide (phase (prun p) <= 4)%nat) as [Hle|]; [|lia].
  unfold busy in Hb. by rewrite (so_data p Hst Hle) in Hb.
Qed.

Lemma pool_step l p p' :
  label_ok l -> act l p = Some p' -> started_ok p -> pool_ok p -> pool_ok p'.
Proof.
  intros Hok H Hst (pcs & Hp & Ha). destruct (act_moved l p p' Hok H)
    as [Hs Hadv|_ Hpool Hsess Hheap Hc Hr|i (pr & sp & pr' & st' & Hi & Hstep & Hs) Hc Hr
       |cn _ Hs Hb Hk Hc Hr|ord ctx _ Hs Hr0 Hr Hc|ctx _ Hs Hc0 Hc Hr].
  - exists pcs. rewrite Hs. split; [done|]. by apply pool_advance.
  - exists pcs. rewrite Hpool, Hc, Hr. split; [done|]. destruct Ha as [H1 H2 H3 H4 H5].
    split; auto; unfold empty in *; by rewrite ?Hsess, ?Hheap.
  - destruct (pool_pc m _ _ _ _ Hp Hi) as (ci & Hci & <-).
    apply control_simulation in Hstep as (c' & -> & Hstep).
    exists (<[i := c']> pcs ++ map PRes0 sp). rewrite Hs, Hc, Hr. simpl. split.
    + rewrite Hp, map_app, map_insert, map_map. done.
    + by eapply pool_go.
  - exists (pcs ++ [cn]). rewrite Hs, Hc, Hr. simpl. rewrite Hp, map_app. split; [done|].
    pose proof (busy_phase p Hst Hb). eapply pool_spawn; [done|lia|intros ?; by destruct cn| |by destruct cn].
    apply Ha.
  - exists (pcs ++ [PReap0 ord ctx]). rewrite Hs, Hc. simpl. rewrite Hp, map_app. split; [done|].
    assert (4 <= phase (prun p))%nat.
    { destruct (decide (phase (prun p) <= 3)%nat) as [Hle|]; [|lia].
      rewrite (so_reaper p Hst Hle) in Hr0. done. }
    eapply pool_spawn; [done|lia|by intros []| |].
    + intros j cj Hj Hk. rewrite (po_reap _ _ _ _ Ha j cj Hj Hk) in Hr0. done.
    + intros _. by rewrite Hr, Hp, length_map.
  - destruct (po_before _ _ _ _ Ha) as [-> He]; [by rewrite Hc0; simpl; lia|].
    exists [PRec0 ctx]. rewrite Hs, Hc, Hr. simpl. rewrite Hp. split; [done|].
    split; simpl; try lia.
    + intros i [= <-]. split; [done|]. exists (PRec0 ctx). split; [done|]. by left.
    + intros [|j] cj Hj Hk; simplify_eq/=. by destruct Hk.
    + intros [|j] cj Hj Hk; by simplify_eq/=.
Qed.

Lemma pools p : preachable p -> pool_ok p.
Proof.
  intros Hr. enough (started_ok p /\ pool_ok p) by tauto. revert p Hr. apply (preachable_ind cfg bk).
  - intros t mx. split; [split; simpl; intros; try done; lia|].
    exists []. split; [done|]. by split; simpl; intros; try lia.
  - intros l p p' Hok Hrun (Hst & Hp) Ha. split; [by eapply started_step|by eapply pool_step].
Qed.

(** ** Why the context is done *)

Lemma done_cancel p : done (cancel_process p) = true.
Proof. unfold done. simpl. by apply bool_decide_eq_true, elem_of_union; left; apply elem_of_singleton. Qed.

Lemma done_at_end e p : done (at_end e p) = done p || Main.cancels (done p) e.
Proof. unfold at_end. destruct (Main.cancels (done p) e); [by rewrite done_cancel, orb_true_r|by rewrite orb_false_r]. Qed.

Lemma done_go p i s' : pool_ok p -> moves m i (psys p) s' -> done (with_sys s' p) = done p.
Proof.
  intros (pcs & Hp & _) (pr & sp & pr' & st' & Hi & Hstep & ->).
  destruct (pool_pc m _ _ _ _ Hp Hi) as (ci & _ & <-).
  apply control_simulation in Hstep as (c' & -> & [= _ Hc]%cstep_surroundings).
  unfold done. simpl. by rewrite Hc.
Qed.

Lemma done_step l p p' :
  act l p = Some p' -> pool_ok p ->
  done p' = done p ||
    match l with
    | LSignal => true
    | LInformer _ => match pinformer p with IReturned (Some _) => true | _ => false end
    | LListener Main.DataSrv _ => match listening (pdata p') with Returned _ false => true | _ => false end
    | _ => false
    end.
Proof.
  intros H Hpool.
  destruct l as [| |a|a|s a|s a| |i ans|d|r|c id|c q|t q|e|i]; cbn [Lifetime.act] in H;
    rewrite ?orb_false_r.
  - unfold run_step in H. destruct (prun p) eqn:Hc; step_cases H; by try destruct s.
  - by step_cases H.
  - step_cases H; rewrite ?orb_false_r; try done; change (done (with_informer ?i ?q)) with (done q);
      rewrite done_at_end; simpl; by destruct (done p).
  - by step_cases H.
  - unfold listener_label in H. destruct (listener_step a (server_of s p)) as [h|]; [|done].
    injection H as <-. destruct (listener_end_frame s (listening h) (with_server s h p))
      as (_ & _ & _ & _ & -> & _).
    assert (done (with_server s h p) = done p) as Hd by (by destruct s).
    destruct (listening h) as [| | | |e closed] eqn:Hl; destruct s; simpl; rewrite ?Hl, ?orb_false_r; try done.
    rewrite done_at_end. simpl in *. rewrite Hd. by destruct closed.
  - unfold conn_label in H. destruct (conn_step a (server_of s p)); [|done]. injection H as <-. by destruct s.
  - injection H as <-. rewrite orb_true_r. apply done_cancel.
  - destruct (step m (psys p) (Run i ans)) as [s|] eqn:Hs; [|done]. injection H as <-.
    by eapply done_go, step_run.
  - simpl in H. case_match; [|done]. by injection H as <-.
  - case_decide as Hr; [done|]. simpl in H. case_decide; [done|]. injection H as <-.
    unfold done. simpl. apply bool_decide_ext. set_solver.
  - unfold handling in H. simpl in H. repeat case_match; try done. by injection H as <-.
  - unfold handling in H. simpl in H. repeat (case_match; try done); by simplify_eq/=.
  - unfold handling in H. simpl in H. repeat case_match; try done. by injection H as <-.
  - case_match; [|done]. by injection H as <-.
  - case_match; [|done]. by injection H as <-.
Qed.

(** A handler of the informer could not be registered. *)
Definition unregistered (e : error) : error := Errorf_w "add event handler: %w" [] e.

(** The error of the informer, and whether its goroutine has seen to it; the end of the data
    listener for another reason than a Shutdown. *)
Definition informer_error (i : informer) : option (bool * error) :=
  match i with
  | IReturned (Some e) => Some (false, e)
  | IEnded (Some e) => Some (true, e)
  | _ => None
  end.

Definition broke_down (l : listener) : bool := match l with Returned _ false => true | _ => false end.

(** What the context can be done for, and whether it is. *)
Definition causes (p : program) : bool * option (bool * error) * bool * bool :=
  (psignalled p, informer_error (pinformer p), broke_down (listening (pdata p)), done p).

Definition ended_for (p : program) : Prop :=
  psignalled p = true \/ (exists e, informer_error (pinformer p) = Some (true, unregistered e)) \/
  broke_down (listening (pdata p)) = true.

Record cause_ok (p : program) : Prop := mkCause {
  ca_done : done p = true <-> ended_for p;
  ca_error b e : informer_error (pinformer p) = Some (b, e) ->
                 (exists e', e = unregistered e') \/ done p = true;
  ca_seen e : informer_error (pinformer p) = Some (true, e) -> done p = true;
}.

Lemma cause_same p p' : cause_ok p -> causes p' = causes p -> cause_ok p'.
Proof.
  intros [Hd He Hs] [= H1 H2 H3 H4]. split; unfold ended_for in *; rewrite ?H1, ?H2, ?H3, ?H4; done.
Qed.

(** Steps that are no cause. *)
Lemma causes_step l p p' :
  act l p = Some p' -> started_ok p -> pool_ok p ->
  match l with LSignal | LInformer _ | LListener Main.DataSrv _ => False | _ => True end ->
  causes p' = causes p.
Proof.
  intros H Hst Hpool Hl. pose proof (done_step l p p' H Hpool) as Hd.
  assert (done p' = done p) as Hsame by (destruct l as [| | | |[]| | | | | | | | | |]; try done; by rewrite orb_false_r in Hd).
  unfold causes. rewrite Hsame. clear Hd Hsame. destruct (outside l) eqn:Ho.
  { by destruct (outside_frame l p p' H Ho) as [[s ->]|(i & -> & _)]. }
  destruct l as [| |a|a|[] a|[] a| | | | | | | | |]; try done; cbn [Lifetime.act] in H.
  - pose proof (so_data p Hst) as HD. pose proof (so_informer p Hst) as HI.
    unfold run_step in H. destruct (prun p) eqn:Hc; step_cases H; try destruct s; try done; simpl.
    + by rewrite HI.
    + rewrite HD; [done|simpl; lia].
  - by step_cases H.
  - by step_cases H.
  - unfold listener_label in H. simpl in H. destruct (listener_step a (pmgmt p)) as [h|]; [|done].
    injection H as <-. destruct (listener_end_frame Main.MgmtSrv (listening h) (with_mgmt h p))
      as (_ & _ & -> & _ & -> & _ & -> & _). done.
  - unfold conn_label in H. simpl in H. destruct (conn_step a (pdata p)) as [h|] eqn:Hs; [|done].
    injection H as <-. simpl. by rewrite (listening_conn _ _ _ Hs).
  - unfold conn_label in H. simpl in H. destruct (conn_step a (pmgmt p)) as [h|] eqn:Hs; [|done].
    by injection H as <-.
Qed.

Lemma informer_error_step a p p' :
  informer_step a p = Some p' ->
  psignalled p' = psignalled p /\ pdata p' = pdata p /\
  let o := informer_error (pinformer p) in
  let o' := informer_error (pinformer p') in
  (o' = o /\ done p' = done p) \/
  (o = None /\ done p' = done p /\
   exists e, o' = Some (false, e) /\ ((exists e', e = unregistered e') \/ done p = true)) \/
  (exists e, o = Some (false, e) /\ o' = Some (true, e) /\ done p' = true).
Proof.
  intros H. step_cases H; simpl;
    try (by split; [|split; [|left]]);
    try (by split; [|split; [|right; left; split; [|split; [|eexists; split; [|eauto]]]]]).
  destruct (at_end_frame (Main.InformerEnded err) p) as (_ & _ & _ & _ & -> & _ & -> & _).
  split; [done|]. split; [done|]. change (done (with_informer ?i ?q)) with (done q). rewrite done_at_end.
  destruct err as [e|]; simpl; [|left; by rewrite orb_false_r].
  right. right. exists e. split; [done|]. split; [done|]. by destruct (done p).
Qed.

Lemma cause_informer a p p' : informer_step a p = Some p' -> cause_ok p -> cause_ok p'.
Proof.
  intros (HS & HD & Hcase)%informer_error_step Hok. simpl in Hcase.
  destruct Hcase as [[Ho Hd]|[(Ho & Hd & e & Ho' & Hw)|(e & Ho & Ho' & Hd)]].
  - apply (cause_same p); [done|]. unfold causes. by rewrite HS, HD, Ho, Hd.
  - destruct Hok as [Hc He Hs]. unfold ended_for in *. split; unfold ended_for; rewrite ?HS, ?HD, ?Ho', ?Hd.
    + rewrite Hc, Ho. naive_solver.
    + by intros b e0 [= _ <-].
    + done.
  - destruct Hok as [Hc He Hs]. split; unfold ended_for; rewrite ?HS, ?HD, ?Ho', ?Hd; auto.
    split; [|done]. intros _. destruct (He _ _ Ho) as [[e' ->]|[Hsig|[[e' Hn]|Hb]]%Hc]; [| | |]; eauto.
    by rewrite Ho in Hn.
Qed.

(** The data listener's goroutine. *)
Lemma cause_data a p p' :
  listener_label Main.DataSrv a p = Some p' -> cause_ok p ->
  done p' = done p || broke_down (listening (pdata p')) -> cause_ok p'.
Proof.
  intros H Hok Hd. unfold listener_label in H. simpl in H.
  destruct (listener_step a (pdata p)) as [h|] eqn:Hs; [|done]. injection H as <-.
  destruct (listener_end_frame Main.DataSrv (listening h) (with_data h p))
    as (_ & _ & HI & _ & HD & _ & HS & _). simpl in *.
  assert (broke_down (listening (pdata p)) = false) as Hno.
  { unfold listener_step in Hs. by destruct (listening (pdata p)). }
  destruct Hok as [Hc He Hse]. unfold ended_for in *. rewrite Hno in Hc.
  split; unfold ended_for; rewrite HI, ?HS, ?HD, ?Hd, ?HD; simpl.
  - rewrite orb_true_iff, Hc. naive_solver.
  - intros b e Hi. destruct (He b e Hi) as [?|Hp]; [by left|right]. by rewrite Hp.
  - intros e Hi. by rewrite (Hse e Hi).
Qed.

Lemma cause_step l p p' :
  act l p = Some p' -> started_ok p -> pool_ok p -> cause_ok p -> cause_ok p'.
Proof.
  intros H Hst Hpool Hok.
  destruct (match l with LSignal | LInformer _ | LListener Main.DataSrv _ => false | _ => true end) eqn:Hl.
  { eapply cause_same, causes_step; try done. destruct l as [| | | |[]| | | | | | | | | |]; done. }
  pose proof (done_step l p p' H Hpool) as Hd.
  destruct l as [| |a| |[] a| | | | | | | | | |]; try done; cbn [Lifetime.act] in H.
  - by eapply cause_informer.
  - eapply cause_data; [done..|]. rewrite Hd. by destruct (listening (pdata p')) as [| | | |? []].
  - injection H as <-. rewrite orb_true_r in Hd. destruct Hok as [Hc He Hs].
    split; rewrite ?Hd; try done; [|by right]. split; [|done]. intros _. by left.
Qed.

Lemma caused p : preachable p -> cause_ok p.
Proof.
  intros Hr. enough (started_ok p /\ pool_ok p /\ cause_ok p) by tauto. revert p Hr. apply (preachable_ind cfg bk).
  - intros t mx. split; [split; simpl; intros; try done; lia|]. split.
    + exists []. split; [done|]. by split; simpl; intros; try lia.
    + split; try done. split; [done|]. by intros [|[[]|]].
  - intros l p p' Hok Hrun (Hst & Hp & Hc) Ha. split_and!;
      [by eapply started_step|by eapply pool_step|by eapply cause_step].
Qed.

(** ** Time and contexts *)

Record elapsed (st st' : state) : Prop := mkElapsed {
  el_clock : clock st <= clock st';
  el_cancelled : cancelled st ⊆ cancelled st';
  el_background : 0%nat ∈ cancelled st' -> 0%nat ∈ cancelled st;
}.

#[export] Instance elapsed_preorder : PreOrder elapsed.
Proof. split; [by split|]. intros ? ? ? [] []. split; [lia|set_solver|auto]. Qed.

Lemma gstep_elapsed s s' : good m s -> gstep m s s' -> elapsed (sst s) (sst s').
Proof.
  intros (pcs & Hp & _) Hs. destruct Hs as [s i pr sp pr' st' Hi Hstep| | | | | | |]; try done.
  - destruct (pool_pc m _ _ _ _ Hp Hi) as (c & _ & <-).
    apply control_simulation in Hstep as (c' & _ & [= Hc Hx]%cstep_surroundings).
    split; simpl; rewrite ?Hc, ?Hx; [lia|done|done].
  - split; simpl; [lia|done|done].
  - split; simpl; [lia|set_solver|set_solver].
Qed.

Lemma act_elapsed l p p' :
  label_ok l -> preachable p -> act l p = Some p' -> elapsed (sst (psys p)) (sst (psys p')).
Proof.
  intros Hok Hr Ha. destruct (moved_gstep _ _ (act_moved _ _ _ Hok Ha)) as [->|Hs]; [done|].
  eapply gstep_elapsed; [by eapply reachable_good, preachable_manager|done].
Qed.

Lemma background p : preachable p -> 0%nat ∉ cancelled (sst (psys p)).
Proof.
  intros Hr. enough (preachable p /\ 0%nat ∉ cancelled (sst (psys p))) by tauto. revert p Hr.
  apply (preachable_ind cfg bk).
  - intros t mx. split; [by exists t, mx|]. simpl. set_solver.
  - intros l p p' Hok Hrun [Hr Hn] Ha. split; [by eapply preachable_step|].
    intros H%(el_background _ _ (act_elapsed _ _ _ Hok Hr Ha)). done.
Qed.

(** The deadline of a context has passed. *)
Definition expired (sctx : Ctx) (st : state) : Prop :=
  exists d, ctx_deadline sctx = Some d /\ d <= clock st.

Lemma expired_later sctx st st' : elapsed st st' -> expired sctx st -> expired sctx st'.
Proof. intros [Hc _ _] (d & Hd & Hle). exists d. split; [done|lia]. Qed.

(** ** Shutdown *)

(** What a Shutdown leaves: no listener, and no connection but hijacked ones, or the deadline
    has passed. *)
Definition closed (h : http_server) : Prop := inShutdown h = true /\ serve_returned h = true.
Definition drained (sctx : Ctx) (st : state) (h : http_server) : Prop :=
  closed h /\ ((active h = 0%nat /\ idle h = 0%nat) \/ expired sctx st).

Lemma closed_listener a h h' :
  listener_step a h = Some h' ->
  inShutdown h' = inShutdown h /\ active h' = active h /\ idle h' = idle h /\ (closed h -> closed h').
Proof.
  unfold listener_step, closed, serve_returned. intros H.
  destruct (listening h) eqn:Hl, a as [|[e|]|e|]; repeat case_match; simplify_eq; simpl;
    rewrite ?Hl; naive_solver.
Qed.

Lemma closed_conn a h h' :
  conn_step a h = Some h' ->
  inShutdown h' = inShutdown h /\ (closed h -> closed h') /\
  (closed h -> active h = 0%nat /\ idle h = 0%nat -> active h' = 0%nat /\ idle h' = 0%nat).
Proof.
  intros H. pose proof (listening_conn _ _ _ H) as Hl.
  assert (inShutdown h' = inShutdown h) as Hin.
  { destruct a as [| | |[]| |]; simpl in H; repeat (case_match; simplify_eq); done. }
  unfold closed, serve_returned. rewrite Hl, Hin. split; [done|]. split; [done|].
  intros [_ Hr] [Ha Hi]. destruct a as [| | |[]| |]; simpl in H; rewrite ?Ha, ?Hi in H; try done;
    repeat case_match; by simplify_eq/=.
Qed.

(** The context of the shutdown [run] is in. *)
Definition shut_ctx (c : rpc) : option Ctx :=
  match c with
  | ShutBegin _ x | ShutDrain _ x | ShutPoll _ x _ | Exited x => Some x
  | _ => None
  end.

(** How far the shutdown of each server is. *)
Definition shut_at (c : rpc) (st : state) (d g : http_server) : Prop :=
  match c with
  | ShutBegin Main.DataSrv _ => True
  | ShutDrain Main.DataSrv _ => inShutdown d = true
  | ShutPoll Main.DataSrv _ _ => closed d
  | ShutBegin Main.MgmtSrv x => drained x st d
  | ShutDrain Main.MgmtSrv x => drained x st d /\ inShutdown g = true
  | ShutPoll Main.MgmtSrv x _ => drained x st d /\ closed g
  | Exited x => drained x st d /\ drained x st g
  | _ => True
  end.

Record shut_ok (p : program) : Prop := mkShut {
  sh_ctx x : shut_ctx (prun p) = Some x ->
    done p = true /\ exists t, x = WithTimeout Background t (10 * second) /\ t <= clock_of p;
  sh_begun s : inShutdown (server_of s p) = true -> done p = true;
  sh_at : shut_at (prun p) (sst (psys p)) (pdata p) (pmgmt p);
}.

(** What the other goroutines and the clients do to a server keeps it shut. *)
Record keeps (h h' : http_server) : Prop := mkKeeps {
  ke_shut : inShutdown h' = inShutdown h;
  ke_closed : closed h -> closed h';
  ke_none : closed h -> active h = 0%nat /\ idle h = 0%nat -> active h' = 0%nat /\ idle h' = 0%nat;
}.

#[export] Instance keeps_refl : Reflexive keeps.
Proof. by split. Qed.

Lemma keeps_drained x st st' h h' : elapsed st st' -> keeps h h' -> drained x st h -> drained x st' h'.
Proof.
  intros He [Hs Hc Hn] [Hcl [Hz|Hx]]; (split; [by apply Hc|]); [left; by apply Hn|right].
  by eapply expired_later.
Qed.

Lemma shut_at_keeps c st st' d d' g g' :
  elapsed st st' -> keeps d d' -> keeps g g' -> shut_at c st d g -> shut_at c st' d' g'.
Proof.
  intros He Hd Hg. pose proof (ke_shut _ _ Hd). pose proof (ke_closed _ _ Hd).
  pose proof (ke_shut _ _ Hg). pose proof (ke_closed _ _ Hg).
  destruct c as [| | | | | | |[]|[]|[]| |]; simpl; intros Hs; try done; destruct_and?; split_and?;
    try congruence; eauto using keeps_drained.
Qed.

(** The servers between steps of [run]. *)
Lemma servers_keep l p p' :
  act l p = Some p' -> match l with LRun => False | _ => True end ->
  keeps (pdata p) (pdata p') /\ keeps (pmgmt p) (pmgmt p').
Proof.
  assert (forall s a, listener_label s a p = Some p' -> keeps (pdata p) (pdata p') /\ keeps (pmgmt p) (pmgmt p')) as HL.
  { intros s a H. unfold listener_label in H. destruct (listener_step a (server_of s p)) as [h|] eqn:Hs; [|done].
    injection H as <-. destruct (listener_end_frame s (listening h) (with_server s h p))
      as (_ & _ & _ & _ & -> & -> & _).
    apply closed_listener in Hs as (? & ? & ? & ?). destruct s; simpl in *; (split; [|]); try done;
      split; try done; intros _ [? ?]; by split; congruence. }
  assert (forall s a, conn_label s a p = Some p' -> keeps (pdata p) (pdata p') /\ keeps (pmgmt p) (pmgmt p')) as HC.
  { intros s a H. unfold conn_label in H. destruct (conn_step a (server_of s p)) as [h|] eqn:Hs; [|done].
    injection H as <-. apply closed_conn in Hs as (? & ? & ?). destruct s; simpl in *; (split; [|]); try done;
      by split. }
  intros H Hl. destruct (outside l) eqn:Ho.
  { by destruct (outside_frame l p p' H Ho) as [[s ->]|(i & -> & _)]. }
  destruct l as [| |a|a|s a|s a| | | | | | | | |]; cbn [Lifetime.act] in H; try done;
    try (by eapply HL); try (by eapply HC).
  all: enough (pdata p' = pdata p /\ pmgmt p' = pmgmt p) as [-> ->] by done.
  - by step_cases H.
  - step_cases H; try done. simpl.
    by destruct (at_end_frame (Main.InformerEnded err) p) as (_ & _ & _ & _ & -> & -> & _).
  - by step_cases H.
  - by injection H as <-.
Qed.

Lemma done_later l p p' : act l p = Some p' -> pool_ok p -> done p = true -> done p' = true.
Proof. intros H Hp Hd. by rewrite (done_step l p p' H Hp), Hd. Qed.

(** A context of [run]'s shutdown is only done at its deadline. *)
Lemma shutdown_expired p x e :
  preachable p -> shut_ok p -> shut_ctx (prun p) = Some x -> ctx_Err x (sst (psys p)) = Some e ->
  expired x (sst (psys p)).
Proof.
  intros Hr Hok Hx He. destruct (sh_ctx p Hok x Hx) as (_ & t & -> & _).
  unfold ctx_Err in He. simpl in He. rewrite bool_decide_eq_false_2 in He by by apply background.
  case_match eqn:Hd; [|done]. eexists. split; [reflexivity|]. by apply Z.leb_le.
Qed.

Lemma quiescent_drained x st h : closed h -> bool_decide (active h = 0%nat) = true ->
  drained x st (with_conns (active h) 0 (hijacked h) h).
Proof. intros Hc Ha%bool_decide_eq_true. split; [done|]. by left. Qed.

Lemma begin_drained x st h : drained x st h -> drained x st (begin_shutdown h).
Proof. by intros [[? ?] ?]. Qed.

(** The other steps leave [run] in place, or the loop panics. *)
Lemma run_frame l p p' :
  act l p = Some p' -> match l with LRun | LExpire => False | _ => True end ->
  prun p' = prun p \/ prun p' = Panicked.
Proof.
  intros H Hl. destruct l; try done; pose proof (others_frame _ p p' H) as Hf; simpl in Hf;
    try (left; tauto).
  - cbn [Lifetime.act] in H. step_cases H; simpl; auto. left. apply at_end_frame.
  - cbn [Lifetime.act] in H. step_cases H; simpl; auto.
Qed.

Lemma shut_other l p p' :
  act l p = Some p' -> match l with LRun | LExpire => False | _ => True end ->
  pool_ok p -> elapsed (sst (psys p)) (sst (psys p')) -> shut_ok p -> shut_ok p'.
Proof.
  intros H Hl Hpool He [Hx Hb Ha]. destruct (servers_keep l p p' H) as [Hd Hg]; [by destruct l|].
  pose proof (done_later l p p' H Hpool) as Hdone.
  assert (forall s, inShutdown (server_of s p') = true -> done p' = true) as Hb'.
  { intros s Hs. apply Hdone, (Hb s). destruct s; simpl in *;
      [by rewrite <- (ke_shut _ _ Hd)|by rewrite <- (ke_shut _ _ Hg)]. }
  destruct (run_frame l p p' H Hl) as [Hc|Hc]; (split; [|done|]); rewrite Hc; try done.
  - intros x Hsx. destruct (Hx x Hsx) as (Hdp & t & -> & Ht). split; [auto|]. exists t. split; [done|].
    pose proof (el_clock _ _ He). unfold clock_of in *. lia.
  - by eapply shut_at_keeps.
Qed.

(** Within the shutdown. *)
Lemma shut_on p p' x :
  shut_ok p -> shut_ctx (prun p) = Some x -> shut_ctx (prun p') = Some x -> psys p' = psys p ->
  shut_at (prun p') (sst (psys p')) (pdata p') (pmgmt p') -> shut_ok p'.
Proof.
  intros [Hx _ _] Hc Hc' Hs Ha. destruct (Hx x Hc) as [Hd Ht].
  assert (done p' = done p) as Hdone by (unfold done; by rewrite Hs).
  split; [|by rewrite Hdone|done]. intros y Hy. rewrite Hc' in Hy. injection Hy as <-.
  unfold clock_of. by rewrite Hdone, Hs.
Qed.

Lemma shut_run p p' : run_step cfg bk p = Some p' -> shut_ok p -> shut_ok p'.
Proof.
  intros H Hok. pose proof (fun x => shut_on p p' x Hok) as Hon. destruct Hok as [Hx Hb Ha].
  unfold run_step in H. destruct (prun p) as [| | | | | | |s x|s x|s x polled| |] eqn:Hc;
    step_cases H; simpl in *.
  all: try (split; done).
  - split; [done|intros []; [apply (Hb Main.DataSrv)|apply (Hb Main.MgmtSrv)]|done].
  - split; [done|intros []; [apply (Hb Main.DataSrv)|apply (Hb Main.MgmtSrv)]|done].
  - split; [|done|done]. intros x [= <-]. split; [done|]. by eexists.
  - apply (Hon x); by destruct s.
  - apply (Hon x); try done. destruct s; simpl in *; [done|]. by destruct Ha.
  - apply (Hon x); try done. by apply quiescent_drained.
  - apply (Hon x); try done. destruct Ha. split; [done|by apply quiescent_drained].
  - apply (Hon x); by destruct s.
Qed.

Lemma shut_expire p p' : preachable p -> expire_step p = Some p' -> shut_ok p -> shut_ok p'.
Proof.
  intros Hr H Hok. pose proof (shutdown_expired p) as Hexp. pose proof (sh_at p Hok) as Ha.
  unfold expire_step in H. destruct (prun p) as [| | | | | | | | |s x []| |] eqn:Hc; try done.
  destruct (ctx_Err x (sst (psys p))) as [e|] eqn:He; [|done]. injection H as <-.
  pose proof (Hexp x e Hr Hok eq_refl He). eapply (shut_on p _ x Hok); try (by rewrite ?Hc); [by destruct s|].
  destruct s; simpl in *; [split; [done|by right]|].
  destruct Ha. split; [done|]. split; [done|by right].
Qed.

Lemma shut p : preachable p -> shut_ok p.
Proof.
  intros Hr. enough (preachable p /\ shut_ok p) by tauto. revert p Hr. apply (preachable_ind cfg bk).
  - intros t mx. split; [by exists t, mx|]. split; [done|by intros []|done].
  - intros l p p' Hok Hrun [Hr Hs] Ha. split; [by eapply preachable_step|].
    pose proof (act_elapsed l p p' Hok Hr Ha). pose proof (pools p Hr).
    destruct l; try by eapply shut_other. 
    + by eapply shut_run.
    + by eapply shut_expire.
Qed.

(** ** What [run] has called *)

(** The calls of [Main.serve], with the two times it reads. *)
Definition service_of (t t' : Z) : history Main.call :=
  [Ev Main.NotifyContext process_ctx;
   Ev (Main.Go (Main.PodInformer process_ctx (Config.LabelKey cfg) (Config.Namespace cfg))) tt;
   Ev Main.Now t;
   Ev (Main.Reconcile bk (WithTimeout process_ctx t (10 * second))) None;
   Ev (Main.Go (Main.ReapLoop process_ctx (Config.IdleCheckInterval cfg))) tt;
   Ev (Main.Go (Main.DataServer (Config.ListenAddr cfg) bk (Config.EnsureTimeout cfg) (Config.IdleTTL cfg))) tt;
   Ev (Main.Go (Main.MgmtServer (Config.MetricsAddr cfg))) tt;
   Ev (Main.AwaitDone process_ctx) tt;
   Ev Main.Now t';
   Ev (Main.Shutdown Main.DataSrv (WithTimeout Background t' (10 * second))) None;
   Ev (Main.Shutdown Main.MgmtSrv (WithTimeout Background t' (10 * second))) None].

Lemma service_of_service t t' : Main.service cfg bk (service_of t t').
Proof. by exists process_ctx, t, None, t', None, None. Qed.

(** How many of them [run] has made. *)
Definition position (c : rpc) : nat :=
  match c with
  | StartInformer => 1
  | StartReconcile => 2
  | Reconciling _ | StartReaper => 4
  | StartData => 5
  | StartMgmt => 6
  | Waiting => 8
  | ShutBegin Main.DataSrv _ => 9
  | ShutDrain Main.DataSrv _ | ShutPoll Main.DataSrv _ _ | ShutBegin Main.MgmtSrv _ => 10
  | ShutDrain Main.MgmtSrv _ | ShutPoll Main.MgmtSrv _ _ | Exited _ | Panicked => 11
  end.

Definition log_ok (p : program) : Prop :=
  exists t t' k, plog p = calls_of (take k (service_of t t')) /\
    (prun p <> Panicked -> k = position (prun p)) /\
    forall x, shut_ctx (prun p) = Some x -> x = WithTimeout Background t' (10 * second).

Lemma log_same p p' : plog p' = plog p -> prun p' = prun p \/ prun p' = Panicked -> log_ok p -> log_ok p'.
Proof.
  intros Hl Hc (t & t' & k & Hp & Hk & Hx). exists t, t', k. rewrite Hl. split; [done|].
  destruct Hc as [->| ->]; by split.
Qed.

Lemma log_at p t t' :
  plog p = calls_of (take (position (prun p)) (service_of t t')) ->
  (forall x, shut_ctx (prun p) = Some x -> x = WithTimeout Background t' (10 * second)) -> log_ok p.
Proof. intros Hp Hx. by exists t, t', (position (prun p)). Qed.

Lemma log_run p p' : run_step cfg bk p = Some p' -> log_ok p -> log_ok p'.
Proof.
  intros H (t & t' & k & Hp & Hk & Hx). unfold run_step in H.
  destruct (prun p) as [| | | | | | |s x|s x|s x polled| |] eqn:Hc; rewrite (Hk ltac:(done)) in Hp;
    try pose proof (Hx x eq_refl) as ->; step_cases H; try destruct s; simpl in Hp.
  2: { apply (log_at _ (clock_of p) t'); [simpl; by rewrite Hp|done]. }
  6: { apply (log_at _ t (clock_of p)); [simpl; by rewrite Hp|by intros x [= <-]]. }
  all: apply (log_at _ t t'); [simpl; by rewrite Hp|]; try done; by intros x [= <-].
Qed.

Lemma log_frame l p p' :
  act l p = Some p' -> match l with LRun => False | _ => True end -> plog p' = plog p.
Proof.
  intros H Hl. destruct (outside l) eqn:Ho.
  { by destruct (outside_frame l p p' H Ho) as [[s ->]|(i & -> & _)]. }
  destruct l as [| |a|a|s a|s a| | | | | | | | |]; try done; cbn [Lifetime.act] in H.
  - by step_cases H.
  - step_cases H; try done. simpl. apply at_end_frame.
  - by step_cases H.
  - unfold listener_label in H. destruct (listener_step a (server_of s p)) as [h|]; [|done].
    injection H as <-. destruct (listener_end_frame s (listening h) (with_server s h p))
      as (_ & _ & _ & _ & _ & _ & _ & ->). by destruct s.
  - unfold conn_label in H. destruct (conn_step a (server_of s p)) as [h|]; [|done].
    injection H as <-. by destruct s.
  - by injection H as <-.
Qed.

Lemma logged p : preachable p -> log_ok p.
Proof.
  revert p. apply (preachable_ind cfg bk).
  - intros t mx. by apply (log_at _ t t).
  - intros l p p' Hok Hrun Hl Ha.
    destruct l; try (eapply log_same; [by eapply log_frame|by eapply run_frame|done]).
    + by eapply log_run.
    + pose proof (log_frame _ p p' Ha I) as Hlog. destruct Hl as (t & t' & k & Hp & Hk & Hx).
      cbn [Lifetime.act] in Ha. unfold expire_step in Ha.
      destruct (prun p) as [| | | | | | | | |s x []| |] eqn:Hc; try done.
      destruct (ctx_Err x (sst (psys p))); [|done]. injection Ha as <-.
      apply (log_at _ t t'); [|destruct s; by intros y [= <-]; apply Hx].
      rewrite Hlog, Hp, Hk by done. by destruct s.
Qed.
End facts.
