(* ===== verification/LifetimeProps.v ===== *)
(** * The life of the program: theorems

    What a run of the whole program guarantees: the manager and [run] do what [SessionSys] and
    [Main] say; the start-up order as requests and probes see it; why a program ends; and what
    its shutdown leaves.  [LifetimeLive] shows that it ends. *)

From S2P Require Import Prelude GoStd Effects Backend Metrics Session SessionFacts SessionSys SessionSched SessionInv SessionProps SessionLive SessionFair Lifetime LifetimeFacts LifetimeInv.
From S2P Require Config Identify Main.
Local Open Scope Z_scope.

(** A goroutine about to delete a sandbox. *)
Definition deleting (g : prog outcome) : bool :=
  match g with
  | Do a _ => match a with CallDelete _ _ => true | _ => false end
  | Ret _ => false
  end.

(** [run] is past Reconcile. *)
Definition reconciled (p : program) : Prop := (3 <= phase (prun p))%nat.

(** A probe of [/readyz] that the management server answers. *)
Definition probed (p : program) : option (Z * string) :=
  match listening (pmgmt p) with
  | Serving => if running p then Some (Main.readyz (pidx p)) else None
  | _ => None
  end.

Section props.
Context (cfg : Config.Config) (bk : Main.backend).
Notation m := (manager cfg).

Lemma deleting_reap c : deleting (prog_of m c) = true -> is_reap c.
Proof. destruct c; try done; try destruct k; try destruct r; done. Qed.

(** C12. The program implements the parts it is made of: its manager makes a run of the concurrent
    manager, [run] the calls of [Main.serve] in their order, all of them when it returns;
    and as the scans are those of one loop, no two Deletes are ever in flight. *)
Theorem program_refines (p : program) :
  preachable cfg bk p ->
  reachable m (psys p) /\
  (exists l rest, Main.service cfg bk (l ++ rest) /\ plog p = calls_of l /\
     forall x, prun p = Exited x -> rest = []) /\
  (forall i j g h, pool (psys p) !! i = Some g -> pool (psys p) !! j = Some h ->
     deleting g = true -> deleting h = true -> i = j).
Proof.
  intros Hr. split; [by eapply preachable_manager|]. split.
  - destruct (logged cfg bk p Hr) as (t & t' & k & Hp & Hk & _).
    exists (take k (service_of cfg bk t t')), (drop k (service_of cfg bk t t')).
    rewrite take_drop. split; [apply service_of_service|]. split; [done|].
    intros x Hx. rewrite Hx in Hk. by rewrite Hk.
  - destruct (pools cfg bk p Hr) as (pcs & Hp & Hpool). intros i j g h Hi Hj Hg Hh.
    destruct (pool_pc m _ _ _ _ Hp Hi) as (ci & Hci & <-), (pool_pc m _ _ _ _ Hp Hj) as (cj & Hcj & <-).
    pose proof (po_reap _ _ _ _ Hpool i ci Hci (deleting_reap _ Hg)) as H1.
    pose proof (po_reap _ _ _ _ Hpool j cj Hcj (deleting_reap _ Hh)) as H2. congruence.
Qed.

Lemma not_reconciled p : ~ reconciled p -> (phase (prun p) <= 2)%nat.
Proof. unfold reconciled. lia. Qed.

(** C23. Start-up.  A client is served, a scan begins and [/readyz] answers only after Reconcile
    has returned, [/readyz] moreover with 200 only once the informer has synced and the
    reaper and the data listener are started.  Reconcile itself runs on an empty manager, so
    when it returns with what the backend listed there is one pending session, with its
    resolver, for each listed id and no other. *)
Theorem startup_order (p : program) :
  preachable cfg bk p ->
  ((busy p = true \/ ticking (preaper p) = true \/ is_Some (probed p)) -> reconciled p) /\
  (reconciled p -> pool (psys p) !! 0%nat = Some (Ret OUnit)) /\
  (probed p = Some (200, "ok") ->
     has_synced (pinformer p) = true /\ preaper p <> RNone /\ listening (pdata p) <> Unstarted) /\
  (forall i ids ans p', prun p = Reconciling i ->
     pool (psys p) !! i = Some (prog_of m (PRec1 ids)) ->
     pstep cfg bk (LGo i ans) p = Some p' ->
     exists ps, pool (psys p') = Ret OUnit :: map (resolve_goroutine m) ps /\
       size (sessions (sst (psys p'))) = length ps /\
       forall id, (is_Some (sessions (sst (psys p')) !! id) <-> id ∈ ids) /\
         forall l, sessions (sst (psys p')) !! id = Some l ->
           l ∈ ps /\ heap (sst (psys p')) !! l = Some (fresh_session id (clock_of p))).
Proof.
  intros Hr. pose proof (started cfg bk p Hr) as Hst. destruct (pools cfg bk p Hr) as (pcs & Hp & Hpool).
  assert (forall h, probed p = Some h -> (6 <= phase (prun p))%nat) as Hprobe.
  { intros h Hh. destruct (decide (phase (prun p) <= 5)%nat) as [Hle|]; [|lia].
    unfold probed in Hh. by rewrite (so_mgmt _ p Hst Hle) in Hh. }
  split_and!.
  - intros [Hb|[Ht|[h Hh]]].
    + pose proof (busy_phase cfg p Hst Hb). unfold reconciled. lia.
    + unfold reconciled. destruct (decide (phase (prun p) <= 3)%nat) as [Hle|]; [|lia].
      by rewrite (so_reaper _ p Hst Hle) in Ht.
    + pose proof (Hprobe h Hh). unfold reconciled. lia.
  - intros Hc. rewrite Hp. change (map (prog_of m) pcs) with (prog_of m <$> pcs).
    by rewrite list_lookup_fmap, (po_after _ _ _ _ Hpool Hc).
  - intros Hh. pose proof (Hprobe _ Hh) as H6. unfold probed in Hh.
    destruct (listening (pmgmt p)); try done. destruct (running p) eqn:Hrun; [|done]. injection Hh as Hh.
    split; [|split].
    + unfold Main.readyz, Identify.Ready in Hh. rewrite <- (so_ready _ p Hst).
      by destruct (Identify.ready (pidx p)).
    + apply (so_reaping _ p Hst). lia.
    + apply (so_launched _ p Hst). unfold running in Hrun. destruct (prun p); simpl in *; done || lia.
  - intros i ids ans p' Hc Hi [_ Ha]%pstep_act.
    destruct (po_during _ _ _ _ Hpool i Hc) as (-> & c0 & Hc0 & Hcase).
    assert (pool (psys p) = [prog_of m (PRec1 ids)] /\ empty (sst (psys p))) as [Hone [Hs Hh]].
    { rewrite Hp in Hi. destruct Hcase as [(_ & -> & He)| ->].
      - split; [|done]. rewrite Hp. simpl in *. by injection Hi as ->.
      - destruct pcs as [|c pcs]; [done|]. injection Hc0 as ->. discriminate Hi. }
    cbn [Lifetime.act] in Ha. unfold step in Ha. rewrite Hi in Ha. simpl in Ha.
    destruct (reconcile_ids ids (sst (psys p))) as [ps st'] eqn:Hrec. simplify_eq/=. rewrite Hone.
    exists ps. split; [done|]. by apply (adopts_empty ids _ ps st' Hs Hh).
Qed.

(** C25. Why a program ends.  The context of the process is done, and a server shut down and [run]
    returned, only after a signal, a failure to register the informer's handlers, or a data
    listener that could not listen or accept; the management listener's end is no cause.  The
    program panics only in [NewTicker], and does for every interval that is not positive. *)
Theorem program_ends_for_cause (p : program) :
  preachable cfg bk p ->
  (done p = true <-> ended_for p) /\
  (forall x, prun p = Exited x -> ended_for p) /\
  (forall s, inShutdown (server_of s p) = true -> ended_for p) /\
  (prun p = Panicked -> Config.IdleCheckInterval cfg <= 0) /\
  (Config.IdleCheckInterval cfg <= 0 -> preaper p = RStart -> running p = true ->
     exists p', pstep cfg bk (LReaper Begin) p = Some p' /\ prun p' = Panicked).
Proof.
  intros Hr. pose proof (ca_done p (caused cfg bk p Hr)) as Hd. pose proof (shut cfg bk p Hr) as Hs.
  split; [exact Hd|]. split; [|split; [|split]].
  - intros x Hx. apply Hd, (sh_ctx p Hs x). by rewrite Hx.
  - intros s Hin. by apply Hd, (sh_begun p Hs s).
  - apply (so_panic cfg p), (started cfg bk p Hr).
  - intros Hle Hst Hrun. unfold pstep. rewrite Hrun. cbn [act]. unfold reaper_step. rewrite Hst.
    apply Z.leb_le in Hle. rewrite Hle. by eexists.
Qed.

(** C24. What a shutdown leaves.  When [run] has returned both servers are shut: nothing is
    accepted, and every connection but hijacked ones is gone, unless ten seconds have passed
    since [run] saw the end of the context, which the two Shutdowns share. *)
Theorem shutdown_graceful (p : program) (x : Ctx) :
  preachable cfg bk p -> prun p = Exited x ->
  exists t, x = WithTimeout Background t (10 * second) /\ t <= clock_of p /\
    forall s, inShutdown (server_of s p) = true /\ listening (server_of s p) <> Serving /\
      (conn_step Accept (server_of s p) = None) /\
      ((active (server_of s p) = 0%nat /\ idle (server_of s p) = 0%nat) \/ t + 10 * second <= clock_of p).
Proof.
  intros Hr Hx. pose proof (shut cfg bk p Hr) as Hs. destruct (sh_ctx p Hs x) as (_ & t & -> & Ht).
  { by rewrite Hx. }
  exists t. split; [done|]. split; [done|]. pose proof (sh_at p Hs) as Ha. rewrite Hx in Ha.
  assert (forall h, drained (WithTimeout Background t (10 * second)) (sst (psys p)) h ->
    inShutdown h = true /\ listening h <> Serving /\ conn_step Accept h = None /\
    ((active h = 0%nat /\ idle h = 0%nat) \/ t + 10 * second <= clock_of p)) as Hdr.
  { intros h [[Hin Hret] Hcase]. split; [done|]. unfold serve_returned in Hret.
    split; [by destruct (listening h)|]. split; [simpl; by destruct (listening h)|].
    destruct Hcase as [?|(d & [= <-] & Hd)]; [by left|by right]. }
  destruct Ha as [H1 H2]. intros []; by apply Hdr.
Qed.
End props.

(** ** Runs *)

Lemma prun_all_steps cfg bk ls p p' :
  Forall label_ok ls -> prun_all cfg bk ls p = Some p' -> rtc (psteps cfg bk) p p'.
Proof.
  intros Hok. revert p. induction Hok as [|l ls Hl _ IH]; simpl; intros p H; [by simplify_eq|].
  destruct (pstep cfg bk l p) as [p1|] eqn:Hs; [|done]. eapply rtc_l; [by exists l|by apply IH].
Qed.

(** The program of the smallest environment, with the reaping interval [interval]. *)
Definition env_with (interval : string) : Config.environ :=
  Config.setenv [("POD_NAMESPACE", "ci"); ("WARMPOOL_NAME", "pw"); ("IDLE_CHECK_INTERVAL", interval)].

Definition demo_cfg : Config.Config :=
  ltac:(let r := eval vm_compute in (Config.FromEnv (env_with "30s")) in
        lazymatch r with Ok ?c => exact c end).

Definition idle_cfg : Config.Config :=
  ltac:(let r := eval vm_compute in (Config.FromEnv (env_with "0s")) in
        lazymatch r with Ok ?c => exact c end).

Definition demo_backend : Main.backend :=
  Main.BSandboxClaim (SandboxClaim.NewSandboxClaim "ci" "pw" "pw" 3000 0 "playwright-id").

(** Start-up, to where Reconcile has listed the id [a]. *)
Definition listed_run : list label := [LRun; LRun; LGo 0 (AList (Ok ["a"]))].

(** Both listeners up and the informer synced. *)
Definition up_run : list label :=
  listed_run ++
  [LGo 0 ANone; LRun; LRun; LRun; LRun;
   LInformer (Registered None); LInformer Synced; LInformer Proceed; LReaper Begin;
   LListener Main.DataSrv Check; LListener Main.DataSrv (Listened None);
   LListener Main.MgmtSrv Check; LListener Main.MgmtSrv (Listened None)].

(** A client whose connection is hijacked, and one that keeps its request open. *)
Definition clients_run : list label :=
  up_run ++ [LConn Main.DataSrv Accept; LConn Main.DataSrv Accept; LConn Main.DataSrv Hijack].

Definition stop_server (s : Main.server) : list label := [LRun; LListener s Unlistened; LRun; LRun].

(** A signal; the open request holds the shutdown up for ten seconds. *)
Definition late_run : list label :=
  clients_run ++ [LSignal; LRun] ++ stop_server Main.DataSrv ++ [LTick (10 * second); LExpire] ++
  stop_server Main.MgmtSrv.

(** With only the tunnel open it takes no time. *)
Definition tunnel_run : list label :=
  clients_run ++ [LConn Main.DataSrv (HangUp false); LSignal; LRun] ++
  stop_server Main.DataSrv ++ stop_server Main.MgmtSrv.

(** The data listener cannot listen. *)
Definition port_taken_run : list label :=
  listed_run ++ [LGo 0 ANone; LRun; LRun; LRun; LRun;
    LListener Main.DataSrv Check; LListener Main.DataSrv (Listened (Some (NewError "address already in use")))].

Definition played (cfg : Config.Config) (ls : list label) : option program :=
  prun_all cfg demo_backend ls (launch 0 None).

Lemma played_reachable cfg ls p :
  Forall label_ok ls -> played cfg ls = Some p -> preachable cfg demo_backend p.
Proof. intros Hok H. exists 0, None. by eapply prun_all_steps. Qed.

Definition end_of (cfg : Config.Config) (ls : list label) : program := default (launch 0 None) (played cfg ls).

Lemma end_of_reachable cfg ls :
  Forall label_ok ls -> match played cfg ls with Some _ => true | None => false end = true ->
  preachable cfg demo_backend (end_of cfg ls).
Proof.
  intros Hok Hp. unfold end_of. destruct (played cfg ls) eqn:H; [|done]. by eapply played_reachable.
Qed.

Ltac played := apply end_of_reachable; [repeat constructor|vm_compute; reflexivity].

Example demo_cfg_valid : Config.FromEnv (env_with "30s") = Ok demo_cfg /\ Config.FromEnv (env_with "0s") = Ok idle_cfg.
Proof. split; vm_compute; reflexivity. Qed.

Lemma program_refines_witness :
  exists l rest, Main.service demo_cfg demo_backend (l ++ rest) /\
    plog (end_of demo_cfg late_run) = calls_of l /\ rest = [].
Proof.
  destruct (program_refines demo_cfg demo_backend (end_of demo_cfg late_run)) as (_ & (l & rest & H1 & H2 & H3) & _);
    [played|]. exists l, rest. split; [exact H1|]. split; [exact H2|]. eapply H3. vm_compute. reflexivity.
Defined.

(** Reconcile returns: the listed id is pending, its resolver started. *)
Lemma startup_order_witness :
  probed (end_of demo_cfg up_run) = Some (200, "ok") /\
  reconciled (end_of demo_cfg up_run) /\
  exists p' ps, pstep demo_cfg demo_backend (LGo 0 ANone) (end_of demo_cfg listed_run) = Some p' /\
    pool (psys p') = Ret OUnit :: map (resolve_goroutine (manager demo_cfg)) ps /\
    is_Some (sessions (sst (psys p')) !! "a").
Proof.
  assert (probed (end_of demo_cfg up_run) = Some (200, "ok")) as Hp by (vm_compute; reflexivity).
  split; [exact Hp|]. split.
  - destruct (startup_order demo_cfg demo_backend (end_of demo_cfg up_run)) as [Hstart _]; [played|].
    apply Hstart. right. right. by rewrite Hp.
  - destruct (startup_order demo_cfg demo_backend (end_of demo_cfg listed_run)) as (_ & _ & _ & Hrec); [played|].
    destruct (pstep demo_cfg demo_backend (LGo 0 ANone) (end_of demo_cfg listed_run)) as [p'|] eqn:Hs.
    2:{ exfalso. assert (match pstep demo_cfg demo_backend (LGo 0 ANone) (end_of demo_cfg listed_run)
          with Some _ => true | None => false end = true) as H by (vm_compute; reflexivity).
        by rewrite Hs in H. }
    destruct (Hrec 0%nat ["a"] ANone p') as (ps & H1 & _ & H2);
      [vm_compute; reflexivity|reflexivity|exact Hs|].
    exists p', ps. split; [reflexivity|]. split; [exact H1|]. apply H2. by left.
Defined.

Lemma program_ends_for_cause_witness :
  (done (end_of demo_cfg port_taken_run) = true /\ ended_for (end_of demo_cfg port_taken_run)) /\
  prun (end_of idle_cfg (listed_run ++ [LGo 0 ANone; LRun; LRun; LReaper Begin])) = Panicked /\
  Config.IdleCheckInterval idle_cfg <= 0.
Proof.
  split.
  - assert (done (end_of demo_cfg port_taken_run) = true) as Hd by (vm_compute; reflexivity).
    split; [exact Hd|].
    apply (program_ends_for_cause demo_cfg demo_backend (end_of demo_cfg port_taken_run)); [played|exact Hd].
  - assert (prun (end_of idle_cfg (listed_run ++ [LGo 0 ANone; LRun; LRun; LReaper Begin])) = Panicked) as Hp
      by (vm_compute; reflexivity).
    split; [exact Hp|].
    apply (program_ends_for_cause idle_cfg demo_backend
      (end_of idle_cfg (listed_run ++ [LGo 0 ANone; LRun; LRun; LReaper Begin]))); [played|exact Hp].
Defined.

(** The run that waits for the request ends ten seconds after the signal; the one with only a
    tunnel ends at once, with the tunnel open. *)
Lemma shutdown_graceful_witness :
  (prun (end_of demo_cfg tunnel_run) = Exited (WithTimeout Background 0 (10 * second)) /\
     clock_of (end_of demo_cfg tunnel_run) = 0 /\
     hijacked (server_of Main.DataSrv (end_of demo_cfg tunnel_run)) = 1%nat /\
     conn_step Accept (server_of Main.DataSrv (end_of demo_cfg tunnel_run)) = None) /\
  (prun (end_of demo_cfg late_run) = Exited (WithTimeout Background 0 (10 * second)) /\
     active (server_of Main.DataSrv (end_of demo_cfg late_run)) = 1%nat /\
     exists t, t + 10 * second <= clock_of (end_of demo_cfg late_run)).
Proof.
  split.
  - assert (prun (end_of demo_cfg tunnel_run) = Exited (WithTimeout Background 0 (10 * second))) as Hx
      by (vm_compute; reflexivity).
    split; [exact Hx|]. split; [vm_compute; reflexivity|]. split; [vm_compute; reflexivity|].
    destruct (shutdown_graceful demo_cfg demo_backend (end_of demo_cfg tunnel_run)
      (WithTimeout Background 0 (10 * second)) ltac:(played) Hx) as (t & _ & _ & Hs).
    exact (proj1 (proj2 (proj2 (Hs Main.DataSrv)))).
  - assert (prun (end_of demo_cfg late_run) = Exited (WithTimeout Background 0 (10 * second))) as Hx
      by (vm_compute; reflexivity).
    assert (active (server_of Main.DataSrv (end_of demo_cfg late_run)) = 1%nat) as Ha by (vm_compute; reflexivity).
    split; [exact Hx|]. split; [exact Ha|].
    destruct (shutdown_graceful demo_cfg demo_backend (end_of demo_cfg late_run)
      (WithTimeout Background 0 (10 * second)) ltac:(played) Hx) as (t & _ & _ & Hs).
    exists t. destruct (proj2 (proj2 (proj2 (Hs Main.DataSrv)))) as [Hz|Hle]; [|exact Hle].
    rewrite (proj1 Hz) in Ha. discriminate Ha.
Defined.
