(* ===== verification/LifetimeLive.v ===== *)
(** * The life of the program: its end

    In a run that is fair to the goroutines of the program, to the backend's List and to the
    select of [Shutdown], and in which time passes, [run] returns once the context of the
    process is done. *)

From S2P Require Import Prelude GoStd Effects Backend Metrics Session SessionFacts SessionSys SessionSched SessionInv SessionProps SessionFair Lifetime LifetimeFacts LifetimeInv LifetimeProps.
From S2P Require Config Identify Main.
Local Open Scope Z_scope.

Section live.
Context (cfg : Config.Config) (bk : Main.backend).
Notation m := (manager cfg).
Notation pstep := (pstep cfg bk).
Notation act := (act cfg bk).
Notation preachable := (preachable cfg bk).

(** ** Fair runs *)

Definition takes (r : role) (p p' : program) : Prop :=
  exists l, role_of l = Some r /\ label_ok l /\ pstep l p = Some p'.
Definition can_take (r : role) (p : program) : Prop := exists p', takes r p p'.

(** A run; it may idle, and does when it has ended. *)
Definition lifetime (σ : nat -> program) : Prop :=
  preachable (σ 0%nat) /\ forall n, σ (S n) = σ n \/ psteps cfg bk (σ n) (σ (S n)).

(** Weak fairness to each role. *)
Definition fair_lifetime (σ : nat -> program) : Prop :=
  forall r n, can_take r (σ n) ->
    exists k, (n <= k)%nat /\ (takes r (σ k) (σ (S k)) \/ ~ can_take r (σ k)).

Definition time_passes (σ : nat -> program) : Prop :=
  forall n t, exists k, (n <= k)%nat /\ (t <= clock_of (σ k) \/ running (σ k) = false).

(** ** What [run] still has to do *)

(** What goroutine [i] still has to do for a Reconcile, and a Serve for its end. *)
Definition stage (p : program) : nat :=
  match prun p with
  | Reconciling i =>
      match pool (psys p) !! i with
      | Some (Do a _) => match a with CallList _ => 2 | _ => 1 end
      | _ => 0
      end
  | ShutDrain s _ => if serve_returned (server_of s p) then 0 else 1
  | _ => 0
  end.

Definition base (c : rpc) : nat :=
  match c with
  | Exited _ | Panicked => 0
  | ShutPoll Main.MgmtSrv _ polled => if polled then 1 else 2
  | ShutDrain Main.MgmtSrv _ => 3
  | ShutBegin Main.MgmtSrv _ => 5
  | ShutPoll Main.DataSrv _ polled => if polled then 6 else 7
  | ShutDrain Main.DataSrv _ => 8
  | ShutBegin Main.DataSrv _ => 10
  | Waiting => 11
  | StartMgmt => 12
  | StartData => 13
  | StartReaper => 14
  | Reconciling _ => 15
  | StartReconcile => 18
  | StartInformer => 19
  end.

Definition todo (p : program) : nat := base (prun p) + stage p.

(** Who brings [run] forward. *)
Definition helper (c : rpc) (st : nat) : role :=
  match c, st with
  | Reconciling i, S _ => RGo i
  | ShutDrain s _, S _ => RListener s
  | ShutPoll _ _ true, _ => RExpire
  | _, _ => RMain
  end.

Lemma stage_le p : (stage p <= 2)%nat.
Proof. unfold stage. destruct (prun p); repeat case_match; lia. Qed.

Lemma run_forward p p' :
  run_step cfg bk p = Some p' ->
  (todo p' < todo p)%nat \/ exists s x, prun p = ShutPoll s x true /\ prun p' = prun p.
Proof.
  intros H. pose proof (stage_le p'). unfold todo. unfold run_step in H.
  destruct (prun p) as [| | | | | | |[] x|[] x|[] x []| |] eqn:Hc; step_cases H; simpl in *; eauto; left;
    unfold stage in *; simpl in *; rewrite ?Hc; try lia; case_match; lia.
Qed.

Lemma expire_forward p p' : expire_step p = Some p' -> (todo p' < todo p)%nat.
Proof.
  unfold expire_step, todo. intros H.
  destruct (prun p) as [| | | | | | | | |[] x []| |] eqn:Hc; try done;
    (destruct (ctx_Err x (sst (psys p))); [|done]); injection H as <-; unfold stage; simpl; rewrite Hc; simpl; lia.
Qed.

(** The steps of the others take nothing back. *)
Lemma stage_go p p' i g :
  preachable p -> prun p = Reconciling i -> pool (psys p) !! i = Some g ->
  moves m i (psys p) (psys p') -> prun p' = prun p -> (stage p' < stage p)%nat.
Proof.
  intros Hr Hc Hi (pr & sp & pr' & st' & Hi' & Hstep & Hs) Hc'. simplify_eq.
  destruct (pools cfg bk p Hr) as (pcs & Hp & Hpool).
  destruct (po_during _ _ _ _ Hpool i Hc) as (-> & c0 & Hc0 & Hcase).
  assert (g = prog_of m c0) as ->.
  { rewrite Hp in Hi. change (map (prog_of m) pcs) with (prog_of m <$> pcs) in Hi.
    rewrite list_lookup_fmap, Hc0 in Hi. by injection Hi as <-. }
  apply control_simulation in Hstep as (c' & -> & Hstep).
  assert (pool (psys p') !! 0%nat = Some (prog_of m c')) as Hn.
  { rewrite Hs. simpl. apply lookup_app_l_Some, list_lookup_insert_eq. by eapply lookup_lt_Some. }
  unfold stage. rewrite Hc', Hc, Hi, Hn.
  destruct Hcase as [(Hrec & _)| ->]; [|by inversion Hstep].
  destruct Hstep; try done; simpl; lia.
Qed.

Lemma others_keep l p p' :
  label_ok l -> preachable p -> preachable p' -> act l p = Some p' ->
  match l with LRun | LExpire => False | _ => True end -> 0 < Config.IdleCheckInterval cfg ->
  prun p' = prun p /\ (stage p' <= stage p)%nat.
Proof.
  intros Hok Hr Hr' Ha Hl Hint.
  assert (prun p' = prun p) as Hc.
  { destruct (run_frame cfg bk l p p' Ha Hl) as [?|Hpanic]; [done|].
    pose proof (so_panic cfg p' (started cfg bk p' Hr') Hpanic). lia. }
  split; [done|]. destruct (prun p) as [| |i| | | | | |s x| | |] eqn:Hcp; try (unfold stage; rewrite Hc; lia).
  - destruct (moved_gstep cfg p p' (act_moved cfg bk l p p' Hok Ha)) as [Hs|Hs].
    { unfold stage. by rewrite Hc, Hcp, Hs. }
    destruct (pool (psys p) !! i) as [g|] eqn:Hi.
    + destruct (gstep_stays m _ _ i g Hs Hi) as [Hm|Hi'].
      * enough (stage p' < stage p)%nat by lia. eapply stage_go; [done..|]. congruence.
      * unfold stage. by rewrite Hc, Hcp, Hi, Hi'.
    + destruct (pools cfg bk p Hr) as (pcs & Hp & Hpool).
      destruct (po_during _ _ _ _ Hpool i Hcp) as (-> & c0 & Hc0 & _).
      rewrite Hp in Hi. change (map (prog_of m) pcs) with (prog_of m <$> pcs) in Hi.
      by rewrite list_lookup_fmap, Hc0 in Hi.
  - destruct (servers_keep cfg bk l p p' Ha) as [Hd Hg]; [by destruct l|].
    pose proof (sh_at p (shut cfg bk p Hr)) as Hsh. rewrite Hcp in Hsh.
    assert (serve_returned (server_of s p) = true -> serve_returned (server_of s p') = true) as Hret.
    { destruct s; simpl in *; intros ?; [apply (ke_closed _ _ Hd)|apply (ke_closed _ _ Hg)]; try done.
      split; [by destruct Hsh|done]. }
    unfold stage. rewrite Hc, Hcp. destruct (serve_returned (server_of s p)); [by rewrite Hret|].
    destruct (serve_returned (server_of s p')); lia.
Qed.

(** ** The helper helps *)

Definition helper_of (p : program) : role := helper (prun p) (stage p).

(** Where [run] waits for the outside: for the end of the context, or of ten seconds. *)
Definition unblocked (p : program) : Prop :=
  match prun p with
  | Waiting => done p = true
  | ShutPoll _ x true => expired x (sst (psys p))
  | _ => True
  end.

Lemma can_label l p p' r : role_of l = Some r -> label_ok l -> running p = true -> act l p = Some p' -> can_take r p.
Proof. intros Hl Hok Hrun Ha. exists p', l. unfold Lifetime.pstep. by rewrite Hrun. Qed.

Lemma helper_can p : preachable p -> running p = true -> unblocked p -> can_take (helper_of p) p.
Proof.
  intros Hr Hrun Hu. pose proof (started cfg bk p Hr) as Hst. pose proof (shut cfg bk p Hr) as Hsh.
  assert (forall p', run_step cfg bk p = Some p' -> can_take RMain p) as Hmain.
  { intros p' H. by apply (can_label LRun p p'). }
  unfold helper_of, stage, unblocked in *. unfold run_step in Hmain. unfold running in Hrun.
  destruct (prun p) as [| |i| | | | |s x|s x|s x []| |] eqn:Hc; simpl in *; try done;
    try (by eapply Hmain).
  - destruct (pools cfg bk p Hr) as (pcs & Hp & Hpool).
    destruct (po_during _ _ _ _ Hpool i Hc) as (-> & c0 & Hc0 & Hcase).
    assert (pool (psys p) !! 0%nat = Some (prog_of m c0)) as Hi.
    { rewrite Hp. change (map (prog_of m) pcs) with (prog_of m <$> pcs). by rewrite list_lookup_fmap, Hc0. }
    unfold returned in Hmain. rewrite Hi in *.
    destruct Hcase as [(Hrec & _)| ->]; [|by eapply Hmain].
    assert (exists p', act (LGo 0 (AList (Ok []))) p = Some p') as [p' Hp'].
    { cbn [Lifetime.act]. unfold step. rewrite Hi. destruct c0; try destruct Hrec; simpl; [by eexists|].
      destruct (reconcile_ids ids (sst (psys p))). by eexists. }
    assert (can_take (RGo 0) p) as Hcan.
    { eapply (can_label (LGo 0 (AList (Ok [])))); try done. unfold running. by rewrite Hc. }
    by destruct c0.
  - rewrite Hu in Hmain. by eapply Hmain.
  - destruct (serve_returned (server_of s p)) eqn:Hret; simpl; [by eapply Hmain|].
    assert (inShutdown (server_of s p) = true) as Hin.
    { pose proof (sh_at p Hsh) as Ha. rewrite Hc in Ha. destruct s; simpl in *; [done|by destruct Ha]. }
    assert (exists p', act (LListener s Unlistened) p = Some p') as [p' Hp'].
    { cbn [Lifetime.act]. unfold listener_label, listener_step. unfold serve_returned in Hret.
      destruct (listening (server_of s p)); try done. rewrite Hin. by eexists. }
    eapply (can_label (LListener s Unlistened)); try done. unfold running. by rewrite Hc.
  - destruct Hu as (d & Hd & Hle).
    assert (exists e, ctx_Err x (sst (psys p)) = Some e) as [e He].
    { apply Z.leb_le in Hle. unfold ctx_Err. rewrite Hd. destruct (root_cancelled _ _); [by eexists|].
      change (now (sst (psys p))) with (clock (sst (psys p))). rewrite Hle. by eexists. }
    eapply (can_label LExpire); [done..| |].
    + unfold running. by rewrite Hc.
    + cbn [Lifetime.act]. unfold expire_step. by rewrite Hc, He.
Qed.

Lemma takes_act r p p' : takes r p p' -> running p = true /\ exists l, role_of l = Some r /\ label_ok l /\ act l p = Some p'.
Proof. intros (l & Hl & Hok & [Hrun Ha]%pstep_act). eauto. Qed.

Lemma helper_helps p p' :
  preachable p -> preachable p' -> 0 < Config.IdleCheckInterval cfg ->
  takes (helper_of p) p p' -> (todo p' < todo p)%nat.
Proof.
  intros Hr Hr' Hint (Hrun & l & Hl & Hok & Ha)%takes_act.
  assert (role_of l = Some RMain -> l = LRun) as HM.
  { destruct l as [| |[]|[]|? []|? []| | | | | | | | |]; done. }
  assert (role_of l = Some RExpire -> l = LExpire) as HE.
  { destruct l as [| |[]|[]|? []|? []| | | | | | | | |]; done. }
  assert (l = LRun -> (forall s x, prun p <> ShutPoll s x true) -> (todo p' < todo p)%nat) as Hmain.
  { intros -> Hno. destruct (run_forward p p' Ha) as [?|(s & x & Hc & _)]; [done|]. by destruct (Hno s x). }
  unfold helper_of in Hl. destruct (prun p) as [| |i| | | | |s x|s x|s x []| |] eqn:Hc; simpl in Hl;
    try (by apply Hmain; [apply HM|]).
  - destruct (stage p) as [|n] eqn:Hst; [by apply Hmain; [apply HM|]|].
    assert (exists ans, l = LGo i ans) as [ans ->].
    { destruct l as [| |[]|[]|? []|? []| |j ans| | | | | | |]; simplify_eq/=; eauto. }
    destruct (others_keep _ p p' Hok Hr Hr' Ha I Hint) as [Hc' _].
    cbn [Lifetime.act] in Ha. destruct (step m (psys p) (Run i ans)) as [s|] eqn:Hs; [|done].
    injection Ha as <-. pose proof (step_run _ _ _ _ _ Hs) as Hm.
    destruct Hm as (pr & sp & pr' & st' & Hi & Hm).
    assert (stage (with_sys s p) < stage p)%nat.
    { eapply stage_go; try done. by exists pr, sp, pr', st'. }
    unfold todo. rewrite Hc', Hc. lia.
  - destruct (stage p) as [|n] eqn:Hst; [by apply Hmain; [apply HM|]|].
    assert (exists a, l = LListener s a) as [a ->].
    { destruct l as [| |[]|[]|? []|? []| |j ans| | | | | | |]; simplify_eq/=; eauto. }
    destruct (others_keep _ p p' Hok Hr Hr' Ha I Hint) as [Hc' _].
    enough (stage p' = 0%nat) by (unfold todo; rewrite Hc', Hc; lia).
    unfold stage in Hst |- *. rewrite Hc in Hst. rewrite Hc', Hc.
    destruct (serve_returned (server_of s p)) eqn:Hret; [done|]. unfold serve_returned in Hret.
    cbn [Lifetime.act] in Ha. unfold listener_label, listener_step in Ha.
    destruct (listening (server_of s p)), a as [|[]| |]; try done;
      destruct (inShutdown (server_of s p)); try done; injection Ha as <-;
      by destruct s.
  - rewrite (HE Hl) in Ha. by apply expire_forward.
Qed.

(** ** Along a fair run *)

Section run.
Context (σ : nat -> program) (Hlife : lifetime σ) (Hfair : fair_lifetime σ).
Context (interval_positive : 0 < Config.IdleCheckInterval cfg).

Lemma lifetime_reachable n : preachable (σ n).
Proof.
  induction n as [|n IH]; [apply Hlife|]. destruct (proj2 Hlife n) as [->|(l & Hok & Hs)]; [done|].
  apply pstep_act in Hs as [Hrun Ha]. by eapply preachable_step.
Qed.

Lemma lifetime_elapsed n k : (n <= k)%nat -> elapsed (sst (psys (σ n))) (sst (psys (σ k))).
Proof.
  induction 1 as [|k _ IH]; [done|]. etrans; [exact IH|].
  destruct (proj2 Hlife k) as [->|(l & Hok & [Hrun Ha]%pstep_act)]; [done|].
  eapply act_elapsed; [done|apply lifetime_reachable|done].
Qed.

Lemma lifetime_done n k : (n <= k)%nat -> done (σ n) = true -> done (σ k) = true.
Proof.
  intros Hle Hd. apply bool_decide_eq_true in Hd. apply bool_decide_eq_true.
  by apply (el_cancelled _ _ (lifetime_elapsed n k Hle)).
Qed.

(** [run] has come forward, or is where it was. *)
Lemma forward n k :
  (n <= k)%nat ->
  (todo (σ k) < todo (σ n))%nat \/ (prun (σ k) = prun (σ n) /\ stage (σ k) = stage (σ n)).
Proof.
  induction 1 as [|k Hle IH]; [by right|].
  assert ((todo (σ (S k)) < todo (σ k))%nat \/
          (prun (σ (S k)) = prun (σ k) /\ stage (σ (S k)) <= stage (σ k))%nat) as Hstep.
  { destruct (proj2 Hlife k) as [->|(l & Hok & [Hrun Ha]%pstep_act)]; [by right|].
    pose proof (lifetime_reachable k). pose proof (lifetime_reachable (S k)).
    destruct (match l with LRun | LExpire => true | _ => false end) eqn:Hl.
    - destruct l; try done; cbn [Lifetime.act] in Ha.
      + destruct (run_forward _ _ Ha) as [?|(s & x & Hc & Hc')]; [by left|right].
        split; [done|]. unfold stage. by rewrite Hc', Hc.
      + left. by apply expire_forward.
    - right. eapply others_keep; try done. by destruct l. }
  unfold todo in *. destruct IH as [?|[Hc Hst]], Hstep as [?|[Hc' Hst']].
  - left. lia.
  - left. rewrite Hc'. lia.
  - left. rewrite <- Hc, <- Hst. lia.
  - destruct (decide (stage (σ (S k)) = stage (σ n))); [right; split; congruence|left].
    rewrite Hc', Hc. lia.
Qed.

Lemma helper_same n k :
  prun (σ k) = prun (σ n) -> stage (σ k) = stage (σ n) -> helper_of (σ k) = helper_of (σ n).
Proof. intros Hc Hs. unfold helper_of. by rewrite Hc, Hs. Qed.

Lemma unblocked_later n k :
  (n <= k)%nat -> prun (σ k) = prun (σ n) -> unblocked (σ n) -> unblocked (σ k).
Proof.
  intros Hle Hc Hu. unfold unblocked in *. rewrite Hc. destruct (prun (σ n)) as [| | | | | | | | |s x []| |]; try done.
  - by eapply lifetime_done.
  - eapply expired_later; [by apply lifetime_elapsed|done].
Qed.

(** While it is not blocked [run] comes forward. *)
Lemma comes_forward n :
  running (σ n) = true -> unblocked (σ n) -> exists k, (n <= k)%nat /\ (todo (σ k) < todo (σ n))%nat.
Proof.
  intros Hrun Hu. destruct (Hfair (helper_of (σ n)) n) as (k & Hk & Hcase).
  { apply helper_can; try done. apply lifetime_reachable. }
  destruct (forward n k Hk) as [?|[Hc Hs]]; [by exists k|].
  pose proof (helper_same n k Hc Hs) as Hh. rewrite <- Hh in Hcase. destruct Hcase as [Ht|Hno].
  - apply helper_helps in Ht; [|apply lifetime_reachable..|done].
    exists (S k). split; [lia|]. unfold todo in *. rewrite Hc, Hs in Ht. lia.
  - destruct Hno. apply helper_can; [apply lifetime_reachable| |by eapply unblocked_later].
    unfold running in *. by rewrite Hc.
Qed.

Context (Htime : time_passes σ).

Lemma run_ends d n :
  (todo (σ n) <= d)%nat -> done (σ n) = true -> exists k x, (n <= k)%nat /\ prun (σ k) = Exited x.
Proof.
  revert n. induction d as [d IH] using lt_wf_ind. intros n Hd Hdone.
  assert (forall k, (n <= k)%nat -> (todo (σ k) < todo (σ n))%nat ->
    exists k x, (n <= k)%nat /\ prun (σ k) = Exited x) as Hlater.
  { intros k Hk Hlt. destruct (IH (todo (σ k)) ltac:(lia) k) as (k' & x & ? & ?); [done|by eapply lifetime_done|].
    exists k', x. split; [lia|done]. }
  assert (forall k, (n <= k)%nat -> prun (σ k) = prun (σ n) -> stage (σ k) = stage (σ n) ->
    running (σ k) = true -> unblocked (σ k) -> exists k x, (n <= k)%nat /\ prun (σ k) = Exited x) as Hgo.
  { intros k Hk Hc Hs Hrun Hu. destruct (comes_forward k Hrun Hu) as (k' & Hk' & Hlt).
    apply (Hlater k'); [lia|]. unfold todo in *. by rewrite <- Hc, <- Hs. }
  destruct (prun (σ n)) as [| | | | | | | | |s x []|x|] eqn:Hc;
    try (apply (Hgo n); unfold running, unblocked; by rewrite ?Hc).
  - (* the deadline *)
    pose proof (shut cfg bk (σ n) (lifetime_reachable n)) as Hsh.
    destruct (sh_ctx _ Hsh x) as (_ & t & -> & _); [by rewrite Hc|].
    destruct (Htime n (t + 10 * second)) as (k & Hk & Hcase).
    destruct (forward n k Hk) as [?|[Hc' Hs]]; [by eapply Hlater|]. rewrite Hc in Hc'.
    assert (running (σ k) = true) as Hrun by (unfold running; by rewrite Hc').
    destruct Hcase as [Hle|Hno]; [|by rewrite Hrun in Hno].
    apply (Hgo k); try done. unfold unblocked. rewrite Hc'. by eexists.
  - by exists n, x.
  - pose proof (so_panic cfg (σ n) (started cfg bk _ (lifetime_reachable n)) Hc). lia.
Qed.
End run.

(** C13. The program ends: in every fair run in which time passes, with a reaping interval that
    is positive, [run] returns once the context of the process is done, wherever it is then,
    whatever the clients do and however many connections stay open. *)
Theorem program_ends (σ : nat -> program) (n : nat) :
  lifetime σ -> fair_lifetime σ -> time_passes σ -> 0 < Config.IdleCheckInterval cfg ->
  done (σ n) = true -> exists k x, (n <= k)%nat /\ prun (σ k) = Exited x.
Proof. intros Hl Hf Ht Hi Hd. by eapply (run_ends σ Hl Hf Hi Ht (todo (σ n)) n). Qed.
End live.

(** ** A run that ends is fair *)

(** The states of a played run, the last one for ever. *)
Definition lifetime_of (cfg : Config.Config) (ls : list label) (n : nat) : program :=
  end_of cfg (take n ls).

Definition played_ok (cfg : Config.Config) (ls : list label) : bool :=
  match played cfg ls with Some _ => true | None => false end.

Lemma prun_all_app cfg bk ls1 ls2 p :
  prun_all cfg bk (ls1 ++ ls2) p = (p' ← prun_all cfg bk ls1 p; prun_all cfg bk ls2 p').
Proof.
  revert p. induction ls1 as [|l ls1 IH]; intros p; simpl; [done|].
  destruct (pstep cfg bk l p) as [p1|]; simpl; [apply IH|done].
Qed.

Lemma played_take cfg ls n : is_Some (played cfg ls) -> is_Some (played cfg (take n ls)).
Proof.
  unfold played. rewrite <- (take_drop n ls) at 1. rewrite prun_all_app. intros [p Hp].
  destruct (prun_all cfg demo_backend (take n ls) (launch 0 None)); [by eexists|done].
Qed.

Lemma lifetime_played cfg ls :
  Forall label_ok ls -> played_ok cfg ls = true -> lifetime cfg demo_backend (lifetime_of cfg ls).
Proof.
  unfold played_ok. intros Hok Hp. assert (is_Some (played cfg ls)) as Hall.
  { destruct (played cfg ls); [by eexists|done]. }
  split.
  - exists 0, None. unfold lifetime_of. rewrite take_0. apply rtc_refl.
  - intros n. unfold lifetime_of. destruct (ls !! n) as [l|] eqn:Hl.
    + right. exists l. split; [by eapply Forall_lookup_1|].
      destruct (played_take cfg ls n Hall) as [p1 H1], (played_take cfg ls (S n) Hall) as [p2 H2].
      unfold end_of. rewrite H1, H2. simpl. rewrite (take_S_r _ _ _ Hl) in H2. unfold played in *.
      rewrite prun_all_app, H1 in H2. simpl in H2. by destruct (pstep cfg demo_backend l p1).
    + left. apply lookup_ge_None in Hl. by rewrite !take_ge by lia.
Qed.

Lemma ended_lifetime cfg ls :
  running (end_of cfg ls) = false ->
  fair_lifetime cfg demo_backend (lifetime_of cfg ls) /\ time_passes (lifetime_of cfg ls).
Proof.
  intros Hend. assert (forall n, lifetime_of cfg ls (n + length ls) = end_of cfg ls) as Hlast.
  { intros n. unfold lifetime_of. by rewrite take_ge by lia. }
  split.
  - intros r n _. exists (n + length ls)%nat. split; [lia|right]. rewrite Hlast.
    intros (p' & l & _ & _ & [Hrun _]%pstep_act). by rewrite Hend in Hrun.
  - intros n t. exists (n + length ls)%nat. split; [lia|right]. by rewrite Hlast.
Qed.

(** The run of the request that holds the shutdown up, from the signal on. *)
Lemma program_ends_witness :
  exists k x, (length (clients_run ++ [LSignal]) <= k)%nat /\
    prun (lifetime_of demo_cfg late_run k) = Exited x.
Proof.
  assert (Forall label_ok late_run) as Hok by (repeat constructor).
  destruct (ended_lifetime demo_cfg late_run) as [Hfair Htime]; [vm_compute; reflexivity|].
  apply (program_ends demo_cfg demo_backend (lifetime_of demo_cfg late_run));
    [apply lifetime_played; [exact Hok|vm_compute; reflexivity]|exact Hfair|exact Htime
    |vm_compute; reflexivity|vm_compute; reflexivity].
Defined.
