(* ===== verification/Tests.v ===== *)
(** * The repository's unit tests, evaluated on the model

    One Example for each test of [src/internal/*/*_test.go] whose assertions are about what is
    modelled, under the test's name: the test's fakes and servers are environments, its
    checks equations that the definitions evaluate to.  Left out are the tests of the
    Prometheus exposition, which is third-party code; [TestClaimDiagnosticIsAtomic] is
    [IdentifyFacts.diagnosed_once], for any number of goroutines. *)

From S2P Require Import Prelude GoStd Effects Backend.
From S2P Require Config Identify IdentifyFacts Metrics Kube SandboxClaim KarsSandbox AteApi Substrate SubstrateFacts.
From S2P Require Session SessionSys SessionSched SessionClient Proxy ProxyFacts ProxyProps Tunnel TunnelProps.
Local Open Scope Z_scope.

Definition refused {A} (r : result error A) : bool := negb (is_ok r).

(** ** [internal/backend/backend_test.go] *)

Example TestEndpointAddr : Addr (mkEndpoint "10.0.0.1" "" 9222 9223) = "10.0.0.1:9222".
Proof. vm_compute. reflexivity. Qed.

Example TestEndpointMCPAddr :
  MCPAddr (mkEndpoint "10.0.0.1" "" 9222 9223) = "10.0.0.1:9223" /\
  MCPAddr (mkEndpoint "10.0.0.1" "" 9222 0) = "10.0.0.1:9222".
Proof. vm_compute. split; reflexivity. Qed.

(** ** [internal/config/config_test.go] *)

Definition substrate_env (hosts : string) : Config.environ :=
  Config.setenv [("POD_NAMESPACE", "test"); ("BACKEND", "substrate");
    ("SUBSTRATE_ACTOR_TEMPLATE", "test/browser"); ("SUBSTRATE_ALLOWED_HTTP_HOSTS", hosts)].

Example TestSubstrateHTTPHosts :
  match Config.FromEnv (substrate_env "fixture.test, second.test") with
  | Ok c => Config.SubstrateAllowedHTTPHosts c = ["fixture.test"; "second.test"]
  | Err _ => False
  end /\
  forallb (fun invalid => refused (Config.FromEnv (substrate_env invalid)))
    ["http://fixture.test"; "fixture.test:80"; "fixture.test,"; "bad host"] = true.
Proof. vm_compute. split; reflexivity. Qed.

Example TestParsePort :
  Config.parsePort "PORT" "9222" false = Ok 9222 /\
  Config.parsePort "PORT" "1" false = Ok 1 /\
  Config.parsePort "PORT" "65535" false = Ok 65535 /\
  refused (Config.parsePort "PORT" "0" false) = true /\
  Config.parsePort "PORT" "0" true = Ok 0 /\
  refused (Config.parsePort "PORT" "-1" false) = true /\
  refused (Config.parsePort "PORT" "65536" false) = true /\
  refused (Config.parsePort "PORT" "abc" false) = true.
Proof. vm_compute. repeat split. Qed.

(** ** [internal/identify/identify_test.go] *)

Section identify.
Import Identify.

Definition empty_index : world := mkWorld (New 0 None) 0 0.
Definition alone : nat -> Index -> Index := fun _ i => i.
Definition claim (ip : string) : IO world bool := claimDiagnostic alone ip.

(** [time.Now().Add(-time.Second)] as the expiry of a claim. *)
Definition expire (ip : string) : IO world unit :=
  crit alone (fun i => (tt, set_diagnosed (<[ip := clock i - second]> (diagnosedIPs i)) i)).

Example TestClaimDiagnosticSuppressesUntilExpiry :
  ((let* first := claim "10.0.0.1" in
   let* duplicate := claim "10.0.0.1" in
   expire "10.0.0.1" ;;
   let* expired := claim "10.0.0.1" in
   io_ret (first, duplicate, expired)) empty_index).1 = (true, false, true).
Proof. vm_compute. reflexivity. Qed.

Example TestReleaseDiagnosticAllowsRetry :
  ((let* first := claim "10.0.0.3" in
    releaseDiagnostic alone "10.0.0.3" ;;
    let* released := claim "10.0.0.3" in
    io_ret (first, released)) empty_index).1 = (true, true).
Proof. vm_compute. reflexivity. Qed.
End identify.

(** ** [internal/backend/sandboxclaim_test.go] *)

Section claims.
Import Kube SandboxClaim.

Definition claims_keyed (labelKey : string) : SandboxClaim := NewSandboxClaim "ns" "" "wp" 0 0 labelKey.

Example TestPodMetadataLabelKey :
  podMetadataLabelKey (claims_keyed "playwright-id") = podUserLabelDomain +:+ "playwright-id" /\
  podMetadataLabelKey (claims_keyed "example.com/playwright-id") = "example.com/playwright-id".
Proof. vm_compute. split; reflexivity. Qed.

Example TestBuildClaimLabelKeys :
  let claim := buildClaim (claims_keyed "playwright-id") "pw-alpha" "alpha" in
  let pods := ["spec"; "additionalPodMetadata"; "labels"] in
  at_path claim ["metadata"; "labels"; "playwright-id"] = Some (JString "alpha") /\
  at_path claim (pods ++ [podUserLabelDomain +:+ "playwright-id"]) = Some (JString "alpha") /\
  at_path claim (pods ++ ["playwright-id"]) = None.
Proof. vm_compute. repeat split. Qed.
End claims.

(** ** [internal/backend/karssandbox_test.go] *)

Section kars.
Import Kube KarsSandbox.

Definition kars : KarsSandboxBackend := NewKarsSandbox "agents" "" "" 9222 "".

(** A client whose policies are those created before, as [amend] leaves them, and whose
    pods are [pods]. *)
Definition created_policy (e : event call) : option NetworkPolicySpec :=
  match ev_call e with KPolicyCreate _ _ p => Some (policySpec p) | _ => None end.
Definition kube_client (amend : NetworkPolicySpec -> NetworkPolicySpec) (pods : list KPod)
  : environment call := fun A e h =>
  match e in call A return A with
  | KPolicyCreate _ _ p =>
      match omap created_policy h with [] => Ok (policySpec p) | _ => Err (StatusError 409 "exists") end
  | KPolicyGet _ _ _ =>
      match omap created_policy h with
      | spec :: _ => Ok (amend spec)
      | [] => Err (StatusError 404 "not found")
      end
  | KPods _ _ _ => Ok pods
  | KDelete _ _ _ _ => None
  | KGet _ _ _ _ | KCreate _ _ _ _ => Err (StatusError 404 "not found")
  | KList _ _ _ _ => Ok []
  end.

(** Two calls, of which the second finds the policy. *)
Definition ingress_twice (amend : NetworkPolicySpec -> NetworkPolicySpec) :=
  (let* first := ensureProxyIngress (kube_client amend []) kars Background "kars-pw-alpha" "pw-alpha" in
   let* again := ensureProxyIngress (kube_client amend []) kars Background "kars-pw-alpha" "pw-alpha" in
   io_ret (first, again)) [].

Definition on_port_8443 (s : NetworkPolicySpec) : NetworkPolicySpec :=
  mkPolicySpec (PodSelector s)
    (map (fun r => mkRule (Peers r) [mkPolicyPort (Some "TCP") (Some (IntVal 8443)) None]) (Ingress s))
    (Egress s) (PolicyTypes s).

Example TestKarsProxyIngress :
  (ingress_twice id).1 = (None, None) /\
  (exists peer ports, omap created_policy (take 1 (ingress_twice id).2) =
     [mkPolicySpec (matching "kars.azure.com/sandbox" "pw-alpha") [mkRule [peer] ports] [] ["Ingress"]] /\
   PeerNamespaces peer = Some (matching "kubernetes.io/metadata.name" "agents") /\
   PeerPods peer = Some (matching "app.kubernetes.io/name" "playwright-proxy") /\
   PolicyPort <$> head ports = Some (Some (IntVal 9222))) /\
  (ingress_twice on_port_8443).1.1 = None /\ (ingress_twice on_port_8443).1.2 <> None.
Proof.
  split; [vm_compute; reflexivity|]. split; [|split; [vm_compute; reflexivity|vm_compute; discriminate]].
  eexists _, _. split; [vm_compute; reflexivity|]. split; [reflexivity|]. split; reflexivity.
Qed.

Definition running_pod (ip : string) (conditions : list (string * string)) : KPod :=
  mkKPod None "Running" ip conditions.

Example TestKarsRequiresReadyPod :
  (@waitForPodIP (sample_poller _)
     (kube_client id [running_pod "10.0.0.2" []; running_pod "10.0.0.3" [("Ready", "True")]])
     Background "sandbox" []).1 = Ok "10.0.0.3".
Proof. vm_compute. reflexivity. Qed.
End kars.

(** ** [internal/backend/substrate_test.go] *)

Section substrate.
Import AteApi Substrate.

(** The routing and the policy of the tests. *)
Definition browser (hosts : list string) : Substrate := mkSubstrate "test" "browser" "router" 8080 hosts.

(** A control plane, by how it answers each method; the rest of the world is that of
    [SubstrateFacts.sample_api], with probes answered by [probe]. *)
Definition control_stub (stub : forall R, rpc R -> history call -> option (result error R))
    (probe : Header -> result error Z) : environment call := fun A e h =>
  match e in call A return A -> A with
  | Invoke R _ _ m => fun r => default r (stub R m h)
  | Do _ _ _ _ hd => fun _ => probe hd
  | _ => fun r => r
  end (SubstrateFacts.sample_api [] (fun _ => EmptyString) A e h).

Definition is_get_actor (e : event call) : bool :=
  match ev_call e with Invoke _ _ _ (Control_GetActor _) => true | _ => false end.
Definition is_resume (e : event call) : bool :=
  match ev_call e with Invoke _ _ _ (Control_ResumeActor _) => true | _ => false end.
Definition count_calls (f : event call -> bool) (h : history call) : nat := length (filter f h).

(** The actor of the test, suspended until it is resumed; the first GetActor misses it and
    the creation races with another. *)
Definition test_actor (h : history call) : Actor :=
  mkActor None (Some (mkObjectRef "test" "browser"))
    (Some (mkActorStatus (if existsb is_resume h then ACTOR_STATE_RUNNING else ACTOR_STATE_SUSPENDED)
             None "" 0)).
Definition racing_create (R : Type) (m : rpc R) (h : history call) : option (result error R) :=
  match m in rpc R return option (result error R) with
  | Control_GetActor r =>
      Some (if negb (bool_decide (ObjectRef_GetAtespace (get_Actor r) = "test" /\
                                  ObjectRef_GetName (get_Actor r) = "pw-alpha"))
            then Err (GrpcError (CodeOther 3) "wrong actor ref")
            else if existsb is_get_actor h then Ok (test_actor h)
            else Err (GrpcError CodeNotFound "missing"))
  | Control_CreateActor _ => Some (Err (GrpcError CodeAlreadyExists "racing create"))
  | Control_ResumeActor _ => Some (Ok (mkResumeActorResponse None false))
  | _ => None
  end.
Definition readiness_probe (hd : Header) : result error Z :=
  if bool_decide (Header_Get hd "ate-target-actor" = "test/pw-alpha") then Ok 200 else Ok 400.

Example TestSubstrateEnsureV050 :
  let run := Ensure (fun _ => EmptyString) (control_stub racing_create readiness_probe) (browser []) 302
               Background "alpha" [] in
  run.1 = Some (Ok (mkEndpoint "router" "test/pw-alpha" 8080 0)) /\
  count_calls is_resume run.2 = 1%nat /\ count_calls is_get_actor run.2 = 3%nat.
Proof. vm_compute. repeat split. Qed.

(** The policy saved by the last creation, as [amend] leaves it; creations race. *)
Definition saved_policy (e : event call) : option EgressPolicy :=
  match ev_call e with
  | Invoke _ _ _ (Control_CreateActorEgressPolicy r) => createpolicy_EgressPolicy r
  | _ => None
  end.
Definition policy_stub (amend : EgressPolicy -> EgressPolicy) (R : Type) (m : rpc R) (h : history call)
  : option (result error R) :=
  match m in rpc R return option (result error R) with
  | Control_GetActorEgressPolicy r =>
      Some (match last (omap saved_policy h) with
            | Some p => Ok (amend p)
            | None => Err (GrpcError CodeNotFound "missing")
            end)
  | Control_CreateActorEgressPolicy _ => Some (Err (GrpcError CodeAlreadyExists "racing create"))
  | _ => None
  end.
Definition denied (R : Type) (m : rpc R) (h : history call) : option (result error R) :=
  Some (Err (GrpcError (CodeOther 7) "denied")).
Definition only_host (host : string) (p : EgressPolicy) : EgressPolicy :=
  mkEgressPolicy (policy_Metadata p)
    [mkEgressRule (Some (mkHttpRule [host] (Some (mkPorts None [80] EmptyString)) None EmptyString))
       None None EmptyString].

Definition egress_checked stub hosts : option error * history call :=
  ensureEgressPolicy (control_stub stub (fun _ => Ok 200)) (browser hosts) Background "pw-alpha" [].

Example TestSubstrateEgressPolicy :
  egress_checked denied [] = (None, []) /\
  (egress_checked (policy_stub id) ["fixture.test"]).1 = None /\
  (omap saved_policy (egress_checked (policy_stub id) ["fixture.test"]).2
     ≫= fun p => rule_Http <$> policy_Rules p) =
    [Some (mkHttpRule ["fixture.test"] (Some (mkPorts None [80] EmptyString)) None EmptyString)] /\
  (egress_checked (policy_stub (only_host "different.test")) ["fixture.test"]).1 <> None /\
  Code_of <$> (egress_checked denied ["fixture.test"]).1 = Some (CodeOther 7).
Proof. split_and!; first [vm_compute; reflexivity|vm_compute; discriminate]. Qed.

(** Two pages, of which the second also lists an actor of another template. *)
Definition two_pages (R : Type) (m : rpc R) (h : history call) : option (result error R) :=
  match m in rpc R return option (result error R) with
  | Control_ListActors r =>
      Some (if bool_decide (list_Atespace r = "test")
            then if bool_decide ((list_PageToken <$> list_Options r) = Some "next")
                 then Ok (mkListActorsResponse
                        [mkActor (Some (mkResourceMetadata EmptyString "pw-alpha" EmptyString 0))
                           (Some (mkObjectRef "test" "browser")) None;
                         mkActor (Some (mkResourceMetadata EmptyString "pw-other" EmptyString 0))
                           (Some (mkObjectRef "elsewhere" "browser")) None] EmptyString)
                 else Ok (mkListActorsResponse [] "next")
            else Err (GrpcError (CodeOther 3) "unscoped list"))
  | _ => None
  end.

Example TestSubstrateListPagination :
  let run := List (control_stub two_pages (fun _ => Ok 200)) (browser []) 2 Background [] in
  run.1 = Some (Ok ["alpha"]) /\ length run.2 = 2%nat.
Proof. vm_compute. split; reflexivity. Qed.

Definition in_state (st : ActorState) : Actor := mkActor None None (Some (mkActorStatus st None "" 0)).
Definition cancelled_wait : environment call := fun A e h =>
  match e in call A return A -> A with
  | WaitAfter _ _ => fun _ => Some ContextCanceled
  | _ => fun a => a
  end (control_stub (fun _ _ _ => None) (fun _ => Ok 200) A e h).

Example TestSubstrateTerminalStateAndCancellation :
  match (waitForRunning (fun _ => EmptyString) cancelled_wait (browser []) 302 Background "pw-alpha"
           (in_state ACTOR_STATE_CRASHED) []).1 with Some (_, Some _) => True | _ => False end /\
  snd <$> (waitForRunning (fun _ => EmptyString) cancelled_wait (browser []) 302 Background "pw-alpha"
             (mkActor None None None) []).1 = Some (Some ContextCanceled) /\
  refused (NewSubstrateWithOptions cancelled_wait "unused" "router:80" "test/browser" true [] []).1 = true.
Proof. vm_compute. repeat split. Qed.

(** A token file, or none. *)
Definition token_file (content : result error string) : environment call := fun A e h =>
  match e in call A return A -> A with
  | ReadFile _ => fun _ => content
  | Getenv _ => fun _ => "/tmp/missing"
  | Stat _ => fun _ => match content with Ok _ => None | Err e => Some (true, e) end
  | _ => fun a => a
  end (cancelled_wait A e h).
Definition newline : string := String "010" EmptyString.
Definition no_file : error := NewError "no such file or directory".

Example TestServiceAccountTokenRotation :
  (GetRequestMetadata (token_file (Ok ("first" +:+ newline))) "token" []).1 =
    Ok [("authorization", "Bearer first")] /\
  (GetRequestMetadata (token_file (Ok ("rotated" +:+ newline))) "token" []).1 =
    Ok [("authorization", "Bearer rotated")] /\
  refused (GetRequestMetadata (token_file (Ok newline)) "token" []).1 = true /\
  refused (GetRequestMetadata (token_file (Err no_file)) "token" []).1 = true /\
  RequireTransportSecurity = true.
Proof. vm_compute. repeat split. Qed.

Example TestSubstrateExplicitMissingToken :
  refused (NewSubstrate (token_file (Err no_file)) "api:443" "router:80" "test/browser" []).1 = true.
Proof. vm_compute. reflexivity. Qed.
End substrate.

(** ** [internal/session/session_test.go] *)

Section session.
Import Session SessionSys SessionSched SessionClient.

Definition on_pod (host : string) : Endpoint := mkEndpoint host "" 9222 0.

(** The results of the calls, with the host of the session a client was given. *)
Definition results (cs : list choice) : option (list outcome) :=
  (fun s => omap (fun g : goroutine => match g with Ret o => Some o | _ => None end) (pool s)) <$> final cs.
Definition host_of (cs : list choice) (p : loc) : option string :=
  final cs ≫= fun s => Host <$> endpoint_at (sst s) p.
Definition ensures (cs : list choice) : option (list bcall) := calls ∘ sst <$> final cs.

(** A Get by goroutine [i] that finds its session resolved. *)
Definition get_again (i : nat) (id : string) : list choice :=
  [CallGet Background id; Run i ANone; Run i (ASel SelReady); Run i ANone].
Definition get_first : list choice := get_run 0 "a" (Ok (on_pod "10.0.0.1")).

(** A Refresh of session [p] by goroutine [i] that drops it and ensures the id again. *)
Definition refresh_run (i : nat) (p : loc) (r : result error Endpoint) : list choice :=
  [CallRefresh Background p; Run i ANone; Run i ANone] ++ resolve_run (S i) r ++
  [Run i (ASel SelReady); Run i ANone; Run i ANone].
Definition get_refresh : list choice := get_first ++ refresh_run 2 0 (Ok (on_pod "10.0.0.2")).

Example TestGetCreatesAndReusesSession :
  results (get_first ++ get_again 2 "a") = Some [OGet "a" (Ok 0%nat); OUnit; OGet "a" (Ok 0%nat)] /\
  host_of (get_first ++ get_again 2 "a") 0 = Some "10.0.0.1".
Proof. vm_compute. split; reflexivity. Qed.

Example TestRefreshReResolvesStaleEndpoint :
  results (get_refresh ++ get_again 4 "a") =
    Some [OGet "a" (Ok 0%nat); OUnit; ORefresh 0 (Ok 1%nat); OUnit; OGet "a" (Ok 1%nat)] /\
  host_of get_refresh 0 = Some "10.0.0.1" /\ host_of get_refresh 1 = Some "10.0.0.2".
Proof. vm_compute. repeat split. Qed.

(** The second Refresh of the same session makes no call. *)
Definition refresh_again : list choice := [CallRefresh Background 0; Run 4 ANone].

Example TestRefreshOnAlreadyReplacedSessionIsNoop :
  results (get_refresh ++ refresh_again) =
    Some [OGet "a" (Ok 0%nat); OUnit; ORefresh 0 (Ok 1%nat); OUnit; ORefresh 0 (Ok 1%nat)] /\
  ensures (get_refresh ++ refresh_again) = ensures get_refresh.
Proof. vm_compute. split; reflexivity. Qed.

Definition sandbox_gone : error := NewError "sandbox gone".

Example TestRefreshPropagatesEnsureFailure :
  results (get_first ++ refresh_run 2 0 (Err sandbox_gone) ++ [Run 2 ANone]) =
    Some [OGet "a" (Ok 0%nat); OUnit; ORefresh 0 (Err sandbox_gone); OUnit].
Proof. vm_compute. reflexivity. Qed.
End session.

(** ** [internal/proxy/proxy_routing_test.go], [proxy_ws_test.go], [proxy_retry_test.go] *)

Section proxy.
Import Proxy.

(** The world of [ProxyProps.answers] around a backend that answers an upgrade with
    [upgraded] and a request with [replied]; its session, and it after a Refresh, have the
    endpoints [eps]; only [up] can be dialled. *)
Definition serving (eps : Endpoint * Endpoint) (up : Endpoint) (upgraded replied : Response)
  : environment call := fun A e h =>
  match e in call A return A -> A with
  | Sess_Endpoint p => fun _ => if decide (p = 0%nat) then eps.1 else eps.2
  | Conn_ReadResponse _ => fun _ => Ok upgraded
  | Dial _ addr => fun c => if decide (addr = Addr up) then c else Err ProxyProps.dial_failed
  | Transport r => fun _ =>
      ([], if decide (URL_Host r = MCPAddr up) then Ok replied else Err ProxyProps.dial_failed, 1%nat)
  | _ => fun a => a
  end (ProxyProps.answers (fst eps) (fun _ => ([], Ok replied)) true A e h).

Definition with_status (code : Z) : Response := mkResponse code EmptyString ∅.
Definition get (h : Header) : Request :=
  mkRequest "GET" "" "" "/" "proxy" "/" h NilBody 0 None "10.0.0.1:5000" Background None.
Definition attacker : Header := Header_Set ∅ "ate-target-actor" "attacker/pw-victim".
Definition upgrade_of (h : Header) : Header :=
  Header_Set (Header_Set h "Connection" "Upgrade") "Upgrade" "websocket".
Definition actors_sent (l : history call) : list string :=
  (fun r => Header_Get (Hdr r) "ate-target-actor") <$> omap ProxyFacts.sent l.

Definition routed_http (actor : string) : list string :=
  let ep := mkEndpoint "127.0.0.1" actor 8000 0 in
  actors_sent (handleHTTP (serving (ep, ep) ep (with_status 418) (with_status 418)) (get attacker) 0%nat []).2.
Definition routed_ws (actor : string) : list string :=
  let ep := mkEndpoint "127.0.0.1" actor 8000 0 in
  actors_sent (handleWS (serving (ep, ep) ep (with_status 418) (with_status 418))
                 (get (upgrade_of attacker)) 0%nat []).2.

Example TestTrustedActorRouting :
  routed_http "" = [""] /\ routed_http "trusted/pw-alpha" = ["trusted/pw-alpha"] /\
  routed_ws "" = [""] /\ routed_ws "trusted/pw-alpha" = ["trusted/pw-alpha"].
Proof. vm_compute. repeat split. Qed.

(** What the metrics were told, and the status the client was given. *)
Definition counted (l : history call) : list Metrics.call :=
  omap (fun e : event call => match ev_call e with Count c => Some c | _ => None end) l.
Definition statuses (l : history call) : list Z :=
  omap (fun e : event call => match ev_call e with
     | W_WriteHeader c | W_Error _ c => Some c | _ => None end) l.
Definition only_ep : Endpoint := mkEndpoint "127.0.0.1" "" 8000 0.
Definition ws_run (upgraded : Response) : history call :=
  (handleWS (serving (only_ep, only_ep) only_ep upgraded (with_status 200)) (get (upgrade_of ∅)) 0%nat []).2.

Example TestHandleWSRejectedUpgrade :
  let l := ws_run (with_status 400) in
  statuses l = [400] /\ counted l = [Metrics.CCountRequest "ws" "400"].
Proof. vm_compute. split; reflexivity. Qed.

(** The tunnel of the accepted upgrade: a payload each way, then the client closes. *)
Definition ping_pong : list Tunnel.label :=
  let c2b := Tunnel.Copying Tunnel.C2B in
  let b2c := Tunnel.Copying Tunnel.B2C in
  [c2b (Tunnel.Received (to_chars "PING!") None); c2b (Tunnel.Sent 5 None);
   b2c (Tunnel.Received (to_chars "PONG!") None); b2c (Tunnel.Sent 5 None);
   c2b (Tunnel.Received [] (Some Tunnel.EOF)); c2b Tunnel.Tau; c2b Tunnel.Tau;
   Tunnel.Handling; Tunnel.Handling; Tunnel.Handling;
   b2c Tunnel.Tau; b2c Tunnel.Tau; b2c Tunnel.Tau; Tunnel.Handling; Tunnel.Handling].
Definition spliced : Tunnel.splice :=
  default (Tunnel.start [] []) (Tunnel.trun ping_pong (Tunnel.start [] [])).
Definition accepted_run : history call :=
  (handleWS (TunnelProps.replay
     (serving (only_ep, only_ep) only_ep (with_status 101) (with_status 200)) 8%nat 7%nat spliced)
     (get (upgrade_of ∅)) 0%nat []).2.

Example TestHandleWSAcceptedUpgrade :
  Tunnel.handler spliced = Tunnel.Finished 5 5 /\
  Tunnel.c_wire (Tunnel.t_b2c spliced) = to_chars "PONG!" /\
  counted accepted_run =
    [Metrics.CCountRequest "ws" "101"; Metrics.CConnOpened; Metrics.CConnClosed "ws" 0;
     Metrics.CAddBytes "c2b" 5; Metrics.CAddBytes "b2c" 5] /\
  Metrics.active_conns_value
    (default [] (Metrics.ops <$> Metrics.run_calls (counted accepted_run) (Some (Metrics.New "test" "t" "c")))) = 0.
Proof. vm_compute. repeat split. Qed.

(** *** Retries: the session's endpoint refuses connections, the refreshed one serves *)

Definition dead_ep : Endpoint := mkEndpoint "127.0.0.1" "stale/pw-alpha" 1 0.
Definition fresh_ep : Endpoint := mkEndpoint "127.0.0.1" "trusted/pw-alpha" 8000 0.
Definition recreated : environment call :=
  serving (dead_ep, fresh_ep) fresh_ep (with_status 101) (with_status 200).
Definition refreshes (l : history call) : nat := length (omap ProxyFacts.refreshed l).

Example TestHandleWSRetriesOnDialFailure :
  let l := (handleWS recreated (get (upgrade_of ∅)) 0%nat []).2 in
  refreshes l = 1%nat /\ actors_sent l = ["trusted/pw-alpha"] /\
  take 2 (counted l) = [Metrics.CBackendDialFailure; Metrics.CCountRequest "ws" "101"].
Proof. vm_compute. repeat split. Qed.

Definition json_post : Request :=
  mkRequest "POST" "" "" "/" "proxy" "/" attacker (Reader (to_chars "{hello:world}") None) 13 None
    "10.0.0.1:5000" Background None.

Example TestHandleHTTPRetriesOnDialFailure :
  let l := (handleHTTP recreated json_post 0%nat []).2 in
  refreshes l = 1%nat /\ statuses l = [200] /\
  actors_sent l = ["stale/pw-alpha"; "trusted/pw-alpha"] /\
  (Body <$> omap ProxyFacts.sent l) =
    [Reader (to_chars "{hello:world}") None; Reader (to_chars "{hello:world}") None].
Proof. vm_compute. repeat split. Qed.

Example TestHandleHTTPDoesNotRetryOnAppLevelError :
  let l := (handleHTTP (serving (only_ep, only_ep) only_ep (with_status 101) (with_status 500))
              (get ∅) 0%nat []).2 in
  refreshes l = 0%nat /\ statuses l = [500] /\ length (omap ProxyFacts.sent l) = 1%nat.
Proof. vm_compute. repeat split. Qed.
End proxy.

(** ** [internal/metrics/metrics_test.go] *)

Section metrics.
Import Metrics.

(** The value of a counter. *)
Definition counter (c : collector) (lvs : list string) (m : option Metrics) : Z :=
  foldr (fun op n => match op with
    | Inc c' l => if decide (c' = c /\ l = lvs) then 1 + n else n
    | Add c' l k => if decide (c' = c /\ l = lvs) then k + n else n
    | _ => n
    end) 0 (default [] (ops <$> m)).

Example TestNilMetricsAreNoops :
  Registry (RegisterRegisteredPods (RegisterSessionsActive (run_calls
    [CSessionCreated "isola" OutcomeSuccess; CSessionReaped "idle";
     CObserveEnsure "isola" OutcomeSuccess 1500000000; CEnsureFailed "isola";
     CObserveLifetime "isola" (100 * second); CObserveIdle minute; CConnOpened; CConnClosed "ws" (30 * second);
     CRecordRequest "http" "200" 200000000; CAddBytes DirClientToBackend 1024; CLookup LookupCacheHit;
     CUnknownClient; CBackendDialFailure; CProxyError "upstream"; CBackendDeleteFailure] None))) = None.
Proof. vm_compute. reflexivity. Qed.

Example TestCountersRecord :
  let m := run_calls
    [CSessionCreated "isola" OutcomeSuccess; CSessionCreated "isola" OutcomeSuccess;
     CSessionCreated "isola" OutcomeFailure; CSessionReaped "idle"; CUnknownClient; CLookup LookupCacheHit;
     CAddBytes DirClientToBackend 500; CAddBytes DirClientToBackend 500] (Some (New "isola" "test" "abc123")) in
  counter sessionsCreated ["isola"; OutcomeSuccess] m = 2 /\
  counter sessionsCreated ["isola"; OutcomeFailure] m = 1 /\
  counter unknownClients [] m = 1 /\ counter bytes [DirClientToBackend] m = 1000.
Proof. vm_compute. repeat split. Qed.
End metrics.
